(* ===== verification/_CoqProject ===== *)
-Q . S2P
Prelude.v
GoFloat.v
FloatExact.v
Player.v
Object.v
ObjectFacts.v
Spatial.v
SpatialFacts.v
Delta.v
DeltaFacts.v
Cluster.v
ClusterFacts.v
Room.v
RoomFacts.v
RoomSystem.v
RoomTheorems.v
RoomBroadcast.v
RoomClients.v
RoomWitness.v
RoomManager.v
RoomManagerFacts.v
ManagerSystem.v
ManagerTheorems.v
Session.v
SessionFacts.v
Protocol.v
ProtocolFacts.v
ProtocolExample.v
Handler.v
HandlerFacts.v
Bridge.v
BridgeFacts.v
RoomTyped.v
EndToEnd.v
EndToEndWitness.v
Transport.v
TransportFacts.v
TransportTheorems.v
TransportStop.v
TransportBridge.v
TransportWitness.v
Deployment.v
DeploymentTheorems.v
DeploymentWitness.v
Inbound.v
InboundWitness.v
Wiring.v
LoadTest.v
Config.v
ConfigFacts.v
Gateway.v
GatewayFacts.v
Observability.v
HTTPServers.v
GameServer.v
