(* ===== verification/Prelude.v ===== *)
(** * Realtime room middleware: a verification development

    ** The program

    A game server keeps rooms in which players move.  Clients reach it over KCP
    or WebSocket; a packet is decoded, turned into a command and queued for the
    room of the client's session.  Each room is a goroutine that drains its
    queue at a fixed tick rate, and at a lower rate sends every client the
    difference between what it sees and what it was last told.  A gateway
    tells clients which room instance and which address to use.  The parts and
    the files that model them:

    - machine integers, map iteration order, error returns and shared lemmas:
      [Prelude]; IEEE floats with Go's conversions: [GoFloat], and when their
      rounding is exact: [FloatExact];
    - [internal/game/player]: [Player] (records, updates, validation);
    - [internal/game/object]: [Object], [ObjectFacts] (objects, locks with
      leases and quotas);
    - [internal/game/spatial], [internal/game/interest]: [Spatial],
      [SpatialFacts] (hash grid, radius and visibility queries);
    - [internal/game/delta]: [Delta], [DeltaFacts] (per-client snapshots and
      deltas);
    - [internal/game/cluster]: [Cluster], [ClusterFacts] (K-Means allocation
      with hysteresis);
    - [internal/game/room] (room, commands, tick, lifecycle): [Room] (data and
      one definition per command), [RoomSystem] (the loop goroutine and its
      callers as a step relation), [RoomFacts], [RoomTheorems],
      [RoomBroadcast], [RoomClients], [RoomWitness];
    - [internal/game/room] (registry, manager): [RoomManager],
      [RoomManagerFacts] (the calls as functions), [ManagerSystem],
      [ManagerTheorems] (concurrent calls, interleaved between their locks);
    - [internal/game/session]: [Session], [SessionFacts];
    - [internal/protocol]: [Protocol], [ProtocolFacts], [ProtocolExample] (a
      concrete codec that satisfies the laws asked of MessagePack);
    - [internal/game/handler], [internal/app/realtime]: [Handler],
      [HandlerFacts] (the receive path);
    - [internal/game/bridge]: [Bridge], [BridgeFacts] (deltas to packets),
      [RoomTyped] (a room stays within the Go types, so its deltas are valid
      messages);
    - the whole path from packet to room to packets: [EndToEnd],
      [EndToEndWitness];
    - [internal/transport/kcp], [internal/transport/websocket]: [Transport]
      (sessions, servers, their goroutines as a transition system),
      [TransportFacts] (the invariant), [TransportTheorems], [TransportStop]
      (the measure), [TransportBridge] (broadcasts over KCP),
      [TransportWitness];
    - a KCP server, the receive path and the rooms of a manager side by side:
      [Inbound], [InboundWitness];
    - a room, the bridge and a KCP server side by side, the broadcaster's lookups
      and calls of [Send] interleaved with everything else and with sessions that
      get and lose their connections: [Deployment] (the system and
      its invariant), [DeploymentTheorems], [DeploymentWitness];
    - the records and constructors by which [internal/app/realtime],
      [internal/game/handler] and [internal/game/bridge] are plugged together:
      [Wiring]; [loadtest/shared]: [LoadTest];
    - [internal/config], [cmd/config-check]: [Config], [ConfigFacts];
    - [internal/gateway]: [Gateway], [GatewayFacts] (resolver, tokens, join
      endpoint); its HTTP routes, those of the WebSocket server and
      [cmd/gateway]: [HTTPServers];
    - [internal/observability]: [Observability];
    - [cmd/game-server]: [GameServer] (start, run and shutdown of the process).

    ** How code becomes definitions

    Definitions keep the names of the source; a method [T.m] is [m] or [T_m].
    State is passed explicitly.  A function that returns only an [error] is an
    [option], one that also returns a value a sum.  Integers keep their width,
    with the wrap-around written out where the code can reach it.  [time.Now()]
    and random draws are arguments.  The order of [for range] over a map is the
    class [GoRange]: theorems hold for every order.  Records shared by pointer
    (sessions, room instances, rooms of the manager, transport sessions) live in
    explicit heaps.  Concurrency is a transition system whose steps are the
    regions between two points where another goroutine can interfere: critical
    sections, channel operations, [sync.Once], wait groups.

    Interfaces are classes: [ClusterAllocator] with its laws between room and
    allocator, [Msgpack] with [MsgpackLaws] for the wire, [RealtimeSession]
    between bridge and transport (implemented by KCP sessions), [NodeResolver]
    between the join endpoint and the resolver.

    ** What the theorems show

    - Rooms: the invariant that ties sessions, users, players, snapshots, spatial
      index, locks and queue together holds in every reachable state whatever the
      commands; [Stop] can complete when the configuration lets the loop get on
      (a ticker, and radius queries that end); a closed room is frozen; joining
      and disconnecting cancel out, and a disconnect touches nothing of others;
      after every broadcast each client holds exactly the transforms of the
      players it sees, as long as player IDs are not reused while a client knows
      them.
    - Objects: a user never exceeds the lock quota, leases are respected, expiry
      releases exactly the expired locks; what every branch of an acquisition
      answers and writes; where the counters are exact and where they leak.
    - Spatial index: the two internal maps refine one map from entities to
      positions; queries end and return exactly the entities that pass the
      distance test in the square of cells around the viewer, and for positions
      in whole metres exactly those within the radius.
    - Clusters: allocation terminates without panic and is a partition.
    - Registry, manager, sessions: indexes agree with the records they index;
      state machines only move forward.  With concurrent callers every open
      instance has exactly one holder, and a shutdown returns, if the rooms'
      loops get on, with every room it found closed.
    - Wire: round trips for every valid message; the receive path accepts exactly
      the packets that ask for a command of an attached session; every accepted
      move reaches the player, and over every interleaving of connections and
      rooms the accepted moves are handled once and in order; the wire carries the deltas' effect, so clients
      that only decode packets converge too.
    - Transports: in every interleaving packets leave a session in the order they
      were accepted, [Stop] terminates, and when that of the KCP server has
      returned nothing of the server is left running.  Together with the room:
      what a client has decoded is what the room told it up to some earlier
      broadcast, and once its packets are through exactly what it sees of the
      room, unless a packet was lost; a connection that writes can always catch
      up.
    - Types: a room fed with typed commands stays within the Go types in every
      interleaving, and every delta it sends is a valid message.
    - Programs: the game server comes up with a valid configuration and comes
      down in order, leaving nothing of the KCP server behind.
    - Gateway and configuration: exactly which requests are served and with what
      answer; [Validate] accepts exactly the admissible configurations.

    Some theorems are about behaviour that differs from what comments and names
    promise; they say so.

    ** Bounds and fuel

    [digits] has fuel 20, enough for a 64-bit number.  A radius query is partial:
    it is the list of cells its loops visit, or [None] when a loop has no end; the
    loops themselves have fuel and are shown to visit that list, or to run out of
    every fuel ([Spatial], [SpatialFacts]).  A broadcast that runs such a query
    does not finish either, so the theorems on progress of [RoomTheorems] and
    [ManagerTheorems] ask for a configuration whose queries end and whose tick
    interval is positive ([loop_fits]); [fast_ticker_blocks_stop] and
    [query_radius_endless] show that the code needs it.  K-Means has the iteration
    bound of its configuration.  The loops of a room, of sessions and of servers
    have no bound of their own; they are steps of a transition system, and
    termination is shown by a step count ([RoomTheorems]) or a measure
    ([TransportStop]).

    ** Not modelled

    Sockets, KCP, the WebSocket library, HTTP, MessagePack, JSON and YAML are
    libraries: their answers are arguments, with stated laws where a theorem
    needs them.  Log records and the text of messages are left out (most [String]
    and [Error] methods), as are command-line flags and the accessors [Addr] and
    [RemoteAddr].  [internal/adapters] holds package comments only.  Messages for
    voice, reconnection and locks have type numbers but no wire types, and nothing
    produces the object deltas. *)

From Stdlib Require Import ZArith Lia.
From stdpp Require Import gmap strings list fin_maps sorting.

(** ** Machine integers

    Go's fixed-width integers are kept as [Z] with their wrap-around written
    out.  [int] is 64 bits wide on the deployment target (linux/amd64). *)

Local Open Scope Z_scope.

Definition u16 (z : Z) : Z := z mod 2 ^ 16.
Definition u32 (z : Z) : Z := z mod 2 ^ 32.
Definition u64 (z : Z) : Z := z mod 2 ^ 64.
Definition i32 (z : Z) : Z := (z + 2 ^ 31) mod 2 ^ 32 - 2 ^ 31.
Definition i64 (z : Z) : Z := (z + 2 ^ 63) mod 2 ^ 64 - 2 ^ 63.

Lemma u32_small z : 0 <= z < 2 ^ 32 -> u32 z = z.
Proof. apply Z.mod_small. Qed.

Lemma u32_range z : 0 <= u32 z < 2 ^ 32.
Proof. apply Z.mod_pos_bound. lia. Qed.

Lemma u64_small z : 0 <= z < 2 ^ 64 -> u64 z = z.
Proof. apply Z.mod_small. Qed.

Lemma i64_small z : - 2 ^ 63 <= z < 2 ^ 63 -> i64 z = z.
Proof. intros. unfold i64. rewrite Z.mod_small; lia. Qed.

Lemma i32_small z : - 2 ^ 31 <= z < 2 ^ 31 -> i32 z = z.
Proof. intros. unfold i32. rewrite Z.mod_small; lia. Qed.

Lemma i64_range z : - 2 ^ 63 <= i64 z < 2 ^ 63.
Proof. unfold i64. pose proof (Z.mod_pos_bound (z + 2 ^ 63) (2 ^ 64) ltac:(lia)). lia. Qed.

(** Signed arithmetic may wrap at any point of a sum. *)
Lemma i32_add_idemp a b : i32 (i32 a + b) = i32 (a + b).
Proof.
  unfold i32 at 1 3. f_equal.
  replace (i32 a + b + 2 ^ 31) with ((a + 2 ^ 31) mod 2 ^ 32 + b) by (unfold i32; lia).
  rewrite Zplus_mod_idemp_l. f_equal. lia.
Qed.

Lemma i64_add_idemp a b : i64 (i64 a + b) = i64 (a + b).
Proof.
  unfold i64 at 1 3. f_equal.
  replace (i64 a + b + 2 ^ 63) with ((a + 2 ^ 63) mod 2 ^ 64 + b) by (unfold i64; lia).
  rewrite Zplus_mod_idemp_l. f_equal. lia.
Qed.

Lemma i32_add_sub z : - 2 ^ 31 <= z < 2 ^ 31 -> i32 (i32 (z + 1) - 1) = z.
Proof.
  intros Hz. unfold Z.sub. rewrite i32_add_idemp, <- Z.add_assoc, Z.add_0_r. by apply i32_small.
Qed.

(** ** Iteration over a Go map

    [for k, v := range m] visits every entry of [m] exactly once, in an order
    the runtime picks afresh for each loop.  A [GoRange] instance is one such
    choice: the first argument of [range] names the loop being executed, so
    that two loops over the same map may see two orders.  The only thing code
    may rely on is [range_perm]. *)

Class GoRange := {
  range : forall {K : Type} {HE : EqDecision K} {HC : Countable K} {A : Type},
    list nat -> gmap K A -> list (K * A);
  range_perm : forall {K : Type} {HE : EqDecision K} {HC : Countable K} {A : Type}
    (site : list nat) (m : gmap K A), range site m ≡ₚ map_to_list m }.

(** The order a test harness would see: the map's own enumeration.  It is the
    instance witnesses compute with; it is not declared as a default. *)
Definition canonical_range : GoRange := {|
  range := fun _ _ _ _ _ m => map_to_list m;
  range_perm := fun _ _ _ _ _ _ => reflexivity _ |}.

(** The opposite order, a second concrete choice of the runtime. *)
Definition reversed_range : GoRange := {|
  range := fun _ _ _ _ _ m => reverse (map_to_list m);
  range_perm := fun _ _ _ _ _ m => reverse_Permutation (map_to_list m) |}.

Section range_facts.
Context `{GR : !GoRange} {K : Type} `{Countable K} {A : Type}.
Implicit Types (m : gmap K A) (site : list nat).

Lemma elem_of_range site m k v : (k, v) ∈ range site m <-> m !! k = Some v.
Proof. rewrite range_perm. apply elem_of_map_to_list. Qed.

Lemma NoDup_fst_range site m : NoDup (range site m).*1.
Proof. rewrite range_perm. apply NoDup_fst_map_to_list. Qed.

Lemma NoDup_range site m : NoDup (range site m).
Proof. rewrite range_perm. apply NoDup_map_to_list. Qed.

Lemma elem_of_range_fst site m k : k ∈ (range site m).*1 <-> is_Some (m !! k).
Proof.
  rewrite list_elem_of_fmap. split.
  - intros ([k' v] & -> & Hin). simpl. exists v. by apply (elem_of_range site).
  - intros [v Hv]. exists (k, v). split; [done |]. by apply elem_of_range.
Qed.

Lemma length_range site m : length (range site m) = size m.
Proof. rewrite range_perm. apply length_map_to_list. Qed.

Lemma range_empty site : range site (∅ : gmap K A) = [].
Proof. apply Permutation_nil_r. by rewrite range_perm, map_to_list_empty. Qed.
End range_facts.

(** ** Error returns

    A Go function whose only result is an [error] is an [option]: [None] is
    [nil].  [c1 >>? c2] is [if err := c1; err != nil { return err }; c2], and
    [guard b e] is [if b { return e }]. *)

Declare Scope go_scope.
Delimit Scope go_scope with go.

Definition or_return {E : Type} (c1 c2 : option E) : option E :=
  match c1 with Some e => Some e | None => c2 end.

Definition guard_err {E : Type} (b : bool) (e : E) : option E :=
  if b then Some e else None.

Notation "c1 >>? c2" := (or_return c1 c2) (at level 60, right associativity) : go_scope.

Lemma or_return_None {E} (c1 c2 : option E) :
  or_return c1 c2 = None <-> c1 = None /\ c2 = None.
Proof. destruct c1; simpl; naive_solver. Qed.

Lemma guard_err_None {E} b (e : E) : guard_err b e = None <-> b = false.
Proof. by destruct b. Qed.

(** A fallible call with a result: [inl] carries the error. *)
Notation "'let!' x := c 'in' k" :=
  (match c with inl e => inl e | inr x => k end)
  (at level 10, x pattern, c at level 100, k at level 200) : go_scope.

(** [m[k]] on a Go map of integers: the zero value when absent. *)
Definition lookup_Z {K} `{Countable K} (m : gmap K Z) (k : K) : Z := default 0 (m !! k).

Create HintDb go.
Create Rewrite HintDb go.
#[export] Hint Rewrite @or_return_None @guard_err_None : go.

(** ** Counting the entries of a map that satisfy a predicate *)

Section count.
Context {K : Type} `{Countable K} {A : Type} (P : A -> bool).

Definition map_count (m : gmap K A) : nat :=
  size (filter (fun kv => P kv.2 = true) m).

Lemma map_count_empty : map_count ∅ = 0%nat.
Proof. unfold map_count. by rewrite map_filter_empty, map_size_empty. Qed.

Lemma map_count_insert_fresh m k a :
  m !! k = None ->
  map_count (<[k := a]> m) = ((if P a then 1 else 0) + map_count m)%nat.
Proof.
  intros Hk. unfold map_count. destruct (P a) eqn:HP.
  - rewrite map_filter_insert_True by done.
    apply map_size_insert_None. apply map_lookup_filter_None. by left.
  - rewrite map_filter_insert_False by (simpl; congruence).
    by rewrite delete_id.
Qed.

Lemma map_count_split m k a :
  m !! k = Some a ->
  map_count m = ((if P a then 1 else 0) + map_count (delete k m))%nat.
Proof.
  intros Hk. rewrite <- (map_count_insert_fresh (delete k m) k a).
  - by rewrite insert_delete_id.
  - apply lookup_delete_eq.
Qed.

Lemma map_count_insert m k a b :
  m !! k = Some a ->
  (map_count (<[k := b]> m) + (if P a then 1 else 0)
   = (if P b then 1 else 0) + map_count m)%nat.
Proof.
  intros Hk. rewrite (map_count_split m k a Hk).
  rewrite <- insert_delete_eq, map_count_insert_fresh; [lia | apply lookup_delete_eq].
Qed.

Lemma map_count_delete_le m k : (map_count (delete k m) <= map_count m)%nat.
Proof.
  destruct (m !! k) as [a |] eqn:Hk.
  - rewrite (map_count_split m k a Hk). lia.
  - by rewrite delete_id.
Qed.

Lemma map_count_pos m k a : m !! k = Some a -> P a = true -> (1 <= map_count m)%nat.
Proof. intros Hk HP. rewrite (map_count_split m k a Hk), HP. lia. Qed.
End count.

(** ** Sums over the entries of a map *)

Section sum.
Context {K : Type} `{Countable K} {A : Type} (f : A -> nat).

Definition map_sum (m : gmap K A) : nat := map_fold (fun _ a n => (f a + n)%nat) 0%nat m.

Lemma map_sum_empty : map_sum ∅ = 0%nat.
Proof. apply map_fold_empty. Qed.

Lemma map_sum_insert_fresh m k a :
  m !! k = None -> map_sum (<[k := a]> m) = (f a + map_sum m)%nat.
Proof.
  intros Hk. unfold map_sum.
  rewrite (map_fold_insert_L (fun _ a n => (f a + n)%nat)); [done | intros; lia | done].
Qed.

Lemma map_sum_delete m k a : m !! k = Some a -> map_sum m = (f a + map_sum (delete k m))%nat.
Proof.
  intros Hk. unfold map_sum.
  rewrite (map_fold_delete_L (fun _ a n => (f a + n)%nat) _ k a); [done | intros; lia | done].
Qed.

Lemma map_sum_insert m k a b :
  m !! k = Some a -> (map_sum (<[k := b]> m) + f a = map_sum m + f b)%nat.
Proof.
  intros Hk. rewrite (map_sum_delete m k a Hk), <- insert_delete_eq, map_sum_insert_fresh;
    [lia | apply lookup_delete_eq].
Qed.

Lemma map_sum_ge m k a : m !! k = Some a -> (f a <= map_sum m)%nat.
Proof. intros Hk. rewrite (map_sum_delete m k a Hk). lia. Qed.

(** A sum that is not zero has a term that is not zero. *)
Lemma map_sum_pos m : (0 < map_sum m)%nat -> exists k a, m !! k = Some a /\ (0 < f a)%nat.
Proof.
  induction m as [| k a m Hk IH] using map_ind; [rewrite map_sum_empty; lia |].
  rewrite map_sum_insert_fresh by done. intros Hs.
  destruct (f a) as [| n] eqn:Hf; [| exists k, a; rewrite lookup_insert_eq; split; [done | lia]].
  destruct IH as (k' & a' & Hk' & Ha'); [lia |]. exists k', a'. split; [| done].
  rewrite lookup_insert_ne; [done | congruence].
Qed.
End sum.

(** ** Lists *)

Lemma omap_ext_elem {A B} (f g : A -> option B) (l : list A) :
  (forall x, x ∈ l -> f x = g x) -> omap f l = omap g l.
Proof.
  induction l as [| x l IH]; intros H; [done |].
  cbn. rewrite H by set_solver. destruct (g x); rewrite IH; set_solver.
Qed.

(** ** Decimal numerals *)

(** Decimal digits, most significant first; the fuel bounds their number. *)
Fixpoint digits (fuel : nat) (n : Z) (acc : list Z) : list Z :=
  match fuel with
  | O => acc
  | S fuel' =>
      let acc := n mod 10 :: acc in
      if n / 10 =? 0 then acc else digits fuel' (n / 10) acc
  end.

Definition digit_char (d : Z) : Ascii.ascii := Ascii.ascii_of_nat (48 + Z.to_nat d).

(** [%d] of an unsigned number of at most 64 bits, which has at most 20 digits. *)
Definition format_d (n : Z) : string :=
  String.string_of_list_ascii (digit_char <$> digits 20 n []).

(** ** Tactics *)

(** Split on the innermost [match] or [if] of the goal, remembering the
    equation, and simplify. *)
Ltac go_case :=
  match goal with
  | |- context [match ?x with _ => _ end] =>
      lazymatch x with context [match _ with _ => _ end] => fail | _ => destruct x eqn:? end
  end; simplify_eq/=.

Ltac go_cases := repeat go_case.

(** Turn every boolean test on integers and strings in the context into the
    proposition it decides. *)
Ltac go_bool :=
  repeat match goal with
  | H : andb _ _ = true |- _ => apply andb_true_iff in H; destruct H
  | H : andb _ _ = false |- _ => apply andb_false_iff in H
  | H : orb _ _ = true |- _ => apply orb_true_iff in H
  | H : orb _ _ = false |- _ => apply orb_false_iff in H; destruct H
  | H : negb _ = true |- _ => apply negb_true_iff in H
  | H : negb _ = false |- _ => apply negb_false_iff in H
  | H : String.eqb _ _ = true |- _ => apply String.eqb_eq in H
  | H : String.eqb _ _ = false |- _ => apply String.eqb_neq in H
  | H : Z.eqb _ _ = true |- _ => apply Z.eqb_eq in H
  | H : Z.eqb _ _ = false |- _ => apply Z.eqb_neq in H
  | H : Z.leb _ _ = true |- _ => apply Z.leb_le in H
  | H : Z.leb _ _ = false |- _ => apply Z.leb_gt in H
  | H : Z.ltb _ _ = true |- _ => apply Z.ltb_lt in H
  | H : Z.ltb _ _ = false |- _ => apply Z.ltb_ge in H
  | H : bool_decide _ = true |- _ => apply bool_decide_eq_true_1 in H
  | H : bool_decide _ = false |- _ => apply bool_decide_eq_false_1 in H
  end.
