(* ===== verification/GoFloat.v ===== *)
(** * IEEE 754 arithmetic of Go's [float32] and [float64]

    The source computes with [float32] coordinates and widens to [float64] for
    products, square roots, floors and sums.  Both formats are values of the
    standard library's [spec_float] (sign, mantissa, exponent, with signed
    zeros, infinities and one NaN), with the operations of binary32
    ([prec = 24], [emax = 128]) and binary64 ([prec = 53], [emax = 1024])
    rounding to nearest even.  NaN payloads are not represented: no code of the
    repository looks at them.  Conversions to [int] outside the 64-bit range
    follow the amd64 instruction the release build uses. *)

From Stdlib Require Import ZArith Lia SpecFloat.
From stdpp Require Import base decidable option numbers strings.

Local Open Scope Z_scope.

(** Both formats share a carrier; the operation decides the format. *)
Abbreviation float32 := spec_float.
Abbreviation float64 := spec_float.

#[global] Instance spec_float_eq_dec : EqDecision spec_float.
Proof. solve_decision. Defined.

(** ** Arithmetic *)

Definition f32_add : float32 -> float32 -> float32 := SFadd 24 128.
Definition f32_sub : float32 -> float32 -> float32 := SFsub 24 128.
Definition f32_mul : float32 -> float32 -> float32 := SFmul 24 128.
Definition f32_div : float32 -> float32 -> float32 := SFdiv 24 128.
Definition f64_add : float64 -> float64 -> float64 := SFadd 53 1024.
Definition f64_mul : float64 -> float64 -> float64 := SFmul 53 1024.
Definition f64_div : float64 -> float64 -> float64 := SFdiv 53 1024.
Definition f64_sqrt : float64 -> float64 := SFsqrt 53 1024.
Definition f64_abs : float64 -> float64 := SFabs.

(** Comparisons are the same in both formats and false on NaN. *)
Definition flt : spec_float -> spec_float -> bool := SFltb.
Definition fle : spec_float -> spec_float -> bool := SFleb.
Definition feq : spec_float -> spec_float -> bool := SFeqb.
Definition fgt (x y : spec_float) : bool := SFltb y x.
Definition fge (x y : spec_float) : bool := SFleb y x.

(** ** Conversions *)

Definition f32_zero : float32 := S754_zero false.
Definition f64_zero : float64 := S754_zero false.
Definition f32_one : float32 := binary_normalize 24 128 1 0 false.

(** A numeric constant or an integer converted to a format. *)
Definition f32_of_Z (z : Z) : float32 := binary_normalize 24 128 z 0 false.
Definition f64_of_int (z : Z) : float64 := binary_normalize 53 1024 z 0 false.

(** [float64(x)] of a [float32]: exact. *)
Definition f64_of_f32 (x : float32) : float64 :=
  match x with
  | S754_finite s m e => binary_round 53 1024 s m e
  | _ => x
  end.

(** [float32(x)] of a [float64]: rounds, overflowing to an infinity. *)
Definition f32_of_f64 (x : float64) : float32 :=
  match x with
  | S754_finite s m e => binary_round 24 128 s m e
  | _ => x
  end.

(** The integer below a finite number [± m * 2 ^ e]. *)
Definition floor_Z (s : bool) (m : positive) (e : Z) : Z :=
  let sm := if s then Zneg m else Zpos m in
  Z.shiftl sm e.

(** [math.Floor], [math.Ceil]: zeros, infinities and NaN are fixed points. *)
Definition math_Floor (x : float64) : float64 :=
  match x with
  | S754_finite s m e =>
      if 0 <=? e then x else binary_normalize 53 1024 (floor_Z s m e) 0 false
  | _ => x
  end.

Definition math_Ceil (x : float64) : float64 := SFopp (math_Floor (SFopp x)).

(** [math.IsNaN], [math.IsInf(x, 0)] *)
Definition IsNaN (x : float64) : bool :=
  match x with S754_nan => true | _ => false end.

Definition IsInf (x : float64) : bool :=
  match x with S754_infinity _ => true | _ => false end.

(** [int(x)]: truncates toward zero; a value that does not fit gives the
    "integer indefinite" [-2^63] of the amd64 conversion. *)
Definition int_of_f64 (x : float64) : Z :=
  match x with
  | S754_zero _ => 0
  | S754_finite s m e =>
      let t := Z.shiftl (Zpos m) e in
      let v := if s then - t else t in
      if (- 2 ^ 63 <=? v) && (v <? 2 ^ 63) then v else - 2 ^ 63
  | _ => - 2 ^ 63
  end.

(** A value a client may legitimately report. *)
Definition finite (x : spec_float) : bool :=
  match x with S754_zero _ | S754_finite _ _ _ => true | _ => false end.

(** ** Order *)

(** [SFcompare] is a lexicographic comparison of integer keys, so it inherits
    the order properties of [Z]. *)
Definition fkey (x : spec_float) : option (Z * Z * Z) :=
  match x with
  | S754_nan => None
  | S754_infinity s => Some (if s then -2 else 2, 0, 0)
  | S754_zero _ => Some (0, 0, 0)
  | S754_finite true m e => Some (-1, - e, Zneg m)
  | S754_finite false m e => Some (1, e, Zpos m)
  end.

Definition key_lt (a b : Z * Z * Z) : Prop :=
  let '(r1, e1, m1) := a in
  let '(r2, e2, m2) := b in
  r1 < r2 \/ r1 = r2 /\ (e1 < e2 \/ e1 = e2 /\ m1 < m2).

Lemma SFcompare_key x y :
  match fkey x, fkey y with
  | Some a, Some b =>
      match SFcompare x y with
      | Some Lt => key_lt a b
      | Some Eq => a = b
      | Some Gt => key_lt b a
      | None => False
      end
  | _, _ => SFcompare x y = None
  end.
Proof.
  destruct x as [[]|[]| |[] m e], y as [[]|[]| |[] m' e']; simpl; try done; try lia;
    destruct (Z.compare_spec e e'); simpl; try lia;
    change (Pos.compare_cont Eq m m') with (Pos.compare m m');
    destruct (Pos.compare_spec m m'); simpl; subst; try done; lia.
Qed.

Lemma key_lt_asym a b : key_lt a b -> key_lt b a -> False.
Proof. destruct a as [[??]?], b as [[??]?]. simpl. lia. Qed.

Lemma key_lt_irrefl a : key_lt a a -> False.
Proof. destruct a as [[??]?]. simpl. lia. Qed.

(** The pair of keys a comparison looks at, when neither side is NaN. *)
Lemma fkey_pair x y (Q : (Z * Z * Z) -> (Z * Z * Z) -> Prop) a b :
  fkey x = Some a -> fkey y = Some b ->
  (exists a' b', fkey x = Some a' /\ fkey y = Some b' /\ Q a' b') <-> Q a b.
Proof.
  intros Hx Hy. split.
  - intros (a' & b' & Ha & Hb & HQ). congruence.
  - intros HQ. eauto.
Qed.

Lemma flt_spec x y :
  flt x y = true <-> exists a b, fkey x = Some a /\ fkey y = Some b /\ key_lt a b.
Proof.
  unfold flt, SFltb. pose proof (SFcompare_key x y) as H.
  destruct (fkey x) as [a|] eqn:Hx; [destruct (fkey y) as [b|] eqn:Hy |].
  - rewrite <- Hx, <- Hy, (fkey_pair x y key_lt a b) by done.
    destruct (SFcompare x y) as [[]|]; [subst b | | | done]; split; try done; intros Hlt.
    + by destruct (key_lt_irrefl a).
    + by destruct (key_lt_asym a b).
  - rewrite H. split; [done | intros (?&?&?&?&?); congruence].
  - rewrite H. split; [done | intros (?&?&?&?&?); congruence].
Qed.

Lemma fle_spec x y :
  fle x y = true <->
  exists a b, fkey x = Some a /\ fkey y = Some b /\ (key_lt a b \/ a = b).
Proof.
  unfold fle, SFleb. pose proof (SFcompare_key x y) as H.
  destruct (fkey x) as [a|] eqn:Hx; [destruct (fkey y) as [b|] eqn:Hy |].
  - rewrite <- Hx, <- Hy, (fkey_pair x y (fun a b => key_lt a b \/ a = b) a b) by done.
    destruct (SFcompare x y) as [[]|]; [subst b | | | done]; split; try done; intros Hlt;
      [by right | by left |].
    destruct Hlt as [Hlt | ->]; [by destruct (key_lt_asym a b) | by destruct (key_lt_irrefl b)].
  - rewrite H. split; [done | intros (?&?&?&?&?); congruence].
  - rewrite H. split; [done | intros (?&?&?&?&?); congruence].
Qed.

Lemma flt_trans x y z : flt x y = true -> flt y z = true -> flt x z = true.
Proof.
  rewrite !flt_spec. intros (a & b & Ha & Hb & H1) (b' & c & Hb' & Hc & H2).
  assert (b' = b) as -> by congruence. exists a, c.
  destruct a as [[??]?], b as [[??]?], c as [[??]?]. simpl in *. repeat split; auto; lia.
Qed.

Lemma flt_irrefl x : flt x x = false.
Proof.
  destruct (flt x x) eqn:H; [| done]. apply flt_spec in H as (a & b & H1 & H2 & H).
  assert (b = a) as -> by congruence. destruct a as [[??]?]. simpl in H. lia.
Qed.

Lemma fle_flt_trans x y z : fle x y = true -> flt y z = true -> flt x z = true.
Proof.
  rewrite fle_spec, !flt_spec. intros (a & b & Ha & Hb & H1) (b' & c & Hb' & Hc & H2).
  assert (b' = b) as -> by congruence. exists a, c.
  destruct a as [[??]?], b as [[??]?], c as [[??]?]. simpl in *. repeat split; auto.
  destruct H1; simplify_eq; lia.
Qed.

Lemma not_nan_finite x : IsNaN x || IsInf x = negb (finite x).
Proof. by destruct x. Qed.

(** ** Widening is exact *)

(** The values a [float32] variable can hold. *)
Definition binary32 (x : float32) : Prop := valid_binary 24 128 x = true.

Lemma digits2_pos_shift m k :
  Zpos (digits2_pos (Pos.iter xO m k)) = Zpos (digits2_pos m) + Zpos k.
Proof.
  revert m. induction k as [|k IH] using Pos.peano_ind; intros m; simpl.
  - lia.
  - rewrite Pos.iter_succ. simpl. rewrite Pos2Z.inj_succ, IH. lia.
Qed.

Lemma pos_shift_value m k : Zpos (Pos.iter xO m k) = Zpos m * 2 ^ Zpos k.
Proof.
  induction k as [|k IH] using Pos.peano_ind; [simpl; lia |].
  rewrite Pos.iter_succ, Pos2Z.inj_succ, Z.pow_succ_r by lia.
  change (Zpos (xO (Pos.iter xO m k))) with (2 * Zpos (Pos.iter xO m k)). rewrite IH. lia.
Qed.

Lemma binary32_digits s m e :
  binary32 (S754_finite s m e) ->
  Zpos (digits2_pos m) <= 24 /\ -149 <= e <= 104.
Proof.
  unfold binary32, valid_binary, bounded, canonical_mantissa, fexp, emin.
  rewrite andb_true_iff, Z.eqb_eq, Z.leb_le. lia.
Qed.

Lemma binary_round_aux_exact s m e :
  Zpos (digits2_pos m) = 53 -> -1074 <= e <= 971 ->
  binary_round_aux 53 1024 s (Zpos m) e loc_Exact = S754_finite s m e.
Proof.
  intros Hd He. unfold binary_round_aux, shr_fexp.
  assert (fexp 53 1024 (Zdigits2 (Zpos m) + e) - e = 0) as Hz.
  { simpl Zdigits2. rewrite Hd. unfold fexp, emin. lia. }
  rewrite Hz. simpl. simpl Zdigits2 in Hz. rewrite Hz. simpl.
  destruct (Z.leb_spec e (1024 - 53)); [done | lia].
Qed.

Lemma f64_of_f32_exact s m e :
  binary32 (S754_finite s m e) ->
  exists m' e', f64_of_f32 (S754_finite s m e) = S754_finite s m' e'
    /\ Zpos m' * 2 ^ (e' + 149 + 53) = Zpos m * 2 ^ (e + 149 + 53).
Proof.
  intros H. pose proof (binary32_digits _ _ _ H) as [Hd He].
  simpl. unfold binary_round, shl_align.
  assert (fexp 53 1024 (Zpos (digits2_pos m) + e) = Zpos (digits2_pos m) + e - 53) as Hf.
  { unfold fexp, emin. pose proof (Pos2Z.is_pos (digits2_pos m)). lia. }
  rewrite Hf. destruct (Zpos (digits2_pos m) + e - 53 - e) as [|k|k] eqn:Hk; [lia | lia |].
  rewrite binary_round_aux_exact.
  - eexists _, _. split; [done |].
    rewrite pos_shift_value. pose proof (Pos2Z.is_pos (digits2_pos m)).
    replace (e + 149 + 53) with (Zpos k + (Zpos (digits2_pos m) + e - 53 + 149 + 53)) by lia.
    rewrite (Z.pow_add_r 2 (Zpos k)) by lia. ring.
  - rewrite digits2_pos_shift. lia.
  - pose proof (Pos2Z.is_pos (digits2_pos m)). lia.
Qed.

(** Widening keeps finiteness, so testing the widened value for NaN and
    infinity tests the [float32] itself. *)
Lemma widen_finite x :
  binary32 x -> IsNaN (f64_of_f32 x) || IsInf (f64_of_f32 x) = negb (finite x).
Proof.
  destruct x as [s|s| |s m e]; try done. intros H.
  by destruct (f64_of_f32_exact _ _ _ H) as (m' & e' & -> & _).
Qed.
