(* ===== verification/FloatExact.v ===== *)
(** * Exact results of the rounded arithmetic

    What rounding to nearest gives when the result is representable, and how
    far it can be from the exact value when it is not: a result keeps the
    leading bits of the exact value or adds one unit to them.  From this follow
    the range of the integer a rounded quotient is truncated to, and that the
    operations of [GoFloat] compute sums, differences, products, comparisons
    and floors of whole numbers exactly. *)

From Stdlib Require Import ZArith Lia SpecFloat.
From stdpp Require Import base decidable option numbers.
From S2P Require Import GoFloat.

Local Open Scope Z_scope.

(** ** Digits *)

Lemma digits2_log2 m : Zpos (digits2_pos m) = Z.log2 (Zpos m) + 1.
Proof.
  induction m as [m IH | m IH |]; simpl digits2_pos; [| | done]; rewrite Pos2Z.inj_succ, IH.
  - rewrite (Pos2Z.inj_xI m), Z.log2_succ_double; lia.
  - rewrite (Pos2Z.inj_xO m), Z.log2_double; lia.
Qed.

Lemma digits2_bounds m k :
  Zpos (digits2_pos m) = k <-> 2 ^ (k - 1) <= Zpos m < 2 ^ k /\ 0 < k.
Proof.
  rewrite digits2_log2. pose proof (Z.log2_nonneg (Zpos m)). split.
  - intros <-. pose proof (Z.log2_spec (Zpos m) ltac:(lia)) as Hs. rewrite Z.add_simpl_r. lia.
  - intros [Hb Hk]. rewrite (Z.log2_unique (Zpos m) (k - 1)); [lia | lia |].
    by replace (Z.succ (k - 1)) with k by lia.
Qed.

Lemma digits2_le m k : 0 <= k -> Zpos (digits2_pos m) <= k <-> Zpos m < 2 ^ k.
Proof.
  intros Hk. rewrite digits2_log2. pose proof (Z.log2_lt_pow2 (Zpos m) k ltac:(lia)). lia.
Qed.

Lemma Zdigits2_lt m k : 0 <= m -> 0 <= k -> Zdigits2 m <= k -> m < 2 ^ k.
Proof.
  intros Hm Hk Hd. destruct m as [| m | m]; [lia | by apply digits2_le | lia].
Qed.

Lemma pow2_pos k : 0 <= k -> 0 < 2 ^ k.
Proof. intros. apply Z.pow_pos_nonneg; lia. Qed.

Lemma pow2_split a b : 0 <= a -> 0 <= b -> 2 ^ (a + b) = 2 ^ a * 2 ^ b.
Proof. intros. by apply Z.pow_add_r. Qed.

(** ** Shifting a mantissa right *)

Lemma iter_pos_nat {A} (f : A -> A) n x : SpecFloat.iter_pos f n x = Nat.iter (Pos.to_nat n) f x.
Proof.
  assert (forall i j y, Nat.iter (i + j) f y = Nat.iter i f (Nat.iter j f y)) as Hadd.
  { intros i j y. induction i as [| i IH]; [done |]. simpl. by rewrite IH. }
  revert x. induction n as [n IH | n IH |]; intros x; simpl SpecFloat.iter_pos; [| | done];
    rewrite !IH, <- Hadd.
  - rewrite Pos2Nat.inj_xI. simpl. rewrite Nat.add_0_r. by rewrite <- Nat.iter_succ_r.
  - rewrite Pos2Nat.inj_xO. simpl. by rewrite Nat.add_0_r.
Qed.

(** One step halves the mantissa; the record is exact when no bit was lost. *)
Definition mrs_exact (mrs : shr_record) : Prop := shr_r mrs = false /\ shr_s mrs = false.

Lemma shr_1_m mrs : 0 <= shr_m mrs -> shr_m (shr_1 mrs) = shr_m mrs / 2.
Proof.
  destruct mrs as [m r s]. simpl. rewrite <- Z.div2_div.
  destruct m as [| [p | p |] | p]; simpl; try done; lia.
Qed.

Lemma shr_1_exact mrs :
  0 <= shr_m mrs -> mrs_exact mrs -> shr_m mrs mod 2 = 0 -> mrs_exact (shr_1 mrs).
Proof.
  destruct mrs as [m r s]. unfold mrs_exact. simpl. intros Hm [-> ->].
  rewrite Zmod_even. destruct m as [| [p | p |] | p]; simpl; try done; lia.
Qed.

Lemma shr_iter_m n mrs :
  0 <= shr_m mrs -> shr_m (Nat.iter n shr_1 mrs) = shr_m mrs / 2 ^ Z.of_nat n.
Proof.
  intros Hm. induction n as [| n IH]; [simpl; by rewrite Z.div_1_r |].
  rewrite Nat.iter_succ, shr_1_m by (rewrite IH; apply Z.div_pos; lia).
  rewrite IH, Zdiv_Zdiv, Nat2Z.inj_succ, Z.pow_succ_r by lia. f_equal. lia.
Qed.

Lemma shr_iter_exact n mrs :
  0 <= shr_m mrs -> mrs_exact mrs -> shr_m mrs mod 2 ^ Z.of_nat n = 0 ->
  mrs_exact (Nat.iter n shr_1 mrs).
Proof.
  intros Hm Hex. induction n as [| n IH]; intros Hmod; [done |]. rewrite Nat.iter_succ.
  rewrite Nat2Z.inj_succ, Z.pow_succ_r in Hmod by lia.
  pose proof (pow2_pos (Z.of_nat n)) as Hp.
  apply Z.mod_divide in Hmod as [k Hk]; [| lia].
  apply shr_1_exact.
  - rewrite shr_iter_m by done. apply Z.div_pos; lia.
  - apply IH. apply Z.mod_divide; [lia |]. exists (k * 2). lia.
  - rewrite shr_iter_m by done. replace (shr_m mrs) with (2 * k * 2 ^ Z.of_nat n) by lia.
    rewrite Z.div_mul by lia. rewrite Z.mul_comm. apply Z.mod_mul. lia.
Qed.

Lemma shr_record_m m l : shr_m (shr_record_of_loc m l) = m.
Proof. by destruct l as [| []]. Qed.

Lemma round_step mrs :
  exists d, (d = 0 \/ d = 1) /\ (mrs_exact mrs -> d = 0) /\
    round_nearest_even (shr_m mrs) (loc_of_shr_record mrs) = shr_m mrs + d.
Proof.
  destruct mrs as [m r s]. unfold mrs_exact. simpl.
  destruct r, s; simpl; try destruct (Z.even m);
    solve [exists 0; split_and!; [by left | done | lia]
          | exists 1; split_and!; [by right | naive_solver | lia]].
Qed.

(** ** Rounding *)

Section rounding.
Context (prec emax : Z).
Context (Hprec : 1 < prec) (Hemax : 0 < emax).

Lemma shr_shift mrs e n :
  0 <= shr_m mrs -> 0 <= n ->
  let '(mrs', e') := shr mrs e n in
  e' = e + n /\ shr_m mrs' = shr_m mrs / 2 ^ n /\
  (mrs_exact mrs -> shr_m mrs mod 2 ^ n = 0 -> mrs_exact mrs').
Proof.
  intros Hm Hn. destruct n as [| p | p]; simpl shr; [| | lia].
  - rewrite Z.add_0_r, Z.div_1_r. done.
  - rewrite iter_pos_nat, shr_iter_m, positive_nat_Z by done. split_and!; [done .. |].
    intros Hex Hmod. apply shr_iter_exact; [done .. |]. by rewrite positive_nat_Z.
Qed.

(** After a shift to the format the mantissa has at most [prec] digits. *)
Lemma shr_fexp_bound m e l :
  0 <= m ->
  let '(mrs, e') := shr_fexp prec emax m e l in
  0 <= shr_m mrs < 2 ^ prec /\ emin prec emax <= e'.
Proof.
  intros Hm. unfold shr_fexp.
  assert (0 <= Zdigits2 m) as Hd by (destruct m; simpl; lia).
  destruct (Z.le_gt_cases (fexp prec emax (Zdigits2 m + e) - e) 0) as [Hn | Hn].
  - destruct (fexp prec emax (Zdigits2 m + e) - e) as [| p | p] eqn:Heq; [| lia |];
      cbn beta iota delta [shr]; rewrite shr_record_m; unfold fexp in Heq;
      (split; [split; [done |] | lia]); (apply Zdigits2_lt; [done | lia | lia]).
  - pose proof (shr_shift (shr_record_of_loc m l) e _ ltac:(by rewrite shr_record_m) ltac:(by apply Z.lt_le_incl)) as H.
    destruct (shr _ _ _) as [mrs e']. destruct H as (-> & -> & _). rewrite shr_record_m.
    set (n := fexp prec emax (Zdigits2 m + e) - e) in *.
    assert (Zdigits2 m <= prec + n) as Hk by (subst n; unfold fexp; lia).
    pose proof (pow2_pos n ltac:(lia)). split; [split |].
    + by apply Z.div_pos.
    + apply Z.div_lt_upper_bound; [done |]. rewrite Z.mul_comm, <- pow2_split by lia.
      apply Zdigits2_lt; lia.
    + subst n. unfold fexp. lia.
Qed.

(** A finite result of rounding is in the format's range. *)
Lemma binary_round_aux_bound s m e l s' m' e' :
  0 <= m -> binary_round_aux prec emax s m e l = S754_finite s' m' e' ->
  s' = s /\ Zpos m' < 2 ^ prec /\ emin prec emax <= e' <= emax - prec.
Proof.
  intros Hm. unfold binary_round_aux.
  pose proof (shr_fexp_bound m e l Hm) as H1. destruct (shr_fexp _ _ m e l) as [mrs e1]. destruct H1 as [[H1 _] _].
  destruct (round_step mrs) as (d & Hd & _ & ->).
  pose proof (shr_fexp_bound (shr_m mrs + d) e1 loc_Exact ltac:(lia)) as H2.
  destruct (shr_fexp _ _ _ e1 _) as [mrs2 e2]. destruct H2 as [H2 He2]. destruct (shr_m mrs2) as [| p | p]; [done | | done].
  destruct (Z.leb_spec e2 (emax - prec)); [| done]. intros [= <- <- <-]. split; [done | lia].
Qed.

(** A mantissa of [prec + n] digits keeps its [prec] leading digits, or these
    plus one unit; the unit is not added to an exact value. *)
Lemma binary_round_aux_leading s m e l n :
  Zpos (digits2_pos m) = prec + n -> 0 <= n ->
  emin prec emax <= e + n -> e + n < emax - prec ->
  exists M E d, binary_round_aux prec emax s (Zpos m) e l = S754_finite s M E /\
    (d = 0 \/ d = 1) /\ e + n <= E /\ Zpos (digits2_pos M) = prec /\
    Zpos M * 2 ^ (E - (e + n)) = Zpos m / 2 ^ n + d /\
    (l = loc_Exact -> Zpos m mod 2 ^ n = 0 -> d = 0).
Proof.
  intros Hd Hn Hlo Hhi. unfold binary_round_aux.
  unfold shr_fexp at 1. simpl Zdigits2.
  replace (fexp prec emax (Zpos (digits2_pos m) + e) - e) with n by (unfold fexp; lia).
  pose proof (shr_shift (shr_record_of_loc (Zpos m) l) e n ltac:(by rewrite shr_record_m) Hn) as H.
  destruct (shr _ e n) as [mrs e1]. destruct H as (-> & Hm1 & Hex). rewrite shr_record_m in Hm1, Hex.
  destruct (round_step mrs) as (d & Hd1 & Hd0 & ->). rewrite Hm1.
  pose proof (pow2_pos n Hn) as Hpn. apply digits2_bounds in Hd as [[Hmlo Hmhi] _].
  assert (2 ^ (prec - 1) <= Zpos m / 2 ^ n) as Hqlo.
  { apply Z.div_le_lower_bound; [done |]. rewrite <- pow2_split by lia.
    by replace (n + (prec - 1)) with (prec + n - 1) by lia. }
  assert (Zpos m / 2 ^ n < 2 ^ prec) as Hqhi.
  { apply Z.div_lt_upper_bound; [done |]. rewrite <- pow2_split by lia. by rewrite Z.add_comm. }
  pose proof (pow2_pos (prec - 1) ltac:(lia)) as Hpp.
  assert (2 ^ prec = 2 * 2 ^ (prec - 1)) as Htwo.
  { rewrite <- Z.pow_succ_r by lia. f_equal. lia. }
  destruct (Zpos m / 2 ^ n + d) as [| M0 | M0] eqn:HM; [lia | | lia].
  assert (l = loc_Exact -> Zpos m mod 2 ^ n = 0 -> d = 0) as Hexact.
  { intros -> Hmod. apply Hd0, Hex; done. }
  unfold shr_fexp. simpl Zdigits2. destruct (Z.eq_dec (Zpos M0) (2 ^ prec)) as [Heq | Hneq].
  - assert (Zpos (digits2_pos M0) = prec + 1) as HD.
    { apply digits2_bounds. rewrite Z.add_simpl_r, Z.pow_add_r by lia. lia. }
    rewrite HD. replace (fexp prec emax (prec + 1 + (e + n)) - (e + n)) with 1 by (unfold fexp; lia).
    cbn [shr SpecFloat.iter_pos shr_record_of_loc].
    pose proof (shr_1_m {| shr_m := Zpos M0; shr_r := false; shr_s := false |} ltac:(done)) as Hs.
    cbn [shr_m] in Hs. rewrite Hs, Heq, Htwo. rewrite (Z.mul_comm 2), Z.div_mul by lia.
    destruct (2 ^ (prec - 1)) as [| M1 | M1] eqn:HM1; [lia | | lia].
    destruct (Z.leb_spec (e + n + 1) (emax - prec)); [| lia].
    exists M1, (e + n + 1), d. split_and!; [done | done | lia | | | done].
    + apply digits2_bounds. lia.
    + replace (e + n + 1 - (e + n)) with 1 by lia. lia.
  - assert (Zpos (digits2_pos M0) = prec) as HD by (apply digits2_bounds; lia).
    rewrite HD. replace (fexp prec emax (prec + (e + n)) - (e + n)) with 0 by (unfold fexp; lia).
    cbn [shr shr_record_of_loc shr_m]. destruct (Z.leb_spec (e + n) (emax - prec)); [| lia].
    exists M0, (e + n), d. split_and!; [done | done | lia | done | | done].
    rewrite Z.sub_diag. lia.
Qed.
End rounding.

(** ** Whole numbers *)

(** The number [x] of a format with [prec] digits is the integer [z]. *)
Definition whole (prec : Z) (x : spec_float) (z : Z) : Prop :=
  match x with
  | S754_zero _ => z = 0
  | S754_finite s m e =>
      Zpos (digits2_pos m) = prec /\ e <= 0 /\ Zpos m = Z.abs z * 2 ^ (- e) /\ s = (z <? 0)
  | _ => False
  end.

Lemma digits2_scaled m z k :
  Zpos m = Z.abs z * 2 ^ k -> 0 <= k -> z <> 0 /\ Zpos (digits2_pos m) = Z.log2 (Z.abs z) + 1 + k.
Proof.
  intros Hm Hk. assert (z <> 0) as Hz by (intros ->; simpl in Hm; lia). split; [done |].
  rewrite digits2_log2, Hm, Z.log2_mul_pow2 by lia. lia.
Qed.

Lemma shl_align_value m e e' :
  e' <= e -> shl_align m e e' = ((shl_align m e e').1, e') /\ Zpos (shl_align m e e').1 = Zpos m * 2 ^ (e - e').
Proof.
  intros He. unfold shl_align. destruct (e' - e) as [| d | d] eqn:Hd; [| lia |]; simpl.
  - replace e' with e by lia. rewrite Z.sub_diag. split; [done | lia].
  - rewrite pos_shift_value. replace (e - e') with (Zpos d) by lia. done.
Qed.

Lemma whole_zero prec s : whole prec (S754_zero s) 0.
Proof. done. Qed.

Section whole.
Context (prec emax : Z).
Context (Hprec : 1 < prec) (Hemax : prec < emax).

Lemma round_aux_whole s m e z :
  Zpos m = Z.abs z * 2 ^ (- e) -> e <= 0 -> Z.abs z < 2 ^ prec ->
  prec <= Zpos (digits2_pos m) -> s = (z <? 0) ->
  whole prec (binary_round_aux prec emax s (Zpos m) e loc_Exact) z.
Proof.
  intros Hm He Hz Hd Hs. destruct (digits2_scaled m z (- e) Hm) as [Hz0 HD]; [lia |].
  assert (Z.log2 (Z.abs z) < prec) as Hlog by (apply Z.log2_lt_pow2; lia).
  pose proof (Z.log2_nonneg (Z.abs z)).
  set (n := Zpos (digits2_pos m) - prec). set (f := e + n).
  assert (Zpos m = Z.abs z * 2 ^ (- f) * 2 ^ n) as Hmf.
  { rewrite Hm, <- Z.mul_assoc, <- pow2_split by lia. f_equal. f_equal. lia. }
  pose proof (pow2_pos n ltac:(lia)).
  destruct (binary_round_aux_leading prec emax Hprec s m e loc_Exact n)
    as (M & E & d & -> & _ & HE & HM & Hval & Hd0); [lia | lia | unfold emin; lia | lia |].
  rewrite Hd0, Z.add_0_r in Hval by (done || (rewrite Hmf; by apply Z.mod_mul; lia)).
  rewrite Hmf, Z.div_mul in Hval by lia. fold f in Hval, HE.
  assert (E = f) as ->.
  { destruct (Z.eq_dec E f) as [| Hne]; [done | exfalso].
    apply digits2_bounds in HM as [[HMlo _] _].
    assert (2 ^ 1 <= 2 ^ (E - f)) as Hge by (apply Z.pow_le_mono_r; lia).
    assert (Z.abs z * 2 ^ (- f) < 2 ^ prec) as Hlt.
    { replace prec with (Z.log2 (Z.abs z) + 1 + - f) by lia. rewrite pow2_split by lia.
      apply Z.mul_lt_mono_pos_r; [apply pow2_pos; lia |]. apply Z.log2_spec. lia. }
    replace prec with (1 + (prec - 1)) in Hlt by lia. rewrite pow2_split in Hlt by lia. nia. }
  rewrite Z.sub_diag, Z.mul_1_r in Hval. simpl. split_and!; [done | lia | done | done].
Qed.

Lemma binary_round_whole s m e z :
  Zpos m = Z.abs z * 2 ^ (- e) -> e <= 0 -> Z.abs z < 2 ^ prec -> s = (z <? 0) ->
  whole prec (binary_round prec emax s m e) z.
Proof.
  intros Hm He Hz Hs. destruct (digits2_scaled m z (- e) Hm) as [Hz0 HD]; [lia |].
  assert (Z.log2 (Z.abs z) < prec) as Hlog by (apply Z.log2_lt_pow2; lia).
  pose proof (Z.log2_nonneg (Z.abs z)). unfold binary_round.
  set (f := Zpos (digits2_pos m) + e - prec).
  replace (fexp prec emax (Zpos (digits2_pos m) + e)) with f by (unfold fexp, emin; lia).
  destruct (Z.le_gt_cases e f) as [Hle | Hgt].
  - unfold shl_align. destruct (f - e) eqn:Hfe; [| | lia]; (apply round_aux_whole; [done | done | done | lia | done]).
  - destruct (shl_align_value m e f) as [-> Hv]; [lia |].
    destruct (shl_align m e f) as [m' e']. simpl in *.
    assert (Zpos m' = Z.abs z * 2 ^ (- f)) as Hm'.
    { rewrite Hv, Hm, <- Z.mul_assoc, <- pow2_split by lia. f_equal. f_equal. lia. }
    apply round_aux_whole; [done | lia | done | | done].
    destruct (digits2_scaled m' z (- f) Hm') as [_ ->]; lia.
Qed.

Lemma binary_normalize_whole v e z b :
  v = z * 2 ^ (- e) -> e <= 0 -> Z.abs z < 2 ^ prec -> whole prec (binary_normalize prec emax v e b) z.
Proof.
  intros Hv He Hz. pose proof (pow2_pos (- e) ltac:(lia)).
  assert (Z.abs v = Z.abs z * 2 ^ (- e)) as Habs by (rewrite Hv, Z.abs_mul; f_equal; lia).
  destruct v as [| m | m]; simpl.
  - nia.
  - apply binary_round_whole; [done .. |]. symmetry. apply Z.ltb_ge. nia.
  - apply binary_round_whole; [done .. |]. symmetry. apply Z.ltb_lt. nia.
Qed.

Lemma whole_signed s m e z :
  whole prec (S754_finite s m e) z -> cond_Zopp s (Zpos m) = z * 2 ^ (- e).
Proof.
  intros (_ & He & Hm & ->). rewrite Hm. destruct (Z.ltb_spec z 0); simpl.
  - rewrite Z.abs_neq by lia. lia.
  - by rewrite Z.abs_eq.
Qed.

Lemma aligned_whole s m e z ez :
  whole prec (S754_finite s m e) z -> ez <= e ->
  cond_Zopp s (Zpos (shl_align m e ez).1) = z * 2 ^ (- ez).
Proof.
  intros Hw Hez. pose proof (whole_signed _ _ _ _ Hw) as Hs. destruct Hw as (_ & He & _ & _).
  destruct (shl_align_value m e ez Hez) as [_ ->].
  replace (- ez) with (- e + (e - ez)) by lia. rewrite pow2_split, Z.mul_assoc, <- Hs by lia.
  destruct s; simpl; lia.
Qed.

Lemma whole_opp x z : whole prec x z -> whole prec (SFopp x) (- z).
Proof.
  destruct x as [s | s | | s m e]; simpl; [lia | done | done |]. intros (Hd & He & Hm & ->).
  pose proof (digits2_scaled m z (- e) Hm ltac:(lia)) as [Hz _].
  rewrite Z.abs_opp. split_and!; [done .. |].
  destruct (Z.ltb_spec z 0), (Z.ltb_spec (- z) 0); simpl; lia.
Qed.

Lemma SFadd_whole x y a b :
  whole prec x a -> whole prec y b -> Z.abs (a + b) < 2 ^ prec ->
  whole prec (SFadd prec emax x y) (a + b).
Proof.
  intros Hx Hy Hab. destruct x as [sx | | | sx mx ex], y as [sy | | | sy my ey]; try done.
  - simpl in Hx, Hy. subst. by destruct sx, sy.
  - simpl in Hx. subst. done.
  - simpl in Hy. subst. by rewrite Z.add_0_r.
  - simpl. pose proof Hx as (_ & Hex & _). pose proof Hy as (_ & Hey & _).
    apply binary_normalize_whole; [| lia | done].
    rewrite (aligned_whole _ _ _ _ _ Hx), (aligned_whole _ _ _ _ _ Hy) by lia. ring.
Qed.

Lemma SFsub_whole x y a b :
  whole prec x a -> whole prec y b -> Z.abs (a - b) < 2 ^ prec ->
  whole prec (SFsub prec emax x y) (a - b).
Proof.
  intros Hx Hy Hab. destruct x as [sx | | | sx mx ex], y as [sy | | | sy my ey]; try done.
  - simpl in Hx, Hy. subst. by destruct sx, sy.
  - simpl in Hx. subst. apply (whole_opp (S754_finite sy my ey)) in Hy. done.
  - simpl in Hy. subst. by rewrite Z.sub_0_r.
  - simpl. pose proof Hx as (_ & Hex & _). pose proof Hy as (_ & Hey & _).
    apply binary_normalize_whole; [| lia | done].
    rewrite (aligned_whole _ _ _ _ _ Hx), (aligned_whole _ _ _ _ _ Hy) by lia. ring.
Qed.

Lemma SFmul_whole x y a b :
  whole prec x a -> whole prec y b -> Z.abs (a * b) < 2 ^ prec ->
  whole prec (SFmul prec emax x y) (a * b).
Proof.
  intros Hx Hy Hab. destruct x as [sx | | | sx mx ex], y as [sy | | | sy my ey]; try done.
  - simpl in *. lia.
  - simpl in *. lia.
  - simpl in *. lia.
  - simpl in Hx, Hy. destruct Hx as (Hdx & Hex & Hmx & ->), Hy as (Hdy & Hey & Hmy & ->). simpl.
    pose proof (digits2_scaled mx a (- ex) Hmx ltac:(lia)) as [Ha _].
    pose proof (digits2_scaled my b (- ey) Hmy ltac:(lia)) as [Hb _].
    apply round_aux_whole; [| lia | done | |].
    + rewrite Pos2Z.inj_mul, Hmx, Hmy, Z.abs_mul, Z.opp_add_distr, pow2_split by lia. ring.
    + rewrite digits2_log2, Pos2Z.inj_mul. rewrite digits2_log2 in Hdx, Hdy.
      pose proof (Z.log2_mul_below (Zpos mx) (Zpos my)). lia.
    + destruct (Z.ltb_spec a 0), (Z.ltb_spec b 0), (Z.ltb_spec (a * b) 0); simpl; nia.
Qed.

(** Comparison of non-negative whole numbers. *)
Lemma fle_whole x y a b :
  whole prec x a -> whole prec y b -> 0 <= a -> 0 <= b -> fle x y = (a <=? b).
Proof.
  intros Hx Hy Ha Hb. unfold fle, SFleb.
  destruct x as [sx | | | sx mx ex], y as [sy | | | sy my ey]; try done; simpl in Hx, Hy.
  - by subst.
  - destruct Hy as (_ & Hey & Hmy & ->). destruct (digits2_scaled my b (- ey) Hmy) as [Hb0 _]; [lia |].
    cbn. destruct (Z.ltb_spec b 0); [lia |]. destruct (Z.leb_spec a b); [done | lia].
  - destruct Hx as (_ & Hex & Hmx & ->). destruct (digits2_scaled mx a (- ex) Hmx) as [Ha0 _]; [lia |].
    cbn. destruct (Z.ltb_spec a 0); [lia |]. destruct (Z.leb_spec a b); [lia | done].
  - destruct Hx as (Hdx & Hex & Hmx & ->), Hy as (Hdy & Hey & Hmy & ->).
    destruct (digits2_scaled mx a (- ex) Hmx) as [Ha0 HDx]; [lia |].
    destruct (digits2_scaled my b (- ey) Hmy) as [Hb0 HDy]; [lia |].
    simpl. destruct (Z.ltb_spec a 0), (Z.ltb_spec b 0); [lia .. |].
    rewrite Z.abs_eq in Hmx, Hmy, HDx, HDy by lia.
    pose proof (Z.log2_le_mono a b) as Hab. pose proof (Z.log2_le_mono b a) as Hba.
    destruct (Z.compare_spec ex ey) as [<- | Hlt | Hlt].
    + change (Pos.compare_cont Eq mx my) with (Zpos mx ?= Zpos my). rewrite Hmx, Hmy.
      pose proof (pow2_pos (- ex) ltac:(lia)).
      destruct (Z.compare_spec (a * 2 ^ (- ex)) (b * 2 ^ (- ex))), (Z.leb_spec a b); first [done | exfalso; nia].
    + destruct (Z.leb_spec a b); [done | lia].
    + destruct (Z.leb_spec a b); [lia | done].
Qed.
End whole.

(** ** Widening, floors and ceilings *)

(** The values [binary_round_aux 24 128] can return, subnormal ones included. *)
Definition fits32 (x : float32) : Prop :=
  match x with
  | S754_finite _ m e => Zpos m < 2 ^ 24 /\ -149 <= e <= 104
  | _ => True
  end.

(** The conversion of an integer to [int]. *)
Definition int_clamp (v : Z) : Z := if (- 2 ^ 63 <=? v) && (v <? 2 ^ 63) then v else - 2 ^ 63.

Lemma f32_div_fits x y : fits32 (f32_div x y).
Proof.
  unfold f32_div. destruct (SFdiv 24 128 x y) as [| | | s m e] eqn:Hd; try done.
  destruct x as [| | | sx mx ex], y as [| | | sy my ey]; try done. revert Hd. unfold SFdiv.
  destruct (SFdiv_core_binary 24 128 (Zpos mx) ex (Zpos my) ey) as [[q e'] l] eqn:Hc. intros Hd.
  assert (0 <= q) as Hq.
  { unfold SFdiv_core_binary in Hc.
    match type of Hc with (let '(_, _) := Z.div_eucl ?a _ in _) = _ =>
      assert (0 <= a) as Ha; [| pose proof (Z_div_pos a (Zpos my)) as Hp; unfold Z.div in Hp;
        destruct (Z.div_eucl a (Zpos my)); simplify_eq; lia] end.
    destruct (ex - ey - _); [lia | apply Z.shiftl_nonneg; lia | lia]. }
  apply binary_round_aux_bound in Hd as (_ & Hm & He); [| lia | done]. unfold emin in He. simpl. lia.
Qed.

Lemma f64_of_f32_value s m e :
  fits32 (S754_finite s m e) ->
  exists m' e', e' <= e /\ Zpos (digits2_pos m') = 53 /\ Zpos m' = Zpos m * 2 ^ (e - e') /\
    forall s, f64_of_f32 (S754_finite s m e) = S754_finite s m' e'.
Proof.
  intros [Hm He]. pose proof (proj2 (digits2_le m 24 ltac:(lia)) Hm) as Hd.
  pose proof (Pos2Z.is_pos (digits2_pos m)).
  set (e' := Zpos (digits2_pos m) + e - 53).
  destruct (shl_align_value m e e') as [Hs Hv]; [lia |].
  exists (shl_align m e e').1, e'.
  assert (Zpos (digits2_pos (shl_align m e e').1) = 53) as Hdig.
  { rewrite digits2_log2, Hv, Z.log2_mul_pow2 by lia. pose proof (digits2_log2 m). lia. }
  split_and!; [lia | done | done |]. intros s'. simpl. unfold binary_round.
  replace (fexp 53 1024 (Zpos (digits2_pos m) + e)) with e' by (unfold fexp, emin; lia).
  rewrite Hs. apply binary_round_aux_exact; [done | lia].
Qed.

Lemma int_of_whole x z : whole 53 x z -> Z.abs z < 2 ^ 53 -> int_of_f64 x = z.
Proof.
  destruct x as [s | | | s m e]; simpl; [done | done | done |]. intros (_ & He & Hm & ->) Hz.
  assert (Z.shiftl (Zpos m) e = Z.abs z) as ->.
  { rewrite Hm, <- Z.shiftl_mul_pow2, Z.shiftl_shiftl by lia.
    replace (- e + e) with 0 by lia. apply Z.shiftl_0_r. }
  assert ((if z <? 0 then - Z.abs z else Z.abs z) = z) as -> by (destruct (Z.ltb_spec z 0); lia).
  destruct (Z.leb_spec (- 2 ^ 63) z), (Z.ltb_spec z (2 ^ 63)); simpl; lia.
Qed.

(** [int(math.Floor(float64(x)))] *)
Lemma int_floor_widen s m e :
  fits32 (S754_finite s m e) ->
  int_of_f64 (math_Floor (f64_of_f32 (S754_finite s m e))) =
  int_clamp (Z.shiftl (cond_Zopp s (Zpos m)) e).
Proof.
  intros Hf. destruct (f64_of_f32_value s m e Hf) as (m' & e' & He' & Hd & Hm' & ->).
  assert (Z.shiftl (cond_Zopp s (Zpos m')) e' = Z.shiftl (cond_Zopp s (Zpos m)) e) as Hsh.
  { replace (cond_Zopp s (Zpos m')) with (Z.shiftl (cond_Zopp s (Zpos m)) (e - e')).
    - rewrite Z.shiftl_shiftl by lia. f_equal. lia.
    - rewrite Z.shiftl_mul_pow2, Hm' by lia. destruct s; simpl; lia. }
  unfold math_Floor. destruct (Z.leb_spec 0 e') as [Hpos | Hneg].
  - rewrite <- Hsh. unfold int_of_f64, int_clamp. rewrite !Z.shiftl_mul_pow2 by lia.
    destruct s; cbn [cond_Zopp negb Z.opp]; [rewrite Z.mul_opp_l |]; done.
  - assert (floor_Z s m' e' = Z.shiftl (cond_Zopp s (Zpos m)) e) as -> by (rewrite <- Hsh; by destruct s).
    rewrite <- Hsh. apply digits2_bounds in Hd as [[_ Hlt] _].
    set (z := Z.shiftl (cond_Zopp s (Zpos m')) e').
    assert (Z.abs z < 2 ^ 53) as Hz.
    { subst z. replace e' with (- (- e')) by lia. rewrite <- Z.shiftr_opp_r, Z.opp_involutive.
      rewrite Z.shiftr_div_pow2 by lia. pose proof (pow2_pos (- e') ltac:(lia)).
      assert (2 ^ 1 <= 2 ^ (- e')) by (apply Z.pow_le_mono_r; lia).
      pose proof (Z.div_mod (cond_Zopp s (Zpos m')) (2 ^ (- e')) ltac:(lia)).
      pose proof (Z.mod_pos_bound (cond_Zopp s (Zpos m')) (2 ^ (- e')) ltac:(lia)).
      assert (Z.abs (cond_Zopp s (Zpos m')) < 2 ^ 53) by (destruct s; simpl; lia). nia. }
    rewrite (int_of_whole _ z); [| apply binary_normalize_whole; lia | done].
    unfold int_clamp. destruct (Z.leb_spec (- 2 ^ 63) z), (Z.ltb_spec z (2 ^ 63)); simpl; lia.
Qed.

Lemma f64_of_f32_opp x : fits32 x -> SFopp (f64_of_f32 x) = f64_of_f32 (SFopp x).
Proof.
  destruct x as [| | | s m e]; [done .. |]. intros Hf.
  destruct (f64_of_f32_value s m e Hf) as (m' & e' & _ & _ & _ & Hv). rewrite Hv. cbn [SFopp]. by rewrite Hv.
Qed.

(** A float that is a floor is an integer, so negating it negates the [int],
    unless it is the one value the conversion cannot represent. *)
Lemma int_of_f64_opp x v :
  int_of_f64 x = v -> - 2 ^ 63 < v -> int_of_f64 (SFopp x) = - v.
Proof.
  destruct x as [| | | s m e]; simpl; [lia | lia | lia |]. set (t := Z.shiftl (Zpos m) e).
  destruct s; simpl;
    repeat match goal with |- context [?a <=? ?b] => destruct (Z.leb_spec a b) end;
    repeat match goal with |- context [?a <? ?b] => destruct (Z.ltb_spec a b) end; simpl; lia.
Qed.

(** [int(math.Ceil(float64(x)))] *)
Lemma int_ceil_widen s m e :
  fits32 (S754_finite s m e) -> - 2 ^ 63 < Z.shiftl (cond_Zopp (negb s) (Zpos m)) e < 2 ^ 63 ->
  int_of_f64 (math_Ceil (f64_of_f32 (S754_finite s m e))) =
  - Z.shiftl (cond_Zopp (negb s) (Zpos m)) e.
Proof.
  intros Hf Hr. unfold math_Ceil. rewrite f64_of_f32_opp by done. simpl SFopp at 2.
  apply int_of_f64_opp; [| lia]. rewrite int_floor_widen by done. unfold int_clamp.
  destruct (Z.leb_spec (- 2 ^ 63) (Z.shiftl (cond_Zopp (negb s) (Zpos m)) e)); [| lia].
  destruct (Z.ltb_spec (Z.shiftl (cond_Zopp (negb s) (Zpos m)) e) (2 ^ 63)); [done | lia].
Qed.

(** The integer a [float32] is rounded down to is far below the largest [int]
    or a multiple of a large power of two, so it is never near that end. *)
Lemma int_floor_range x :
  fits32 x -> - 2 ^ 63 <= int_of_f64 (math_Floor (f64_of_f32 x)) <= 2 ^ 63 - 2 ^ 39.
Proof.
  intros Hf. destruct x as [s | s | | s m e]; [by simpl; lia .. |]. rewrite int_floor_widen by done.
  destruct Hf as [Hm He]. unfold int_clamp. set (v := Z.shiftl (cond_Zopp s (Zpos m)) e).
  destruct (Z.leb_spec (- 2 ^ 63) v), (Z.ltb_spec v (2 ^ 63)); simpl; try lia. split; [done |].
  destruct (Z.le_gt_cases 39 e) as [Hlarge | Hsmall].
  - subst v. rewrite Z.shiftl_mul_pow2 in * by lia.
    replace e with (e - 39 + 39) in * by lia. rewrite pow2_split in * by lia.
    set (k := cond_Zopp s (Zpos m) * 2 ^ (e - 39)) in *.
    rewrite Z.mul_assoc in *. fold k in H, H0 |- *. lia.
  - assert (v <= Z.shiftl (Zpos m) e) as Hv.
    { subst v. destruct (Z.le_gt_cases 0 e).
      - rewrite !Z.shiftl_mul_pow2 by lia. pose proof (pow2_pos e ltac:(lia)). destruct s; simpl; nia.
      - replace e with (- (- e)) by lia. rewrite !Z.shiftl_opp_r, !Z.shiftr_div_pow2 by lia.
        apply Z.div_le_mono; [apply pow2_pos; lia |]. destruct s; simpl; lia. }
    assert (Z.shiftl (Zpos m) e <= 2 ^ 24 * 2 ^ 38) as Hv2; [| lia].
    destruct (Z.le_gt_cases 0 e).
    + rewrite Z.shiftl_mul_pow2 by lia. apply Z.mul_le_mono_nonneg; [lia | lia | |].
      * apply Z.pow_nonneg. lia.
      * apply Z.pow_le_mono_r; lia.
    + replace e with (- (- e)) by lia. rewrite Z.shiftl_opp_r, Z.shiftr_div_pow2 by lia.
      transitivity (Zpos m); [| lia]. apply Z.div_le_upper_bound; [apply pow2_pos; lia |].
      pose proof (pow2_pos (- e) ltac:(lia)). nia.
Qed.

(** ** Quotients of whole numbers *)

(** Rounding the quotient [a / k] to [g] fractional bits, down or up by at most
    one unit and not at all when it is exact, keeps its floor and its ceiling
    when the unit is below [1 / (2 * k)]. *)
Lemma rounded_quotient a k g d :
  0 < a -> 0 < k -> 0 <= g -> 2 * k < 2 ^ g -> d = 0 \/ d = 1 ->
  (a mod k = 0 -> d = 0) ->
  (a * 2 ^ g / k + d) / 2 ^ g = a / k /\ (- (a * 2 ^ g / k + d)) / 2 ^ g = (- a) / k.
Proof.
  intros Ha Hk Hg Hsmall Hd Hex. set (p := 2 ^ g) in *. assert (0 < p) as Hp by lia.
  pose proof (Z.div_mod (a * p) k ltac:(lia)) as Hq. pose proof (Z.mod_pos_bound (a * p) k Hk) as Hr.
  set (q := a * p / k) in *. set (r := (a * p) mod k) in *.
  pose proof (Z.div_mod a k ltac:(lia)) as Ha1. pose proof (Z.mod_pos_bound a k Hk) as Hr1.
  set (n := a / k) in *. set (t := a mod k) in *.
  assert (t = 0 -> q = n * p) as Hq0 by (intros Ht; nia).
  assert (0 < t -> n * p + 1 <= q /\ q + 2 <= (n + 1) * p) as Hq1 by (intros Ht; split; nia).
  assert (t = 0 \/ 0 < t) as [Ht | Ht] by lia.
  - specialize (Hq0 Ht). rewrite (Hex Ht), Z.add_0_r, Hq0. split; [apply Z.div_mul; lia |].
    rewrite <- Z.mul_opp_l, Z.div_mul by lia.
    apply (Z.div_unique_pos _ _ _ 0); lia.
  - specialize (Hq1 Ht). split.
    + symmetry. apply (Z.div_unique_pos _ _ _ (q + d - n * p)); lia.
    + transitivity (- n - 1); [symmetry |].
      * apply (Z.div_unique_pos _ _ _ (- (q + d) - p * (- n - 1))); lia.
      * apply (Z.div_unique_pos _ _ _ (k - t)); lia.
Qed.

(** The exponent of a whole [float32]. *)
Lemma whole_exponent s m e z k :
  whole 24 (S754_finite s m e) z -> Z.abs z < 2 ^ k -> 0 <= k -> -23 <= e <= k - 24.
Proof.
  intros (Hd & He & Hm & _) Hz Hk. destruct (digits2_scaled m z (- e) Hm) as [Hz0 HD]; [lia |].
  pose proof (Z.log2_nonneg (Z.abs z)).
  assert (Z.log2 (Z.abs z) < k) by (apply Z.log2_lt_pow2; lia). lia.
Qed.

(** The quotient of two scaled integers, at [g] fractional bits. *)
Lemma scaled_quotient mx my A k g n j q r :
  mx = A * 2 ^ g * 2 ^ j -> my * 2 ^ n = k * 2 ^ j ->
  mx = my * q + r -> 0 <= r < my -> 0 < k -> 0 <= n -> 0 <= j -> 0 <= g ->
  q / 2 ^ n = A * 2 ^ g / k /\ (A mod k = 0 -> q mod 2 ^ n = 0 /\ r = 0).
Proof.
  intros Hmx Hmy Hq Hr Hk Hn Hj Hg.
  pose proof (pow2_pos n Hn) as Hpn. pose proof (pow2_pos j Hj) as Hpj. split.
  - rewrite (Z.div_unique_pos mx my q r Hr Hq), Zdiv_Zdiv by lia.
    rewrite Hmy, Hmx. by rewrite Z.div_mul_cancel_r by lia.
  - intros Hmod. apply Z.mod_divide in Hmod as [c Hc]; [| lia].
    destruct (Z.div_mod_unique my q (c * 2 ^ g * 2 ^ n) r 0) as [-> ->]; [lia | lia | |].
    + rewrite <- Hq, Hmx, Hc. replace (my * (c * 2 ^ g * 2 ^ n)) with (c * 2 ^ g * (my * 2 ^ n)) by ring.
      rewrite Hmy. ring.
    + split; [| done]. apply Z.mod_mul. lia.
Qed.

Lemma shiftl_aligned M E f v :
  f <= E -> f <= 0 -> M * 2 ^ (E - f) = v -> Z.shiftl M E = v / 2 ^ (- f).
Proof.
  intros HE Hf <-. replace E with (E - f + f) at 1 by lia.
  rewrite <- Z.shiftl_shiftl, (Z.shiftl_mul_pow2 M) by lia.
  rewrite <- (Z.opp_involutive f) at 2. by rewrite Z.shiftl_opp_r, Z.shiftr_div_pow2 by lia.
Qed.

(** Dividing a whole number of less than 22 digits by a positive one: the
    mantissa and exponent of the result have the floor and the ceiling of the
    exact quotient. *)
Lemma f32_div_whole x y a k :
  whole 24 x a -> whole 24 y k -> a <> 0 -> Z.abs a < 2 ^ 22 -> 0 < k -> k < 2 ^ 24 ->
  exists m e, f32_div x y = S754_finite (a <? 0) m e /\
    Z.shiftl (Zpos m) e = Z.abs a / k /\ Z.shiftl (Zneg m) e = (- Z.abs a) / k.
Proof.
  intros Hx Hy Ha Hsmall Hk Hk24.
  destruct x as [| | | sx mx ex]; [done .. |]. destruct y as [sy | | | sy my ey]; [simpl in Hy; lia | done | done |].
  pose proof (whole_exponent _ _ _ _ 22 Hx Hsmall ltac:(lia)) as Hex'.
  pose proof (whole_exponent _ _ _ _ 24 Hy ltac:(lia) ltac:(lia)) as Hey'.
  destruct Hx as (Hdx & Hex & Hmx & ->), Hy as (Hdy & Hey & Hmy & ->).
  destruct (Z.ltb_spec k 0); [lia |]. rewrite (Z.abs_eq k) in Hmy by lia.
  pose proof (proj1 (digits2_bounds mx 24) Hdx) as [Hbx _].
  pose proof (proj1 (digits2_bounds my 24) Hdy) as [Hby _].
  set (A := Z.abs a) in *.
  unfold f32_div, SFdiv, SFdiv_core_binary. simpl Zdigits2. rewrite Hdx, Hdy.
  replace (Z.min (fexp 24 128 (24 + ex - (24 + ey))) (ex - ey)) with (ex - ey - 24) by (unfold fexp, emin; lia).
  replace (ex - ey - (ex - ey - 24)) with 24 by lia. cbv iota. rewrite Z.shiftl_mul_pow2 by lia.
  pose proof (Z.div_mod (Zpos mx * 2 ^ 24) (Zpos my) ltac:(lia)) as Hq.
  pose proof (Z.mod_pos_bound (Zpos mx * 2 ^ 24) (Zpos my) ltac:(lia)) as Hr.
  unfold Z.div, Z.modulo in Hq, Hr. destruct (Z.div_eucl (Zpos mx * 2 ^ 24) (Zpos my)) as [q r].
  assert (2 ^ 23 <= q < 2 ^ 25) as Hqb by nia.
  destruct q as [| mq | mq]; [lia | | lia].
  set (n := Zpos (digits2_pos mq) - 24).
  assert (0 <= n <= 1) as Hn.
  { pose proof (digits2_le mq 25 ltac:(lia)). pose proof (digits2_le mq 23 ltac:(lia)). lia. }
  destruct (binary_round_aux_leading 24 128 ltac:(lia) (xorb (a <? 0) false) mq (ex - ey - 24)
    (new_location (Zpos my) r) n) as (M & E & d & -> & Hd & HE & HM & Hval & Hd0);
    [lia | lia | unfold emin; lia | lia |].
  rewrite xorb_false_r. exists M, E. split; [done |].
  set (f := ex - ey - 24 + n) in *. set (g := - f).
  destruct (scaled_quotient (Zpos mx * 2 ^ 24) (Zpos my) A k g n (n - ey) (Zpos mq) r)
    as [Hq' Hex0]; [| | done | done | lia | lia | lia | lia |].
  { rewrite Hmx, <- !Z.mul_assoc, <- !pow2_split by lia. f_equal. f_equal. lia. }
  { rewrite Hmy, <- !Z.mul_assoc, <- !pow2_split by lia. f_equal. f_equal. lia. }
  assert (2 * k < 2 ^ g) as Hkg.
  { pose proof (proj1 (digits2_bounds M 24) HM) as [[HMlo _] _]. rewrite Hq' in Hval.
    assert (2 ^ 0 <= 2 ^ (E - f)) by (apply Z.pow_le_mono_r; lia).
    pose proof (Z.mul_div_le (A * 2 ^ g) k Hk). nia. }
  destruct (rounded_quotient A k g d) as [<- <-]; [lia | done | lia | done | done | |].
  { intros [Hmod ->]%Hex0. apply Hd0; [| done].
    unfold new_location, new_location_even, new_location_odd. by destruct (Z.even _). }
  rewrite <- Hq'. split; apply shiftl_aligned; [lia | lia | done | lia | lia |].
  change (Zneg M) with (- Zpos M). rewrite Z.mul_opp_l, Hval. done.
Qed.

(** ** The operations of [GoFloat] on whole numbers *)

Lemma f32_of_Z_whole z : Z.abs z < 2 ^ 24 -> whole 24 (f32_of_Z z) z.
Proof. intros Hz. apply binary_normalize_whole; simpl; lia. Qed.

Lemma widen_whole x z : whole 24 x z -> Z.abs z < 2 ^ 24 -> whole 53 (f64_of_f32 x) z.
Proof.
  destruct x as [| | | s m e]; simpl; [done .. |]. intros (_ & He & Hm & Hs) Hz.
  by apply binary_round_whole; [lia | lia | | | lia |].
Qed.

(** [int(math.Floor(float64(x / y)))] is the quotient rounded down. *)
Lemma floor_div_whole x y a k :
  whole 24 x a -> whole 24 y k -> Z.abs a < 2 ^ 22 -> 0 < k < 2 ^ 24 ->
  int_of_f64 (math_Floor (f64_of_f32 (f32_div x y))) = a / k.
Proof.
  intros Hx Hy Ha Hk. pose proof (f32_div_fits x y) as Hf. destruct (Z.eq_dec a 0) as [-> | Hne].
  - destruct x as [| | | s m e]; [| done | done |].
    + destruct y; simpl in *; try done; lia.
    + destruct Hx as (_ & He & Hm & _). simpl in Hm. lia.
  - destruct (f32_div_whole x y a k) as (m & e & Hd & Hfl & Hce); [done | done | done | lia | lia | lia |].
    rewrite Hd in Hf |- *. rewrite int_floor_widen by done.
    assert (Z.shiftl (cond_Zopp (a <? 0) (Zpos m)) e = a / k) as ->.
    { destruct (Z.ltb_spec a 0); cbn [cond_Zopp]; [rewrite Pos2Z.opp_pos, Hce | rewrite Hfl]; f_equal; lia. }
    pose proof (Z.div_mod a k ltac:(lia)). pose proof (Z.mod_pos_bound a k ltac:(lia)).
    unfold int_clamp. destruct (Z.leb_spec (- 2 ^ 63) (a / k)), (Z.ltb_spec (a / k) (2 ^ 63)); simpl; nia.
Qed.

(** [int(math.Ceil(float64(x / y)))] is the quotient rounded up. *)
Lemma ceil_div_whole x y a k :
  whole 24 x a -> whole 24 y k -> 0 < a < 2 ^ 22 -> 0 < k < 2 ^ 24 ->
  int_of_f64 (math_Ceil (f64_of_f32 (f32_div x y))) = - (- a / k).
Proof.
  intros Hx Hy Ha Hk. pose proof (f32_div_fits x y) as Hf.
  destruct (f32_div_whole x y a k) as (m & e & Hd & _ & Hce); [done | done | lia | lia | lia | lia |].
  rewrite Hd in Hf |- *. destruct (Z.ltb_spec a 0); [lia |]. rewrite Z.abs_eq in Hce by lia.
  pose proof (Z.div_mod (- a) k ltac:(lia)). pose proof (Z.mod_pos_bound (- a) k ltac:(lia)).
  rewrite int_ceil_widen; [cbn [cond_Zopp negb]; by rewrite Pos2Z.opp_pos, Hce | done |].
  cbn [cond_Zopp negb]. rewrite Pos2Z.opp_pos, Hce. nia.
Qed.
