(* ===== verification/Player.v ===== *)
(** * Players: transforms, runtime state and input validation

    Models [internal/game/player]: [types.go], [player.go] and [validate.go].
    The [sync.RWMutex] of [PlayerState] only guards single-field accesses made
    by the room loop, so every method is one atomic update of the record. *)

From Stdlib Require Import ZArith Lia.
From stdpp Require Import base strings gmap.
From S2P Require Import Prelude.
From S2P Require Import GoFloat.

Local Open Scope string_scope.
Local Open Scope Z_scope.
Local Open Scope go_scope.

(** Identifiers are Go strings; the distinct named types of the packages are
    converted into each other freely by the source. *)
Abbreviation PlayerID := string.
Abbreviation UserID := string.

(** [time.Time]: nanoseconds since Go's zero time, [time.Duration]: nanoseconds. *)
Abbreviation Time := Z.
Abbreviation Duration := Z.

Definition zero_time : Time := 0.

(** ** Data *)

Record Vector3 := MkVector3 { v_X : float32; v_Y : float32; v_Z : float32 }.

Record Quaternion := MkQuaternion {
  q_X : float32; q_Y : float32; q_Z : float32; q_W : float32 }.

Definition IdentityQuaternion : Quaternion :=
  MkQuaternion f32_zero f32_zero f32_zero f32_one.

Record PlayerTransform := MkPlayerTransform {
  t_Position : Vector3;
  t_Rotation : Quaternion;
  t_Tick : Z }.

Record PlayerInput := MkPlayerInput {
  in_Seq : Z;
  in_Transform : PlayerTransform;
  in_Timestamp : Z }.

Inductive PlayerStatus :=
  | PlayerStatusJoining | PlayerStatusActive | PlayerStatusLeaving | PlayerStatusGone.

#[global] Instance PlayerStatus_eq_dec : EqDecision PlayerStatus.
Proof. solve_decision. Defined.

Definition PlayerStatus_String (s : PlayerStatus) : string :=
  match s with
  | PlayerStatusJoining => "joining"
  | PlayerStatusActive => "active"
  | PlayerStatusLeaving => "leaving"
  | PlayerStatusGone => "gone"
  end.

Record PlayerState := MkPlayerState {
  p_ID : PlayerID;
  p_UserID : UserID;
  p_Status : PlayerStatus;
  p_JoinedAt : Time;
  p_Transform : PlayerTransform;
  p_Version : Z;
  p_LastSeen : Time }.

(** ** Operations *)

Definition origin : Vector3 := MkVector3 f32_zero f32_zero f32_zero.

Definition NewPlayerState (id : PlayerID) (userID : UserID) (now : Time) : PlayerState :=
  {| p_ID := id;
     p_UserID := userID;
     p_Status := PlayerStatusJoining;
     p_JoinedAt := now;
     p_Transform := MkPlayerTransform origin IdentityQuaternion 0;
     p_Version := 0;
     p_LastSeen := now |}.

Definition Snapshot (p : PlayerState) : PlayerTransform * Z :=
  (p_Transform p, p_Version p).

(** [now] is the [time.Now()] the method reads. *)
Definition UpdateTransform (p : PlayerState) (transform : PlayerTransform) (tick : Z)
    (now : Time) : PlayerState :=
  {| p_ID := p_ID p;
     p_UserID := p_UserID p;
     p_Status := p_Status p;
     p_JoinedAt := p_JoinedAt p;
     p_Transform := MkPlayerTransform (t_Position transform) (t_Rotation transform) tick;
     p_Version := u32 (p_Version p + 1);
     p_LastSeen := now |}.

Definition SetStatus (p : PlayerState) (status : PlayerStatus) : PlayerState :=
  {| p_ID := p_ID p;
     p_UserID := p_UserID p;
     p_Status := status;
     p_JoinedAt := p_JoinedAt p;
     p_Transform := p_Transform p;
     p_Version := p_Version p;
     p_LastSeen := p_LastSeen p |}.

Definition MarkStatus (p : PlayerState) (status : PlayerStatus) : PlayerState :=
  SetStatus p status.

Definition GetStatus (p : PlayerState) : PlayerStatus := p_Status p.

(** ** Validation *)

Inductive axis := AxX | AxY | AxZ | AxW.

Inductive PlayerError :=
  | ErrPlayerIDEmpty
  | ErrPlayerIDTooLong (len : nat)
  | ErrUserIDEmpty
  | ErrUserIDTooLong (len : nat)
  | ErrCoordNotFinite (a : axis)
  | ErrQuaternionNotFinite (a : axis)
  | ErrZeroQuaternion
  | ErrPositionInvalid (e : PlayerError)
  | ErrRotationInvalid (e : PlayerError)
  | ErrTimestampNotPositive (t : Z).

Definition ValidatePlayerID (id : PlayerID) : option PlayerError :=
  guard_err (String.eqb id "") ErrPlayerIDEmpty >>?
  guard_err (256 <? String.length id)%nat (ErrPlayerIDTooLong (String.length id)).

Definition ValidateUserID (id : UserID) : option PlayerError :=
  guard_err (String.eqb id "") ErrUserIDEmpty >>?
  guard_err (256 <? String.length id)%nat (ErrUserIDTooLong (String.length id)).

(** [math.IsNaN(float64(x)) || math.IsInf(float64(x), 0)] *)
Definition nan_or_inf (x : float32) : bool :=
  IsNaN (f64_of_f32 x) || IsInf (f64_of_f32 x).

Definition ValidateVector3 (v : Vector3) : option PlayerError :=
  guard_err (nan_or_inf (v_X v)) (ErrCoordNotFinite AxX) >>?
  guard_err (nan_or_inf (v_Y v)) (ErrCoordNotFinite AxY) >>?
  guard_err (nan_or_inf (v_Z v)) (ErrCoordNotFinite AxZ).

Definition ValidateQuaternion (q : Quaternion) : option PlayerError :=
  guard_err (nan_or_inf (q_X q)) (ErrQuaternionNotFinite AxX) >>?
  guard_err (nan_or_inf (q_Y q)) (ErrQuaternionNotFinite AxY) >>?
  guard_err (nan_or_inf (q_Z q)) (ErrQuaternionNotFinite AxZ) >>?
  guard_err (nan_or_inf (q_W q)) (ErrQuaternionNotFinite AxW) >>?
  guard_err (feq (q_X q) f32_zero && feq (q_Y q) f32_zero &&
             feq (q_Z q) f32_zero && feq (q_W q) f32_zero) ErrZeroQuaternion.

Definition ValidatePlayerTransform (t : PlayerTransform) : option PlayerError :=
  (ErrPositionInvalid <$> ValidateVector3 (t_Position t)) >>?
  (ErrRotationInvalid <$> ValidateQuaternion (t_Rotation t)).

Definition ValidatePlayerInput (input : PlayerInput) : option PlayerError :=
  ValidatePlayerTransform (in_Transform input) >>?
  guard_err (in_Timestamp input <=? 0) (ErrTimestampNotPositive (in_Timestamp input)).

(** ** Facts *)

Definition Vector3_binary32 (v : Vector3) : Prop :=
  binary32 (v_X v) /\ binary32 (v_Y v) /\ binary32 (v_Z v).

Definition Quaternion_binary32 (q : Quaternion) : Prop :=
  binary32 (q_X q) /\ binary32 (q_Y q) /\ binary32 (q_Z q) /\ binary32 (q_W q).

Definition Transform_binary32 (t : PlayerTransform) : Prop :=
  Vector3_binary32 (t_Position t) /\ Quaternion_binary32 (t_Rotation t).

Definition Vector3_finite (v : Vector3) : bool :=
  finite (v_X v) && finite (v_Y v) && finite (v_Z v).

Definition Quaternion_finite (q : Quaternion) : bool :=
  finite (q_X q) && finite (q_Y q) && finite (q_Z q) && finite (q_W q).

Definition Quaternion_is_zero (q : Quaternion) : bool :=
  feq (q_X q) f32_zero && feq (q_Y q) f32_zero &&
  feq (q_Z q) f32_zero && feq (q_W q) f32_zero.

Lemma nan_or_inf_finite x : binary32 x -> nan_or_inf x = negb (finite x).
Proof. apply widen_finite. Qed.

Lemma ValidateVector3_ok v :
  Vector3_binary32 v -> ValidateVector3 v = None <-> Vector3_finite v = true.
Proof.
  intros (HX & HY & HZ). unfold ValidateVector3, Vector3_finite.
  rewrite !or_return_None, !guard_err_None, !nan_or_inf_finite by done.
  rewrite !negb_false_iff, !andb_true_iff. tauto.
Qed.

Lemma ValidateQuaternion_ok q :
  Quaternion_binary32 q ->
  ValidateQuaternion q = None <-> Quaternion_finite q = true /\ Quaternion_is_zero q = false.
Proof.
  intros (HX & HY & HZ & HW). unfold ValidateQuaternion, Quaternion_finite, Quaternion_is_zero.
  rewrite !or_return_None, !guard_err_None, !nan_or_inf_finite by done.
  rewrite !negb_false_iff, !andb_true_iff. tauto.
Qed.

(** [ValidatePlayerInput] accepts exactly the inputs whose position and rotation
    are finite, whose rotation is not the zero quaternion, and whose client
    timestamp is positive. *)
Lemma ValidatePlayerInput_ok input :
  Transform_binary32 (in_Transform input) ->
  ValidatePlayerInput input = None <->
    Vector3_finite (t_Position (in_Transform input)) = true /\
    Quaternion_finite (t_Rotation (in_Transform input)) = true /\
    Quaternion_is_zero (t_Rotation (in_Transform input)) = false /\
    0 < in_Timestamp input.
Proof.
  intros [HP HR]. unfold ValidatePlayerInput, ValidatePlayerTransform.
  rewrite !or_return_None, !fmap_None, ValidateVector3_ok, ValidateQuaternion_ok by done.
  rewrite guard_err_None, Z.leb_gt. tauto.
Qed.

Lemma UpdateTransform_Version p t tick now :
  0 <= p_Version p < 2 ^ 32 - 1 ->
  p_Version (UpdateTransform p t tick now) = p_Version p + 1.
Proof. intros. simpl. apply u32_small. lia. Qed.
