(* ===== verification/Object.v ===== *)
(** * Room objects and lease locks

    Models [internal/game/object]: [types.go], [manager.go] ([ObjectManager])
    and [lock.go] ([LockManager]).

    [LockManager] holds a pointer to the room's [ObjectManager] and mutates the
    [ObjectState] values the manager owns.  There is one such manager per room,
    so the shared store is the [lm_objects] map of the lock manager's state:
    every [*ObjectState] is named by its key in that map, and a mutation through
    the pointer is an update at the key. *)

From Stdlib Require Import ZArith Lia.
From stdpp Require Import base strings gmap fin_maps list.
From S2P Require Import Prelude.
From S2P Require Import GoFloat.
From S2P Require Import Player.

Local Open Scope string_scope.
Local Open Scope Z_scope.
Local Open Scope go_scope.

Abbreviation ObjectID := string.
Abbreviation ObjectKind := string.

(** ** Data *)

Inductive ObjectStatus := ObjectStatusActive | ObjectStatusInactive.

#[global] Instance ObjectStatus_eq_dec : EqDecision ObjectStatus.
Proof. solve_decision. Defined.

Record Vec3 := MkVec3 { o3_X : float32; o3_Y : float32; o3_Z : float32 }.
Record Quat := MkQuat { oq_X : float32; oq_Y : float32; oq_Z : float32; oq_W : float32 }.

Definition IdentityQuat : Quat := MkQuat f32_zero f32_zero f32_zero f32_one.

Record ObjectTransform := MkObjectTransform { ot_Position : Vec3; ot_Rotation : Quat }.

Record LockState := MkLockState {
  l_LockedBy : string;
  l_SessionID : string;
  l_LockUntil : Time }.

(** [LockState{}] *)
Definition unlocked : LockState := MkLockState "" "" zero_time.

(** [LockUntil.After(now)] is [now < LockUntil]. *)
Definition IsLocked (ls : LockState) (now : Time) : bool :=
  negb (String.eqb (l_LockedBy ls) "") && (now <? l_LockUntil ls).

Definition IsOwnedBy (ls : LockState) (userID : string) (now : Time) : bool :=
  IsLocked ls now && String.eqb (l_LockedBy ls) userID.

Record LockLease := MkLockLease { lease_TTL : Duration; lease_MaxLocksPerUser : Z }.

Definition DefaultLockLease : LockLease :=
  MkLockLease (10 * 1000000000) 3.

Record ObjectState := MkObjectState {
  o_ID : ObjectID;
  o_Kind : ObjectKind;
  o_Transform : ObjectTransform;
  o_CustomState : list Byte.byte;
  o_Status : ObjectStatus;
  o_Lock : LockState;
  o_Version : Z }.

(** Field assignments followed by [Version++], the shape of every mutation. *)
Definition o_bump (o : ObjectState) : Z := u32 (o_Version o + 1).

Definition o_set_lock (o : ObjectState) (l : LockState) (v : Z) : ObjectState :=
  MkObjectState (o_ID o) (o_Kind o) (o_Transform o) (o_CustomState o) (o_Status o) l v.

(** ** ObjectManager *)

Abbreviation ObjectManager := (gmap ObjectID ObjectState).

Inductive ObjectError :=
  | ErrObjectExists (id : ObjectID)
  | ErrObjectNotFound (id : ObjectID).

Module ObjectManager.

Definition NewObjectManager : ObjectManager := ∅.

Definition Create (m : ObjectManager) (id : ObjectID) (kind : ObjectKind)
    (transform : ObjectTransform) : ObjectManager * (ObjectError + ObjectState) :=
  match m !! id with
  | Some _ => (m, inl (ErrObjectExists id))
  | None =>
      let obj := MkObjectState id kind transform [] ObjectStatusActive unlocked 0 in
      (<[id := obj]> m, inr obj)
  end.

Definition Get (m : ObjectManager) (id : ObjectID) : option ObjectState := m !! id.

Definition List `{!GoRange} (site : list nat) (m : ObjectManager) : list ObjectState :=
  (range site m).*2.

Definition ActiveObjects `{!GoRange} (site : list nat) (m : ObjectManager) : list ObjectState :=
  filter (fun o => o_Status o = ObjectStatusActive) (range site m).*2.

Definition UpdateTransform (m : ObjectManager) (id : ObjectID) (transform : ObjectTransform)
    : ObjectManager * option ObjectError :=
  match m !! id with
  | None => (m, Some (ErrObjectNotFound id))
  | Some o =>
      (<[id := MkObjectState (o_ID o) (o_Kind o) transform (o_CustomState o) (o_Status o)
                 (o_Lock o) (o_bump o)]> m, None)
  end.

Definition UpdateCustomState (m : ObjectManager) (id : ObjectID) (state : list Byte.byte)
    : ObjectManager * option ObjectError :=
  match m !! id with
  | None => (m, Some (ErrObjectNotFound id))
  | Some o =>
      (<[id := MkObjectState (o_ID o) (o_Kind o) (o_Transform o) state (o_Status o)
                 (o_Lock o) (o_bump o)]> m, None)
  end.

Definition MarkInactive (m : ObjectManager) (id : ObjectID)
    : ObjectManager * option ObjectError :=
  match m !! id with
  | None => (m, Some (ErrObjectNotFound id))
  | Some o =>
      if decide (o_Status o = ObjectStatusInactive) then (m, None)
      else
        (<[id := MkObjectState (o_ID o) (o_Kind o) (o_Transform o) (o_CustomState o)
                   ObjectStatusInactive (o_Lock o) (o_bump o)]> m, None)
  end.

Definition Remove (m : ObjectManager) (id : ObjectID) : ObjectManager := delete id m.

Definition Count (m : ObjectManager) : nat := size m.

End ObjectManager.

(** ** LockManager *)

Inductive LockReason :=
  | ReasonNotFound (id : ObjectID)
  | ReasonInactive (id : ObjectID)
  | ReasonLockedByAnother (id : ObjectID)
  | ReasonMaxLocks (user : string) (max : Z)
  | ReasonNotLockedBy (id : ObjectID) (user : string).

(** [LockResult]: [Granted] with no reason, or a rejection with one. *)
Inductive LockResult := lockGranted | lockRejected (reason : LockReason).

Definition Granted (r : LockResult) : bool :=
  match r with lockGranted => true | lockRejected _ => false end.

Record LockManager := MkLockManager {
  lm_objects : ObjectManager;
  lm_lease : LockLease;
  lm_userLockCount : gmap string Z }.

Module LockManager.

Definition NewLockManager (objects : ObjectManager) (lease : LockLease) : LockManager :=
  MkLockManager objects lease ∅.

(** Writing back the shared store and the counters. *)
Definition set_objects (lm : LockManager) (m : ObjectManager) : LockManager :=
  MkLockManager m (lm_lease lm) (lm_userLockCount lm).

Definition put (lm : LockManager) (id : ObjectID) (o : ObjectState) : LockManager :=
  set_objects lm (<[id := o]> (lm_objects lm)).

Definition UserLockCount (lm : LockManager) (userID : string) : Z :=
  lookup_Z (lm_userLockCount lm) userID.

Definition AcquireLock (lm : LockManager) (objectID : ObjectID)
    (ownerUserID ownerSessionID : string) (now : Time) : LockManager * LockResult :=
  match ObjectManager.Get (lm_objects lm) objectID with
  | None => (lm, lockRejected (ReasonNotFound objectID))
  | Some obj =>
    if decide (o_Status obj = ObjectStatusInactive) then
      (lm, lockRejected (ReasonInactive objectID))
    else if IsLocked (o_Lock obj) now then
      if String.eqb (l_LockedBy (o_Lock obj)) ownerUserID then
        let l := MkLockState (l_LockedBy (o_Lock obj)) ownerSessionID
                   (now + lease_TTL (lm_lease lm)) in
        (put lm objectID (o_set_lock obj l (o_bump obj)), lockGranted)
      else (lm, lockRejected (ReasonLockedByAnother objectID))
    else if lease_MaxLocksPerUser (lm_lease lm) <=? UserLockCount lm ownerUserID then
      (lm, lockRejected (ReasonMaxLocks ownerUserID (lease_MaxLocksPerUser (lm_lease lm))))
    else
      let l := MkLockState ownerUserID ownerSessionID (now + lease_TTL (lm_lease lm)) in
      (MkLockManager (<[objectID := o_set_lock obj l (o_bump obj)]> (lm_objects lm))
         (lm_lease lm)
         (<[ownerUserID := UserLockCount lm ownerUserID + 1]> (lm_userLockCount lm)),
       lockGranted)
  end.

Definition RefreshLock (lm : LockManager) (objectID : ObjectID) (ownerUserID : string)
    (now : Time) : LockManager * LockResult :=
  match ObjectManager.Get (lm_objects lm) objectID with
  | None => (lm, lockRejected (ReasonNotFound objectID))
  | Some obj =>
    if negb (IsOwnedBy (o_Lock obj) ownerUserID now) then
      (lm, lockRejected (ReasonNotLockedBy objectID ownerUserID))
    else
      let l := MkLockState (l_LockedBy (o_Lock obj)) (l_SessionID (o_Lock obj))
                 (now + lease_TTL (lm_lease lm)) in
      (put lm objectID (o_set_lock obj l (o_Version obj)), lockGranted)
  end.

(** [clearLock(obj)], where [obj] is the live object stored at [id]. *)
Definition clearLock (lm : LockManager) (id : ObjectID) (obj : ObjectState) : LockManager :=
  let owner := l_LockedBy (o_Lock obj) in
  let counts :=
    if negb (String.eqb owner "") && (0 <? UserLockCount lm owner) then
      let n := UserLockCount lm owner - 1 in
      if n =? 0 then delete owner (lm_userLockCount lm)
      else <[owner := n]> (lm_userLockCount lm)
    else lm_userLockCount lm in
  MkLockManager (<[id := o_set_lock obj unlocked (o_bump obj)]> (lm_objects lm))
    (lm_lease lm) counts.

Definition ReleaseLock (lm : LockManager) (objectID : ObjectID) (ownerUserID : string)
    (now : Time) : LockManager * LockResult :=
  match ObjectManager.Get (lm_objects lm) objectID with
  | None => (lm, lockRejected (ReasonNotFound objectID))
  | Some obj =>
    if negb (IsOwnedBy (o_Lock obj) ownerUserID now) then
      (lm, lockRejected (ReasonNotLockedBy objectID ownerUserID))
    else (clearLock lm objectID obj, lockGranted)
  end.

(** The loop shared by the two sweeps: visit every listed object, and clear
    the lock of those the test selects, recording their IDs. *)
Fixpoint sweep (test : ObjectState -> bool) (ids : list ObjectID) (lm : LockManager)
    : LockManager * list ObjectID :=
  match ids with
  | [] => (lm, [])
  | id :: ids' =>
      match lm_objects lm !! id with
      | Some obj =>
          if test obj then
            let '(lm', released) := sweep test ids' (clearLock lm id obj) in
            (lm', o_ID obj :: released)
          else sweep test ids' lm
      | None => sweep test ids' lm
      end
  end.

(** [obj.Lock.LockedBy != "" && !obj.Lock.LockUntil.After(now)] *)
Definition expired (now : Time) (obj : ObjectState) : bool :=
  negb (String.eqb (l_LockedBy (o_Lock obj)) "") && negb (now <? l_LockUntil (o_Lock obj)).

(** [obj.Lock.SessionID == sessionID && obj.Lock.LockedBy != ""] *)
Definition held_by_session (sessionID : string) (obj : ObjectState) : bool :=
  String.eqb (l_SessionID (o_Lock obj)) sessionID &&
  negb (String.eqb (l_LockedBy (o_Lock obj)) "").

Definition ReleaseExpired `{!GoRange} (site : list nat) (lm : LockManager) (now : Time)
    : LockManager * list ObjectID :=
  sweep (expired now) (range site (lm_objects lm)).*1 lm.

Definition ReleaseBySession `{!GoRange} (site : list nat) (lm : LockManager)
    (sessionID : string) (now : Time) : LockManager * list ObjectID :=
  sweep (held_by_session sessionID) (range site (lm_objects lm)).*1 lm.

End LockManager.
