(* ===== verification/ObjectFacts.v ===== *)
(** * Correctness of the object lock manager

    Proves, about the definitions of [Object.v]: the lock quota, exactness of
    the per-user counters, mutual exclusion and stability of a lease against
    every other user, and the meaning of the two sweeps independently of the
    order in which the runtime enumerates the object map. *)

From Stdlib Require Import ZArith Lia.
From stdpp Require Import base strings gmap fin_maps list.
From S2P Require Import Prelude.
From S2P Require Import GoFloat.
From S2P Require Import Player.
From S2P Require Import Object.

Import LockManager.

Local Open Scope string_scope.
Local Open Scope Z_scope.

(** ** Counting *)

Definition owned_by (u : string) (o : ObjectState) : bool :=
  String.eqb (l_LockedBy (o_Lock o)) u.

(** The number of objects whose lock names [u], expired or not. *)
Definition held (u : string) (lm : LockManager) : nat :=
  map_count (owned_by u) (lm_objects lm).

Definition b2n (b : bool) : nat := if b then 1%nat else 0%nat.

Lemma held_put u lm id o o' counts lease :
  lm_objects lm !! id = Some o ->
  (held u (MkLockManager (<[id := o']> (lm_objects lm)) lease counts) + b2n (owned_by u o)
   = b2n (owned_by u o') + held u lm)%nat.
Proof. intros H. unfold held. simpl. by apply map_count_insert. Qed.

Lemma held_pos u lm id o :
  lm_objects lm !! id = Some o -> l_LockedBy (o_Lock o) = u -> (1 <= held u lm)%nat.
Proof.
  intros H <-. eapply map_count_pos; [done |]. unfold owned_by. by rewrite String.eqb_refl.
Qed.

(** What [clearLock] does to the counters, as a function of each user. *)
Lemma UserLockCount_clearLock lm id o u :
  UserLockCount (clearLock lm id o) u =
  UserLockCount lm u -
  (if String.eqb (l_LockedBy (o_Lock o)) u && negb (String.eqb u "")
      && (0 <? UserLockCount lm u) then 1 else 0).
Proof.
  unfold clearLock, UserLockCount, lookup_Z; simpl.
  destruct (String.eqb_spec (l_LockedBy (o_Lock o)) u) as [<- | Hne]; simpl.
  - destruct (negb _ && (0 <? _)); [| lia].
    destruct (Z.eqb_spec (default 0 (lm_userLockCount lm !! l_LockedBy (o_Lock o)) - 1) 0).
    + rewrite lookup_delete_eq. simpl. lia.
    + by rewrite lookup_insert_eq.
  - rewrite Z.sub_0_r. case_match; [| done]. case_match.
    + by rewrite lookup_delete_ne.
    + by rewrite lookup_insert_ne.
Qed.

Lemma held_clearLock u lm id o :
  u <> "" -> lm_objects lm !! id = Some o ->
  (held u (clearLock lm id o) + b2n (owned_by u o) = held u lm)%nat.
Proof.
  intros Hu H. unfold clearLock. rewrite (held_put u lm id o) by done.
  assert (owned_by u (o_set_lock o unlocked (o_bump o)) = false) as ->; [| done].
  apply String.eqb_neq. simpl. congruence.
Qed.

(** ** The standing invariant *)

(** Every object is stored under its own ID; no user is credited with fewer
    locks than the objects name him on; no counter is negative or above the
    limit. *)
Record lock_inv (lm : LockManager) : Prop := {
  li_ids : forall id o, lm_objects lm !! id = Some o -> o_ID o = id;
  li_held : forall u, u <> "" -> Z.of_nat (held u lm) <= UserLockCount lm u;
  li_quota : forall u, 0 <= UserLockCount lm u <= Z.max 0 (lease_MaxLocksPerUser (lm_lease lm)) }.

(** The counters of named users are exact. *)
Definition counts_exact (lm : LockManager) : Prop :=
  forall u, u <> "" -> Z.of_nat (held u lm) = UserLockCount lm u.

(** One object is relocked and the counters replaced: the invariant survives
    when no named user loses more credit than locks. *)
Lemma lock_inv_relock lm id o l v counts :
  lock_inv lm -> lm_objects lm !! id = Some o ->
  (forall u, u <> "" ->
     UserLockCount lm u + Z.of_nat (b2n (String.eqb (l_LockedBy l) u))
     <= lookup_Z counts u + Z.of_nat (b2n (String.eqb (l_LockedBy (o_Lock o)) u))
     \/ Z.of_nat (held u lm) + Z.of_nat (b2n (String.eqb (l_LockedBy l) u))
        <= lookup_Z counts u + Z.of_nat (b2n (String.eqb (l_LockedBy (o_Lock o)) u))) ->
  (forall u, 0 <= lookup_Z counts u <= Z.max 0 (lease_MaxLocksPerUser (lm_lease lm))) ->
  lock_inv (MkLockManager (<[id := o_set_lock o l v]> (lm_objects lm)) (lm_lease lm) counts).
Proof.
  intros [Hids Hheld Hq] Ho Hc Hq'. split; [| | done].
  - intros id' o'. simpl. rewrite lookup_insert_Some. intros [[<- <-] | [_ H]]; simpl; eauto.
  - intros u Hu. pose proof (held_put u lm id o (o_set_lock o l v) counts (lm_lease lm) Ho) as Hp.
    specialize (Hheld u Hu). unfold UserLockCount in *. simpl.
    destruct (Hc u Hu) as [H | H]; unfold owned_by in Hp; simpl in Hp; lia.
Qed.

Lemma lock_inv_clearLock lm id o :
  lock_inv lm -> lm_objects lm !! id = Some o -> lock_inv (clearLock lm id o).
Proof.
  intros Hinv Ho. apply lock_inv_relock; [done | done | |]; intros u;
    change (lookup_Z _ u) with (UserLockCount (clearLock lm id o) u);
    rewrite UserLockCount_clearLock.
  - intros Hu. left. destruct (String.eqb_spec (l_LockedBy unlocked) u) as [He | _];
      [simpl in He; congruence |]. simpl.
    destruct (String.eqb _ u); simpl; [| lia]. case_match; lia.
  - pose proof (li_quota _ Hinv u). case_match eqn:Hb; [| lia]. go_bool. lia.
Qed.

Lemma counts_exact_clearLock lm id o :
  counts_exact lm -> lm_objects lm !! id = Some o -> counts_exact (clearLock lm id o).
Proof.
  intros Hex Ho u Hu. rewrite UserLockCount_clearLock.
  pose proof (held_clearLock u lm id o Hu Ho) as Hc. pose proof (Hex u Hu).
  unfold owned_by in Hc. destruct (String.eqb_spec (l_LockedBy (o_Lock o)) u); simpl in *; [| lia].
  pose proof (held_pos u lm id o Ho ltac:(done)).
  destruct (String.eqb_spec u ""); simpl; [congruence |].
  destruct (Z.ltb_spec 0 (UserLockCount lm u)); lia.
Qed.

(** A rewrite of one object that leaves its lock and its ID alone keeps both. *)
Lemma held_same_lock u lm id o o' :
  lm_objects lm !! id = Some o -> o_Lock o' = o_Lock o ->
  held u (set_objects lm (<[id := o']> (lm_objects lm))) = held u lm.
Proof.
  intros Ho Hl. pose proof (held_put u lm id o o' (lm_userLockCount lm) (lm_lease lm) Ho) as H.
  unfold owned_by in H. rewrite Hl in H. unfold set_objects. lia.
Qed.

Lemma lock_inv_same_lock lm id o o' :
  lock_inv lm -> lm_objects lm !! id = Some o -> o_Lock o' = o_Lock o -> o_ID o' = o_ID o ->
  lock_inv (set_objects lm (<[id := o']> (lm_objects lm))).
Proof.
  intros [Hids Hheld Hq] Ho Hl Hid. split.
  - intros id' o2. simpl. rewrite lookup_insert_Some. intros [[<- <-] | [_ H]]; [| eauto].
    rewrite Hid. eauto.
  - intros u Hu. erewrite held_same_lock by done. by apply Hheld.
  - apply Hq.
Qed.

(** ** The operations as steps *)

(** Every call the room makes on the two managers, with the time it passes. *)
Inductive LockOp :=
  | OpAcquire (id : ObjectID) (user session : string) (now : Time)
  | OpRefresh (id : ObjectID) (user : string) (now : Time)
  | OpRelease (id : ObjectID) (user : string) (now : Time)
  | OpExpire (now : Time)
  | OpSession (session : string) (now : Time)
  | OpCreate (id : ObjectID) (kind : ObjectKind) (t : ObjectTransform)
  | OpTransform (id : ObjectID) (t : ObjectTransform)
  | OpCustomState (id : ObjectID) (st : list Byte.byte)
  | OpInactive (id : ObjectID)
  | OpRemove (id : ObjectID).

Section steps.
Context `{GR : !GoRange}.

Definition lock_step (site : list nat) (op : LockOp) (lm : LockManager) : LockManager :=
  match op with
  | OpAcquire id u s now => (AcquireLock lm id u s now).1
  | OpRefresh id u now => (RefreshLock lm id u now).1
  | OpRelease id u now => (ReleaseLock lm id u now).1
  | OpExpire now => (ReleaseExpired site lm now).1
  | OpSession s now => (ReleaseBySession site lm s now).1
  | OpCreate id k t => set_objects lm (ObjectManager.Create (lm_objects lm) id k t).1
  | OpTransform id t => set_objects lm (ObjectManager.UpdateTransform (lm_objects lm) id t).1
  | OpCustomState id st =>
      set_objects lm (ObjectManager.UpdateCustomState (lm_objects lm) id st).1
  | OpInactive id => set_objects lm (ObjectManager.MarkInactive (lm_objects lm) id).1
  | OpRemove id => set_objects lm (ObjectManager.Remove (lm_objects lm) id)
  end.

(** The [n]-th operation of a run enumerates maps in the [n]-th order. *)
Fixpoint lock_run (n : nat) (ops : list LockOp) (lm : LockManager) : LockManager :=
  match ops with
  | [] => lm
  | op :: ops' => lock_run (S n) ops' (lock_step [n] op lm)
  end.

Lemma set_objects_id lm : set_objects lm (lm_objects lm) = lm.
Proof. by destruct lm. Qed.

Lemma lookup_Z_insert (m : gmap string Z) u n u' :
  lookup_Z (<[u := n]> m) u' = if String.eqb u u' then n else lookup_Z m u'.
Proof.
  unfold lookup_Z. destruct (String.eqb_spec u u') as [<- |].
  - by rewrite lookup_insert_eq.
  - by rewrite lookup_insert_ne.
Qed.

Lemma lock_inv_AcquireLock lm id u s now :
  lock_inv lm -> lock_inv (AcquireLock lm id u s now).1.
Proof.
  intros Hinv. pose proof (li_quota _ Hinv) as Hq.
  unfold AcquireLock, ObjectManager.Get.
  destruct (lm_objects lm !! id) as [o |] eqn:Ho; [| done]. case_decide; [done |].
  destruct (IsLocked (o_Lock o) now) eqn:Hl;
    [destruct (String.eqb_spec (l_LockedBy (o_Lock o)) u) as [<- |]; [| done] |].
  - apply lock_inv_relock; [done | done | | done]. intros u' Hu'. left. simpl.
    unfold UserLockCount. lia.
  - destruct (Z.leb_spec (lease_MaxLocksPerUser (lm_lease lm)) (UserLockCount lm u)); [done |].
    apply lock_inv_relock; [done | done | |]; intros u'; rewrite lookup_Z_insert; simpl.
    + intros Hu'. left. destruct (String.eqb_spec u u') as [<- |]; simpl; [lia |].
      unfold UserLockCount. lia.
    + pose proof (Hq u). pose proof (Hq u').
      destruct (String.eqb_spec u u') as [<- |]; [lia | done].
Qed.

Lemma lock_inv_RefreshLock lm id u now :
  lock_inv lm -> lock_inv (RefreshLock lm id u now).1.
Proof.
  intros Hinv. unfold RefreshLock, ObjectManager.Get.
  destruct (lm_objects lm !! id) as [o |] eqn:Ho; [| done]. case_match; [done |].
  apply lock_inv_relock; [done | done | | apply (li_quota _ Hinv)].
  intros u' _. left. simpl. unfold UserLockCount. lia.
Qed.

Lemma lock_inv_ReleaseLock lm id u now :
  lock_inv lm -> lock_inv (ReleaseLock lm id u now).1.
Proof.
  intros Hinv. unfold ReleaseLock, ObjectManager.Get.
  destruct (lm_objects lm !! id) as [o |] eqn:Ho; [| done]. case_match; [done |].
  by apply lock_inv_clearLock.
Qed.

Lemma lock_inv_sweep test ids lm : lock_inv lm -> lock_inv (sweep test ids lm).1.
Proof.
  revert lm. induction ids as [| id ids IH]; intros lm Hinv; simpl; [done |].
  destruct (lm_objects lm !! id) as [o |] eqn:Ho; [| by apply IH].
  destruct (test o); [| by apply IH].
  specialize (IH (clearLock lm id o) (lock_inv_clearLock _ _ _ Hinv Ho)).
  by destruct (sweep _ _ _).
Qed.

Lemma lock_inv_Create lm id k t :
  lock_inv lm -> lock_inv (set_objects lm (ObjectManager.Create (lm_objects lm) id k t).1).
Proof.
  intros Hinv. pose proof Hinv as [Hids Hheld Hq]. unfold ObjectManager.Create.
  destruct (lm_objects lm !! id) as [o |] eqn:Ho; simpl; [by rewrite set_objects_id |].
  split; [| | done].
  - intros id' o'. simpl. rewrite lookup_insert_Some. intros [[<- <-] | [_ Hl]]; eauto.
  - intros u Hu. unfold held. simpl. rewrite map_count_insert_fresh by done.
    assert (owned_by u (MkObjectState id k t [] ObjectStatusActive unlocked 0) = false) as ->;
      [apply String.eqb_neq; simpl; congruence |].
    by apply Hheld.
Qed.

Lemma lock_inv_Remove lm id :
  lock_inv lm -> lock_inv (set_objects lm (ObjectManager.Remove (lm_objects lm) id)).
Proof.
  intros [Hids Hheld Hq]. split; [| | done].
  - intros id' o'. simpl. unfold ObjectManager.Remove.
    rewrite lookup_delete_Some. naive_solver.
  - intros u Hu. specialize (Hheld u Hu).
    pose proof (map_count_delete_le (owned_by u) (lm_objects lm) id).
    unfold held, UserLockCount in *. simpl. unfold ObjectManager.Remove. lia.
Qed.

(** Every step preserves the invariant, whatever the arguments. *)
Lemma lock_step_inv site op lm : lock_inv lm -> lock_inv (lock_step site op lm).
Proof.
  intros Hinv. destruct op; simpl;
    auto using lock_inv_AcquireLock, lock_inv_RefreshLock, lock_inv_ReleaseLock,
      lock_inv_sweep, lock_inv_Create, lock_inv_Remove.
  - by apply lock_inv_sweep.
  - by apply lock_inv_sweep.
  - unfold ObjectManager.UpdateTransform.
    destruct (_ !! _) eqn:Ho; simpl; [| by rewrite set_objects_id].
    by eapply lock_inv_same_lock.
  - unfold ObjectManager.UpdateCustomState.
    destruct (_ !! _) eqn:Ho; simpl; [| by rewrite set_objects_id].
    by eapply lock_inv_same_lock.
  - unfold ObjectManager.MarkInactive.
    destruct (_ !! _) eqn:Ho; simpl; [| by rewrite set_objects_id].
    case_decide; simpl; [by rewrite set_objects_id |]. by eapply lock_inv_same_lock.
Qed.

Lemma lock_run_inv n ops lm : lock_inv lm -> lock_inv (lock_run n ops lm).
Proof. revert n lm. induction ops; simpl; auto using lock_step_inv. Qed.
End steps.

Lemma lock_inv_new lease : lock_inv (NewLockManager ObjectManager.NewObjectManager lease).
Proof.
  split; simpl.
  - intros ??. unfold ObjectManager.NewObjectManager. by rewrite lookup_empty.
  - intros u _. unfold held. simpl. unfold ObjectManager.NewObjectManager.
    by rewrite map_count_empty.
  - intros u. unfold UserLockCount, lookup_Z. simpl. rewrite lookup_empty. simpl. lia.
Qed.

(** ** The sweeps *)

Section sweeps.
Variable test : ObjectState -> bool.

(** The effect of one iteration of the loop. *)
Definition sweep1 (id : ObjectID) (lm : LockManager) : LockManager :=
  match lm_objects lm !! id with
  | Some o => if test o then clearLock lm id o else lm
  | None => lm
  end.

Definition swept (o : ObjectState) : ObjectState :=
  if test o then o_set_lock o unlocked (o_bump o) else o.

Lemma sweep_cons id ids lm : (sweep test (id :: ids) lm).1 = (sweep test ids (sweep1 id lm)).1.
Proof.
  simpl. unfold sweep1. destruct (lm_objects lm !! id) as [o |]; [| done].
  destruct (test o); [| done]. by destruct (sweep _ _ _).
Qed.

Lemma sweep1_lookup id lm id' :
  lm_objects (sweep1 id lm) !! id' =
  if decide (id = id') then swept <$> lm_objects lm !! id' else lm_objects lm !! id'.
Proof.
  unfold sweep1, swept. case_decide as Hd; [subst id' |].
  - destruct (lm_objects lm !! id) as [o |] eqn:Ho; simpl; [| by rewrite Ho].
    destruct (test o); simpl; [by rewrite lookup_insert_eq | done].
  - destruct (lm_objects lm !! id) as [o |]; [| done]. destruct (test o); [| done].
    simpl. by rewrite lookup_insert_ne.
Qed.

Lemma sweep_lookup ids lm id :
  NoDup ids ->
  lm_objects (sweep test ids lm).1 !! id =
  if decide (id ∈ ids) then swept <$> lm_objects lm !! id else lm_objects lm !! id.
Proof.
  revert lm. induction ids as [| i ids IH]; intros lm Hnd; [done |].
  apply NoDup_cons in Hnd as [Hi Hnd]. rewrite sweep_cons, IH, sweep1_lookup by done.
  destruct (decide (i = id)) as [-> |].
  - rewrite decide_False, decide_True by set_solver. done.
  - destruct (decide (id ∈ ids)).
    + rewrite decide_True by set_solver. done.
    + rewrite decide_False by set_solver. done.
Qed.

Lemma sweep_lease ids lm : lm_lease (sweep test ids lm).1 = lm_lease lm.
Proof.
  revert lm. induction ids as [| i ids IH]; intros lm; [done |].
  rewrite sweep_cons, IH. unfold sweep1. by repeat case_match.
Qed.

(** The recorded IDs are those of the selected objects, in visiting order. *)
Lemma sweep_released ids lm :
  NoDup ids ->
  (sweep test ids lm).2 =
  omap (fun id => o ← lm_objects lm !! id; if test o then Some (o_ID o) else None) ids.
Proof.
  revert lm. induction ids as [| i ids IH]; intros lm Hnd; [done |].
  apply NoDup_cons in Hnd as [Hi Hnd]. simpl.
  assert (forall lm', (forall id, id ∈ ids -> lm_objects lm' !! id = lm_objects lm !! id) ->
    (sweep test ids lm').2 =
    omap (fun id => o ← lm_objects lm !! id; if test o then Some (o_ID o) else None) ids) as Heq.
  { intros lm' Hsame. rewrite IH by done. apply omap_ext_elem. intros id Hid.
    by rewrite Hsame. }
  destruct (lm_objects lm !! i) as [o |] eqn:Ho; simpl; [| by apply Heq].
  destruct (test o); [| by apply Heq].
  specialize (Heq (clearLock lm i o)). destruct (sweep _ _ _). simpl in *. f_equal. apply Heq.
  intros id Hid. by rewrite lookup_insert_ne by set_solver.
Qed.

Definition dec_count (u : string) (c : gmap string Z) : gmap string Z :=
  if negb (String.eqb u "") && (0 <? lookup_Z c u) then
    if lookup_Z c u - 1 =? 0 then delete u c else <[u := lookup_Z c u - 1]> c
  else c.

Lemma dec_count_other u v c : u <> v -> dec_count u c !! v = c !! v.
Proof.
  intros Hne. unfold dec_count. repeat case_match; [| | done].
  - by rewrite lookup_delete_ne.
  - by rewrite lookup_insert_ne.
Qed.

Lemma dec_count_same u c c' : c !! u = c' !! u -> dec_count u c !! u = dec_count u c' !! u.
Proof.
  intros H. unfold dec_count, lookup_Z. rewrite H. repeat case_match; [| | done].
  - by rewrite !lookup_delete_eq.
  - by rewrite !lookup_insert_eq.
Qed.

Lemma dec_count_comm u v c : dec_count u (dec_count v c) = dec_count v (dec_count u c).
Proof.
  destruct (decide (u = v)) as [-> | Hne]; [done |]. apply map_eq. intros w.
  destruct (decide (w = u)) as [-> |]; [| destruct (decide (w = v)) as [-> |]].
  - rewrite (dec_count_other v) by done. apply dec_count_same. by apply dec_count_other.
  - rewrite (dec_count_other u) by done. symmetry. apply dec_count_same.
    by apply dec_count_other.
  - by rewrite !dec_count_other.
Qed.

Lemma sweep1_counts id lm :
  lm_userLockCount (sweep1 id lm) =
  match lm_objects lm !! id with
  | Some o => if test o then dec_count (l_LockedBy (o_Lock o)) (lm_userLockCount lm)
              else lm_userLockCount lm
  | None => lm_userLockCount lm
  end.
Proof.
  unfold sweep1. destruct (lm_objects lm !! id) as [o |]; [| done]. by destruct (test o).
Qed.

Lemma sweep1_swap i j lm : i <> j -> sweep1 i (sweep1 j lm) = sweep1 j (sweep1 i lm).
Proof.
  intros Hne.
  assert (forall a b : LockManager, lm_objects a = lm_objects b -> lm_lease a = lm_lease b ->
    lm_userLockCount a = lm_userLockCount b -> a = b) as Hext.
  { by intros [] []; simpl; intros; subst. }
  apply Hext.
  - apply map_eq. intros k. rewrite !sweep1_lookup. repeat case_decide; congruence.
  - unfold sweep1. by repeat case_match.
  - rewrite !sweep1_counts, !sweep1_lookup, !decide_False by done.
    repeat case_match; auto using dec_count_comm.
Qed.

Lemma sweep_perm ids ids' lm :
  ids ≡ₚ ids' -> NoDup ids -> (sweep test ids lm).1 = (sweep test ids' lm).1.
Proof.
  intros Hp. revert lm. induction Hp as [| i l l' Hp IH | i j l | l1 l2 l3 H1 IH1 H2 IH2];
    intros lm Hnd; [done | | |].
  - apply NoDup_cons in Hnd as [_ Hnd]. rewrite !sweep_cons. by apply IH.
  - rewrite !NoDup_cons in Hnd. rewrite !sweep_cons, sweep1_swap; [done | set_solver].
  - rewrite IH1 by done. apply IH2. by rewrite <- H1.
Qed.

(** A user who owns no object the sweep clears keeps his count. *)
Lemma sweep_counts_other ids lm u :
  u <> "" ->
  (forall id o, lm_objects lm !! id = Some o -> test o = true -> l_LockedBy (o_Lock o) <> u) ->
  UserLockCount (sweep test ids lm).1 u = UserLockCount lm u.
Proof.
  intros Hu. revert lm. induction ids as [| i ids IH]; intros lm Hown; [done |].
  rewrite sweep_cons, IH.
  - unfold UserLockCount, lookup_Z. rewrite sweep1_counts.
    destruct (lm_objects lm !! i) as [o |] eqn:Ho; [| done]. destruct (test o) eqn:Ht; [| done].
    by rewrite dec_count_other by (by eapply Hown).
  - intros id o. rewrite sweep1_lookup. case_decide; [| apply Hown]. rewrite fmap_Some.
    intros (o' & Ho' & ->). unfold swept. destruct (test o') eqn:Ht; [simpl; congruence | by eapply Hown].
Qed.
End sweeps.

(** ** Runs with exact counters *)

(** An operation that keeps the counters exact: an acquisition by a named user
    on an object whose lock is either free or still running, and a removal of
    an unlocked object.  Everything else always does. *)
Definition op_clean (lm : LockManager) (op : LockOp) : bool :=
  match op with
  | OpAcquire id u _ now =>
      negb (String.eqb u "") &&
      match lm_objects lm !! id with
      | Some o => String.eqb (l_LockedBy (o_Lock o)) "" || IsLocked (o_Lock o) now
      | None => true
      end
  | OpRemove id =>
      match lm_objects lm !! id with
      | Some o => String.eqb (l_LockedBy (o_Lock o)) ""
      | None => true
      end
  | _ => true
  end.

Section exact.
Context `{GR : !GoRange}.

Fixpoint run_clean (n : nat) (ops : list LockOp) (lm : LockManager) : bool :=
  match ops with
  | [] => true
  | op :: ops' => op_clean lm op && run_clean (S n) ops' (lock_step [n] op lm)
  end.

Lemma counts_exact_sweep test ids lm : counts_exact lm -> counts_exact (sweep test ids lm).1.
Proof.
  revert lm. induction ids as [| id ids IH]; intros lm Hex; [done |].
  rewrite sweep_cons. apply IH. unfold sweep1.
  destruct (lm_objects lm !! id) eqn:Ho; [| done]. case_match; [| done].
  by apply counts_exact_clearLock.
Qed.

Lemma counts_exact_relock lm id o l v counts :
  counts_exact lm -> lm_objects lm !! id = Some o ->
  (forall u, u <> "" ->
     UserLockCount lm u + Z.of_nat (b2n (String.eqb (l_LockedBy l) u))
     = lookup_Z counts u + Z.of_nat (b2n (String.eqb (l_LockedBy (o_Lock o)) u))) ->
  counts_exact
    (MkLockManager (<[id := o_set_lock o l v]> (lm_objects lm)) (lm_lease lm) counts).
Proof.
  intros Hex Ho Hc u Hu. specialize (Hc u Hu). specialize (Hex u Hu).
  pose proof (held_put u lm id o (o_set_lock o l v) counts (lm_lease lm) Ho) as Hp.
  unfold owned_by in Hp. unfold UserLockCount in *. simpl in *. lia.
Qed.

Lemma counts_exact_same_lock lm id o o' :
  counts_exact lm -> lm_objects lm !! id = Some o -> o_Lock o' = o_Lock o ->
  counts_exact (set_objects lm (<[id := o']> (lm_objects lm))).
Proof. intros Hex Ho Hl u Hu. erewrite held_same_lock by done. by apply Hex. Qed.

Lemma counts_exact_AcquireLock lm id u s now :
  counts_exact lm -> op_clean lm (OpAcquire id u s now) = true ->
  counts_exact (AcquireLock lm id u s now).1.
Proof.
  intros Hex Hcl. simpl in Hcl. apply andb_true_iff in Hcl as [Hu Hcl].
  unfold AcquireLock, ObjectManager.Get.
  destruct (lm_objects lm !! id) as [o |] eqn:Ho; [| done]. case_decide; [done |].
  destruct (IsLocked (o_Lock o) now) eqn:Hl;
    [destruct (String.eqb_spec (l_LockedBy (o_Lock o)) u) as [<- |]; [| done] |].
  - apply counts_exact_relock; [done | done |]. done.
  - case_match; [done |]. apply counts_exact_relock; [done | done |].
    intros u' Hu'. simpl. rewrite lookup_Z_insert, orb_false_r in *.
    apply String.eqb_eq in Hcl. rewrite Hcl.
    assert (String.eqb "" u' = false) as -> by (by apply String.eqb_neq).
    destruct (String.eqb_spec u u') as [<- |]; simpl; unfold UserLockCount; lia.
Qed.

Lemma counts_exact_step site op lm :
  counts_exact lm -> op_clean lm op = true -> counts_exact (lock_step site op lm).
Proof.
  intros Hex Hcl. destruct op; simpl.
  - by apply counts_exact_AcquireLock.
  - unfold RefreshLock, ObjectManager.Get.
    destruct (_ !! _) eqn:Ho; [| done]. case_match; [done |]. by apply counts_exact_relock.
  - unfold ReleaseLock, ObjectManager.Get.
    destruct (_ !! _) eqn:Ho; [| done]. case_match; [done |]. by apply counts_exact_clearLock.
  - by apply counts_exact_sweep.
  - by apply counts_exact_sweep.
  - unfold ObjectManager.Create.
    destruct (_ !! _) eqn:Ho; simpl; [by rewrite set_objects_id |].
    intros u Hu. unfold held. simpl. rewrite map_count_insert_fresh by done.
    assert (owned_by u (MkObjectState id kind t [] ObjectStatusActive unlocked 0) = false) as ->;
      [apply String.eqb_neq; simpl; congruence |]. by apply Hex.
  - unfold ObjectManager.UpdateTransform.
    destruct (_ !! _) eqn:Ho; simpl; [| by rewrite set_objects_id].
    by eapply counts_exact_same_lock.
  - unfold ObjectManager.UpdateCustomState.
    destruct (_ !! _) eqn:Ho; simpl; [| by rewrite set_objects_id].
    by eapply counts_exact_same_lock.
  - unfold ObjectManager.MarkInactive.
    destruct (_ !! _) eqn:Ho; simpl; [| by rewrite set_objects_id].
    case_decide; simpl; [by rewrite set_objects_id |]. by eapply counts_exact_same_lock.
  - simpl in Hcl. intros u Hu. specialize (Hex u Hu).
    unfold held, UserLockCount, set_objects, ObjectManager.Remove in *; simpl.
    destruct (lm_objects lm !! id) as [o |] eqn:Ho; [| by rewrite delete_id].
    rewrite (map_count_split _ _ id o Ho) in Hex. apply String.eqb_eq in Hcl.
    assert (owned_by u o = false) as Hf by (apply String.eqb_neq; congruence).
    rewrite Hf in Hex. simpl in Hex. done.
Qed.

Lemma counts_exact_run n ops lm :
  counts_exact lm -> run_clean n ops lm = true -> counts_exact (lock_run n ops lm).
Proof.
  revert n lm. induction ops as [| op ops IH]; intros n lm Hex Hcl; [done |].
  simpl in *. apply andb_true_iff in Hcl as [H1 H2].
  apply IH; [by apply counts_exact_step | done].
Qed.

Lemma counts_exact_new lease :
  counts_exact (NewLockManager ObjectManager.NewObjectManager lease).
Proof.
  intros u _. unfold held, UserLockCount, lookup_Z. simpl.
  unfold ObjectManager.NewObjectManager. by rewrite map_count_empty, lookup_empty.
Qed.
End exact.

(** ** Leases against the rest of the world *)

(** The operation is not one of the owner's own on this object, does not come
    from the owner's session ending, does not delete the object, and runs
    before the lease ends. *)
Definition op_foreign (id : ObjectID) (l : LockState) (op : LockOp) : bool :=
  match op with
  | OpAcquire id' u _ now =>
      negb (String.eqb id' id) || (negb (String.eqb u (l_LockedBy l)) && (now <? l_LockUntil l))
  | OpRefresh id' u _ | OpRelease id' u _ =>
      negb (String.eqb id' id) || negb (String.eqb u (l_LockedBy l))
  | OpExpire now => now <? l_LockUntil l
  | OpSession s _ => negb (String.eqb s (l_SessionID l))
  | OpRemove id' => negb (String.eqb id' id)
  | _ => true
  end.

Definition lock_at (lm : LockManager) (id : ObjectID) : option LockState :=
  o_Lock <$> lm_objects lm !! id.

Section lease.
Context `{GR : !GoRange}.

Lemma lock_at_put_ne lm id id' o lease counts :
  id' <> id ->
  lock_at (MkLockManager (<[id' := o]> (lm_objects lm)) lease counts) id = lock_at lm id.
Proof. intros H. unfold lock_at. simpl. by rewrite lookup_insert_ne. Qed.

Lemma lock_at_put_same lm id id' o o' lease counts :
  lm_objects lm !! id' = Some o -> o_Lock o' = o_Lock o ->
  lock_at (MkLockManager (<[id' := o']> (lm_objects lm)) lease counts) id = lock_at lm id.
Proof.
  intros Ho Hl. unfold lock_at. simpl. destruct (decide (id' = id)) as [<- |].
  - rewrite lookup_insert_eq, Ho. simpl. by rewrite Hl.
  - by rewrite lookup_insert_ne.
Qed.

Lemma lock_at_sweep test ids lm id o :
  NoDup ids -> lm_objects lm !! id = Some o -> test o = false ->
  lock_at (sweep test ids lm).1 id = lock_at lm id.
Proof.
  intros Hnd Ho Ht. unfold lock_at. rewrite sweep_lookup, Ho by done. simpl. unfold swept.
  rewrite Ht. by case_decide.
Qed.

Lemma lease_step site op lm id l :
  lock_at lm id = Some l -> l_LockedBy l <> "" -> op_foreign id l op = true ->
  lock_at (lock_step site op lm) id = Some l.
Proof.
  intros Hl Hu Hf. rewrite <- Hl.
  unfold lock_at in Hl. apply fmap_Some in Hl as (o & Ho & ->).
  destruct op as [id' u s now | id' u now | id' u now | now | s now | id' k t | id' t
    | id' st | id' | id']; simpl in *.
  - unfold AcquireLock, ObjectManager.Get. destruct (String.eqb_spec id' id) as [-> |]; simpl in Hf.
    + rewrite Ho. case_decide; [done |]. apply andb_true_iff in Hf as [Hne Hlt].
      apply negb_true_iff, String.eqb_neq in Hne. unfold IsLocked.
      rewrite (proj2 (String.eqb_neq _ _) Hu), Hlt. simpl.
      by rewrite (proj2 (String.eqb_neq _ _) (not_eq_sym Hne)).
    + repeat case_match; try done; by apply lock_at_put_ne.
  - unfold RefreshLock, ObjectManager.Get, IsOwnedBy.
    destruct (String.eqb_spec id' id) as [-> |]; simpl in Hf.
    + rewrite Ho. go_bool.
      by rewrite (proj2 (String.eqb_neq _ _) (not_eq_sym Hf)), andb_false_r.
    + repeat case_match; try done; by apply lock_at_put_ne.
  - unfold ReleaseLock, ObjectManager.Get, IsOwnedBy.
    destruct (String.eqb_spec id' id) as [-> |]; simpl in Hf.
    + rewrite Ho. go_bool.
      by rewrite (proj2 (String.eqb_neq _ _) (not_eq_sym Hf)), andb_false_r.
    + repeat case_match; try done; by apply lock_at_put_ne.
  - eapply lock_at_sweep; [apply NoDup_fst_range | done |].
    unfold expired. rewrite Hf. apply andb_false_r.
  - eapply lock_at_sweep; [apply NoDup_fst_range | done |].
    unfold held_by_session. go_bool.
    by rewrite (proj2 (String.eqb_neq _ _) (not_eq_sym Hf)).
  - unfold ObjectManager.Create. destruct (_ !! id') eqn:Ho'; simpl; [by rewrite set_objects_id |].
    apply lock_at_put_ne. congruence.
  - unfold ObjectManager.UpdateTransform.
    destruct (_ !! id') eqn:Ho'; simpl; [| by rewrite set_objects_id].
    by eapply lock_at_put_same.
  - unfold ObjectManager.UpdateCustomState.
    destruct (_ !! id') eqn:Ho'; simpl; [| by rewrite set_objects_id].
    by eapply lock_at_put_same.
  - unfold ObjectManager.MarkInactive.
    destruct (_ !! id') eqn:Ho'; simpl; [| by rewrite set_objects_id].
    case_decide; simpl; [by rewrite set_objects_id |]. by eapply lock_at_put_same.
  - unfold lock_at, ObjectManager.Remove. simpl. go_bool. by rewrite lookup_delete_ne.
Qed.
End lease.

(** ** The lock manager's contract *)

Section contract.
Context `{GR : !GoRange}.

Lemma lock_step_lease site op lm : lm_lease (lock_step site op lm) = lm_lease lm.
Proof.
  destruct op; simpl; try done;
    unfold AcquireLock, RefreshLock, ReleaseLock, ReleaseExpired, ReleaseBySession;
    first [apply sweep_lease | by repeat case_match].
Qed.

Lemma lock_run_lease n ops lm : lm_lease (lock_run n ops lm) = lm_lease lm.
Proof.
  revert n lm. induction ops as [| op ops IH]; intros n lm; [done |].
  simpl. by rewrite IH, lock_step_lease.
Qed.

(** C12: In every sequence of lock and object operations, with any users,
    timestamps and map enumeration orders, no named user is ever recorded as
    owner of more than [MaxLocksPerUser] objects. *)
Theorem lock_quota (lease : LockLease) (ops : list LockOp) (u : string) :
  u <> "" ->
  Z.of_nat (held u (lock_run 0 ops (NewLockManager ObjectManager.NewObjectManager lease)))
  <= Z.max 0 (lease_MaxLocksPerUser lease).
Proof.
  intros Hu.
  pose proof (lock_run_inv 0 ops _ (lock_inv_new lease)) as Hinv.
  pose proof (li_held _ Hinv u Hu). pose proof (li_quota _ Hinv u).
  rewrite lock_run_lease in *. simpl in *. lia.
Qed.

(** C13: As long as no operation acquires over an expired lock that was not yet
    swept, acquires for the empty user, or removes a locked object, the
    counter [UserLockCount] of every named user is exactly the number of
    objects locked by that user. *)
Theorem lock_counts_exact (lease : LockLease) (ops : list LockOp) (u : string) :
  u <> "" ->
  run_clean 0 ops (NewLockManager ObjectManager.NewObjectManager lease) = true ->
  let lm := lock_run 0 ops (NewLockManager ObjectManager.NewObjectManager lease) in
  UserLockCount lm u = Z.of_nat (held u lm).
Proof.
  intros Hu Hcl. symmetry.
  apply (counts_exact_run 0 ops _ (counts_exact_new lease) Hcl u Hu).
Qed.

(** C25: A running lease is immune to everybody else: whatever other users
    acquire, refresh, release or update, and however often locks are swept,
    the lock record of the object stays exactly as it is until the owner acts
    on it, his session ends, the object is removed, or the lease time is
    reached. *)
Theorem lease_stable (n : nat) (ops : list LockOp) (lm : LockManager) (id : ObjectID)
    (l : LockState) :
  lock_at lm id = Some l -> l_LockedBy l <> "" -> forallb (op_foreign id l) ops = true ->
  lock_at (lock_run n ops lm) id = Some l.
Proof.
  revert n lm. induction ops as [| op ops IH]; intros n lm Hl Hu Hf; [done |].
  simpl in *. apply andb_true_iff in Hf as [Hf1 Hf2].
  apply IH; [by apply lease_step | done | done].
Qed.

(** C26: [AcquireLock] grants exactly when the object exists, is active, and is
    either already leased to the requester or free (never locked, or expired)
    with the requester below his limit.  A rejection changes nothing and names
    its reason: no such object, an inactive one, one leased to somebody else, or
    the requester's limit.  A grant leases this object, and only this one, to
    the requester for [TTL], bumps its version, and adds one to the requester's
    lock count when the object was free; a renewal of a lease adds nothing, and
    nobody else's count changes. *)
Theorem acquire_spec (lm : LockManager) (id : ObjectID) (u s : string) (now : Time) :
  let res := AcquireLock lm id u s now in
  let limit := lease_MaxLocksPerUser (lm_lease lm) in
  (Granted res.2 = true <->
    exists o, lm_objects lm !! id = Some o /\ o_Status o = ObjectStatusActive /\
      (IsOwnedBy (o_Lock o) u now = true \/
       IsLocked (o_Lock o) now = false /\ UserLockCount lm u < limit)) /\
  (Granted res.2 = false -> res.1 = lm /\
    (lm_objects lm !! id = None /\ res.2 = lockRejected (ReasonNotFound id) \/
     exists o, lm_objects lm !! id = Some o /\
       (o_Status o = ObjectStatusInactive /\ res.2 = lockRejected (ReasonInactive id) \/
        o_Status o = ObjectStatusActive /\ IsLocked (o_Lock o) now = true /\ l_LockedBy (o_Lock o) <> u /\
          res.2 = lockRejected (ReasonLockedByAnother id) \/
        o_Status o = ObjectStatusActive /\ IsLocked (o_Lock o) now = false /\ limit <= UserLockCount lm u /\
          res.2 = lockRejected (ReasonMaxLocks u limit)))) /\
  (Granted res.2 = true -> exists o,
    lm_objects lm !! id = Some o /\
    lm_objects res.1 =
      <[id := o_set_lock o (MkLockState u s (now + lease_TTL (lm_lease lm)))
                (u32 (o_Version o + 1))]> (lm_objects lm) /\
    lm_lease res.1 = lm_lease lm /\
    forall v, UserLockCount res.1 v = UserLockCount lm v +
      (if String.eqb v u && negb (IsLocked (o_Lock o) now) then 1 else 0)).
Proof.
  unfold AcquireLock, ObjectManager.Get, IsOwnedBy.
  destruct (lm_objects lm !! id) as [o |] eqn:Ho; simpl; [| naive_solver].
  destruct (decide (o_Status o = ObjectStatusInactive)) as [Hs | Hs]; simpl.
  { split; [| naive_solver]. split; [done |]. intros (o' & [= <-] & Ha & _). congruence. }
  assert (o_Status o = ObjectStatusActive) as Ha by (by destruct (o_Status o)).
  destruct (IsLocked (o_Lock o) now) eqn:Hl.
  - destruct (String.eqb_spec (l_LockedBy (o_Lock o)) u) as [<- | Hne]; simpl.
    + split; [split; [intros _; exists o; by rewrite Hl, String.eqb_refl; auto | done] |].
      split; [done |]. intros _. exists o. split_and!; [done | done | done |].
      intros v. rewrite Hl, andb_false_r, Z.add_0_r. done.
    + split; [| naive_solver]. split; [done |]. intros (o' & [= <-] & _ & [Hown | [Hf _]]); [| congruence].
      by rewrite Hl, (proj2 (String.eqb_neq _ _) Hne) in Hown.
  - destruct (Z.leb_spec (lease_MaxLocksPerUser (lm_lease lm)) (UserLockCount lm u)); simpl.
    + split; [| naive_solver]. split; [done |].
      intros (o' & [= <-] & _ & [Hown | [_ Hlt]]); [by rewrite Hl in Hown | lia].
    + split; [split; [intros _; exists o; auto | done] |].
      split; [done |]. intros _. exists o. split_and!; [done | done | done |].
      intros v. rewrite Hl, andb_true_r. unfold UserLockCount, lookup_Z. simpl.
      destruct (String.eqb_spec v u) as [-> | Hne].
      * by rewrite lookup_insert_eq.
      * rewrite lookup_insert_ne by done. lia.
Qed.

(** C27: [ReleaseExpired] does the same thing in whatever order the runtime
    enumerates the objects: two enumerations leave identical object and
    counter maps and release the same objects, each once; every expired lock
    is cleared with a version bump and every other object is untouched. *)
Theorem release_expired_spec (site : list nat) (lm : LockManager) (now : Time) :
  let res := ReleaseExpired site lm now in
  (forall id, lm_objects res.1 !! id =
     (fun o => if expired now o then o_set_lock o unlocked (u32 (o_Version o + 1)) else o)
       <$> lm_objects lm !! id) /\
  (forall id o, lm_objects res.1 !! id = Some o -> expired now o = false) /\
  (forall (GR' : GoRange) (site' : list nat),
     (@ReleaseExpired GR' site' lm now).1 = res.1 /\
     (@ReleaseExpired GR' site' lm now).2 ≡ₚ res.2).
Proof.
  unfold ReleaseExpired. simpl.
  assert (forall id, lm_objects (sweep (expired now) (range site (lm_objects lm)).*1 lm).1 !! id =
    swept (expired now) <$> lm_objects lm !! id) as Hall.
  { intros id. rewrite sweep_lookup by apply NoDup_fst_range. case_decide as Hd; [done |].
    rewrite elem_of_range_fst, <- eq_None_not_Some in Hd. by rewrite Hd. }
  split; [done |]. split.
  - intros id o'. rewrite Hall, fmap_Some. intros (o & Ho & ->). unfold swept.
    destruct (expired now o) eqn:He; [done | by rewrite He].
  - intros GR' site'.
    assert ((@range GR' _ _ _ _ site' (lm_objects lm)).*1
            ≡ₚ (@range GR _ _ _ _ site (lm_objects lm)).*1) as Hp
      by (by rewrite (@range_perm GR'), (@range_perm GR)).
    split.
    + apply sweep_perm; [exact Hp | apply NoDup_fst_range].
    + rewrite !sweep_released by apply NoDup_fst_range. by rewrite Hp.
Qed.

(** The objects after a session ended. *)
Lemma ReleaseBySession_lookup site lm s now id :
  lm_objects (ReleaseBySession site lm s now).1 !! id = swept (held_by_session s) <$> lm_objects lm !! id.
Proof.
  unfold ReleaseBySession. rewrite sweep_lookup by apply NoDup_fst_range. case_decide as Hd; [done |].
  rewrite elem_of_range_fst, <- eq_None_not_Some in Hd. by rewrite Hd.
Qed.

(** A session that ended holds no lock. *)
Lemma ReleaseBySession_free site lm s now id o :
  lm_objects (ReleaseBySession site lm s now).1 !! id = Some o ->
  l_LockedBy (o_Lock o) <> "" -> l_SessionID (o_Lock o) <> s.
Proof.
  rewrite ReleaseBySession_lookup, fmap_Some. intros (o' & Ho & ->). unfold swept.
  destruct (held_by_session s o') eqn:Ht; simpl; [done |]. intros Hl <-.
  unfold held_by_session in Ht.
  by rewrite String.eqb_refl, (proj2 (String.eqb_neq _ _) Hl) in Ht.
Qed.

(** When a session ends, [ReleaseBySession] clears every lock that session
    holds and touches no lock of any other session. *)
Theorem release_by_session_spec (site : list nat) (lm : LockManager) (s : string) (now : Time) :
  let lm' := (ReleaseBySession site lm s now).1 in
  (forall id o, lm_objects lm' !! id = Some o ->
     l_LockedBy (o_Lock o) <> "" -> l_SessionID (o_Lock o) <> s) /\
  (forall id l, lock_at lm id = Some l -> l_SessionID l <> s -> lock_at lm' id = Some l).
Proof.
  split; [intros id o; apply ReleaseBySession_free |].
  unfold ReleaseBySession. simpl. set (test := held_by_session s).
  - intros id l Hl Hne. rewrite <- Hl. apply fmap_Some in Hl as (o & Ho & ->).
    eapply lock_at_sweep; [apply NoDup_fst_range | done |].
    unfold test, held_by_session. by rewrite (proj2 (String.eqb_neq _ _) Hne).
Qed.
End contract.

(** Acquiring over a lock that has expired but was not swept yet hands the
    object over without crediting the previous owner: the number of objects he
    holds drops by one while his counter stays, so his quota shrinks for the
    rest of the room's life. *)
Theorem acquire_over_expired_leaks (lm : LockManager) (id : ObjectID) (o : ObjectState)
    (u s : string) (now : Time) :
  let old := l_LockedBy (o_Lock o) in
  lm_objects lm !! id = Some o -> o_Status o = ObjectStatusActive ->
  expired now o = true -> u <> old ->
  UserLockCount lm u < lease_MaxLocksPerUser (lm_lease lm) ->
  let res := AcquireLock lm id u s now in
  Granted res.2 = true /\ UserLockCount res.1 old = UserLockCount lm old /\
  (held old res.1 + 1 = held old lm)%nat.
Proof.
  intros old Ho Ha He Hne Hlt. unfold AcquireLock, ObjectManager.Get. rewrite Ho.
  rewrite decide_False by congruence.
  assert (IsLocked (o_Lock o) now = false) as ->.
  { unfold expired in He. apply andb_true_iff in He as [_ He]. apply negb_true_iff in He.
    unfold IsLocked. by rewrite He, andb_false_r. }
  rewrite (proj2 (Z.leb_gt _ _) Hlt). simpl. split; [done |]. split.
  - unfold UserLockCount at 1. simpl. rewrite lookup_Z_insert.
    by rewrite (proj2 (String.eqb_neq _ _) Hne).
  - pose proof (held_put old lm id o
      (o_set_lock o (MkLockState u s (now + lease_TTL (lm_lease lm))) (o_bump o))
      (<[u := UserLockCount lm u + 1]> (lm_userLockCount lm)) (lm_lease lm) Ho) as Hp.
    unfold owned_by in Hp. simpl in Hp. unfold old in *. rewrite String.eqb_refl in Hp.
    rewrite (proj2 (String.eqb_neq _ _) Hne) in Hp. simpl in Hp. lia.
Qed.

(** The empty user is granted a lock that locks nothing: the object reads
    as unlocked at every time, while the counter of the empty user grows and is
    never credited back by any release. *)
Theorem anonymous_acquire_locks_nothing (lm : LockManager) (id : ObjectID) (o : ObjectState)
    (s : string) (now : Time) :
  lm_objects lm !! id = Some o -> o_Status o = ObjectStatusActive ->
  IsLocked (o_Lock o) now = false ->
  UserLockCount lm "" < lease_MaxLocksPerUser (lm_lease lm) ->
  let res := AcquireLock lm id "" s now in
  Granted res.2 = true /\
  (forall t, from_option (fun l => IsLocked l t) true (lock_at res.1 id) = false) /\
  UserLockCount res.1 "" = UserLockCount lm "" + 1 /\
  (forall id' o', UserLockCount (clearLock res.1 id' o') "" = UserLockCount res.1 "").
Proof.
  intros Ho Ha Hl Hlt. unfold AcquireLock, ObjectManager.Get. rewrite Ho.
  rewrite decide_False by congruence. rewrite Hl, (proj2 (Z.leb_gt _ _) Hlt). simpl.
  split; [done |]. split; [| split].
  - intros t. unfold lock_at. simpl. by rewrite lookup_insert_eq.
  - unfold UserLockCount at 1. simpl. by rewrite lookup_Z_insert.
  - intros id' o'. rewrite UserLockCount_clearLock. simpl. rewrite andb_false_r. simpl. lia.
Qed.

(** ** Witnesses *)

Module LockExample.

Definition tr0 : ObjectTransform :=
  MkObjectTransform (MkVec3 f32_zero f32_zero f32_zero) IdentityQuat.

(** Two chairs; alice takes both, is refreshed, and bob waits for an expiry. *)
Definition ops1 : list LockOp :=
  [OpCreate "chair-1" "chair" tr0; OpCreate "chair-2" "chair" tr0;
   OpAcquire "chair-1" "alice" "s1" 100; OpAcquire "chair-2" "alice" "s1" 200;
   OpRefresh "chair-1" "alice" 300; OpExpire 400; OpRelease "chair-2" "alice" 500;
   OpAcquire "chair-2" "bob" "s2" 600; OpSession "s2" 700].

Definition lm0 : LockManager := NewLockManager ObjectManager.NewObjectManager DefaultLockLease.

Definition lm1 : LockManager := @lock_run canonical_range 0 (take 4 ops1) lm0.

Definition chair2 : ObjectState :=
  MkObjectState "chair-2" "chair" tr0 [] ObjectStatusActive
    (MkLockState "alice" "s1" 10000000200) 1.

End LockExample.

Lemma lock_quota_witness :
  (held "alice" (@lock_run canonical_range 0 (take 4 LockExample.ops1) LockExample.lm0) = 2)%nat /\
  Z.of_nat (held "alice" (@lock_run canonical_range 0 (take 4 LockExample.ops1) LockExample.lm0)) <= 3.
Proof.
  split; [vm_compute; reflexivity |].
  apply (@lock_quota canonical_range DefaultLockLease (take 4 LockExample.ops1) "alice"). done.
Defined.

Lemma lock_counts_exact_witness :
  UserLockCount (@lock_run canonical_range 0 LockExample.ops1 LockExample.lm0) "alice" =
  Z.of_nat (held "alice" (@lock_run canonical_range 0 LockExample.ops1 LockExample.lm0)).
Proof.
  apply (@lock_counts_exact canonical_range DefaultLockLease LockExample.ops1 "alice");
    [done | vm_compute; reflexivity].
Defined.

Lemma lease_stable_witness :
  lock_at (@lock_run canonical_range 4
    [OpAcquire "chair-2" "bob" "s2" 600; OpExpire 700; OpRelease "chair-2" "bob" 800;
     OpSession "s2" 900] LockExample.lm1) "chair-2"
  = Some (MkLockState "alice" "s1" 10000000200).
Proof.
  apply (@lease_stable canonical_range 4 _ LockExample.lm1);
    [vm_compute; reflexivity | done | vm_compute; reflexivity].
Defined.

Lemma acquire_over_expired_leaks_witness :
  Granted (AcquireLock LockExample.lm1 "chair-2" "bob" "s2" 10000000200).2 = true /\
  UserLockCount (AcquireLock LockExample.lm1 "chair-2" "bob" "s2" 10000000200).1 "alice" = 2 /\
  (held "alice" (AcquireLock LockExample.lm1 "chair-2" "bob" "s2" 10000000200).1 + 1 = 2)%nat.
Proof.
  apply (acquire_over_expired_leaks LockExample.lm1 "chair-2" LockExample.chair2 "bob" "s2"
    10000000200); by vm_compute.
Defined.

Lemma anonymous_acquire_locks_nothing_witness :
  Granted (AcquireLock LockExample.lm1 "chair-2" "" "s2" 10000000200).2 = true /\
  (forall t, from_option (fun l => IsLocked l t) true
     (lock_at (AcquireLock LockExample.lm1 "chair-2" "" "s2" 10000000200).1 "chair-2") = false) /\
  UserLockCount (AcquireLock LockExample.lm1 "chair-2" "" "s2" 10000000200).1 "" = 1 /\
  (forall id' o', UserLockCount
     (clearLock (AcquireLock LockExample.lm1 "chair-2" "" "s2" 10000000200).1 id' o') "" =
     UserLockCount (AcquireLock LockExample.lm1 "chair-2" "" "s2" 10000000200).1 "").
Proof.
  apply (anonymous_acquire_locks_nothing LockExample.lm1 "chair-2" LockExample.chair2 "s2"
    10000000200); by vm_compute.
Defined.
