(* ===== verification/Spatial.v ===== *)
(** * The spatial hash grid and the interest manager

    Models [internal/game/spatial] ([types.go], [hash.go]) and
    [internal/game/interest/manager.go]: a two-level index from grid cells to
    the entities they contain, kept next to a map from entities to their cell
    and position, and the radius query that drives visibility. *)

From Stdlib Require Import ZArith Lia.
From stdpp Require Import base strings gmap fin_maps list numbers.
From S2P Require Import Prelude.
From S2P Require Import GoFloat.

Local Open Scope Z_scope.
Local Open Scope go_scope.

Abbreviation EntityID := string.

(** ** Data *)

Record EntityPosition := Pos { ep_X : float32; ep_Z : float32 }.

Record CellCoord := MkCellCoord { cc_X : Z; cc_Z : Z }.

#[global] Instance CellCoord_eq_dec : EqDecision CellCoord.
Proof. solve_decision. Defined.

#[global] Instance CellCoord_countable : Countable CellCoord.
Proof.
  apply (inj_countable' (fun c => (cc_X c, cc_Z c)) (fun p => MkCellCoord p.1 p.2)).
  by intros [].
Defined.

Record SpatialConfig := MkSpatialConfig { sc_CellSizeM : float32; sc_MaxWorldCoord : float32 }.

Definition DefaultSpatialConfig : SpatialConfig :=
  MkSpatialConfig (f32_of_Z 10) (f32_of_Z 100000).

Record cellEntry := MkCellEntry { ce_coord : CellCoord; ce_pos : EntityPosition }.

Record GridSpatialHash := MkGrid {
  g_cellSize : float32;
  g_maxWorldCoord : float32;
  g_cells : gmap CellCoord (gmap EntityID EntityPosition);
  g_entities : gmap EntityID cellEntry }.

Inductive SpatialError :=
  | ErrXNotFinite | ErrZNotFinite | ErrXOutOfWorld | ErrZOutOfWorld.

(** ** Operations *)

Definition NewGridSpatialHash (config : SpatialConfig) : GridSpatialHash :=
  let maxCoord := sc_MaxWorldCoord config in
  {| g_cellSize := sc_CellSizeM config;
     g_maxWorldCoord :=
       if fle maxCoord f32_zero then sc_MaxWorldCoord DefaultSpatialConfig else maxCoord;
     g_cells := ∅;
     g_entities := ∅ |}.

Definition validatePosition (h : GridSpatialHash) (pos : EntityPosition) : option SpatialError :=
  let x := f64_of_f32 (ep_X pos) in
  let z := f64_of_f32 (ep_Z pos) in
  let bound := f64_of_f32 (g_maxWorldCoord h) in
  guard_err (IsNaN x || IsInf x) ErrXNotFinite >>?
  guard_err (IsNaN z || IsInf z) ErrZNotFinite >>?
  guard_err (fgt (f64_abs x) bound) ErrXOutOfWorld >>?
  guard_err (fgt (f64_abs z) bound) ErrZOutOfWorld.

Definition toCellCoord (pos : EntityPosition) (cellSize : float32) : CellCoord :=
  MkCellCoord
    (int_of_f64 (math_Floor (f64_of_f32 (f32_div (ep_X pos) cellSize))))
    (int_of_f64 (math_Floor (f64_of_f32 (f32_div (ep_Z pos) cellSize)))).

(** [delete(cell, id)] on the shared inner map, dropping the cell when empty. *)
Definition removeFromCell (cells : gmap CellCoord (gmap EntityID EntityPosition))
    (id : EntityID) (coord : CellCoord) : gmap CellCoord (gmap EntityID EntityPosition) :=
  match cells !! coord with
  | None => cells
  | Some cell =>
      let cell' := delete id cell in
      if decide (size cell' = 0%nat) then delete coord cells else <[coord := cell']> cells
  end.

(** The tail of [Update]: fetch or create the cell, then write both maps. *)
Definition place (h : GridSpatialHash) (cells : gmap CellCoord (gmap EntityID EntityPosition))
    (id : EntityID) (newCoord : CellCoord) (pos : EntityPosition) : GridSpatialHash :=
  let cell := default ∅ (cells !! newCoord) in
  MkGrid (g_cellSize h) (g_maxWorldCoord h)
    (<[newCoord := <[id := pos]> cell]> cells)
    (<[id := MkCellEntry newCoord pos]> (g_entities h)).

Definition Update (h : GridSpatialHash) (id : EntityID) (pos : EntityPosition)
    : GridSpatialHash * option SpatialError :=
  match validatePosition h pos with
  | Some err => (h, Some err)
  | None =>
      let newCoord := toCellCoord pos (g_cellSize h) in
      match g_entities h !! id with
      | Some entry =>
          if decide (ce_coord entry = newCoord) then
            (MkGrid (g_cellSize h) (g_maxWorldCoord h)
               (alter (fun cell => <[id := pos]> cell) newCoord (g_cells h))
               (<[id := MkCellEntry newCoord pos]> (g_entities h)), None)
          else
            (place h (removeFromCell (g_cells h) id (ce_coord entry)) id newCoord pos, None)
      | None => (place h (g_cells h) id newCoord pos, None)
      end
  end.

Definition Remove (h : GridSpatialHash) (id : EntityID) : GridSpatialHash :=
  match g_entities h !! id with
  | None => h
  | Some entry =>
      MkGrid (g_cellSize h) (g_maxWorldCoord h)
        (removeFromCell (g_cells h) id (ce_coord entry)) (delete id (g_entities h))
  end.

Definition Get (h : GridSpatialHash) (id : EntityID) : option EntityPosition :=
  ce_pos <$> g_entities h !! id.

(** [dx*dx + dz*dz <= radiusSq], in [float64] after a [float32] subtraction. *)
Definition in_radius (pos : EntityPosition) (radius : float32) (entityPos : EntityPosition) : bool :=
  let dx := f64_of_f32 (f32_sub (ep_X pos) (ep_X entityPos)) in
  let dz := f64_of_f32 (f32_sub (ep_Z pos) (ep_Z entityPos)) in
  let radiusSq := f64_mul (f64_of_f32 radius) (f64_of_f32 radius) in
  fle (f64_add (f64_mul dx dx) (f64_mul dz dz)) radiusSq.

(** [for c := center - cellRadius; c <= center + cellRadius; c++], the values of
    [c] in the body.  [None]: the fuel is not enough. *)
Fixpoint scan_loop (fuel : nat) (c hi : Z) : option (list Z) :=
  match fuel with
  | O => None
  | S fuel => if c <=? hi then cons c <$> scan_loop fuel (i64 (c + 1)) hi else Some []
  end.

Definition scan_lo (center cellRadius : Z) : Z := i64 (center - cellRadius).

Definition scan_hi (center cellRadius : Z) : Z := i64 (center + cellRadius).

(** What the loop visits.  [None]: its end is the largest [int], which no counter
    exceeds, so the loop has no end ([scan_axis_loop], [scan_axis_endless]). *)
Definition scan_axis (center cellRadius : Z) : option (list Z) :=
  let lo := scan_lo center cellRadius in
  let hi := scan_hi center cellRadius in
  if hi <? 2 ^ 63 - 1 then Some (seqZ lo (hi - lo + 1)) else None.

Definition cell_radius (h : GridSpatialHash) (radius : float32) : Z :=
  int_of_f64 (math_Ceil (f64_of_f32 (f32_div radius (g_cellSize h)))).

(** The cells the two nested loops look at, in their order; the inner loop runs
    only when the outer one has a value.  [None]: a loop never ends. *)
Definition scanned_cells (h : GridSpatialHash) (pos : EntityPosition) (radius : float32)
    : option (list CellCoord) :=
  let viewer := toCellCoord pos (g_cellSize h) in
  let r := cell_radius h radius in
  cxs ← scan_axis (cc_X viewer) r;
  match cxs with
  | [] => Some []
  | _ :: _ =>
      czs ← scan_axis (cc_Z viewer) r;
      Some (cx ← cxs; cz ← czs; [MkCellCoord cx cz])
  end.

(** The entities of one scanned cell that pass the distance test. *)
Definition cell_hits `{GR : !GoRange} (site : list nat) (h : GridSpatialHash)
    (pos : EntityPosition) (radius : float32) (c : CellCoord) : list EntityID :=
  match g_cells h !! c with
  | None => []
  | Some cell => (filter (fun e => in_radius pos radius e.2 = true) (range site cell)).*1
  end.

(** [None]: the call never returns. *)
Definition QueryRadius `{GR : !GoRange} (site : list nat) (h : GridSpatialHash)
    (pos : EntityPosition) (radius : float32) : option (list EntityID) :=
  if fle radius f32_zero then Some []
  else match validatePosition h pos with
  | Some _ => Some []
  | None =>
      cells ← scanned_cells h pos radius;
      Some (cells ≫= cell_hits site h pos radius)
  end.

Definition Len (h : GridSpatialHash) : nat := size (g_entities h).

Definition Clear (h : GridSpatialHash) : GridSpatialHash :=
  MkGrid (g_cellSize h) (g_maxWorldCoord h) ∅ ∅.

(** ** Interest *)

Record InterestConfig := MkInterestConfig {
  ic_VisualRadiusM : float32;
  ic_ObjectRadiusM : float32;
  ic_VoiceRadiusM : float32;
  ic_FullAvatarRadiusM : float32;
  ic_LowLodRadiusM : float32 }.

Definition DefaultInterestConfig : InterestConfig :=
  let r := f32_of_Z 30 in MkInterestConfig r r r r r.

Definition QueryVisiblePlayers `{GR : !GoRange} (site : list nat) (config : InterestConfig)
    (idx : GridSpatialHash) (viewerPos : EntityPosition) (viewerID : EntityID)
    : option (list EntityID) :=
  ids ← QueryRadius site idx viewerPos (ic_VisualRadiusM config);
  Some (filter (fun id => id <> viewerID) ids).
