(* ===== verification/SpatialFacts.v ===== *)
(** * Correctness of the spatial hash grid

    The two maps of the grid stay in agreement, the grid refines a plain map
    from entities to positions, and a radius query ends and returns, once each,
    exactly the entities that pass the distance test in the scanned square of
    cells; for positions in whole metres these are the entities within the
    radius. *)

From Stdlib Require Import ZArith Lia.
From stdpp Require Import base strings gmap fin_maps list numbers.
From S2P Require Import Prelude.
From S2P Require Import GoFloat.
From S2P Require Import FloatExact.
From S2P Require Import Spatial.

Local Open Scope string_scope.
Local Open Scope Z_scope.

Abbreviation cell_map := (gmap CellCoord (gmap EntityID EntityPosition)).

(** [h.cells[c][id]] *)
Definition cells_at (cells : cell_map) (c : CellCoord) (id : EntityID) : option EntityPosition :=
  match cells !! c with Some cell => cell !! id | None => None end.

Lemma cells_at_remove cells id c c' id' :
  cells_at (removeFromCell cells id c) c' id' =
  if decide (c = c' /\ id = id') then None else cells_at cells c' id'.
Proof.
  unfold removeFromCell, cells_at. destruct (decide (c = c')) as [<- | Hc].
  - destruct (cells !! c) as [cell |] eqn:Hcell.
    + case_decide as Hsz.
      * rewrite lookup_delete_eq. apply map_size_empty_inv in Hsz.
        case_decide as Hd; [done |]. symmetry.
        rewrite <- (lookup_delete_ne cell id id') by naive_solver.
        by rewrite Hsz, lookup_empty.
      * rewrite lookup_insert_eq. case_decide as Hd.
        -- destruct Hd as [_ <-]. by rewrite lookup_delete_eq.
        -- by rewrite lookup_delete_ne by naive_solver.
    + rewrite Hcell. by case_decide.
  - rewrite decide_False by naive_solver.
    destruct (cells !! c) as [cell |] eqn:Hcell; [| done]. case_decide.
    + by rewrite lookup_delete_ne.
    + by rewrite lookup_insert_ne.
Qed.

Lemma cells_at_insert cells id c pos c' id' :
  cells_at (<[c := <[id := pos]> (default ∅ (cells !! c))]> cells) c' id' =
  if decide (c = c' /\ id = id') then Some pos else cells_at cells c' id'.
Proof.
  unfold cells_at. destruct (decide (c = c')) as [<- | Hc].
  - rewrite lookup_insert_eq. case_decide as Hd.
    + destruct Hd as [_ <-]. by rewrite lookup_insert_eq.
    + rewrite lookup_insert_ne by naive_solver. destruct (cells !! c); [done |].
      apply lookup_empty.
  - rewrite decide_False by naive_solver. by rewrite lookup_insert_ne.
Qed.

(** ** Invariant *)

Record spatial_inv (h : GridSpatialHash) : Prop := {
  si_agree : forall c id pos,
    cells_at (g_cells h) c id = Some pos <-> g_entities h !! id = Some (MkCellEntry c pos);
  si_nonempty : forall c cell, g_cells h !! c = Some cell -> cell <> ∅;
  si_coord : forall id e, g_entities h !! id = Some e ->
    ce_coord e = toCellCoord (ce_pos e) (g_cellSize h);
  si_valid : forall id e, g_entities h !! id = Some e -> validatePosition h (ce_pos e) = None }.

Lemma spatial_inv_new config : spatial_inv (NewGridSpatialHash config).
Proof.
  split; simpl; intros *; by rewrite lookup_empty.
Qed.

Lemma removeFromCell_nonempty cells id c c' cell :
  (forall c cell, cells !! c = Some cell -> cell <> ∅) ->
  removeFromCell cells id c !! c' = Some cell -> cell <> ∅.
Proof.
  intros Hne. unfold removeFromCell. destruct (cells !! c) as [cell0 |] eqn:Hc; [| apply Hne].
  case_decide as Hsz.
  - rewrite lookup_delete_Some. intros [_ H]. eauto.
  - rewrite lookup_insert_Some. intros [[<- <-] | [_ H]]; [| eauto].
    intros Hemp. by rewrite Hemp, map_size_empty in Hsz.
Qed.

(** The agreement after an entity moved to [c]: only its own entry changes. *)
Lemma agree_move (cells cells' : cell_map) (ents : gmap EntityID cellEntry) id c0 c pos :
  (forall c' id' p, cells_at cells c' id' = Some p <-> ents !! id' = Some (MkCellEntry c' p)) ->
  (forall c' id', cells_at cells' c' id' =
     if decide (c = c' /\ id = id') then Some pos
     else if decide (c0 = c' /\ id = id') then None else cells_at cells c' id') ->
  (ents !! id = None \/ ce_coord <$> ents !! id = Some c0) ->
  forall c' id' p, cells_at cells' c' id' = Some p <->
    <[id := MkCellEntry c pos]> ents !! id' = Some (MkCellEntry c' p).
Proof.
  intros Hag Hcells Hold c' id' p. rewrite Hcells.
  destruct (decide (id = id')) as [<- | Hne].
  - rewrite lookup_insert_eq. destruct (decide (c = c' /\ id = id)) as [[<- _] | Hc].
    + naive_solver.
    + split; [| intros [= <- <-]; naive_solver].
      destruct (decide (c0 = c' /\ id = id)) as [| Hc0]; [done |].
      rewrite Hag. intros He. destruct Hold as [Hn | Hs]; [congruence |].
      rewrite He in Hs. simpl in Hs. naive_solver.
  - rewrite lookup_insert_ne by done. rewrite !decide_False by naive_solver. apply Hag.
Qed.

(** ** Update, Remove and Clear *)

Lemma validatePosition_ext h h' pos :
  g_maxWorldCoord h = g_maxWorldCoord h' -> validatePosition h pos = validatePosition h' pos.
Proof. unfold validatePosition. by intros ->. Qed.

(** What [Update] does to the entity map. *)
Lemma Update_entities h id pos :
  g_entities (Update h id pos).1 =
  match validatePosition h pos with
  | Some _ => g_entities h
  | None => <[id := MkCellEntry (toCellCoord pos (g_cellSize h)) pos]> (g_entities h)
  end.
Proof. unfold Update. destruct (validatePosition h pos); [done |]. by repeat case_match. Qed.

Lemma Update_static h id pos :
  g_cellSize (Update h id pos).1 = g_cellSize h /\
  g_maxWorldCoord (Update h id pos).1 = g_maxWorldCoord h.
Proof. unfold Update. by repeat case_match. Qed.

Lemma Update_error h id pos : (Update h id pos).2 = validatePosition h pos.
Proof. unfold Update. destruct (validatePosition h pos); [done |]. by repeat case_match. Qed.

Lemma Update_cells h id pos c' id' :
  spatial_inv h -> validatePosition h pos = None ->
  cells_at (g_cells (Update h id pos).1) c' id' =
  if decide (toCellCoord pos (g_cellSize h) = c' /\ id = id') then Some pos
  else if decide (from_option ce_coord (toCellCoord pos (g_cellSize h)) (g_entities h !! id) = c'
                  /\ id = id') then None
  else cells_at (g_cells h) c' id'.
Proof.
  intros Hinv Hv. unfold Update. rewrite Hv. set (c := toCellCoord pos (g_cellSize h)).
  destruct (g_entities h !! id) as [e |] eqn:He; simpl.
  - destruct (decide (ce_coord e = c)) as [Hc | Hc]; simpl.
    + destruct e as [ec ep]. simpl in Hc. subst ec.
      pose proof (proj2 (si_agree _ Hinv c id ep) He) as Hat. unfold cells_at in *.
      destruct (g_cells h !! c) as [cell |] eqn:Hcell; [| done].
      destruct (decide (c = c')) as [<- | Hne].
      * rewrite lookup_alter_eq, Hcell. simpl.
        destruct (decide (id = id')) as [<- | Hid].
        -- rewrite lookup_insert_eq. by rewrite decide_True.
        -- rewrite lookup_insert_ne by done. by rewrite !decide_False by naive_solver.
      * rewrite lookup_alter_ne by done. by rewrite !decide_False by naive_solver.
    + unfold place. simpl. by rewrite cells_at_insert, cells_at_remove.
  - rewrite cells_at_insert. by case_decide.
Qed.

Lemma Update_nonempty h id pos c cell :
  spatial_inv h -> g_cells (Update h id pos).1 !! c = Some cell -> cell <> ∅.
Proof.
  intros Hinv. pose proof (si_nonempty _ Hinv) as Hne. unfold Update, place.
  destruct (validatePosition h pos); [apply Hne |].
  destruct (g_entities h !! id); [case_decide |]; simpl.
  - rewrite lookup_alter_Some. intros [(<- & cell' & _ & ->) | [_ Hl]]; [apply insert_non_empty | eauto].
  - rewrite lookup_insert_Some. intros [[_ <-] | [_ Hl]]; [apply insert_non_empty |].
    by eapply removeFromCell_nonempty.
  - rewrite lookup_insert_Some. intros [[_ <-] | [_ Hl]]; [apply insert_non_empty | eauto].
Qed.

Lemma spatial_inv_Update h id pos : spatial_inv h -> spatial_inv (Update h id pos).1.
Proof.
  intros Hinv. destruct (validatePosition h pos) as [err |] eqn:Hv.
  { unfold Update. by rewrite Hv. }
  pose proof (Update_static h id pos) as [Hcs Hmw].
  split.
  - intros c' id' p. rewrite Update_entities, Hv.
    apply (agree_move (g_cells h) _ _ id
      (from_option ce_coord (toCellCoord pos (g_cellSize h)) (g_entities h !! id))).
    + apply (si_agree _ Hinv).
    + intros. by apply Update_cells.
    + destruct (g_entities h !! id); [by right | by left].
  - intros c cell. by apply Update_nonempty.
  - intros id' e. rewrite Update_entities, Hv, Hcs, lookup_insert_Some.
    intros [[_ <-] | [_ He]]; [done | by apply (si_coord _ Hinv id')].
  - intros id' e. rewrite Update_entities, Hv, lookup_insert_Some.
    rewrite (validatePosition_ext _ h) by done.
    intros [[_ <-] | [_ He]]; [done | by apply (si_valid _ Hinv id')].
Qed.

Lemma Remove_entities h id : g_entities (Remove h id) = delete id (g_entities h).
Proof.
  unfold Remove. destruct (g_entities h !! id) eqn:He; [done |]. by rewrite delete_id.
Qed.

Lemma spatial_inv_Remove h id : spatial_inv h -> spatial_inv (Remove h id).
Proof.
  intros Hinv. unfold Remove. destruct (g_entities h !! id) as [[c0 p0] |] eqn:He; [| done].
  simpl. split; simpl.
  - intros c id' p. rewrite cells_at_remove.
    destruct (decide (id = id')) as [<- | Hne].
    + rewrite lookup_delete_eq. split; [| done]. case_decide as Hd; [done |].
      rewrite (si_agree _ Hinv). naive_solver.
    + rewrite lookup_delete_ne by done. rewrite decide_False by naive_solver.
      apply (si_agree _ Hinv).
  - intros c cell. apply removeFromCell_nonempty, (si_nonempty _ Hinv).
  - intros id' e. rewrite lookup_delete_Some. intros [_ H]. by apply (si_coord _ Hinv id').
  - intros id' e. rewrite lookup_delete_Some. intros [_ H]. by apply (si_valid _ Hinv id').
Qed.

Lemma spatial_inv_Clear h : spatial_inv (Clear h).
Proof. split; simpl; intros *; by rewrite lookup_empty. Qed.

(** ** Refinement of a plain position map *)

Inductive SpatialOp :=
  | SUpdate (id : EntityID) (pos : EntityPosition)
  | SRemove (id : EntityID)
  | SClear.

Definition spatial_step (op : SpatialOp) (h : GridSpatialHash) : GridSpatialHash :=
  match op with
  | SUpdate id pos => (Update h id pos).1
  | SRemove id => Remove h id
  | SClear => Clear h
  end.

(** The specification: a map from entities to positions, in which a position
    that is not finite or lies outside the world is refused. *)
Definition spec_step (h0 : GridSpatialHash) (op : SpatialOp) (m : gmap EntityID EntityPosition)
    : gmap EntityID EntityPosition :=
  match op with
  | SUpdate id pos =>
      match validatePosition h0 pos with None => <[id := pos]> m | Some _ => m end
  | SRemove id => delete id m
  | SClear => ∅
  end.

Definition spatial_run (ops : list SpatialOp) (h : GridSpatialHash) : GridSpatialHash :=
  foldl (fun h op => spatial_step op h) h ops.

Definition spec_run (h0 : GridSpatialHash) (ops : list SpatialOp) (m : gmap EntityID EntityPosition)
    : gmap EntityID EntityPosition :=
  foldl (fun m op => spec_step h0 op m) m ops.

Lemma spatial_step_inv op h : spatial_inv h -> spatial_inv (spatial_step op h).
Proof.
  destruct op; simpl; auto using spatial_inv_Update, spatial_inv_Remove, spatial_inv_Clear.
Qed.

Lemma spatial_run_inv ops h : spatial_inv h -> spatial_inv (spatial_run ops h).
Proof.
  revert h. induction ops as [| op ops IH]; intros h Hinv; [done |].
  apply IH. by apply spatial_step_inv.
Qed.

Lemma spatial_step_refines h0 op h :
  g_maxWorldCoord h = g_maxWorldCoord h0 ->
  ce_pos <$> g_entities (spatial_step op h) = spec_step h0 op (ce_pos <$> g_entities h) /\
  g_maxWorldCoord (spatial_step op h) = g_maxWorldCoord h0.
Proof.
  intros Hmw. destruct op as [id pos | id |]; simpl.
  - destruct (Update_static h id pos) as [_ ->]. split; [| done].
    rewrite Update_entities, (validatePosition_ext h h0) by done.
    destruct (validatePosition h0 pos); [done |]. by rewrite fmap_insert.
  - rewrite Remove_entities, fmap_delete. split; [done |]. unfold Remove. by case_match.
  - by rewrite fmap_empty.
Qed.

(** ** Radius queries *)

Lemma scan_loop_seqZ n c hi :
  - 2 ^ 63 <= c -> hi < 2 ^ 63 - 1 -> Z.to_nat (hi - c + 1) = n -> scan_loop (S n) c hi = Some (seqZ c (hi - c + 1)).
Proof.
  revert c. induction n as [| n IH]; intros c Hc Hhi Hn; cbn [scan_loop].
  - destruct (Z.leb_spec c hi); [lia |]. by rewrite seqZ_nil by lia.
  - destruct (Z.leb_spec c hi); [| lia]. rewrite i64_small by lia. specialize (IH (c + 1)).
    cbn [scan_loop] in IH. rewrite IH by lia. simpl. rewrite (seqZ_cons c (hi - c + 1)) by lia.
    by replace (hi - (c + 1) + 1) with (Z.pred (hi - c + 1)) by lia.
Qed.

Lemma scan_loop_endless fuel c hi : hi = 2 ^ 63 - 1 -> c <= hi -> scan_loop fuel c hi = None.
Proof.
  intros Hhi. revert c. induction fuel as [| fuel IH]; intros c Hc; [done |]. cbn [scan_loop].
  destruct (Z.leb_spec c hi); [| lia]. rewrite IH; [done |]. pose proof (i64_range (c + 1)). lia.
Qed.

Lemma scan_axis_Some c r l :
  scan_axis c r = Some l <->
  scan_hi c r < 2 ^ 63 - 1 /\ l = seqZ (scan_lo c r) (scan_hi c r - scan_lo c r + 1).
Proof. unfold scan_axis. destruct (Z.ltb_spec (scan_hi c r) (2 ^ 63 - 1)); naive_solver lia. Qed.

(** The loop over one axis visits the listed values, or never ends. *)
Lemma scan_axis_loop c r l :
  scan_axis c r = Some l -> exists fuel, scan_loop fuel (scan_lo c r) (scan_hi c r) = Some l.
Proof.
  intros [Hhi ->]%scan_axis_Some. eexists. apply scan_loop_seqZ; [apply i64_range | done | done].
Qed.

Lemma scan_axis_endless c r :
  scan_axis c r = None -> forall fuel, scan_loop fuel (scan_lo c r) (scan_hi c r) = None.
Proof.
  unfold scan_axis. destruct (Z.ltb_spec (scan_hi c r) (2 ^ 63 - 1)) as [| Hhi]; [done |].
  intros _ fuel. pose proof (i64_range (c + r)) as H1. pose proof (i64_range (c - r)) as H2.
  fold (scan_hi c r) in H1. fold (scan_lo c r) in H2. apply scan_loop_endless; lia.
Qed.

(** The values of one axis when the scan stays within the 64-bit integers. *)
Lemma scan_axis_fits c r :
  0 <= r -> - 2 ^ 63 <= c - r -> c + r < 2 ^ 63 - 1 ->
  exists x l, scan_axis c r = Some (x :: l) /\ forall y, y ∈ x :: l <-> Z.abs (y - c) <= r.
Proof.
  intros Hr Hlo Hhi. unfold scan_axis, scan_lo, scan_hi. rewrite !i64_small by lia.
  destruct (Z.ltb_spec (c + r) (2 ^ 63 - 1)); [| lia]. rewrite seqZ_cons by lia.
  eexists _, _. split; [done |]. intros y. rewrite <- seqZ_cons, elem_of_seqZ by lia. lia.
Qed.

Lemma scanned_cells_Some h pos radius cells :
  scanned_cells h pos radius = Some cells ->
  exists cxs czs, cells = (cx ← cxs; cz ← czs; [MkCellCoord cx cz]) /\ NoDup cxs /\ NoDup czs.
Proof.
  unfold scanned_cells. intros (cxs & Hx & Hrest)%bind_Some.
  assert (NoDup cxs) as Hnx by (apply scan_axis_Some in Hx as [_ ->]; apply NoDup_seqZ).
  destruct cxs as [| x xs].
  - injection Hrest as <-. exists [], []. split_and!; [done | constructor ..].
  - apply bind_Some in Hrest as (czs & Hz & Hrest). injection Hrest as <-.
    exists (x :: xs), czs. split_and!; [done | done |].
    apply scan_axis_Some in Hz as [_ ->]. apply NoDup_seqZ.
Qed.

Lemma NoDup_scanned_cells h pos radius cells :
  scanned_cells h pos radius = Some cells -> NoDup cells.
Proof.
  intros (cxs & czs & -> & Hx & Hz)%scanned_cells_Some. apply NoDup_bind; [| | done].
  - intros x1 x2 c _ _. rewrite !list_elem_of_bind. setoid_rewrite list_elem_of_singleton.
    intros (z1 & -> & _) (z2 & Heq & _). by injection Heq.
  - intros x _. apply NoDup_bind; [| | done].
    + intros z1 z2 c _ _. rewrite !list_elem_of_singleton. intros -> Heq. by injection Heq.
    + intros z _. apply NoDup_singleton.
Qed.

(** The scan of a square that fits: every cell at most [r] cells away. *)
Definition scan_fits (c r : Z) : Prop := 0 <= r /\ - 2 ^ 63 <= c - r /\ c + r < 2 ^ 63 - 1.

Lemma scanned_cells_fits h pos radius :
  let viewer := toCellCoord pos (g_cellSize h) in
  let r := cell_radius h radius in
  scan_fits (cc_X viewer) r -> scan_fits (cc_Z viewer) r ->
  exists cells, scanned_cells h pos radius = Some cells /\
    forall c, c ∈ cells <->
      Z.abs (cc_X c - cc_X viewer) <= r /\ Z.abs (cc_Z c - cc_Z viewer) <= r.
Proof.
  intros viewer r (Hr & Hx1 & Hx2) (_ & Hz1 & Hz2).
  destruct (scan_axis_fits (cc_X viewer) r) as (x & xs & Hsx & Hinx); [done .. |].
  destruct (scan_axis_fits (cc_Z viewer) r) as (z & zs & Hsz & Hinz); [done .. |].
  unfold scanned_cells. fold viewer r. rewrite Hsx. cbn [mbind option_bind]. rewrite Hsz.
  eexists. split; [done |]. intros [cx cz]. rewrite <- Hinx, <- Hinz, list_elem_of_bind.
  setoid_rewrite list_elem_of_bind. setoid_rewrite list_elem_of_singleton. cbn [cc_X cc_Z]. split.
  - intros (x' & (z' & Heq & Hz) & Hx). by injection Heq as -> ->.
  - intros [Hx Hz]. eauto 10.
Qed.

(** A scan whose radius is below [2 ^ 38] cells ends at every position: a cell
    coordinate is never close to the largest [int]. *)
Lemma scanned_cells_total h pos radius :
  0 <= cell_radius h radius < 2 ^ 38 -> is_Some (scanned_cells h pos radius).
Proof.
  intros Hr.
  assert (forall x, is_Some (scan_axis (int_of_f64 (math_Floor (f64_of_f32 (f32_div x (g_cellSize h)))))
    (cell_radius h radius))) as Hax.
  { intros x. pose proof (int_floor_range _ (f32_div_fits x (g_cellSize h))) as Hc.
    unfold scan_axis, scan_hi. rewrite i64_small by lia. rewrite (proj2 (Z.ltb_lt _ _)) by lia. done. }
  unfold scanned_cells, toCellCoord. cbn [cc_X cc_Z].
  destruct (Hax (ep_X pos)) as [cxs ->], (Hax (ep_Z pos)) as [czs ->]. by destruct cxs.
Qed.

Section query.
Context `{GR : !GoRange}.

Lemma elem_of_cell_hits site h pos radius c id :
  id ∈ cell_hits site h pos radius c <->
  exists p, cells_at (g_cells h) c id = Some p /\ in_radius pos radius p = true.
Proof.
  unfold cell_hits, cells_at. destruct (g_cells h !! c) as [cell |].
  - rewrite list_elem_of_fmap. setoid_rewrite list_elem_of_filter. split.
    + intros ([id' p] & -> & Hr & Hin). apply elem_of_range in Hin. eauto.
    + intros (p & Hp & Hr). exists (id, p). rewrite elem_of_range. auto.
  - split; [by intros ?%not_elem_of_nil | naive_solver].
Qed.

Lemma NoDup_cell_hits site h pos radius c : NoDup (cell_hits site h pos radius c).
Proof.
  unfold cell_hits. destruct (g_cells h !! c) as [cell |]; [| constructor].
  apply NoDup_fmap_fst; [| by apply list.NoDup_filter, NoDup_range].
  intros id p1 p2. rewrite !list_elem_of_filter, !elem_of_range. intros [_ H1] [_ H2].
  congruence.
Qed.

(** Every entity of the index sits in the cell its position maps to. *)
Lemma cells_at_Get h c id p :
  spatial_inv h ->
  cells_at (g_cells h) c id = Some p <->
  Get h id = Some p /\ c = toCellCoord p (g_cellSize h).
Proof.
  intros Hinv. rewrite (si_agree _ Hinv). unfold Get. split.
  - intros He. rewrite He. split; [done |]. by apply (si_coord _ Hinv) in He.
  - intros [Hp ->]. apply fmap_Some in Hp as ([c0 p0] & He & ->).
    rewrite He. by rewrite <- (si_coord _ Hinv id _ He).
Qed.

(** C28: Over any sequence of updates, removals and clears, the grid behaves as a
    plain map from entities to positions that ignores positions outside the
    world: same entities, same positions, and both of its internal maps agree. *)
Theorem spatial_refines_position_map (config : SpatialConfig) (ops : list SpatialOp) :
  let h := spatial_run ops (NewGridSpatialHash config) in
  spatial_inv h /\
  (forall id, Get h id = spec_run (NewGridSpatialHash config) ops ∅ !! id) /\
  Len h = size (spec_run (NewGridSpatialHash config) ops ∅).
Proof.
  simpl. set (h0 := NewGridSpatialHash config).
  assert (forall h m, spatial_inv h -> g_maxWorldCoord h = g_maxWorldCoord h0 ->
    ce_pos <$> g_entities h = m ->
    spatial_inv (spatial_run ops h) /\
    ce_pos <$> g_entities (spatial_run ops h) = spec_run h0 ops m) as Hgen.
  { induction ops as [| op ops IH]; intros h m Hinv Hmw Hm; [done |].
    destruct (spatial_step_refines h0 op h Hmw) as [Hr Hmw']. simpl.
    apply IH; [by apply spatial_step_inv | done | by rewrite Hr, Hm]. }
  destruct (Hgen h0 ∅) as [Hinv Heq]; [apply spatial_inv_new | done | |].
  { simpl. by rewrite fmap_empty. }
  split; [done |]. rewrite <- Heq. split.
  - intros id. unfold Get. by rewrite lookup_fmap.
  - unfold Len. by rewrite map_size_fmap.
Qed.

(** A query that returns: nothing, or the hits of the scanned cells. *)
Lemma QueryRadius_Some site h pos radius ids :
  QueryRadius site h pos radius = Some ids ->
  ids = [] /\ (fle radius f32_zero = true \/ validatePosition h pos <> None) \/
  fle radius f32_zero = false /\ validatePosition h pos = None /\
  exists cells, scanned_cells h pos radius = Some cells /\
    ids = cells ≫= cell_hits site h pos radius.
Proof.
  unfold QueryRadius. destruct (fle radius f32_zero); [intros [= <-]; auto |].
  destruct (validatePosition h pos); [intros [= <-]; by auto |].
  intros (cells & Hc & [= <-])%bind_Some. eauto 10.
Qed.

Lemma query_radius_members site h pos radius ids id :
  spatial_inv h -> QueryRadius site h pos radius = Some ids ->
  id ∈ ids <->
    fle radius f32_zero = false /\ validatePosition h pos = None /\
    exists p cells, Get h id = Some p /\ in_radius pos radius p = true /\
      scanned_cells h pos radius = Some cells /\ toCellCoord p (g_cellSize h) ∈ cells.
Proof.
  intros Hinv [[-> Hno] | (Hr & Hv & cells & Hc & ->)]%QueryRadius_Some.
  - split; [by intros ?%not_elem_of_nil |]. intros (Hr & Hv & _). rewrite Hr, Hv in Hno. naive_solver.
  - rewrite list_elem_of_bind. setoid_rewrite elem_of_cell_hits.
    setoid_rewrite (cells_at_Get h _ _ _ Hinv). rewrite Hc. naive_solver.
Qed.

Lemma NoDup_QueryRadius site h pos radius ids :
  spatial_inv h -> QueryRadius site h pos radius = Some ids -> NoDup ids.
Proof.
  intros Hinv [[-> _] | (_ & _ & cells & Hc & ->)]%QueryRadius_Some; [constructor |].
  apply (NoDup_bind (cell_hits site h pos radius));
    [| intros; apply NoDup_cell_hits | by eapply NoDup_scanned_cells].
  intros c1 c2 id _ _. rewrite !elem_of_cell_hits.
  intros (p1 & H1 & _) (p2 & H2 & _).
  apply cells_at_Get in H1 as [G1 ->], H2 as [G2 ->]; [| done ..]. congruence.
Qed.

Lemma QueryRadius_total site h pos radius :
  0 <= cell_radius h radius < 2 ^ 38 -> is_Some (QueryRadius site h pos radius).
Proof.
  intros Hr. unfold QueryRadius. destruct (fle radius f32_zero); [done |].
  destruct (validatePosition h pos); [done |].
  destruct (scanned_cells_total h pos radius Hr) as [cells ->]. done.
Qed.

(** The distance test between points with whole coordinates is exact. *)
Lemma in_radius_whole x z px pz r :
  Z.abs x < 2 ^ 22 -> Z.abs z < 2 ^ 22 -> Z.abs px < 2 ^ 22 -> Z.abs pz < 2 ^ 22 -> 0 < r < 2 ^ 22 ->
  in_radius (Pos (f32_of_Z x) (f32_of_Z z)) (f32_of_Z r) (Pos (f32_of_Z px) (f32_of_Z pz)) =
  ((x - px) * (x - px) + (z - pz) * (z - pz) <=? r * r).
Proof.
  intros Hx Hz Hpx Hpz Hr. unfold in_radius. cbn [ep_X ep_Z].
  assert (forall a b, Z.abs a < 2 ^ 22 -> Z.abs b < 2 ^ 22 ->
    whole 53 (f64_of_f32 (f32_sub (f32_of_Z a) (f32_of_Z b))) (a - b)) as Hsub.
  { intros a b Ha Hb. apply widen_whole; [| lia].
    apply SFsub_whole; [lia | lia | apply f32_of_Z_whole; lia .. | lia]. }
  assert (forall v d, whole 53 v d -> Z.abs d < 2 ^ 23 -> whole 53 (f64_mul v v) (d * d)) as Hsq.
  { intros v d Hv Hd. apply SFmul_whole; [lia | lia | done | done |]. nia. }
  assert (forall d, Z.abs d < 2 ^ 23 -> 0 <= d * d < 2 ^ 46) as Hb by (intros d Hd; nia).
  pose proof (Hb (x - px) ltac:(lia)). pose proof (Hb (z - pz) ltac:(lia)). pose proof (Hb r ltac:(lia)).
  apply (fle_whole 53); [| | lia | lia].
  - apply SFadd_whole; [lia | lia | apply Hsq; [by apply Hsub | lia] .. | lia].
  - apply Hsq; [apply widen_whole; [apply f32_of_Z_whole |]; lia | lia].
Qed.

(** Two whole numbers at distance at most [r] lie in cells at most
    [ceil (r / k)] apart. *)
Lemma cells_near x y r k :
  0 < k -> 0 <= r -> Z.abs (x - y) <= r -> Z.abs (x / k - y / k) <= - (- r / k).
Proof.
  intros Hk Hr Hxy.
  pose proof (Z.div_mod x k ltac:(lia)). pose proof (Z.mod_pos_bound x k ltac:(lia)).
  pose proof (Z.div_mod y k ltac:(lia)). pose proof (Z.mod_pos_bound y k ltac:(lia)).
  pose proof (Z.div_mod (- r) k ltac:(lia)). pose proof (Z.mod_pos_bound (- r) k ltac:(lia)).
  nia.
Qed.

(** C29: Provided its two scans stay within the 64-bit integers, [QueryRadius]
    terminates and returns each entity at most once.  It returns exactly the
    entities whose stored position passes the IEEE test
    [dx*dx + dz*dz <= radius*radius] and whose cell [floor (p / cellSize)] is, on
    both axes, at most [ceil (radius / cellSize)] cells from the viewer's cell; a
    non-positive radius or an invalid viewer position returns nothing.  When the
    positions, the radius and the cell size are whole metres (positions and
    radius below 2^22, more than the default world holds), rounding plays no
    part: the result is exactly the entities within the radius. *)
Theorem query_radius_spec (site : list nat) (h : GridSpatialHash) (pos : EntityPosition)
    (radius : float32) :
  let cell x := int_of_f64 (math_Floor (f64_of_f32 (f32_div x (g_cellSize h)))) in
  let reach := int_of_f64 (math_Ceil (f64_of_f32 (f32_div radius (g_cellSize h)))) in
  let widen x := f64_of_f32 x in
  spatial_inv h -> scan_fits (cell (ep_X pos)) reach -> scan_fits (cell (ep_Z pos)) reach ->
  exists ids, QueryRadius site h pos radius = Some ids /\ NoDup ids /\
  (forall id, id ∈ ids <->
     fle radius f32_zero = false /\ validatePosition h pos = None /\
     exists p, Get h id = Some p /\
       (let dx := widen (f32_sub (ep_X pos) (ep_X p)) in
        let dz := widen (f32_sub (ep_Z pos) (ep_Z p)) in
        fle (f64_add (f64_mul dx dx) (f64_mul dz dz)) (f64_mul (widen radius) (widen radius)) = true) /\
       Z.abs (cell (ep_X p) - cell (ep_X pos)) <= reach /\
       Z.abs (cell (ep_Z p) - cell (ep_Z pos)) <= reach) /\
  (forall x z r k, pos = Pos (f32_of_Z x) (f32_of_Z z) -> radius = f32_of_Z r ->
     g_cellSize h = f32_of_Z k -> validatePosition h pos = None ->
     Z.abs x < 2 ^ 22 -> Z.abs z < 2 ^ 22 -> 0 < r < 2 ^ 22 -> 0 < k < 2 ^ 24 ->
     forall id px pz, Get h id = Some (Pos (f32_of_Z px) (f32_of_Z pz)) ->
       Z.abs px < 2 ^ 22 -> Z.abs pz < 2 ^ 22 ->
       id ∈ ids <-> (px - x) ^ 2 + (pz - z) ^ 2 <= r ^ 2).
Proof.
  intros cell reach widen Hinv Hfx Hfz.
  destruct (scanned_cells_fits h pos radius Hfx Hfz) as (cells & Hcells & Hin).
  assert (is_Some (QueryRadius site h pos radius)) as [ids Hids].
  { unfold QueryRadius. rewrite Hcells. by repeat case_match. }
  assert (forall id, id ∈ ids <->
     fle radius f32_zero = false /\ validatePosition h pos = None /\
     exists p, Get h id = Some p /\ in_radius pos radius p = true /\
       Z.abs (cell (ep_X p) - cell (ep_X pos)) <= reach /\
       Z.abs (cell (ep_Z p) - cell (ep_Z pos)) <= reach) as Hmem.
  { intros id. rewrite (query_radius_members site h pos radius ids id Hinv Hids), Hcells.
    split.
    - intros (Hr & Hv & p & cs & Hg & Hd & [= <-] & Hc%Hin). eauto 10.
    - intros (Hr & Hv & p & Hg & Hd & Hc%(Hin (toCellCoord p (g_cellSize h)))). eauto 10. }
  exists ids. split_and!; [done | by eapply NoDup_QueryRadius | done |].
  intros x z r k -> -> Hk Hv Hx Hz Hr Hk0 id px pz Hg Hpx Hpz. rewrite Hmem.
  assert (forall a, Z.abs a < 2 ^ 22 -> cell (f32_of_Z a) = a / k) as Hcell.
  { intros a Ha. subst cell. rewrite Hk. apply floor_div_whole; [apply f32_of_Z_whole; lia .. | done | done]. }
  assert (reach = - (- r / k)) as Hreach.
  { subst reach. rewrite Hk. apply ceil_div_whole; [apply f32_of_Z_whole; lia .. | done | done]. }
  assert (fle (f32_of_Z r) f32_zero = false) as Hpos.
  { rewrite (fle_whole 24 _ _ r 0); [apply Z.leb_gt; lia | apply f32_of_Z_whole; lia | done | lia | lia]. }
  rewrite Hg. cbn [ep_X ep_Z]. rewrite !Hcell, Hreach by done. split.
  - intros (_ & _ & p & [= <-] & Hd & _). rewrite in_radius_whole in Hd by done. apply Z.leb_le in Hd. lia.
  - intros Hd. split_and!; [done | done |]. eexists. split_and!; [done | | |].
    + rewrite in_radius_whole by done. apply Z.leb_le. lia.
    + cbn [ep_X ep_Z]. rewrite Hcell by done. apply cells_near; [lia | lia | nia].
    + cbn [ep_X ep_Z]. rewrite Hcell by done. apply cells_near; [lia | lia | nia].
Qed.
End query.

(** ** Concrete grids *)

Module SpatialExample.

Definition grid : GridSpatialHash :=
  spatial_run [SUpdate "a" (Pos (f32_of_Z 12) (f32_of_Z (-3)));
               SUpdate "b" (Pos (f32_of_Z 90) (f32_of_Z 0));
               SUpdate "a" (Pos (f32_of_Z 25) (f32_of_Z 4))]
    (NewGridSpatialHash DefaultSpatialConfig).

Definition viewer : EntityPosition := Pos (f32_of_Z 5) (f32_of_Z 5).

(** A viewer a billionth of a metre west of the grid line, and an entity 30 m
    east of the line. *)
Definition just_west : EntityPosition :=
  Pos (f32_of_f64 (f64_div (f64_of_int (-1)) (f64_of_int 1000000000))) f32_zero.

(** Cells of side 2^-59, and a viewer half a cell west of the line. *)
Definition fine_grid : GridSpatialHash :=
  NewGridSpatialHash (MkSpatialConfig (f32_div f32_one (f32_of_Z (2 ^ 59))) f32_zero).

Definition half_cell_west : EntityPosition := Pos (f32_div (f32_of_Z (-1)) (f32_of_Z (2 ^ 60))) f32_zero.

Definition edge : EntityPosition := Pos (f32_of_Z 30) f32_zero.

Definition edge_grid : GridSpatialHash :=
  (Update (NewGridSpatialHash DefaultSpatialConfig) "e" edge).1.

End SpatialExample.

Lemma query_radius_spec_witness :
  exists ids, @QueryRadius canonical_range [] SpatialExample.grid SpatialExample.viewer (f32_of_Z 30) = Some ids /\
    ids = ["a"] /\ ("a" ∈ ids <-> (25 - 5) ^ 2 + (4 - 5) ^ 2 <= 30 ^ 2).
Proof.
  destruct (@query_radius_spec canonical_range [] SpatialExample.grid SpatialExample.viewer (f32_of_Z 30))
    as (ids & Hq & _ & _ & Heuclid).
  - apply spatial_run_inv, spatial_inv_new.
  - vm_compute. split_and!; congruence.
  - vm_compute. split_and!; congruence.
  - exists ids. split; [exact Hq |]. split.
    + assert (@QueryRadius canonical_range [] SpatialExample.grid SpatialExample.viewer (f32_of_Z 30) = Some ["a"])
        as Hc by (vm_compute; reflexivity).
      rewrite Hc in Hq. injection Hq. auto.
    + apply (Heuclid 5 5 30 10 eq_refl eq_refl eq_refl);
        [vm_compute; reflexivity | lia | lia | lia | lia | vm_compute; reflexivity | lia | lia].
Defined.

(** With cells so small that the radius is 2^63 of them or more, the number of
    cells is no [int]; for a viewer just west of the grid line the scan then ends
    at the largest [int], which no counter exceeds: [QueryRadius] never returns. *)
Lemma query_radius_endless (GR : GoRange) (site : list nat) :
  let h := SpatialExample.fine_grid in
  let pos := SpatialExample.half_cell_west in
  validatePosition h pos = None /\ fle (g_cellSize h) f32_zero = false /\
  QueryRadius site h pos (f32_of_Z 30) = None /\
  forall fuel,
    let c := cc_X (toCellCoord pos (g_cellSize h)) in
    let r := cell_radius h (f32_of_Z 30) in
    scan_loop fuel (scan_lo c r) (scan_hi c r) = None.
Proof.
  intros h pos. split_and!; [vm_compute; reflexivity .. |]. apply scan_axis_endless.
  vm_compute. reflexivity.
Qed.

(** The scanned square of cells is not always wide enough for the distance
    test: with the default 10 m cells and 30 m radius there are a viewer and an
    indexed entity whose rounded distance passes the test, yet no iteration
    order makes [QueryRadius] return the entity. *)
Theorem query_radius_boundary_miss (GR : GoRange) (site : list nat) :
  Get SpatialExample.edge_grid "e" = Some SpatialExample.edge /\
  in_radius SpatialExample.just_west (f32_of_Z 30) SpatialExample.edge = true /\
  validatePosition SpatialExample.edge_grid SpatialExample.just_west = None /\
  QueryRadius site SpatialExample.edge_grid SpatialExample.just_west (f32_of_Z 30) = Some [].
Proof.
  split; [vm_compute; reflexivity |]. split; [vm_compute; reflexivity |].
  split; [vm_compute; reflexivity |].
  assert (spatial_inv SpatialExample.edge_grid) as Hinv by apply spatial_inv_Update, spatial_inv_new.
  destruct (QueryRadius_total site SpatialExample.edge_grid SpatialExample.just_west (f32_of_Z 30)) as [ids HQ];
    [vm_compute; split; congruence |].
  rewrite HQ. destruct ids as [| id ids]; [done | exfalso].
  assert (id ∈ id :: ids) as Hin by left.
  apply (query_radius_members site _ _ _ _ _ Hinv HQ) in Hin as (_ & _ & p & cells & Hg & _ & Hs & Hc).
  assert (p = SpatialExample.edge) as ->.
  { unfold Get, SpatialExample.edge_grid in Hg. rewrite Update_entities in Hg.
    rewrite (eq_refl : validatePosition (NewGridSpatialHash DefaultSpatialConfig)
      SpatialExample.edge = None) in Hg. simpl in Hg.
    apply fmap_Some in Hg as (e & He & ->). apply lookup_insert_Some in He as [[_ <-] | [_ He]]; [done |].
    by rewrite lookup_empty in He. }
  assert (default [] (scanned_cells SpatialExample.edge_grid SpatialExample.just_west (f32_of_Z 30)) = cells)
    as Hcells by (rewrite Hs; done).
  revert Hc. rewrite <- Hcells. apply (bool_decide_eq_false_1 _). vm_compute. reflexivity.
Qed.
