(* ===== verification/Delta.v ===== *)
(** * Per-client deltas

    Models [internal/game/delta]: [types.go], [snapshot.go] and [builder.go].
    A [*ClientSnapshot] is owned by the cache entry of its session; the builder
    mutates it through the pointer, so [BuildPlayerDelta] returns the new
    snapshot next to the delta and the room writes it back at the same key. *)

From Stdlib Require Import ZArith Lia.
From stdpp Require Import base strings gmap fin_maps list.
From S2P Require Import Prelude.
From S2P Require Import GoFloat.
From S2P Require Import Player.
From S2P Require Import Object.

Local Open Scope string_scope.
Local Open Scope Z_scope.

(** ** Data *)

Record PlayerEnterDelta := MkEnter {
  pe_PlayerID : PlayerID; pe_Transform : PlayerTransform; pe_Version : Z }.

Record PlayerUpdateDelta := MkUpdate {
  pu_PlayerID : PlayerID; pu_Transform : PlayerTransform; pu_Version : Z }.

Record PlayerLeaveDelta := MkLeave { pl_PlayerID : PlayerID }.

Record PlayerDelta := MkPlayerDelta {
  pd_Tick : Z;
  pd_Enters : list PlayerEnterDelta;
  pd_Updates : list PlayerUpdateDelta;
  pd_Leaves : list PlayerLeaveDelta }.

Definition is_nil {A} (l : list A) : bool := match l with [] => true | _ => false end.

Definition PlayerDelta_IsEmpty (d : PlayerDelta) : bool :=
  is_nil (pd_Enters d) && is_nil (pd_Updates d) && is_nil (pd_Leaves d).

Record ObjectEnterDelta := MkObjectEnter {
  oe_ObjectID : ObjectID; oe_Kind : ObjectKind; oe_Transform : ObjectTransform;
  oe_Lock : LockState; oe_Version : Z }.

(** Pointer fields: [None] is [nil], "unchanged". *)
Record ObjectUpdateDelta := MkObjectUpdate {
  ou_ObjectID : ObjectID; ou_Transform : option ObjectTransform;
  ou_Lock : option LockState; ou_Version : Z }.

Record ObjectLeaveDelta := MkObjectLeave { ol_ObjectID : ObjectID }.

Record ObjectLockDelta := MkObjectLock {
  olk_ObjectID : ObjectID; olk_Lock : LockState; olk_Version : Z }.

Record ObjectDelta := MkObjectDelta {
  od_Tick : Z;
  od_Enters : list ObjectEnterDelta;
  od_Updates : list ObjectUpdateDelta;
  od_Leaves : list ObjectLeaveDelta;
  od_Locks : list ObjectLockDelta }.

Definition ObjectDelta_IsEmpty (d : ObjectDelta) : bool :=
  is_nil (od_Enters d) && is_nil (od_Updates d) && is_nil (od_Leaves d) && is_nil (od_Locks d).

Record DeltaBatch := MkDeltaBatch {
  db_Tick : Z;
  db_PlayerDelta : option PlayerDelta;
  db_ObjectDelta : option ObjectDelta }.

Definition DeltaBatch_IsEmpty (b : DeltaBatch) : bool :=
  from_option PlayerDelta_IsEmpty true (db_PlayerDelta b) &&
  from_option ObjectDelta_IsEmpty true (db_ObjectDelta b).

(** ** Snapshots *)

(** [VisiblePlayers]: player to last version sent. *)
Record ClientSnapshot := MkClientSnapshot { cs_VisiblePlayers : gmap PlayerID Z }.

Definition NewClientSnapshot : ClientSnapshot := MkClientSnapshot ∅.

Abbreviation SnapshotCache := (gmap string ClientSnapshot).

Module SnapshotCache.

Definition NewSnapshotCache : SnapshotCache := ∅.

Definition GetOrCreate (c : SnapshotCache) (sessionID : string)
    : SnapshotCache * ClientSnapshot :=
  match c !! sessionID with
  | Some s => (c, s)
  | None => (<[sessionID := NewClientSnapshot]> c, NewClientSnapshot)
  end.

Definition Remove (c : SnapshotCache) (sessionID : string) : SnapshotCache :=
  delete sessionID c.

Definition Len (c : SnapshotCache) : nat := size c.

End SnapshotCache.

(** ** The builder *)

(** What the first loop accumulates: the snapshot's map and the two slices. *)
Record delta_acc := MkAcc {
  acc_snap : gmap PlayerID Z;
  acc_enters : list PlayerEnterDelta;
  acc_updates : list PlayerUpdateDelta }.

(** Body of [for _, pid := range visiblePlayers]. *)
Definition visit_visible (playerStates : gmap PlayerID PlayerState) (a : delta_acc)
    (pid : PlayerID) : delta_acc :=
  match playerStates !! pid with
  | None => a
  | Some ps =>
      let '(transform, version) := Snapshot ps in
      match acc_snap a !! pid with
      | None =>
          MkAcc (<[pid := version]> (acc_snap a))
            (acc_enters a ++ [MkEnter pid transform version]) (acc_updates a)
      | Some lastVersion =>
          if version =? lastVersion then a
          else MkAcc (<[pid := version]> (acc_snap a)) (acc_enters a)
                 (acc_updates a ++ [MkUpdate pid transform version])
      end
  end.

Definition BuildPlayerDelta `{GR : !GoRange} (site : list nat) (tick : Z)
    (visiblePlayers : list PlayerID) (snapshot : ClientSnapshot)
    (playerStates : gmap PlayerID PlayerState) : ClientSnapshot * PlayerDelta :=
  let nowVisible : gset PlayerID := list_to_set visiblePlayers in
  let a := foldl (visit_visible playerStates)
             (MkAcc (cs_VisiblePlayers snapshot) [] []) visiblePlayers in
  let leaves := (MkLeave <$> filter (fun pid => pid ∉ nowVisible) (range site (acc_snap a)).*1) in
  let snap := foldl (fun m lv => delete (pl_PlayerID lv) m) (acc_snap a) leaves in
  (MkClientSnapshot snap, MkPlayerDelta tick (acc_enters a) (acc_updates a) leaves).
