(* ===== verification/DeltaFacts.v ===== *)
(** * Correctness of the per-client deltas

    The exact contents of one delta, when a delta is empty, and the contract
    the builder has with a client: a client that applies every delta it is sent
    holds, after each broadcast, exactly the current transforms of the players
    visible to it. *)

From Stdlib Require Import ZArith Lia.
From stdpp Require Import base strings gmap fin_maps list.
From S2P Require Import Prelude.
From S2P Require Import GoFloat.
From S2P Require Import Player.
From S2P Require Import Delta.

Local Open Scope string_scope.
Local Open Scope Z_scope.
Local Open Scope list_scope.

(** ** The first loop *)

Section loop.
Context (states : gmap PlayerID PlayerState) (s : gmap PlayerID Z).

Definition run_visible (visible : list PlayerID) : delta_acc :=
  foldl (visit_visible states) (MkAcc s [] []) visible.

(** The version recorded for a player after the loop. *)
Definition sent_version (pid : PlayerID) : option Z :=
  match states !! pid with Some ps => Some (p_Version ps) | None => s !! pid end.

Definition enter_at (pid : PlayerID) : option PlayerEnterDelta :=
  match states !! pid, s !! pid with
  | Some ps, None => Some (MkEnter pid (p_Transform ps) (p_Version ps))
  | _, _ => None
  end.

Definition update_at (pid : PlayerID) : option PlayerUpdateDelta :=
  match states !! pid, s !! pid with
  | Some ps, Some last =>
      if p_Version ps =? last then None
      else Some (MkUpdate pid (p_Transform ps) (p_Version ps))
  | _, _ => None
  end.

Lemma enter_at_Some e :
  enter_at (pe_PlayerID e) = Some e <->
  exists ps, states !! pe_PlayerID e = Some ps /\ s !! pe_PlayerID e = None /\
    pe_Transform e = p_Transform ps /\ pe_Version e = p_Version ps.
Proof.
  unfold enter_at. destruct e as [pid t ver]. simpl. split.
  - destruct (states !! pid) as [ps |], (s !! pid); try done. intros [= <- <-]. eauto.
  - intros (ps & -> & -> & -> & ->). done.
Qed.

Lemma update_at_Some u :
  update_at (pu_PlayerID u) = Some u <->
  exists ps last, states !! pu_PlayerID u = Some ps /\ s !! pu_PlayerID u = Some last /\
    p_Version ps <> last /\
    pu_Transform u = p_Transform ps /\ pu_Version u = p_Version ps.
Proof.
  unfold update_at. destruct u as [pid t ver]. simpl. split.
  - destruct (states !! pid) as [ps |], (s !! pid) as [last |]; try done.
    destruct (Z.eqb_spec (p_Version ps) last); [done |]. intros [= <- <-]. eauto 10.
  - intros (ps & last & -> & -> & Hne & -> & ->).
    by destruct (Z.eqb_spec (p_Version ps) last).
Qed.

Lemma run_visible_snoc visible x :
  run_visible (visible ++ [x]) = visit_visible states (run_visible visible) x.
Proof. apply foldl_snoc. Qed.

Lemma visit_snap a pid pid' :
  acc_snap (visit_visible states a pid) !! pid' =
  if decide (pid = pid') then from_option (fun ps => Some (p_Version ps)) (acc_snap a !! pid) (states !! pid)
  else acc_snap a !! pid'.
Proof.
  unfold visit_visible, Snapshot. destruct (decide (pid = pid')) as [<- | Hne].
  - destruct (states !! pid) as [ps |]; [| done].
    destruct (acc_snap a !! pid) as [v |] eqn:Hv; simpl; [| by rewrite lookup_insert_eq].
    destruct (Z.eqb_spec (p_Version ps) v) as [<- | _]; [done | apply lookup_insert_eq].
  - repeat case_match; simpl; try done; by rewrite lookup_insert_ne.
Qed.

Lemma run_snap visible pid :
  acc_snap (run_visible visible) !! pid =
  if decide (pid ∈ visible) then sent_version pid else s !! pid.
Proof.
  unfold sent_version. induction visible as [| x visible IH] using rev_ind.
  { by rewrite decide_False by apply not_elem_of_nil. }
  rewrite run_visible_snoc, visit_snap.
  destruct (decide (x = pid)) as [<- | Hne].
  - rewrite decide_True by set_solver. rewrite IH.
    destruct (states !! x); simpl; [done |]. by case_decide.
  - rewrite IH. destruct (decide (pid ∈ visible)).
    + by rewrite decide_True by set_solver.
    + by rewrite decide_False by set_solver.
Qed.

(** A player listed twice is visited once; a new one is compared with the
    snapshot the loop started from. *)
Lemma run_slices_snoc visible x :
  acc_enters (run_visible (visible ++ [x])) =
    (if decide (x ∈ visible) then acc_enters (run_visible visible)
     else acc_enters (run_visible visible) ++ option_list (enter_at x)) /\
  acc_updates (run_visible (visible ++ [x])) =
    (if decide (x ∈ visible) then acc_updates (run_visible visible)
     else acc_updates (run_visible visible) ++ option_list (update_at x)).
Proof.
  rewrite run_visible_snoc. pose proof (run_snap visible x) as Hx.
  unfold visit_visible, Snapshot, enter_at, update_at, sent_version in *.
  destruct (states !! x) as [ps |]; simpl; [rewrite Hx |]; case_decide; simpl.
  - by rewrite Z.eqb_refl.
  - destruct (s !! x) as [last |]; simpl; [| by rewrite app_nil_r].
    destruct (p_Version ps =? last); simpl; by rewrite !app_nil_r.
  - done.
  - by rewrite !app_nil_r.
Qed.

Lemma snoc_slices {B} (key : B -> PlayerID) (at_ : PlayerID -> option B)
    (f : list PlayerID -> list B) :
  f [] = [] ->
  (forall visible x, f (visible ++ [x]) =
    if decide (x ∈ visible) then f visible else f visible ++ option_list (at_ x)) ->
  (forall x b, at_ x = Some b -> key b = x) ->
  forall visible, NoDup (key <$> f visible) /\
    (forall b, b ∈ f visible <-> key b ∈ visible /\ at_ (key b) = Some b).
Proof.
  intros H0 Hs Hkey visible. induction visible as [| x visible [IHn IH]] using rev_ind.
  { rewrite H0. split; [constructor |]. intros b. rewrite !elem_of_nil. tauto. }
  rewrite Hs. destruct (decide (x ∈ visible)) as [Hin | Hnin].
  { split; [done |]. intros b. rewrite IH. set_solver. }
  destruct (at_ x) as [b0 |] eqn:Hb0; simpl.
  - pose proof (Hkey x b0 Hb0) as <-. split.
    + rewrite fmap_app. apply NoDup_app. split; [done |]. split; [| apply NoDup_singleton].
      intros y Hy Hyx. simpl in Hyx. apply list_elem_of_singleton in Hyx as ->.
      apply list_elem_of_fmap in Hy as (b & Hk & Hb). apply IH in Hb as [Hb _]. congruence.
    + intros b. rewrite !elem_of_app, IH, !list_elem_of_singleton. split.
      * intros [[H1 H2] | ->]; auto.
      * intros [[H1 | H1] H2]; [auto |]. rewrite H1 in H2. right. congruence.
  - rewrite app_nil_r. split; [done |]. intros b. rewrite IH, elem_of_app, list_elem_of_singleton.
    split; [naive_solver |]. intros [[H1 | H1] H2]; [done |]. congruence.
Qed.

Lemma run_enters visible :
  NoDup (pe_PlayerID <$> acc_enters (run_visible visible)) /\
  (forall e, e ∈ acc_enters (run_visible visible) <->
    pe_PlayerID e ∈ visible /\ enter_at (pe_PlayerID e) = Some e).
Proof.
  apply (snoc_slices pe_PlayerID enter_at (fun v => acc_enters (run_visible v))); [done | |].
  - intros. apply run_slices_snoc.
  - intros x b. unfold enter_at. repeat case_match; naive_solver.
Qed.

Lemma run_updates visible :
  NoDup (pu_PlayerID <$> acc_updates (run_visible visible)) /\
  (forall u, u ∈ acc_updates (run_visible visible) <->
    pu_PlayerID u ∈ visible /\ update_at (pu_PlayerID u) = Some u).
Proof.
  apply (snoc_slices pu_PlayerID update_at (fun v => acc_updates (run_visible v))); [done | |].
  - intros. apply run_slices_snoc.
  - intros x b. unfold update_at. repeat case_match; naive_solver.
Qed.
End loop.

(** ** One delta *)

Lemma is_nil_spec {A} (l : list A) : is_nil l = true <-> l = [].
Proof. by destruct l. Qed.

Lemma no_elements {A} (l : list A) : (forall x, x ∈ l -> False) -> l = [].
Proof. intros H. destruct l as [| x l]; [done |]. destruct (H x). left. Qed.

(** An empty slice whose elements are described by [at_] leaves [at_] empty. *)
Lemma no_elem_at {B} (key : B -> PlayerID) (at_ : PlayerID -> option B)
    (visible : list PlayerID) (l : list B) :
  (forall b, b ∈ l <-> key b ∈ visible /\ at_ (key b) = Some b) -> l = [] ->
  forall pid, pid ∈ visible -> (forall b, at_ pid = Some b -> key b = pid) -> at_ pid = None.
Proof.
  intros Hl -> pid Hin Hkey. destruct (at_ pid) as [b |] eqn:Hb; [| done].
  assert (b ∈ @nil B) as Hn by (apply Hl; by rewrite (Hkey b eq_refl)).
  by apply not_elem_of_nil in Hn.
Qed.

Lemma lookup_foldl_delete {K A B} `{Countable K} (key : B -> K) (l : list B) (m : gmap K A) k :
  foldl (fun m b => delete (key b) m) m l !! k =
  if decide (k ∈ key <$> l) then None else m !! k.
Proof.
  revert m. induction l as [| b l IH]; intros m.
  { case_decide as Hd; [by apply not_elem_of_nil in Hd | done]. }
  rewrite fmap_cons. cbn [foldl]. rewrite IH. destruct (decide (key b = k)) as [<- | Hne].
  - rewrite (decide_True (P := key b ∈ key b :: _)) by left.
    case_decide; [done | apply lookup_delete_eq].
  - rewrite lookup_delete_ne by done.
    destruct (decide (k ∈ key <$> l)).
    + by rewrite decide_True by by right.
    + rewrite decide_False; [done |]. by intros [-> |]%elem_of_cons.
Qed.

Section build.
Context `{GR : !GoRange}.

(** The snapshot a build leaves behind. *)
Lemma build_snapshot site tick visible snap states pid :
  cs_VisiblePlayers (BuildPlayerDelta site tick visible snap states).1 !! pid =
  if decide (pid ∈ visible) then sent_version states (cs_VisiblePlayers snap) pid else None.
Proof.
  unfold BuildPlayerDelta. simpl. rewrite lookup_foldl_delete.
  fold (run_visible states (cs_VisiblePlayers snap) visible). rewrite run_snap.
  rewrite <- list_fmap_compose. unfold compose. simpl. rewrite list_fmap_id.
  destruct (decide (pid ∈ visible)) as [Hin | Hnin].
  - rewrite decide_False; [done |]. rewrite list_elem_of_filter, elem_of_list_to_set. tauto.
  - case_decide as Hf; [done |]. rewrite list_elem_of_filter, elem_of_list_to_set, elem_of_range_fst in Hf.
    destruct (cs_VisiblePlayers snap !! pid) eqn:Hs; [| done]. exfalso. apply Hf. split; [done |].
    rewrite run_snap, decide_False by done. eauto.
Qed.

Lemma build_leaves site tick visible snap states :
  NoDup (pl_PlayerID <$> pd_Leaves (BuildPlayerDelta site tick visible snap states).2) /\
  (forall pid, MkLeave pid ∈ pd_Leaves (BuildPlayerDelta site tick visible snap states).2 <->
    (pid ∉ visible) /\ is_Some (cs_VisiblePlayers snap !! pid)).
Proof.
  unfold BuildPlayerDelta. simpl.
  fold (run_visible states (cs_VisiblePlayers snap) visible). split.
  - rewrite <- list_fmap_compose. unfold compose. simpl. rewrite list_fmap_id.
    apply list.NoDup_filter, NoDup_fst_range.
  - intros pid. rewrite list_elem_of_fmap. split.
    + intros (pid' & [= <-] & Hin). apply list_elem_of_filter in Hin as [Hv Hr].
      apply elem_of_range_fst in Hr. rewrite elem_of_list_to_set in Hv.
      rewrite run_snap, decide_False in Hr by done. auto.
    + intros [Hv Hs]. exists pid. split; [done |]. apply list_elem_of_filter.
      rewrite elem_of_list_to_set, elem_of_range_fst, run_snap, decide_False by done. auto.
Qed.

End build.

(** ** A client applying the deltas *)

(** What a client holds: the last transform and version it was told. *)
Abbreviation client_view := (gmap PlayerID (PlayerTransform * Z)).

Definition apply_enter (v : client_view) (e : PlayerEnterDelta) : client_view :=
  <[pe_PlayerID e := (pe_Transform e, pe_Version e)]> v.

Definition apply_update (v : client_view) (u : PlayerUpdateDelta) : client_view :=
  <[pu_PlayerID u := (pu_Transform u, pu_Version u)]> v.

Definition apply_leave (v : client_view) (l : PlayerLeaveDelta) : client_view :=
  delete (pl_PlayerID l) v.

Definition apply_delta (v : client_view) (d : PlayerDelta) : client_view :=
  foldl apply_leave (foldl apply_update (foldl apply_enter v (pd_Enters d)) (pd_Updates d))
    (pd_Leaves d).

Lemma lookup_foldl_insert_ne {A B} (key : B -> PlayerID) (val : B -> A) (l : list B)
    (m : gmap PlayerID A) k :
  k ∉ key <$> l -> foldl (fun m b => <[key b := val b]> m) m l !! k = m !! k.
Proof.
  revert m. induction l as [| b l IH]; intros m; [done |].
  rewrite fmap_cons, not_elem_of_cons. intros [Hne Hnin]. cbn [foldl].
  by rewrite IH, lookup_insert_ne.
Qed.

Lemma lookup_foldl_insert {A B} (key : B -> PlayerID) (val : B -> A) (l : list B)
    (m : gmap PlayerID A) b :
  NoDup (key <$> l) -> b ∈ l ->
  foldl (fun m b => <[key b := val b]> m) m l !! key b = Some (val b).
Proof.
  revert m. induction l as [| b' l IH]; intros m Hnd Hin; [by apply not_elem_of_nil in Hin |].
  rewrite fmap_cons in Hnd. apply NoDup_cons in Hnd as [Hnin Hnd]. cbn [foldl].
  apply elem_of_cons in Hin as [<- | Hin]; [| by apply IH].
  by rewrite lookup_foldl_insert_ne, lookup_insert_eq.
Qed.

(** [hist pid v] is the transform player [pid] had at version [v]. *)
Definition history := PlayerID -> Z -> PlayerTransform.

Definition consistent (hist : history) (states : gmap PlayerID PlayerState) : Prop :=
  forall pid ps, states !! pid = Some ps -> p_Transform ps = hist pid (p_Version ps).

(** The client holds exactly the players of its snapshot, each at the version
    the server believes it has. *)
Definition in_sync (hist : history) (snap : ClientSnapshot) (v : client_view) : Prop :=
  forall pid, v !! pid = (fun ver => (hist pid ver, ver)) <$> cs_VisiblePlayers snap !! pid.

Section visible_copy.
Context (states : gmap PlayerID PlayerState) (s : gmap PlayerID Z) (visible : list PlayerID).

Lemma no_enter pid :
  (pid ∈ visible -> enter_at states s pid = None) ->
  pid ∉ pe_PlayerID <$> acc_enters (run_visible states s visible).
Proof.
  intros Hn (e & -> & He)%list_elem_of_fmap. apply run_enters in He as [Hin He].
  rewrite Hn in He; done.
Qed.

Lemma no_update pid :
  (pid ∈ visible -> update_at states s pid = None) ->
  pid ∉ pu_PlayerID <$> acc_updates (run_visible states s visible).
Proof.
  intros Hn (u & -> & Hu)%list_elem_of_fmap. apply run_updates in Hu as [Hin Hu].
  rewrite Hn in Hu; done.
Qed.

(** The two write loops of the client, for one player. *)
Lemma applied_copy v pid :
  foldl apply_update (foldl apply_enter v (acc_enters (run_visible states s visible)))
    (acc_updates (run_visible states s visible)) !! pid =
  match states !! pid with
  | Some ps =>
      if decide (pid ∈ visible /\ s !! pid <> Some (p_Version ps))
      then Some (p_Transform ps, p_Version ps) else v !! pid
  | None => v !! pid
  end.
Proof.
  destruct (run_enters states s visible) as [Hne He].
  destruct (run_updates states s visible) as [Hnu Hu].
  unfold apply_update, apply_enter.
  assert ((pid ∈ visible -> enter_at states s pid = None /\ update_at states s pid = None) ->
    foldl (fun v u => <[pu_PlayerID u := (pu_Transform u, pu_Version u)]> v)
      (foldl (fun v e => <[pe_PlayerID e := (pe_Transform e, pe_Version e)]> v) v
        (acc_enters (run_visible states s visible)))
      (acc_updates (run_visible states s visible)) !! pid = v !! pid) as Hkeep.
  { intros Hno. rewrite (lookup_foldl_insert_ne pu_PlayerID) by (apply no_update; naive_solver).
    apply (lookup_foldl_insert_ne pe_PlayerID), no_enter. naive_solver. }
  destruct (states !! pid) as [ps |] eqn:Hps.
  2:{ apply Hkeep. unfold enter_at, update_at. by rewrite Hps. }
  case_decide as Hd.
  2:{ apply Hkeep. intros Hin. unfold enter_at, update_at. rewrite Hps.
      destruct (s !! pid) as [last |]; [| naive_solver].
      destruct (Z.eqb_spec (p_Version ps) last); naive_solver. }
  destruct Hd as [Hin Hver]. destruct (s !! pid) as [last |] eqn:Hs.
  - apply (lookup_foldl_insert pu_PlayerID (fun u => (pu_Transform u, pu_Version u)) _ _
      (MkUpdate pid (p_Transform ps) (p_Version ps))); [done |].
    apply Hu. split; [done |]. unfold update_at. simpl. rewrite Hps, Hs.
    destruct (Z.eqb_spec (p_Version ps) last); [congruence | done].
  - rewrite (lookup_foldl_insert_ne pu_PlayerID) by
      (apply no_update; intros _; unfold update_at; by rewrite Hps, Hs).
    apply (lookup_foldl_insert pe_PlayerID (fun e => (pe_Transform e, pe_Version e)) _ _
      (MkEnter pid (p_Transform ps) (p_Version ps))); [done |].
    apply He. split; [done |]. unfold enter_at. simpl. by rewrite Hps, Hs.
Qed.
End visible_copy.

Section client.
Context `{GR : !GoRange}.

Lemma elem_of_leave_ids site tick visible snap states pid :
  pid ∈ pl_PlayerID <$> pd_Leaves (BuildPlayerDelta site tick visible snap states).2 <->
  (pid ∉ visible) /\ is_Some (cs_VisiblePlayers snap !! pid).
Proof.
  rewrite <- (proj2 (build_leaves site tick visible snap states) pid), list_elem_of_fmap.
  split; [intros ([pid'] & -> & H) | intros H; exists (MkLeave pid)]; done.
Qed.

Lemma in_sync_build hist site tick visible snap states v :
  consistent hist states -> in_sync hist snap v ->
  let r := BuildPlayerDelta site tick visible snap states in
  in_sync hist r.1 (apply_delta v r.2).
Proof.
  intros Hc Hsync r pid. unfold r. rewrite build_snapshot. unfold apply_delta, apply_leave.
  rewrite (lookup_foldl_delete pl_PlayerID).
  change (pd_Enters _) with (acc_enters (run_visible states (cs_VisiblePlayers snap) visible)).
  change (pd_Updates _) with (acc_updates (run_visible states (cs_VisiblePlayers snap) visible)).
  rewrite applied_copy. unfold sent_version.
  destruct (decide (pid ∈ visible)) as [Hin | Hnin].
  - rewrite decide_False by (rewrite elem_of_leave_ids; tauto).
    destruct (states !! pid) as [ps |] eqn:Hps; simpl; [| apply Hsync].
    rewrite <- (Hc _ _ Hps). case_decide as Hd; [done |].
    rewrite Hsync. destruct (cs_VisiblePlayers snap !! pid) as [last |]; [| naive_solver].
    destruct (decide (last = p_Version ps)) as [-> |]; [| naive_solver].
    simpl. by rewrite <- (Hc _ _ Hps).
  - case_decide as Hl; [done |]. rewrite elem_of_leave_ids in Hl.
    assert (cs_VisiblePlayers snap !! pid = None) as Hs.
    { apply eq_None_not_Some. tauto. }
    rewrite Hsync, Hs. destruct (states !! pid); [| done]. by rewrite decide_False by tauto.
Qed.

(** One broadcast to one viewer: the loop order, the tick, the players the
    interest query returned and the authoritative player map. *)
Record round := MkRound {
  r_site : list nat; r_tick : Z; r_visible : list PlayerID;
  r_states : gmap PlayerID PlayerState }.

Definition play_round (p : ClientSnapshot * client_view) (r : round) : ClientSnapshot * client_view :=
  let '(snap, v) := p in
  let '(snap', d) := BuildPlayerDelta (r_site r) (r_tick r) (r_visible r) snap (r_states r) in
  (snap', apply_delta v d).

Definition play_rounds (rs : list round) : ClientSnapshot * client_view :=
  foldl play_round (NewClientSnapshot, ∅) rs.

Lemma play_rounds_in_sync hist rs :
  Forall (fun r => consistent hist (r_states r)) rs ->
  in_sync hist (play_rounds rs).1 (play_rounds rs).2.
Proof.
  unfold play_rounds. induction rs as [| r rs IH] using rev_ind.
  { intros _ pid. simpl. by rewrite !lookup_empty. }
  rewrite Forall_app, Forall_singleton. intros [Hrs Hr]. rewrite foldl_snoc.
  specialize (IH Hrs). destruct (foldl play_round _ rs) as [snap v]. unfold play_round.
  pose proof (in_sync_build hist (r_site r) (r_tick r) (r_visible r) snap (r_states r) v Hr IH) as H.
  by destruct (BuildPlayerDelta _ _ _ _ _) as [snap' d].
Qed.

(** A client that starts empty and applies every delta sent to it holds,
    after the last of any number of broadcasts, exactly the current transform
    and version of every player visible to it and nothing else, whatever was
    visible in between, provided a player's version determines its transform
    and every visible player has state. *)
Theorem delta_stream_converges (hist : history) (rs : list round) (r : round) (pid : PlayerID) :
  Forall (fun r => consistent hist (r_states r)) (rs ++ [r]) ->
  (forall p, p ∈ r_visible r -> is_Some (r_states r !! p)) ->
  (play_rounds (rs ++ [r])).2 !! pid =
  if decide (pid ∈ r_visible r) then Snapshot <$> r_states r !! pid else None.
Proof.
  intros Hc Hst. rewrite (play_rounds_in_sync hist) by done.
  unfold play_rounds. rewrite foldl_snoc. destruct (foldl play_round _ rs) as [snap v].
  unfold play_round. pose proof (build_snapshot (r_site r) (r_tick r) (r_visible r) snap (r_states r) pid) as Hs.
  destruct (BuildPlayerDelta _ _ _ _ _) as [snap' d]. simpl in *. rewrite Hs.
  case_decide as Hin; [| done]. destruct (Hst pid Hin) as [ps Hps]. unfold sent_version.
  rewrite Hps. simpl. apply Forall_app in Hc as [_ Hc]. rewrite Forall_singleton in Hc.
  by rewrite <- (Hc _ _ Hps).
Qed.

(** What a delta lists. *)
Lemma build_contents (site : list nat) (tick : Z) (visible : list PlayerID)
    (snap : ClientSnapshot) (states : gmap PlayerID PlayerState) :
  let d := (BuildPlayerDelta site tick visible snap states).2 in
  pd_Tick d = tick /\
  NoDup (pe_PlayerID <$> pd_Enters d) /\ NoDup (pu_PlayerID <$> pd_Updates d) /\
  NoDup (pl_PlayerID <$> pd_Leaves d) /\
  (forall e, e ∈ pd_Enters d <->
     pe_PlayerID e ∈ visible /\ exists ps, states !! pe_PlayerID e = Some ps /\
       cs_VisiblePlayers snap !! pe_PlayerID e = None /\
       pe_Transform e = p_Transform ps /\ pe_Version e = p_Version ps) /\
  (forall u, u ∈ pd_Updates d <->
     pu_PlayerID u ∈ visible /\ exists ps last, states !! pu_PlayerID u = Some ps /\
       cs_VisiblePlayers snap !! pu_PlayerID u = Some last /\ p_Version ps <> last /\
       pu_Transform u = p_Transform ps /\ pu_Version u = p_Version ps) /\
  (forall l, l ∈ pd_Leaves d <->
     (pl_PlayerID l ∉ visible) /\ is_Some (cs_VisiblePlayers snap !! pl_PlayerID l)).
Proof.
  intros d. set (s := cs_VisiblePlayers snap).
  destruct (run_enters states s visible) as [Hne He].
  destruct (run_updates states s visible) as [Hnu Hu].
  destruct (build_leaves site tick visible snap states) as [Hnl Hl].
  split_and!; try done.
  - intros e. etransitivity; [apply He |]. by rewrite enter_at_Some.
  - intros u. etransitivity; [apply Hu |]. by rewrite update_at_Some.
  - intros [pid]. apply Hl.
Qed.

(** C30: The exact contents of a delta: an enter for every visible player with
    state the client has not seen, an update for every seen one whose version
    differs, a leave for every seen player no longer visible; no player is
    reported twice in a list, even when the visible list repeats it. *)
Theorem delta_contents (site : list nat) (tick : Z) (visible : list PlayerID)
    (snap : ClientSnapshot) (states : gmap PlayerID PlayerState) :
  let d := (BuildPlayerDelta site tick visible snap states).2 in
  pd_Tick d = tick /\
  NoDup (pe_PlayerID <$> pd_Enters d) /\ NoDup (pu_PlayerID <$> pd_Updates d) /\
  NoDup (pl_PlayerID <$> pd_Leaves d) /\
  (forall e, e ∈ pd_Enters d <->
     pe_PlayerID e ∈ visible /\ exists ps, states !! pe_PlayerID e = Some ps /\
       cs_VisiblePlayers snap !! pe_PlayerID e = None /\
       pe_Transform e = p_Transform ps /\ pe_Version e = p_Version ps) /\
  (forall u, u ∈ pd_Updates d <->
     pu_PlayerID u ∈ visible /\ exists ps last, states !! pu_PlayerID u = Some ps /\
       cs_VisiblePlayers snap !! pu_PlayerID u = Some last /\ p_Version ps <> last /\
       pu_Transform u = p_Transform ps /\ pu_Version u = p_Version ps) /\
  (forall l, l ∈ pd_Leaves d <->
     (pl_PlayerID l ∉ visible) /\ is_Some (cs_VisiblePlayers snap !! pl_PlayerID l)).
Proof. apply build_contents. Qed.

Lemma build_empty_iff (site : list nat) (tick : Z) (visible : list PlayerID)
    (snap : ClientSnapshot) (states : gmap PlayerID PlayerState) :
  PlayerDelta_IsEmpty (BuildPlayerDelta site tick visible snap states).2 = true <->
  (forall pid ps, pid ∈ visible -> states !! pid = Some ps ->
     cs_VisiblePlayers snap !! pid = Some (p_Version ps)) /\
  (forall pid, is_Some (cs_VisiblePlayers snap !! pid) -> pid ∈ visible).
Proof.
  set (s := cs_VisiblePlayers snap).
  destruct (run_enters states s visible) as [_ He].
  destruct (run_updates states s visible) as [_ Hu].
  unfold PlayerDelta_IsEmpty. rewrite !andb_true_iff, !is_nil_spec. split.
  - intros [[H1 H2] H3]. split.
    + intros pid ps Hin Hps.
      assert (enter_at states s pid = None) as E1.
      { apply (no_elem_at pe_PlayerID (enter_at states s) visible _ He H1 pid Hin).
        intros b. unfold enter_at. repeat case_match; naive_solver. }
      assert (update_at states s pid = None) as E2.
      { apply (no_elem_at pu_PlayerID (update_at states s) visible _ Hu H2 pid Hin).
        intros b. unfold update_at. repeat case_match; naive_solver. }
      unfold enter_at, update_at in *. rewrite Hps in *. destruct (s !! pid) as [last |]; [| done].
      destruct (Z.eqb_spec (p_Version ps) last); [congruence | done].
    + intros pid Hs. destruct (decide (pid ∈ visible)) as [| Hnin]; [done |].
      assert (MkLeave pid ∈ pd_Leaves (BuildPlayerDelta site tick visible snap states).2) as Hl
        by (apply build_leaves; auto).
      rewrite H3 in Hl. by apply not_elem_of_nil in Hl.
  - intros [Hv Hs]. split_and!; apply no_elements.
    + intros e [Hin He']%He. unfold enter_at in He'.
      destruct (states !! _) as [ps |] eqn:Hps; [| done]. by rewrite (Hv _ _ Hin Hps) in He'.
    + intros u [Hin Hu']%Hu. unfold update_at in Hu'.
      destruct (states !! _) as [ps |] eqn:Hps; [| done].
      by rewrite (Hv _ _ Hin Hps), Z.eqb_refl in Hu'.
    + intros [pid] Hl. apply build_leaves in Hl as [Hnin Hsome]. by apply Hnin, Hs.
Qed.

(** A delta is empty exactly when the viewer's snapshot already describes
    what is visible: every visible player with state at its current version,
    and nobody else. Empty deltas are the ones a broadcast suppresses. *)
Theorem delta_empty_iff_unchanged (site : list nat) (tick : Z) (visible : list PlayerID)
    (snap : ClientSnapshot) (states : gmap PlayerID PlayerState) :
  PlayerDelta_IsEmpty (BuildPlayerDelta site tick visible snap states).2 = true <->
  (forall pid ps, pid ∈ visible -> states !! pid = Some ps ->
     cs_VisiblePlayers snap !! pid = Some (p_Version ps)) /\
  (forall pid, is_Some (cs_VisiblePlayers snap !! pid) -> pid ∈ visible).
Proof. apply build_empty_iff. Qed.
End client.

(** ** A concrete stream of three broadcasts *)

Module DeltaExample.

Definition at_x (x : Z) : PlayerTransform :=
  MkPlayerTransform (MkVector3 (f32_of_Z x) f32_zero f32_zero) IdentityQuaternion x.

Definition ps (pid : PlayerID) (v : Z) : PlayerState :=
  MkPlayerState pid pid PlayerStatusActive 0 (at_x v) v 0.

Definition hist : history := fun _ v => at_x v.

Definition room (pids : list (PlayerID * Z)) : gmap PlayerID PlayerState :=
  list_to_map ((fun pv => (pv.1, ps pv.1 pv.2)) <$> pids).

Definition rounds : list round :=
  [MkRound [] 2 ["a"; "b"] (room [("a", 1); ("b", 1)]);
   MkRound [] 4 ["b"; "c"] (room [("a", 2); ("b", 1); ("c", 5)])].

Definition last_round : round :=
  MkRound [] 6 ["a"; "b"; "a"] (room [("a", 3); ("b", 2); ("c", 5)]).

Lemma states_consistent pids : consistent hist (room pids).
Proof.
  intros pid p Hp. apply elem_of_list_to_map_2, list_elem_of_fmap in Hp as (x & [= -> ->] & _).
  done.
Qed.

End DeltaExample.

Lemma delta_stream_converges_witness :
  (@play_rounds canonical_range (DeltaExample.rounds ++ [DeltaExample.last_round])).2 !! "a"
  = Some (DeltaExample.at_x 3, 3).
Proof.
  rewrite (@delta_stream_converges canonical_range DeltaExample.hist).
  - vm_compute. reflexivity.
  - repeat constructor; apply DeltaExample.states_consistent.
  - apply Forall_forall. repeat constructor; eexists; vm_compute; reflexivity.
Defined.
