(* ===== verification/Cluster.v ===== *)
(** * K-Means cluster allocation

    Models [internal/game/cluster]: [types.go], [allocator.go] and
    [kmeans.go].  Slices are lists; an index out of range is a run-time panic
    in Go, so the functions that index a slice return an [option] whose [None]
    is that panic.  [sort.Slice] is the sorted permutation of its argument,
    which is unique because the only caller passes the keys of a map. *)

From Stdlib Require Import ZArith Lia.
From stdpp Require Import base strings gmap fin_maps list sorting numbers.
From S2P Require Import Prelude.
From S2P Require Import GoFloat.
From S2P Require Import Player.
From S2P Require Import Spatial.

Local Open Scope string_scope.
Local Open Scope Z_scope.
Local Open Scope list_scope.
Local Open Scope go_scope.

Abbreviation ClusterID := Z.

(** ** Data *)

Record ClusterConfig := MkClusterConfig {
  cc_Enabled : bool;
  cc_TargetClusterSize : Z;
  cc_MaxClusterRadius : float32;
  cc_ReclusterIntervalTicks : Z;
  cc_MovementThreshold : float32;
  cc_MembershipHysteresis : float32;
  cc_MaxIterations : Z;
  cc_MaxPlayersPerRoom : Z }.

Definition DefaultClusterConfig : ClusterConfig :=
  MkClusterConfig true 8 (f32_of_Z 30) 10 (f32_of_Z 2) (f32_of_Z 5) 20 200.

Record ClusterPlayer := MkClusterPlayer {
  cp_PlayerID : PlayerID; cp_Position : EntityPosition }.

Abbreviation ClusterInput := (list ClusterPlayer).

Record ClusterOutput := MkClusterOutput {
  co_Assignments : gmap PlayerID ClusterID;
  co_Clusters : gmap ClusterID (list PlayerID);
  co_Centroids : gmap ClusterID EntityPosition;
  co_K : Z }.

(** [KMeansClusterAllocator]: [prevOutput] is [nil] before the first call. *)
Record KMeansClusterAllocator := MkAllocator { prevOutput : option ClusterOutput }.

Definition NewKMeansClusterAllocator : KMeansClusterAllocator := MkAllocator None.

Definition Reset (a : KMeansClusterAllocator) : KMeansClusterAllocator := MkAllocator None.

(** ** Validation and filtering *)

Inductive ClusterError :=
  | errTargetClusterSizeZero | errMaxIterationsZero | errMaxPlayersZero.

Definition validateConfig (cfg : ClusterConfig) : option ClusterError :=
  guard_err (cc_TargetClusterSize cfg <=? 0) errTargetClusterSizeZero >>?
  guard_err (cc_MaxIterations cfg <=? 0) errMaxIterationsZero >>?
  guard_err (cc_MaxPlayersPerRoom cfg <=? 0) errMaxPlayersZero.

Definition isInvalidPos (pos : EntityPosition) : bool :=
  IsNaN (f64_of_f32 (ep_X pos)) || IsInf (f64_of_f32 (ep_X pos)) ||
  IsNaN (f64_of_f32 (ep_Z pos)) || IsInf (f64_of_f32 (ep_Z pos)).

(** The loop of [filterValidPlayers]; [out] is the slice built so far. *)
Fixpoint filter_loop (players : list ClusterPlayer) (cfg : ClusterConfig)
    (out : list ClusterPlayer) : list ClusterPlayer :=
  match players with
  | [] => out
  | p :: players' =>
      if String.eqb (cp_PlayerID p) "" then filter_loop players' cfg out
      else if isInvalidPos (cp_Position p) then filter_loop players' cfg out
      else
        let out' := out ++ [p] in
        if (0 <? cc_MaxPlayersPerRoom cfg) &&
           (cc_MaxPlayersPerRoom cfg <=? Z.of_nat (length out')) then out'
        else filter_loop players' cfg out'
  end.

Definition filterValidPlayers (players : list ClusterPlayer) (cfg : ClusterConfig)
    : list ClusterPlayer := filter_loop players cfg [].

(** [(n + targetSize - 1) / targetSize] in 64-bit arithmetic, clamped. *)
Definition computeK (n targetSize : Z) : Z :=
  let k := Z.quot (i64 (n + targetSize - 1)) targetSize in
  let k := if k <? 1 then 1 else k in
  if n <? k then n else k.

(** ** Geometry *)

Definition squaredDist (a b : EntityPosition) : float64 :=
  let dx := f64_of_f32 (f32_sub (ep_X a) (ep_X b)) in
  let dz := f64_of_f32 (f32_sub (ep_Z a) (ep_Z b)) in
  f64_add (f64_mul dx dx) (f64_mul dz dz).

Definition euclideanDist (a b : EntityPosition) : float32 :=
  f32_of_f64 (f64_sqrt (squaredDist a b)).

Fixpoint nearest_loop (pos : EntityPosition) (rest : list EntityPosition) (i best : nat)
    (bestDist : float64) : nat :=
  match rest with
  | [] => best
  | c :: rest' =>
      let d := squaredDist pos c in
      if flt d bestDist then nearest_loop pos rest' (S i) i d
      else nearest_loop pos rest' (S i) best bestDist
  end.

Definition nearestCentroidIndex (pos : EntityPosition) (centroids : list EntityPosition)
    : option nat :=
  match centroids with
  | [] => None
  | c0 :: rest => Some (nearest_loop pos rest 1 0 (squaredDist pos c0))
  end.

(** ** Initial centroids *)

(** The order [sort.Slice] is called with; Go compares strings bytewise. *)
Definition player_le (a b : ClusterPlayer) : Prop :=
  String.leb (cp_PlayerID a) (cp_PlayerID b) = true.

#[global] Instance player_le_dec : RelDecision player_le.
Proof. intros a b. unfold player_le. apply _. Defined.

Definition initCentroids (players : list ClusterPlayer) (k : nat)
    : option (list EntityPosition) :=
  let sorted := merge_sort player_le players in
  mapM (fun i => cp_Position <$> sorted !! i) (seq 0 k).

(** ** Assignment and centroid update *)

Fixpoint assignNearest (players : list ClusterPlayer) (centroids : list EntityPosition)
    (assignments : list nat) : option (bool * list nat) :=
  match players, assignments with
  | [], _ => Some (false, assignments)
  | _ :: _, [] => None
  | p :: players', a :: assignments' =>
      nearest ← nearestCentroidIndex (cp_Position p) centroids;
      '(changed, rest) ← assignNearest players' centroids assignments';
      Some (negb (Nat.eqb a nearest) || changed, nearest :: rest)
  end.

(** One entry of the [sumX], [sumZ] and [count] slices. *)
Record centroid_sum := MkSum { sumX : float64; sumZ : float64; count : Z }.

Definition zero_sum : centroid_sum := MkSum f64_zero f64_zero 0.

Definition add_sum (p : ClusterPlayer) (s : centroid_sum) : centroid_sum :=
  MkSum (f64_add (sumX s) (f64_of_f32 (ep_X (cp_Position p))))
        (f64_add (sumZ s) (f64_of_f32 (ep_Z (cp_Position p))))
        (count s + 1).

Fixpoint sum_loop (players : list ClusterPlayer) (assignments : list nat)
    (sums : list centroid_sum) : option (list centroid_sum) :=
  match players, assignments with
  | [], _ => Some sums
  | _ :: _, [] => None
  | p :: players', c :: assignments' =>
      s ← sums !! c;
      sum_loop players' assignments' (<[c := add_sum p s]> sums)
  end.

Definition mean_of (s : centroid_sum) : EntityPosition :=
  Pos (f32_of_f64 (f64_div (sumX s) (f64_of_int (count s))))
      (f32_of_f64 (f64_div (sumZ s) (f64_of_int (count s)))).

(** [for c := range k]: an empty cluster keeps its centroid. *)
Fixpoint mean_loop (sums : list centroid_sum) (centroids : list EntityPosition)
    : option (list EntityPosition) :=
  match sums, centroids with
  | [], _ => Some centroids
  | s :: sums', c :: centroids' =>
      rest ← mean_loop sums' centroids';
      Some ((if 0 <? count s then mean_of s else c) :: rest)
  | s :: sums', [] =>
      if 0 <? count s then None else mean_loop sums' []
  end.

Definition recomputeCentroids (players : list ClusterPlayer) (assignments : list nat)
    (centroids : list EntityPosition) (k : nat) : option (list EntityPosition) :=
  sums ← sum_loop players assignments (replicate k zero_sum);
  mean_loop sums centroids.

(** ** Hysteresis *)

Fixpoint applyHysteresis (players : list ClusterPlayer) (assignments : list nat)
    (centroids : list EntityPosition) (prev : ClusterOutput) (hysteresis : float32)
    : option (list nat) :=
  match players with
  | [] => Some assignments
  | p :: players' =>
      let skip :=
        match assignments with
        | [] => applyHysteresis players' [] centroids prev hysteresis
        | a :: assignments' =>
            rest ← applyHysteresis players' assignments' centroids prev hysteresis;
            Some (a :: rest)
        end in
      match co_Assignments prev !! cp_PlayerID p with
      | None => skip
      | Some prevID =>
        match co_Centroids prev !! prevID with
        | None => skip
        | Some prevCentroid =>
          match assignments with
          | [] => None
          | a :: assignments' =>
              newCentroid ← centroids !! a;
              let distNew := euclideanDist (cp_Position p) newCentroid in
              let distOld := euclideanDist (cp_Position p) prevCentroid in
              a' ← (if fge distNew (f32_sub distOld hysteresis)
                    then nearestCentroidIndex prevCentroid centroids else Some a);
              rest ← applyHysteresis players' assignments' centroids prev hysteresis;
              Some (a' :: rest)
          end
        end
      end
  end.

(** ** Output *)

Definition emptyOutput : ClusterOutput := MkClusterOutput ∅ ∅ ∅ 0.

Fixpoint member_loop (players : list ClusterPlayer) (assignments : list nat)
    (out : ClusterOutput) : option ClusterOutput :=
  match players, assignments with
  | [], _ => Some out
  | _ :: _, [] => None
  | p :: players', a :: assignments' =>
      let cid := u32 (Z.of_nat a) in
      let pid := cp_PlayerID p in
      member_loop players' assignments'
        (MkClusterOutput (<[pid := cid]> (co_Assignments out))
           (<[cid := default [] (co_Clusters out !! cid) ++ [pid]]> (co_Clusters out))
           (co_Centroids out) (co_K out))
  end.

(** [for c := range k { out.Centroids[ClusterID(c)] = centroids[c] }] *)
Definition centroid_table (centroids : list EntityPosition) (k : nat)
    : option (gmap ClusterID EntityPosition) :=
  foldl (fun acc c => m ← acc; pos ← centroids !! c; Some (<[u32 (Z.of_nat c) := pos]> m))
    (Some ∅) (seq 0 k).

Definition buildOutput (players : list ClusterPlayer) (assignments : list nat)
    (centroids : list EntityPosition) (k : nat) : option ClusterOutput :=
  table ← centroid_table centroids k;
  member_loop players assignments (MkClusterOutput ∅ ∅ table (Z.of_nat k)).

(** ** Compute *)

(** The bounded K-Means loop, with [iters] iterations left. *)
Fixpoint kmeans_loop (iters : nat) (valid : list ClusterPlayer) (k : nat)
    (centroids : list EntityPosition) (assignments : list nat)
    : option (list EntityPosition * list nat) :=
  match iters with
  | O => Some (centroids, assignments)
  | S iters' =>
      match assignNearest valid centroids assignments with
      | None => None
      | Some (changed, assignments') =>
          centroids' ← recomputeCentroids valid assignments' centroids k;
          if changed then kmeans_loop iters' valid k centroids' assignments'
          else Some (centroids', assignments')
      end
  end.

(** [None] is a panic; otherwise the allocator left behind and the result. *)
Definition Compute (a : KMeansClusterAllocator) (input : ClusterInput) (config : ClusterConfig)
    : option (KMeansClusterAllocator * (ClusterError + ClusterOutput)) :=
  match validateConfig config with
  | Some err => Some (a, inl err)
  | None =>
      let valid := filterValidPlayers input config in
      let n := Z.of_nat (length valid) in
      if n =? 0 then Some (MkAllocator (Some emptyOutput), inr emptyOutput)
      else
        let k := Z.to_nat (computeK n (cc_TargetClusterSize config)) in
        centroids0 ← initCentroids valid k;
        '(centroids, assignments) ←
          kmeans_loop (Z.to_nat (cc_MaxIterations config)) valid k centroids0
            (replicate (length valid) 0%nat);
        assignments' ←
          (match prevOutput a with
           | Some prev =>
               if fgt (cc_MembershipHysteresis config) f32_zero
               then applyHysteresis valid assignments centroids prev (cc_MembershipHysteresis config)
               else Some assignments
           | None => Some assignments
           end);
        out ← buildOutput valid assignments' centroids k;
        Some (MkAllocator (Some out), inr out)
  end.

(** ** The interface the room calls *)

Class ClusterAllocator (A : Type) :=
  alloc_Compute : A -> ClusterInput -> ClusterConfig ->
    option (A * (ClusterError + ClusterOutput)).

#[global] Instance KMeans_ClusterAllocator : ClusterAllocator KMeansClusterAllocator := Compute.
