(* ===== verification/ClusterFacts.v ===== *)
(** * Correctness of the cluster allocator

    [Compute] never panics and always terminates within [MaxIterations]; its
    output is a partition of the clustered players into at most [K] clusters;
    [K] is the rounded-up quotient even where the 64-bit addition overflows;
    the nearest-centroid search is an arg-min with the documented tie-break;
    the initial centroids do not depend on the order of the input. *)

From Stdlib Require Import ZArith Lia SpecFloat OrderedTypeEx.
From stdpp Require Import base strings gmap fin_maps list sorting numbers.
From S2P Require Import Prelude.
From S2P Require Import GoFloat.
From S2P Require Import Player.
From S2P Require Import Spatial.
From S2P Require Import Cluster.

Local Open Scope string_scope.
Local Open Scope Z_scope.
Local Open Scope list_scope.

(** ** Filtering *)

(** The players [Compute] can cluster. *)
Definition clusterable (p : ClusterPlayer) : Prop :=
  cp_PlayerID p <> "" /\ isInvalidPos (cp_Position p) = false.

#[global] Instance clusterable_dec p : Decision (clusterable p).
Proof. unfold clusterable. apply _. Defined.

Lemma filter_loop_spec players cfg out :
  Z.of_nat (length out) < cc_MaxPlayersPerRoom cfg ->
  filter_loop players cfg out =
  out ++ take (Z.to_nat (cc_MaxPlayersPerRoom cfg) - length out) (filter clusterable players).
Proof.
  revert out. induction players as [| p players IH]; intros out Hlen; simpl.
  { by rewrite filter_nil, take_nil, app_nil_r. }
  rewrite filter_cons.
  destruct (String.eqb_spec (cp_PlayerID p) "") as [He | Hne].
  { rewrite decide_False by by intros []. by apply IH. }
  destruct (isInvalidPos (cp_Position p)) eqn:Hi.
  { rewrite decide_False by (intros [_ ?]; congruence). by apply IH. }
  rewrite decide_True by done. rewrite length_app. simpl.
  destruct (Nat.eq_dec (Z.to_nat (cc_MaxPlayersPerRoom cfg) - length out)%nat 1%nat) as [H1 | H1].
  - rewrite (proj2 (Z.ltb_lt 0 (cc_MaxPlayersPerRoom cfg))) by lia.
    rewrite (proj2 (Z.leb_le (cc_MaxPlayersPerRoom cfg) (Z.of_nat (length out + 1)))) by lia.
    simpl. by rewrite H1.
  - rewrite (proj2 (Z.leb_gt (cc_MaxPlayersPerRoom cfg) (Z.of_nat (length out + 1)))) by lia.
    rewrite andb_false_r, IH by (rewrite length_app; simpl; lia).
    rewrite length_app, <- app_assoc. f_equal. simpl.
    replace (Z.to_nat (cc_MaxPlayersPerRoom cfg) - length out)%nat
      with (S (Z.to_nat (cc_MaxPlayersPerRoom cfg) - (length out + 1)))%nat by lia.
    done.
Qed.

Lemma filterValidPlayers_spec players cfg :
  0 < cc_MaxPlayersPerRoom cfg ->
  filterValidPlayers players cfg =
  take (Z.to_nat (cc_MaxPlayersPerRoom cfg)) (filter clusterable players).
Proof.
  intros H. unfold filterValidPlayers. rewrite filter_loop_spec by done.
  simpl. by rewrite Nat.sub_0_r.
Qed.

Lemma validateConfig_ok cfg :
  validateConfig cfg = None <->
  0 < cc_TargetClusterSize cfg /\ 0 < cc_MaxIterations cfg /\ 0 < cc_MaxPlayersPerRoom cfg.
Proof.
  unfold validateConfig. rewrite !or_return_None, !guard_err_None, !Z.leb_gt. tauto.
Qed.

Lemma NoDup_valid_ids players cfg :
  0 < cc_MaxPlayersPerRoom cfg -> NoDup (cp_PlayerID <$> players) ->
  NoDup (cp_PlayerID <$> filterValidPlayers players cfg).
Proof.
  intros Hm Hnd. rewrite filterValidPlayers_spec by done.
  eapply sublist_NoDup; [exact Hnd |]. apply fmap_sublist.
  etransitivity; [apply sublist_take | apply sublist_filter].
Qed.

(** ** The number of clusters *)

Lemma computeK_range n t : 1 <= n -> 1 <= computeK n t <= n.
Proof.
  intros Hn. unfold computeK.
  set (q := Z.quot _ _). destruct (Z.ltb_spec q 1); repeat case_match; go_bool; lia.
Qed.

(** ** Nearest centroid *)

Section nearest.
Context (pos : EntityPosition).

(** [cs] is the whole slice, of which [rest] starts at index [i]; [best] is
    the winner among the first [i]. *)
Record best_of (cs : list EntityPosition) (i best : nat) (bestDist : float64) : Prop := {
  bo_lt : (best < i)%nat;
  bo_dist : squaredDist pos <$> cs !! best = Some bestDist;
  bo_min : forall j c, (j < i)%nat -> cs !! j = Some c -> flt (squaredDist pos c) bestDist = false;
  bo_first : forall j c, (j < best)%nat -> cs !! j = Some c -> fle (squaredDist pos c) bestDist = false }.

Lemma nearest_loop_best cs rest i best bestDist :
  drop i cs = rest -> (i <= length cs)%nat -> best_of cs i best bestDist ->
  exists d, best_of cs (length cs) (nearest_loop pos rest i best bestDist) d.
Proof.
  revert i best bestDist. induction rest as [| c rest IH]; intros i best bestDist Hd Hi Hb.
  { assert (i = length cs) as ->; [| by eexists].
    pose proof (f_equal length Hd) as Hl. rewrite length_drop in Hl. simpl in Hl. lia. }
  assert (cs !! i = Some c) as Hc.
  { rewrite <- (Nat.add_0_r i), <- lookup_drop, Hd. done. }
  assert (drop (S i) cs = rest) as Hd'.
  { replace (S i) with (i + 1)%nat by lia. rewrite <- drop_drop, Hd. done. }
  pose proof (lookup_lt_Some _ _ _ Hc) as Hlt. destruct Hb as [Hbl Hbd Hmin Hfst].
  simpl. destruct (flt (squaredDist pos c) bestDist) eqn:Hf; apply IH; try done; try lia; split.
  - lia.
  - by rewrite Hc.
  - intros j c' Hj Hc'. destruct (decide (j = i)) as [-> | Hne].
    + assert (c' = c) as -> by congruence. apply flt_irrefl.
    + destruct (flt (squaredDist pos c') (squaredDist pos c)) eqn:Hx; [| done].
      assert (flt (squaredDist pos c') bestDist = false) by (apply (Hmin j c'); [lia | done]).
      pose proof (flt_trans _ _ _ Hx Hf). congruence.
  - intros j c' Hj Hc'. destruct (fle (squaredDist pos c') (squaredDist pos c)) eqn:Hx; [| done].
    assert (flt (squaredDist pos c') bestDist = false) by (apply (Hmin j c'); [lia | done]).
    pose proof (fle_flt_trans _ _ _ Hx Hf). congruence.
  - lia.
  - done.
  - intros j c' Hj Hc'. destruct (decide (j = i)) as [-> | Hne].
    + congruence.
    + apply (Hmin j c'); [lia | done].
  - done.
Qed.

Lemma nearest_spec cs b :
  nearestCentroidIndex pos cs = Some b -> exists d, best_of cs (length cs) b d.
Proof.
  unfold nearestCentroidIndex. destruct cs as [| c0 rest]; [done |]. intros [= <-].
  apply nearest_loop_best; [done | simpl; lia |]. split.
  - lia.
  - done.
  - intros j c Hj Hc. assert (j = 0%nat) as -> by lia. injection Hc as <-. apply flt_irrefl.
  - intros; lia.
Qed.

Lemma nearest_total cs :
  cs <> [] -> exists b, nearestCentroidIndex pos cs = Some b /\ (b < length cs)%nat.
Proof.
  intros Hne. destruct (nearestCentroidIndex pos cs) as [b |] eqn:Hb.
  - exists b. split; [done |]. by destruct (nearest_spec _ _ Hb) as [d [H _ _ _]].
  - by destruct cs.
Qed.
End nearest.

(** ** Initial centroids *)

#[global] Instance player_le_total : Total player_le.
Proof. intros a b. apply String.leb_total. Qed.

Lemma string_leb_trans a b c :
  String.leb a b = true -> String.leb b c = true -> String.leb a c = true.
Proof.
  assert (forall x y, String.leb x y = true <-> x = y \/ String_as_OT.lt x y) as Hle.
  { intros x y. unfold String.leb. rewrite <- String_as_OT.cmp_lt, <- String_as_OT.cmp_eq.
    unfold String_as_OT.cmp. destruct (String.compare x y); naive_solver. }
  rewrite !Hle. intros [-> | H1] [-> | H2]; auto. right. by eapply String_as_OT.lt_trans.
Qed.

#[global] Instance player_le_trans : Transitive player_le.
Proof. intros a b c. apply string_leb_trans. Qed.

(** Whatever permutation [sort.Slice] produces, with distinct IDs it is the
    one the model computes. *)
Lemma sorted_unique (l l' : list ClusterPlayer) :
  NoDup (cp_PlayerID <$> l) -> l ≡ₚ l' -> Sorted player_le l' -> l' = merge_sort player_le l.
Proof.
  intros Hnd Hp Hs. apply (Sorted_unique_strong player_le); [| done | apply Sorted_merge_sort; apply _ |].
  - intros x1 x2 H1 H2 H12 H21. pose proof (String.leb_antisym _ _ H12 H21) as Hid.
    rewrite <- Hp in H1. rewrite merge_sort_Permutation in H2.
    apply list_elem_of_lookup in H1 as [i Hi], H2 as [j Hj].
    assert (i = j) as ->; [| congruence].
    eapply (NoDup_lookup _ _ _ (cp_PlayerID x1) Hnd); rewrite list_lookup_fmap; [by rewrite Hi |].
    rewrite Hj. by rewrite Hid.
  - by rewrite merge_sort_Permutation, Hp.
Qed.

Lemma mapM_seq_take {A B} (f : A -> B) (l : list A) k :
  (k <= length l)%nat ->
  mapM (fun i => f <$> l !! i) (seq 0 k) = Some (f <$> take k l).
Proof.
  intros Hk. apply mapM_Some_2. apply Forall2_same_length_lookup_2.
  { rewrite length_seq, length_fmap, length_take. lia. }
  intros i x y Hx Hy. apply lookup_seq in Hx as [-> Hi]. simpl.
  rewrite list_lookup_fmap in Hy. destruct (take k l !! i) as [a |] eqn:Ht; [| done].
  apply lookup_take_Some in Ht as [Ht _]. by rewrite Ht.
Qed.

Lemma initCentroids_total players k :
  (k <= length players)%nat ->
  initCentroids players k = Some (cp_Position <$> take k (merge_sort player_le players)).
Proof. intros Hk. apply mapM_seq_take. by rewrite merge_sort_Permutation. Qed.

(** ** Totality of the K-Means steps *)

(** Assignments index the centroid slice, one per player. *)
Definition good_assign (n k : nat) (assignments : list nat) : Prop :=
  length assignments = n /\ Forall (fun a => (a < k)%nat) assignments.

Lemma assignNearest_total players centroids assignments :
  centroids <> [] -> length assignments = length players ->
  exists changed as', assignNearest players centroids assignments = Some (changed, as') /\
    good_assign (length players) (length centroids) as'.
Proof.
  intros Hne. revert assignments. induction players as [| p players IH]; intros [| a as_] Hl;
    try done; simpl in *.
  - exists false, []. split; [done |]. split; [done | constructor].
  - destruct (nearest_total (cp_Position p) centroids Hne) as (b & -> & Hb). simpl.
    destruct (IH as_) as (ch & as' & -> & Hlen & HF); [lia |]. simpl.
    eexists _, _. split; [done |]. split; simpl; [lia | by constructor].
Qed.

Lemma sum_loop_total players assignments sums :
  good_assign (length players) (length sums) assignments ->
  exists sums', sum_loop players assignments sums = Some sums' /\ length sums' = length sums.
Proof.
  revert assignments sums. induction players as [| p players IH];
    intros [| a as_] sums [Hl HF]; try done; simpl in *.
  - eauto.
  - apply Forall_cons_1 in HF as [Ha HF]. destruct (lookup_lt_is_Some_2 sums a Ha) as [s Hs].
    rewrite Hs. simpl. destruct (IH as_ (<[a := add_sum p s]> sums)) as (sums' & -> & Hl').
    + split; [lia |]. by rewrite length_insert.
    + rewrite length_insert in Hl'. eauto.
Qed.

Lemma mean_loop_total sums centroids :
  length sums = length centroids ->
  exists cs, mean_loop sums centroids = Some cs /\ length cs = length centroids.
Proof.
  revert centroids. induction sums as [| s sums IH]; intros [| c cs] Hl; try done; simpl in *.
  - eauto.
  - destruct (IH cs) as (cs' & -> & Hl'); [lia |]. simpl. eexists. split; [done |]. simpl. lia.
Qed.

Lemma recompute_total players assignments centroids k :
  good_assign (length players) k assignments -> length centroids = k ->
  exists cs, recomputeCentroids players assignments centroids k = Some cs /\ length cs = k.
Proof.
  intros Ha Hk. unfold recomputeCentroids.
  destruct (sum_loop_total players assignments (replicate k zero_sum)) as (sums & -> & Hl).
  { by rewrite length_replicate. }
  rewrite length_replicate in Hl. simpl.
  destruct (mean_loop_total sums centroids) as (cs & -> & Hl'); [lia |]. exists cs. split; [done | lia].
Qed.

Lemma kmeans_loop_total iters valid k centroids assignments :
  (1 <= k)%nat -> length centroids = k -> good_assign (length valid) k assignments ->
  exists cs as', kmeans_loop iters valid k centroids assignments = Some (cs, as') /\
    length cs = k /\ good_assign (length valid) k as'.
Proof.
  intros Hk. revert centroids assignments. induction iters as [| iters IH]; intros cs as_ Hc Ha; simpl.
  { eauto 10. }
  destruct (assignNearest_total valid cs as_) as (ch & as' & -> & Ha').
  { intros ->. simpl in Hc. lia. }
  { apply Ha. }
  rewrite Hc in Ha'.
  destruct (recompute_total valid as' cs k Ha' Hc) as (cs' & -> & Hc'). simpl.
  destruct ch; [by apply IH | eauto 10].
Qed.

Lemma applyHysteresis_total players assignments centroids prev h :
  good_assign (length players) (length centroids) assignments ->
  exists as', applyHysteresis players assignments centroids prev h = Some as' /\
    good_assign (length players) (length centroids) as'.
Proof.
  revert assignments. induction players as [| p players IH]; intros [| a as_] [Hl HF]; try done.
  { exists []. split; [done |]. split; [done | constructor]. }
  apply Forall_cons_1 in HF as [Ha HF]. simpl in Hl.
  destruct (IH as_) as (rest & Hrest & Hlr & HFr); [split; [lia | done] |].
  assert (forall b, (b < length centroids)%nat ->
    good_assign (length (p :: players)) (length centroids) (b :: rest)) as Hgood.
  { intros b Hb. split; simpl; [lia | by constructor]. }
  simpl. rewrite Hrest. simpl.
  destruct (co_Assignments prev !! cp_PlayerID p) as [prevID |]; [| eauto].
  destruct (co_Centroids prev !! prevID) as [pc |]; [| eauto].
  destruct (lookup_lt_is_Some_2 centroids a Ha) as [nc ->]. simpl.
  assert (centroids <> []) as Hne by (intros ->; simpl in Ha; lia).
  destruct (nearest_total pc centroids Hne) as (b & -> & Hb).
  destruct (fge _ _); simpl; eauto.
Qed.

(** ** Output *)

Lemma centroid_table_spec centroids k :
  (k <= length centroids)%nat ->
  exists m, centroid_table centroids k = Some m /\
    (Z.of_nat k <= 2 ^ 32 -> forall c, m !! c =
      if decide (0 <= c < Z.of_nat k) then centroids !! Z.to_nat c else None).
Proof.
  unfold centroid_table. induction k as [| k IH]; intros Hk.
  { exists ∅. split; [done |]. intros _ c. rewrite lookup_empty. by rewrite decide_False by lia. }
  destruct IH as (m & Hm & Hspec); [lia |]. rewrite seq_S, foldl_snoc, Hm. simpl.
  destruct (lookup_lt_is_Some_2 centroids k) as [pos Hpos]; [lia |]. rewrite Hpos. simpl.
  eexists. split; [done |]. intros Hb c.
  rewrite u32_small by lia. destruct (decide (c = Z.of_nat k)) as [-> | Hne].
  - rewrite lookup_insert_eq, decide_True by lia. by rewrite Nat2Z.id.
  - rewrite lookup_insert_ne by done. rewrite Hspec by lia.
    destruct (decide (0 <= c < Z.of_nat k)).
    + by rewrite decide_True by lia.
    + by rewrite decide_False by lia.
Qed.

(** The two membership maps describe the same partition. *)
Record partition_ok (o : ClusterOutput) : Prop := {
  po_agree : forall pid c, co_Assignments o !! pid = Some c <->
    exists l, co_Clusters o !! c = Some l /\ pid ∈ l;
  po_lists : forall c l, co_Clusters o !! c = Some l -> NoDup l /\ l <> [] }.

(** Adding a fresh player to cluster [cid]. *)
Definition add_member (pid : PlayerID) (cid : ClusterID) (o : ClusterOutput) : ClusterOutput :=
  MkClusterOutput (<[pid := cid]> (co_Assignments o))
    (<[cid := default [] (co_Clusters o !! cid) ++ [pid]]> (co_Clusters o))
    (co_Centroids o) (co_K o).

Lemma partition_add_member pid cid o :
  partition_ok o -> co_Assignments o !! pid = None -> partition_ok (add_member pid cid o).
Proof.
  intros [Hag Hl] Hfresh.
  assert (forall c l, co_Clusters o !! c = Some l -> pid ∉ l) as Hnot.
  { intros c l Hc Hin. assert (co_Assignments o !! pid = Some c) by (apply Hag; eauto). congruence. }
  split; simpl.
  - intros pid' c. destruct (decide (c = cid)) as [-> | Hc].
    + rewrite lookup_insert_eq. destruct (decide (pid = pid')) as [<- | Hp].
      * rewrite lookup_insert_eq. split; [| done]. intros _. eexists. split; [done |]. set_solver.
      * rewrite lookup_insert_ne by done. rewrite Hag. split.
        -- intros (l & -> & Hin). eexists. split; [done |]. simpl. set_solver.
        -- intros (l & [= <-] & Hin). apply elem_of_app in Hin as [Hin | ->%list_elem_of_singleton]; [| done].
           destruct (co_Clusters o !! cid) as [l |]; [eauto | by apply not_elem_of_nil in Hin].
    + rewrite (lookup_insert_ne (co_Clusters o)) by done.
      destruct (decide (pid = pid')) as [<- | Hp].
      * rewrite lookup_insert_eq. split; [congruence |]. intros (l & Hcl & Hin). by destruct (Hnot _ _ Hcl).
      * rewrite lookup_insert_ne by done. apply Hag.
  - intros c l. rewrite lookup_insert_Some. intros [[<- <-] | [_ Hc]]; [| by apply (Hl c)].
    split; [| by destruct (default [] _)].
    apply list.NoDup_app. split; [| split; [| apply NoDup_singleton]].
    + destruct (co_Clusters o !! cid) as [l |] eqn:Hc; [by apply (Hl cid) | constructor].
    + intros x Hx ->%list_elem_of_singleton.
      destruct (co_Clusters o !! cid) as [l |] eqn:Hc; [by apply (Hnot cid l) | by apply not_elem_of_nil in Hx].
Qed.

Lemma member_loop_spec players assignments o k :
  partition_ok o -> NoDup (cp_PlayerID <$> players) ->
  (forall pid, pid ∈ cp_PlayerID <$> players -> co_Assignments o !! pid = None) ->
  good_assign (length players) k assignments ->
  (forall pid c, co_Assignments o !! pid = Some c -> 0 <= c < Z.of_nat k) ->
  exists o', member_loop players assignments o = Some o' /\ partition_ok o' /\
    dom (co_Assignments o') = dom (co_Assignments o) ∪ list_to_set (cp_PlayerID <$> players) /\
    (forall pid c, co_Assignments o' !! pid = Some c -> 0 <= c < Z.of_nat k) /\
    co_K o' = co_K o /\ co_Centroids o' = co_Centroids o.
Proof.
  revert assignments o. induction players as [| p players IH]; intros [| a as_] o Hp Hnd Hfresh [Hl HF] Hb;
    try done.
  { exists o. split_and!; try done. set_solver. }
  apply Forall_cons_1 in HF as [Ha HF]. rewrite fmap_cons in Hnd. apply list.NoDup_cons in Hnd as [Hn Hnd].
  assert (0 <= u32 (Z.of_nat a) < Z.of_nat k) as Hcid.
  { pose proof (u32_range (Z.of_nat a)). unfold u32 in *.
    pose proof (Z.mod_le (Z.of_nat a) (2 ^ 32)). lia. }
  simpl. set (o1 := MkClusterOutput _ _ _ _).
  assert (o1 = add_member (cp_PlayerID p) (u32 (Z.of_nat a)) o) as Ho1 by done.
  destruct (IH as_ o1) as (o' & -> & Hp' & Hdom & Hb' & HK & HC).
  - rewrite Ho1. apply partition_add_member; [done |]. apply Hfresh. left.
  - done.
  - intros pid Hin. unfold o1. simpl. rewrite lookup_insert_ne by (intros <-; done).
    apply Hfresh. by right.
  - split; [by injection Hl | done].
  - intros pid c. unfold o1. simpl. rewrite lookup_insert_Some. intros [[_ <-] | [_ Hc]]; [done | eauto].
  - exists o'. split_and!; try done. rewrite Hdom. unfold o1. simpl. set_solver.
Qed.

Lemma buildOutput_spec players assignments centroids k :
  NoDup (cp_PlayerID <$> players) -> good_assign (length players) k assignments ->
  length centroids = k ->
  exists o, buildOutput players assignments centroids k = Some o /\ partition_ok o /\
    dom (co_Assignments o) = list_to_set (cp_PlayerID <$> players) /\
    (forall pid c, co_Assignments o !! pid = Some c -> 0 <= c < Z.of_nat k) /\
    co_K o = Z.of_nat k.
Proof.
  intros Hnd Ha Hk. unfold buildOutput.
  destruct (centroid_table_spec centroids k) as (m & -> & _); [lia |]. simpl.
  destruct (member_loop_spec players assignments (MkClusterOutput ∅ ∅ m (Z.of_nat k)) k)
    as (o & -> & Hp & Hdom & Hb & HK & _); try done.
  - split; simpl.
    + intros pid c. rewrite !lookup_empty. split; [done |]. by intros (l & ? & _).
    + intros c l. by rewrite lookup_empty.
  - exists o. split_and!; try done. rewrite Hdom. simpl. rewrite dom_empty_L. set_solver.
Qed.

Lemma good_assign_replicate n k : (1 <= k)%nat -> good_assign n k (replicate n 0%nat).
Proof.
  intros Hk. split; [apply length_replicate |]. apply Forall_replicate. lia.
Qed.

Lemma Compute_spec (a : KMeansClusterAllocator) (input : ClusterInput)
    (config : ClusterConfig) :
  validateConfig config = None -> NoDup (cp_PlayerID <$> input) ->
  let clustered := take (Z.to_nat (cc_MaxPlayersPerRoom config)) (filter clusterable input) in
  exists out,
    Compute a input config = Some (MkAllocator (Some out), inr out) /\
    dom (co_Assignments out) = list_to_set (cp_PlayerID <$> clustered) /\
    partition_ok out /\
    (forall pid c, co_Assignments out !! pid = Some c -> 0 <= c < co_K out) /\
    (clustered = [] -> co_K out = 0) /\
    (clustered <> [] -> 1 <= co_K out <= Z.of_nat (length clustered) /\
       co_K out = computeK (Z.of_nat (length clustered)) (cc_TargetClusterSize config)).
Proof.
  intros Hv Hnd clustered. unfold Compute. rewrite Hv.
  apply validateConfig_ok in Hv as (Ht & Hi & Hm).
  pose proof (NoDup_valid_ids input config Hm Hnd) as Hnd'.
  rewrite filterValidPlayers_spec in * by done. fold clustered in Hnd' |- *.
  destruct (Z.eqb_spec (Z.of_nat (length clustered)) 0) as [H0 | H0].
  { assert (clustered = []) as -> by (apply length_zero_iff_nil; lia).
    exists emptyOutput. unfold emptyOutput. split_and!; try done.
    split; simpl; intros *; rewrite !lookup_empty; [split; [done |] | done].
    by intros (l & ? & _). }
  pose proof (computeK_range (Z.of_nat (length clustered)) (cc_TargetClusterSize config)) as HK.
  set (kz := computeK _ _) in *. set (k := Z.to_nat kz).
  assert (1 <= k <= length clustered)%nat as Hk by lia.
  rewrite initCentroids_total by lia. simpl.
  destruct (kmeans_loop_total (Z.to_nat (cc_MaxIterations config)) clustered k
    (cp_Position <$> take k (merge_sort player_le clustered))
    (replicate (length clustered) 0%nat)) as (cs & as_ & -> & Hc & Ha); [lia | | |].
  { rewrite length_fmap, length_take, merge_sort_Permutation. lia. }
  { apply good_assign_replicate. lia. }
  simpl.
  assert (exists as', match prevOutput a with
    | Some prev => if fgt (cc_MembershipHysteresis config) f32_zero
       then applyHysteresis clustered as_ cs prev (cc_MembershipHysteresis config) else Some as_
    | None => Some as_ end = Some as' /\ good_assign (length clustered) k as') as (as' & -> & Ha').
  { destruct (prevOutput a); [| eauto]. destruct (fgt _ _); [| eauto].
    rewrite <- Hc in Ha |- *. by apply applyHysteresis_total. }
  simpl. destruct (buildOutput_spec clustered as' cs k Hnd' Ha' Hc) as (o & -> & Hp & Hd & Hb & HKo).
  exists o. rewrite HKo. split_and!; try done.
  - intros ->. done.
  - lia.
Qed.

(** ** What the allocator promises to the room

    The room's theorems use these laws only, whatever implements the interface. *)

Class ClusterAllocatorLaws (A : Type) `{!ClusterAllocator A} : Prop := {
  alloc_total : forall (a : A) input cfg, NoDup (cp_PlayerID <$> input) ->
    is_Some (alloc_Compute a input cfg);
  alloc_valid : forall (a a' : A) input cfg err, validateConfig cfg = None ->
    NoDup (cp_PlayerID <$> input) -> alloc_Compute a input cfg <> Some (a', inl err);
  alloc_sound : forall (a a' : A) input cfg out, NoDup (cp_PlayerID <$> input) ->
    alloc_Compute a input cfg = Some (a', inr out) ->
    partition_ok out /\ dom (co_Assignments out) ⊆ list_to_set (cp_PlayerID <$> input) }.

Lemma clustered_subset input n :
  list_to_set (cp_PlayerID <$> take n (filter clusterable input)) ⊆@{gset PlayerID}
  list_to_set (cp_PlayerID <$> input).
Proof.
  intros pid. rewrite !elem_of_list_to_set, !list_elem_of_fmap. intros (p & -> & Hp).
  exists p. split; [done |]. apply elem_of_take in Hp as (i & Hi & _).
  apply list_elem_of_lookup_2, list_elem_of_filter in Hi. apply Hi.
Qed.

#[global] Instance KMeans_laws : ClusterAllocatorLaws KMeansClusterAllocator.
Proof.
  assert (forall a input cfg err, validateConfig cfg = Some err ->
    Compute a input cfg = Some (a, inl err)) as Herr.
  { intros a input cfg err H. unfold Compute. by rewrite H. }
  split; unfold alloc_Compute, KMeans_ClusterAllocator.
  - intros a input cfg Hnd. destruct (validateConfig cfg) eqn:Hv.
    + rewrite (Herr _ _ _ _ Hv). eauto.
    + destruct (Compute_spec a input cfg Hv Hnd) as (out & -> & _). eauto.
  - intros a a' input cfg err Hv Hnd. destruct (Compute_spec a input cfg Hv Hnd) as (out & -> & _).
    congruence.
  - intros a a' input cfg out Hnd HC. destruct (validateConfig cfg) eqn:Hv.
    + rewrite (Herr _ _ _ _ Hv) in HC. congruence.
    + destruct (Compute_spec a input cfg Hv Hnd) as (out' & HC' & Hdom & Hp & _).
      assert (out' = out) as -> by congruence. split; [done |]. rewrite Hdom. apply clustered_subset.
Qed.

(** ** Claims *)

(** C31: For every valid configuration, every previous state of the allocator
    and every input with distinct player IDs, [Compute] returns (no panic, at
    most [MaxIterations] rounds) a partition: the players with an ID and a
    finite position, up to [MaxPlayersPerRoom], and only they, are each in
    exactly one cluster, cluster ids are below [K], and [K] is [computeK]. *)
Theorem compute_partition (a : KMeansClusterAllocator) (input : ClusterInput)
    (config : ClusterConfig) :
  validateConfig config = None -> NoDup (cp_PlayerID <$> input) ->
  let clustered := take (Z.to_nat (cc_MaxPlayersPerRoom config)) (filter clusterable input) in
  exists out,
    Compute a input config = Some (MkAllocator (Some out), inr out) /\
    dom (co_Assignments out) = list_to_set (cp_PlayerID <$> clustered) /\
    partition_ok out /\
    (forall pid c, co_Assignments out !! pid = Some c -> 0 <= c < co_K out) /\
    (clustered = [] -> co_K out = 0) /\
    (clustered <> [] -> 1 <= co_K out <= Z.of_nat (length clustered) /\
       co_K out = computeK (Z.of_nat (length clustered)) (cc_TargetClusterSize config)).
Proof. apply Compute_spec. Qed.

(** The number of clusters is the exact rounded-up quotient of players by
    the target size, although the 64-bit sum it is computed from wraps around
    for very large target sizes. *)
Theorem compute_k_ceil (n targetSize : Z) :
  1 <= n <= 2 ^ 62 -> 1 <= targetSize < 2 ^ 63 ->
  computeK n targetSize = (n + targetSize - 1) / targetSize.
Proof.
  intros Hn Ht. unfold computeK.
  assert (1 <= (n + targetSize - 1) / targetSize <= n) as Hq.
  { split; [apply Z.div_le_lower_bound; lia |]. apply Z.div_le_upper_bound; nia. }
  destruct (Z_lt_ge_dec (n + targetSize - 1) (2 ^ 63)) as [Hs | Hs].
  - rewrite i64_small, Z.quot_div_nonneg by lia.
    destruct (Z.ltb_spec ((n + targetSize - 1) / targetSize) 1); [lia |].
    destruct (Z.ltb_spec n ((n + targetSize - 1) / targetSize)); lia.
  - assert ((n + targetSize - 1) / targetSize = 1) as ->.
    { symmetry. apply Z.div_unique_pos with (r := n - 1); lia. }
    assert (i64 (n + targetSize - 1) = n + targetSize - 1 - 2 ^ 64) as ->.
    { unfold i64. rewrite <- (Z.mod_unique_pos (n + targetSize - 1 + 2 ^ 63) (2 ^ 64) 1
        (n + targetSize - 1 + 2 ^ 63 - 2 ^ 64)); lia. }
    assert (Z.quot (n + targetSize - 1 - 2 ^ 64) targetSize <= 0) as Hz.
    { replace (n + targetSize - 1 - 2 ^ 64) with (- (2 ^ 64 - (n + targetSize - 1))) by lia.
      rewrite Z.quot_opp_l by lia. pose proof (Z.quot_pos (2 ^ 64 - (n + targetSize - 1)) targetSize). lia. }
    destruct (Z.ltb_spec (Z.quot (n + targetSize - 1 - 2 ^ 64) targetSize) 1); [| lia].
    destruct (Z.ltb_spec n 1); lia.
Qed.

Lemma compute_k_ceil_witness :
  computeK 17 8 = 3 /\ computeK 5 (2 ^ 63 - 1) = (5 + (2 ^ 63 - 1) - 1) / (2 ^ 63 - 1).
Proof. split; [reflexivity |]. apply compute_k_ceil; lia. Defined.

(** [nearestCentroidIndex] is an arg-min with ties broken by the lower
    index, for every [float32] input including NaN: no centroid is strictly
    closer than the chosen one, and no earlier one is as close. *)
Theorem nearest_is_argmin (pos : EntityPosition) (centroids : list EntityPosition) (best : nat) :
  nearestCentroidIndex pos centroids = Some best ->
  exists cb, centroids !! best = Some cb /\
    (forall j c, centroids !! j = Some c -> flt (squaredDist pos c) (squaredDist pos cb) = false) /\
    (forall j c, (j < best)%nat -> centroids !! j = Some c ->
       fle (squaredDist pos c) (squaredDist pos cb) = false).
Proof.
  intros Hb. destruct (nearest_spec pos centroids best Hb) as (d & [Hlt Hd Hmin Hfst]).
  destruct (centroids !! best) as [cb |] eqn:Hcb; [| done]. injection Hd as <-.
  exists cb. split_and!; [done | | done].
  intros j c Hj. apply (Hmin j c); [| done]. by eapply lookup_lt_Some.
Qed.

(** C32: The initial centroids do not depend on the order in which the players
    are listed, only on their IDs and positions. *)
Theorem init_centroids_order_independent (players players' : list ClusterPlayer) (k : nat) :
  players ≡ₚ players' -> NoDup (cp_PlayerID <$> players) ->
  initCentroids players k = initCentroids players' k.
Proof.
  intros Hp Hnd. unfold initCentroids. do 2 f_equal.
  rewrite (sorted_unique players' (merge_sort player_le players)); [done | | |].
  - by rewrite <- Hp.
  - by rewrite merge_sort_Permutation.
  - apply Sorted_merge_sort, _.
Qed.

(** ** Concrete rooms *)

Module ClusterExample.

Definition player (id : PlayerID) (x z : Z) : ClusterPlayer :=
  MkClusterPlayer id (Pos (f32_of_Z x) (f32_of_Z z)).

Definition config (target max : Z) : ClusterConfig :=
  MkClusterConfig true target (f32_of_Z 30) 10 (f32_of_Z 2) (f32_of_Z 5) 20 max.

Definition four : ClusterInput :=
  [player "c" 100 100; player "a" 0 0; player "b" 1 1; player "d" 101 99].

(** What a call reports about each player. *)
Definition report (r : option (KMeansClusterAllocator * (ClusterError + ClusterOutput)))
    (pid : PlayerID) : option ClusterID :=
  match r with Some (_, inr o) => co_Assignments o !! pid | _ => None end.

End ClusterExample.

Lemma compute_partition_witness :
  ClusterExample.report
    (Compute NewKMeansClusterAllocator ClusterExample.four (ClusterExample.config 2 200)) "d" = Some 1 /\
  exists out, Compute NewKMeansClusterAllocator ClusterExample.four (ClusterExample.config 2 200) =
    Some (MkAllocator (Some out), inr out) /\ partition_ok out.
Proof.
  split; [vm_compute; reflexivity |].
  destruct (compute_partition NewKMeansClusterAllocator ClusterExample.four
    (ClusterExample.config 2 200)) as (out & HC & _ & Hp & _).
  - reflexivity.
  - apply (bool_decide_unpack _). vm_compute. exact I.
  - exists out. split; [exact HC | exact Hp].
Defined.

Lemma nearest_is_argmin_witness :
  exists cb, [Pos (f32_of_Z 9) f32_zero; Pos (f32_of_Z 3) f32_zero; Pos (f32_of_Z (-3)) f32_zero] !! 1%nat
    = Some cb.
Proof.
  destruct (nearest_is_argmin (Pos f32_zero f32_zero)
    [Pos (f32_of_Z 9) f32_zero; Pos (f32_of_Z 3) f32_zero; Pos (f32_of_Z (-3)) f32_zero] 1)
    as (cb & Hcb & _); [vm_compute; reflexivity |].
  exists cb. exact Hcb.
Defined.

Lemma init_centroids_order_independent_witness :
  initCentroids ClusterExample.four 2 = initCentroids (reverse ClusterExample.four) 2.
Proof.
  apply init_centroids_order_independent.
  - symmetry. apply reverse_Permutation.
  - apply (bool_decide_unpack _). vm_compute. exact I.
Defined.

(** When a room holds more players than [MaxPlayersPerRoom], which of them
    are clustered at all depends on the order of the input slice, so two calls
    with the same set of players can leave different players unclustered. *)
Theorem compute_order_dependent_over_limit :
  let p := ClusterExample.player "p" 0 0 in
  let q := ClusterExample.player "q" 50 0 in
  let cfg := ClusterExample.config 8 1 in
  [p; q] ≡ₚ [q; p] /\ validateConfig cfg = None /\
  ClusterExample.report (Compute NewKMeansClusterAllocator [p; q] cfg) "p" = Some 0 /\
  ClusterExample.report (Compute NewKMeansClusterAllocator [p; q] cfg) "q" = None /\
  ClusterExample.report (Compute NewKMeansClusterAllocator [q; p] cfg) "p" = None /\
  ClusterExample.report (Compute NewKMeansClusterAllocator [q; p] cfg) "q" = Some 0.
Proof. cbv zeta. split_and!; try (vm_compute; reflexivity). apply Permutation_swap. Qed.
