(* ===== verification/Room.v ===== *)
(** * Room runtime

    Models [internal/game/room]: [types.go], [room.go] and [tick.go] (the
    lifecycle, the registry and the manager follow in [RoomManager]).

    A room is owned by one goroutine, its tick loop.  Every mutation happens
    in [handleCommand], [recomputeCluster], [releaseExpiredLocks] and
    [broadcast], each under [sessionMu], so each is one function on the room's
    state; [RoomSystem] interleaves them with the calls other goroutines make.
    Logging is left out.  [time.Now()] readings are arguments.  [None] is a
    run-time panic of the cluster allocator.

    The [objectMgr] and [lockMgr] fields of the source share one object store;
    here the store is the [lm_objects] field of [r_lockMgr]. *)

From Stdlib Require Import ZArith Lia.
From stdpp Require Import base strings gmap fin_maps list.
From S2P Require Import Prelude.
From S2P Require Import GoFloat.
From S2P Require Import Player.
From S2P Require Import Object.
From S2P Require Import Spatial.
From S2P Require Import Delta.
From S2P Require Import Cluster.

Local Open Scope string_scope.
Local Open Scope Z_scope.
Local Open Scope list_scope.
Local Open Scope go_scope.

Abbreviation LogicalRoomID := string.
Abbreviation RoomInstanceID := string.
Abbreviation SessionID := string.

(** ** Data *)

Record sessionAttachment := MkAttachment { att_playerID : PlayerID; att_userID : UserID }.

Inductive RoomStatus :=
  | RoomStatusCreated | RoomStatusRunning | RoomStatusDraining | RoomStatusClosed.

#[global] Instance RoomStatus_eq_dec : EqDecision RoomStatus.
Proof. solve_decision. Defined.

Definition RoomStatus_String (s : RoomStatus) : string :=
  match s with
  | RoomStatusCreated => "created"
  | RoomStatusRunning => "running"
  | RoomStatusDraining => "draining"
  | RoomStatusClosed => "closed"
  end.

Record RoomConfig := MkRoomConfig {
  rc_MaxPlayers : Z;
  rc_TickRateHz : Z;
  rc_BroadcastRateHz : Z;
  rc_CommandQueueSize : Z;
  rc_SpatialCellSizeM : float32;
  rc_InterestVisualRadiusM : float32;
  rc_ObjectLockLease : LockLease;
  rc_ClusterConfig : ClusterConfig }.

Definition DefaultRoomConfig : RoomConfig :=
  MkRoomConfig 200 20 10 256 (f32_of_Z 10) (f32_of_Z 30) DefaultLockLease DefaultClusterConfig.

Inductive RoomCommandKind :=
  | CmdJoin | CmdLeave | CmdDisconnect | CmdPlayerInput | CmdUpdatePlayerTransform
  | CmdObjectLockAcquire | CmdObjectLockRefresh | CmdObjectLockRelease | CmdObjectUpdate
  | CmdUnknown (k : Z).

(** [nil] and non-[nil] are distinguished in both optional fields. *)
Record ObjectCommandPayload := MkObjectCommandPayload {
  ocp_ObjectID : ObjectID;
  ocp_Transform : option ObjectTransform;
  ocp_CustomState : option (list Byte.byte) }.

(** The dynamic type of [Payload any], as the type assertions see it. *)
Inductive Payload :=
  | PayloadNone
  | PayloadInput (i : PlayerInput)
  | PayloadTransform (t : PlayerTransform)
  | PayloadObject (p : ObjectCommandPayload).

Record RoomCommand := MkRoomCommand {
  cmd_Kind : RoomCommandKind;
  cmd_SessionID : SessionID;
  cmd_PlayerID : PlayerID;
  cmd_UserID : UserID;
  cmd_Payload : Payload;
  cmd_Timestamp : Time }.

Record RoomSpec := MkRoomSpec {
  rs_LogicalRoomID : LogicalRoomID;
  rs_InstanceID : RoomInstanceID;
  rs_Config : RoomConfig }.

(** The allocator is an interface value: the room is generic in its
    implementation [A].  [broadcaster] records whether one was set; what it is
    sent is the second result of [broadcast]. *)
Record Room (A : Type) := MkRoom {
  r_instanceID : RoomInstanceID;
  r_logicalRoomID : LogicalRoomID;
  r_config : RoomConfig;
  r_commands : list RoomCommand;
  r_status : RoomStatus;
  r_playerCount : Z;
  r_currentTick : Z;
  r_activeSessions : gmap SessionID sessionAttachment;
  r_userSessionIndex : gmap UserID SessionID;
  r_players : gmap PlayerID PlayerState;
  r_spatial : GridSpatialHash;
  r_interestMgr : InterestConfig;
  r_snapshotCache : SnapshotCache;
  r_dirtyPlayers : gset PlayerID;
  r_lockMgr : LockManager;
  r_clusterAlloc : A;
  r_clusterOutput : ClusterOutput;
  r_lastClusterTick : Z;
  r_maxMovementSinceLastCluster : float32;
  r_clusterMembershipDirty : bool;
  r_broadcaster : bool }.

Arguments MkRoom {A}.
Arguments r_instanceID {A}.
Arguments r_logicalRoomID {A}.
Arguments r_config {A}.
Arguments r_commands {A}.
Arguments r_status {A}.
Arguments r_playerCount {A}.
Arguments r_currentTick {A}.
Arguments r_activeSessions {A}.
Arguments r_userSessionIndex {A}.
Arguments r_players {A}.
Arguments r_spatial {A}.
Arguments r_interestMgr {A}.
Arguments r_snapshotCache {A}.
Arguments r_dirtyPlayers {A}.
Arguments r_lockMgr {A}.
Arguments r_clusterAlloc {A}.
Arguments r_clusterOutput {A}.
Arguments r_lastClusterTick {A}.
Arguments r_maxMovementSinceLastCluster {A}.
Arguments r_clusterMembershipDirty {A}.
Arguments r_broadcaster {A}.

(** Field assignments [r.f = v]. *)
Section setters.
Context {A : Type} (r : Room A).

Definition set_commands (v : list RoomCommand) : Room A :=
  MkRoom (r_instanceID r) (r_logicalRoomID r) (r_config r) v (r_status r) (r_playerCount r)
    (r_currentTick r) (r_activeSessions r) (r_userSessionIndex r) (r_players r) (r_spatial r)
    (r_interestMgr r) (r_snapshotCache r) (r_dirtyPlayers r) (r_lockMgr r) (r_clusterAlloc r)
    (r_clusterOutput r) (r_lastClusterTick r) (r_maxMovementSinceLastCluster r)
    (r_clusterMembershipDirty r) (r_broadcaster r).

Definition set_status (v : RoomStatus) : Room A :=
  MkRoom (r_instanceID r) (r_logicalRoomID r) (r_config r) (r_commands r) v (r_playerCount r)
    (r_currentTick r) (r_activeSessions r) (r_userSessionIndex r) (r_players r) (r_spatial r)
    (r_interestMgr r) (r_snapshotCache r) (r_dirtyPlayers r) (r_lockMgr r) (r_clusterAlloc r)
    (r_clusterOutput r) (r_lastClusterTick r) (r_maxMovementSinceLastCluster r)
    (r_clusterMembershipDirty r) (r_broadcaster r).

Definition set_playerCount (v : Z) : Room A :=
  MkRoom (r_instanceID r) (r_logicalRoomID r) (r_config r) (r_commands r) (r_status r) v
    (r_currentTick r) (r_activeSessions r) (r_userSessionIndex r) (r_players r) (r_spatial r)
    (r_interestMgr r) (r_snapshotCache r) (r_dirtyPlayers r) (r_lockMgr r) (r_clusterAlloc r)
    (r_clusterOutput r) (r_lastClusterTick r) (r_maxMovementSinceLastCluster r)
    (r_clusterMembershipDirty r) (r_broadcaster r).

Definition set_currentTick (v : Z) : Room A :=
  MkRoom (r_instanceID r) (r_logicalRoomID r) (r_config r) (r_commands r) (r_status r)
    (r_playerCount r) v (r_activeSessions r) (r_userSessionIndex r) (r_players r) (r_spatial
    r) (r_interestMgr r) (r_snapshotCache r) (r_dirtyPlayers r) (r_lockMgr r) (r_clusterAlloc
    r) (r_clusterOutput r) (r_lastClusterTick r) (r_maxMovementSinceLastCluster r)
    (r_clusterMembershipDirty r) (r_broadcaster r).

Definition set_activeSessions (v : gmap SessionID sessionAttachment) : Room A :=
  MkRoom (r_instanceID r) (r_logicalRoomID r) (r_config r) (r_commands r) (r_status r)
    (r_playerCount r) (r_currentTick r) v (r_userSessionIndex r) (r_players r) (r_spatial r)
    (r_interestMgr r) (r_snapshotCache r) (r_dirtyPlayers r) (r_lockMgr r) (r_clusterAlloc r)
    (r_clusterOutput r) (r_lastClusterTick r) (r_maxMovementSinceLastCluster r)
    (r_clusterMembershipDirty r) (r_broadcaster r).

Definition set_userSessionIndex (v : gmap UserID SessionID) : Room A :=
  MkRoom (r_instanceID r) (r_logicalRoomID r) (r_config r) (r_commands r) (r_status r)
    (r_playerCount r) (r_currentTick r) (r_activeSessions r) v (r_players r) (r_spatial r)
    (r_interestMgr r) (r_snapshotCache r) (r_dirtyPlayers r) (r_lockMgr r) (r_clusterAlloc r)
    (r_clusterOutput r) (r_lastClusterTick r) (r_maxMovementSinceLastCluster r)
    (r_clusterMembershipDirty r) (r_broadcaster r).

Definition set_players (v : gmap PlayerID PlayerState) : Room A :=
  MkRoom (r_instanceID r) (r_logicalRoomID r) (r_config r) (r_commands r) (r_status r)
    (r_playerCount r) (r_currentTick r) (r_activeSessions r) (r_userSessionIndex r) v
    (r_spatial r) (r_interestMgr r) (r_snapshotCache r) (r_dirtyPlayers r) (r_lockMgr r)
    (r_clusterAlloc r) (r_clusterOutput r) (r_lastClusterTick r)
    (r_maxMovementSinceLastCluster r) (r_clusterMembershipDirty r) (r_broadcaster r).

Definition set_spatial (v : GridSpatialHash) : Room A :=
  MkRoom (r_instanceID r) (r_logicalRoomID r) (r_config r) (r_commands r) (r_status r)
    (r_playerCount r) (r_currentTick r) (r_activeSessions r) (r_userSessionIndex r) (r_players
    r) v (r_interestMgr r) (r_snapshotCache r) (r_dirtyPlayers r) (r_lockMgr r)
    (r_clusterAlloc r) (r_clusterOutput r) (r_lastClusterTick r)
    (r_maxMovementSinceLastCluster r) (r_clusterMembershipDirty r) (r_broadcaster r).

Definition set_snapshotCache (v : SnapshotCache) : Room A :=
  MkRoom (r_instanceID r) (r_logicalRoomID r) (r_config r) (r_commands r) (r_status r)
    (r_playerCount r) (r_currentTick r) (r_activeSessions r) (r_userSessionIndex r) (r_players
    r) (r_spatial r) (r_interestMgr r) v (r_dirtyPlayers r) (r_lockMgr r) (r_clusterAlloc r)
    (r_clusterOutput r) (r_lastClusterTick r) (r_maxMovementSinceLastCluster r)
    (r_clusterMembershipDirty r) (r_broadcaster r).

Definition set_dirtyPlayers (v : gset PlayerID) : Room A :=
  MkRoom (r_instanceID r) (r_logicalRoomID r) (r_config r) (r_commands r) (r_status r)
    (r_playerCount r) (r_currentTick r) (r_activeSessions r) (r_userSessionIndex r) (r_players
    r) (r_spatial r) (r_interestMgr r) (r_snapshotCache r) v (r_lockMgr r) (r_clusterAlloc r)
    (r_clusterOutput r) (r_lastClusterTick r) (r_maxMovementSinceLastCluster r)
    (r_clusterMembershipDirty r) (r_broadcaster r).

Definition set_lockMgr (v : LockManager) : Room A :=
  MkRoom (r_instanceID r) (r_logicalRoomID r) (r_config r) (r_commands r) (r_status r)
    (r_playerCount r) (r_currentTick r) (r_activeSessions r) (r_userSessionIndex r) (r_players
    r) (r_spatial r) (r_interestMgr r) (r_snapshotCache r) (r_dirtyPlayers r) v
    (r_clusterAlloc r) (r_clusterOutput r) (r_lastClusterTick r)
    (r_maxMovementSinceLastCluster r) (r_clusterMembershipDirty r) (r_broadcaster r).

Definition set_clusterAlloc (v : A) : Room A :=
  MkRoom (r_instanceID r) (r_logicalRoomID r) (r_config r) (r_commands r) (r_status r)
    (r_playerCount r) (r_currentTick r) (r_activeSessions r) (r_userSessionIndex r) (r_players
    r) (r_spatial r) (r_interestMgr r) (r_snapshotCache r) (r_dirtyPlayers r) (r_lockMgr r) v
    (r_clusterOutput r) (r_lastClusterTick r) (r_maxMovementSinceLastCluster r)
    (r_clusterMembershipDirty r) (r_broadcaster r).

Definition set_clusterOutput (v : ClusterOutput) : Room A :=
  MkRoom (r_instanceID r) (r_logicalRoomID r) (r_config r) (r_commands r) (r_status r)
    (r_playerCount r) (r_currentTick r) (r_activeSessions r) (r_userSessionIndex r) (r_players
    r) (r_spatial r) (r_interestMgr r) (r_snapshotCache r) (r_dirtyPlayers r) (r_lockMgr r)
    (r_clusterAlloc r) v (r_lastClusterTick r) (r_maxMovementSinceLastCluster r)
    (r_clusterMembershipDirty r) (r_broadcaster r).

Definition set_lastClusterTick (v : Z) : Room A :=
  MkRoom (r_instanceID r) (r_logicalRoomID r) (r_config r) (r_commands r) (r_status r)
    (r_playerCount r) (r_currentTick r) (r_activeSessions r) (r_userSessionIndex r) (r_players
    r) (r_spatial r) (r_interestMgr r) (r_snapshotCache r) (r_dirtyPlayers r) (r_lockMgr r)
    (r_clusterAlloc r) (r_clusterOutput r) v (r_maxMovementSinceLastCluster r)
    (r_clusterMembershipDirty r) (r_broadcaster r).

Definition set_maxMovementSinceLastCluster (v : float32) : Room A :=
  MkRoom (r_instanceID r) (r_logicalRoomID r) (r_config r) (r_commands r) (r_status r)
    (r_playerCount r) (r_currentTick r) (r_activeSessions r) (r_userSessionIndex r) (r_players
    r) (r_spatial r) (r_interestMgr r) (r_snapshotCache r) (r_dirtyPlayers r) (r_lockMgr r)
    (r_clusterAlloc r) (r_clusterOutput r) (r_lastClusterTick r) v (r_clusterMembershipDirty
    r) (r_broadcaster r).

Definition set_clusterMembershipDirty (v : bool) : Room A :=
  MkRoom (r_instanceID r) (r_logicalRoomID r) (r_config r) (r_commands r) (r_status r)
    (r_playerCount r) (r_currentTick r) (r_activeSessions r) (r_userSessionIndex r) (r_players
    r) (r_spatial r) (r_interestMgr r) (r_snapshotCache r) (r_dirtyPlayers r) (r_lockMgr r)
    (r_clusterAlloc r) (r_clusterOutput r) (r_lastClusterTick r)
    (r_maxMovementSinceLastCluster r) v (r_broadcaster r).

Definition set_broadcaster (v : bool) : Room A :=
  MkRoom (r_instanceID r) (r_logicalRoomID r) (r_config r) (r_commands r) (r_status r)
    (r_playerCount r) (r_currentTick r) (r_activeSessions r) (r_userSessionIndex r) (r_players
    r) (r_spatial r) (r_interestMgr r) (r_snapshotCache r) (r_dirtyPlayers r) (r_lockMgr r)
    (r_clusterAlloc r) (r_clusterOutput r) (r_lastClusterTick r)
    (r_maxMovementSinceLastCluster r) (r_clusterMembershipDirty r) v.

End setters.

(** ** Construction and accessors *)

(** The fallbacks of [newRoom] for values that are not positive. *)
Definition effective_config (cfg : RoomConfig) : RoomConfig :=
  let d := DefaultRoomConfig in
  MkRoomConfig (rc_MaxPlayers cfg)
    (if rc_TickRateHz cfg <=? 0 then rc_TickRateHz d else rc_TickRateHz cfg)
    (if rc_BroadcastRateHz cfg <=? 0 then rc_BroadcastRateHz d else rc_BroadcastRateHz cfg)
    (if rc_CommandQueueSize cfg <=? 0 then rc_CommandQueueSize d else rc_CommandQueueSize cfg)
    (if fle (rc_SpatialCellSizeM cfg) f32_zero then rc_SpatialCellSizeM d
     else rc_SpatialCellSizeM cfg)
    (if fle (rc_InterestVisualRadiusM cfg) f32_zero then rc_InterestVisualRadiusM d
     else rc_InterestVisualRadiusM cfg)
    (rc_ObjectLockLease cfg) (rc_ClusterConfig cfg).

(** [alloc] is the fresh allocator the constructor creates. *)
Definition newRoom_with {A} (alloc : A) (spec : RoomSpec) : Room A :=
  let cfg := effective_config (rs_Config spec) in
  let d := DefaultInterestConfig in
  let interestCfg := MkInterestConfig (rc_InterestVisualRadiusM cfg) (ic_ObjectRadiusM d)
    (ic_VoiceRadiusM d) (ic_FullAvatarRadiusM d) (ic_LowLodRadiusM d) in
  let lease := if lease_TTL (rc_ObjectLockLease cfg) <=? 0 then DefaultLockLease
               else rc_ObjectLockLease cfg in
  {| r_instanceID := rs_InstanceID spec;
     r_logicalRoomID := rs_LogicalRoomID spec;
     r_config := cfg;
     r_commands := [];
     r_status := RoomStatusCreated;
     r_playerCount := 0;
     r_currentTick := 0;
     r_activeSessions := ∅;
     r_userSessionIndex := ∅;
     r_players := ∅;
     r_spatial := NewGridSpatialHash (MkSpatialConfig (rc_SpatialCellSizeM cfg) f32_zero);
     r_interestMgr := interestCfg;
     r_snapshotCache := SnapshotCache.NewSnapshotCache;
     r_dirtyPlayers := ∅;
     r_lockMgr := LockManager.NewLockManager ObjectManager.NewObjectManager lease;
     r_clusterAlloc := alloc;
     r_clusterOutput := MkClusterOutput ∅ ∅ ∅ 0;
     r_lastClusterTick := 0;
     r_maxMovementSinceLastCluster := f32_zero;
     r_clusterMembershipDirty := false;
     r_broadcaster := false |}.

Definition newRoom (spec : RoomSpec) : Room KMeansClusterAllocator :=
  newRoom_with NewKMeansClusterAllocator spec.

(** [map[SessionID]*delta.DeltaBatch] *)
Abbreviation Batches := (gmap SessionID DeltaBatch).

Section room.
Context {A : Type} `{ALLOC : !ClusterAllocator A} `{GR : !GoRange}.
Implicit Types (r : Room A).

Definition InstanceID r : RoomInstanceID := r_instanceID r.
Definition LogicalRoomID_of r : LogicalRoomID := r_logicalRoomID r.
Definition Status r : RoomStatus := r_status r.
Definition PlayerCount r : Z := r_playerCount r.
Definition HasSession r (id : SessionID) : bool := bool_decide (is_Some (r_activeSessions r !! id)).
Definition HasUser r (id : UserID) : bool := bool_decide (is_Some (r_userSessionIndex r !! id)).
Definition ActiveSessions (site : list nat) r : list SessionID := (range site (r_activeSessions r)).*1.
Definition CurrentTick r : Z := r_currentTick r.
Definition GetPlayerState r (id : PlayerID) : option (PlayerTransform * Z) :=
  Player.Snapshot <$> r_players r !! id.
Definition SnapshotCacheLen r : nat := SnapshotCache.Len (r_snapshotCache r).
Definition DirtyPlayerCount r : nat := size (r_dirtyPlayers r).
Definition ObjectCount r : nat := ObjectManager.Count (lm_objects (r_lockMgr r)).
Definition UserLockCount r (userID : string) : Z := LockManager.UserLockCount (r_lockMgr r) userID.
Definition GetClusterOutput r : ClusterOutput := r_clusterOutput r.
Definition PlayerCluster r (pid : PlayerID) : option ClusterID :=
  co_Assignments (r_clusterOutput r) !! pid.

(** The queries of the index: [None] is a call that never returns. *)
Definition NearbyPlayers (site : list nat) r (pid : PlayerID) (radius : float32)
    : option (list PlayerID) :=
  match Spatial.Get (r_spatial r) pid with
  | None => Some []
  | Some pos =>
      ids ← QueryRadius site (r_spatial r) pos radius;
      Some (filter (fun id => id <> pid) ids)
  end.

Definition NearbyPlayersAt (site : list nat) r (pos : Vector3) (radius : float32)
    : option (list PlayerID) :=
  QueryRadius site (r_spatial r) (Pos (v_X pos) (v_Z pos)) radius.

Definition CreateObject r (id : ObjectID) (kind : ObjectKind) (transform : ObjectTransform)
    : Room A * option ObjectError :=
  let '(objs, res) := ObjectManager.Create (lm_objects (r_lockMgr r)) id kind transform in
  (set_lockMgr r (LockManager.set_objects (r_lockMgr r) objs),
   match res with inl e => Some e | inr _ => None end).

Definition SetBroadcaster r (b : bool) : Room A := set_broadcaster r b.

Inductive EnqueueError :=
  | ErrRoomNotRunning (id : RoomInstanceID) (s : RoomStatus)
  | ErrQueueFull (id : RoomInstanceID).

(** The buffered channel holds at most [CommandQueueSize] commands; the
    [select] with a [default] never blocks. *)
Definition Enqueue_send r (cmd : RoomCommand) : Room A * option EnqueueError :=
  if Z.of_nat (length (r_commands r)) <? rc_CommandQueueSize (r_config r) then
    (set_commands r (r_commands r ++ [cmd]), None)
  else (r, Some (ErrQueueFull (r_instanceID r))).

(** A whole call, when nothing happens between the test and the [select]:
    [statusMu] is released in between. *)
Definition Enqueue r (cmd : RoomCommand) : Room A * option EnqueueError :=
  if decide (r_status r = RoomStatusRunning) then Enqueue_send r cmd
  else (r, Some (ErrRoomNotRunning (r_instanceID r) (r_status r))).

(** ** Commands *)

Definition handleJoin r (cmd : RoomCommand) : Room A :=
  let uid := cmd_UserID cmd in
  let pid := cmd_PlayerID cmd in
  let sid := cmd_SessionID cmd in
  if negb (String.eqb uid "") && bool_decide (is_Some (r_userSessionIndex r !! uid)) then r
  else
    let r := set_activeSessions r (<[sid := MkAttachment pid uid]> (r_activeSessions r)) in
    let r := if negb (String.eqb uid "")
             then set_userSessionIndex r (<[uid := sid]> (r_userSessionIndex r)) else r in
    let r := set_playerCount r (i32 (r_playerCount r + 1)) in
    let r := set_clusterMembershipDirty r true in
    let p := SetStatus (NewPlayerState pid uid (cmd_Timestamp cmd)) PlayerStatusActive in
    let r := set_players r (<[pid := p]> (r_players r)) in
    let r := set_spatial r (Spatial.Update (r_spatial r) pid (Pos f32_zero f32_zero)).1 in
    set_snapshotCache r (SnapshotCache.GetOrCreate (r_snapshotCache r) sid).1.

(** The part [CmdLeave] and [CmdDisconnect] share, for the player [pid] each
    of them names; the [*PlayerState] marked on the way out is dropped. *)
Definition detach r (sid : SessionID) (att : sessionAttachment) (pid : PlayerID) : Room A :=
  let r := set_activeSessions r (delete sid (r_activeSessions r)) in
  let r := if negb (String.eqb (att_userID att) "")
           then set_userSessionIndex r (delete (att_userID att) (r_userSessionIndex r)) else r in
  let r := set_playerCount r (i32 (r_playerCount r - 1)) in
  let r := set_clusterMembershipDirty r true in
  let r := set_players r (delete pid (r_players r)) in
  let r := set_spatial r (Spatial.Remove (r_spatial r) pid) in
  let r := set_snapshotCache r (SnapshotCache.Remove (r_snapshotCache r) sid) in
  set_dirtyPlayers r (r_dirtyPlayers r ∖ {[pid]}).

Definition releaseSessionLocks (site : list nat) r (sid : SessionID) (now : Time) : Room A :=
  set_lockMgr r (LockManager.ReleaseBySession site (r_lockMgr r) sid now).1.

Definition handleLeave (site : list nat) r (cmd : RoomCommand) (now : Time) : Room A :=
  let sid := cmd_SessionID cmd in
  let r := match r_activeSessions r !! sid with
           | Some att => detach r sid att (cmd_PlayerID cmd)
           | None => r
           end in
  releaseSessionLocks site r sid now.

Definition handleDisconnect (site : list nat) r (cmd : RoomCommand) (now : Time) : Room A :=
  let sid := cmd_SessionID cmd in
  let r := match r_activeSessions r !! sid with
           | Some att => detach r sid att (att_playerID att)
           | None => r
           end in
  releaseSessionLocks site r sid now.

(** [float32(math.Sqrt(float64(dx*dx + dz*dz)))], the sum being [float32]. *)
Definition movement (from to : Vector3) : float32 :=
  let dx := f32_sub (v_X to) (v_X from) in
  let dz := f32_sub (v_Z to) (v_Z from) in
  f32_of_f64 (f64_sqrt (f64_of_f32 (f32_add (f32_mul dx dx) (f32_mul dz dz)))).

(** The body shared by the two transform commands. *)
Definition applyTransform r (pid : PlayerID) (transform : PlayerTransform) (tick : Z) (now : Time)
    : Room A :=
  match r_players r !! pid with
  | None => r
  | Some p =>
      let dist := movement (t_Position (fst (Player.Snapshot p))) (t_Position transform) in
      let r := if fgt dist (r_maxMovementSinceLastCluster r)
               then set_maxMovementSinceLastCluster r dist else r in
      let r := set_players r (<[pid := Player.UpdateTransform p transform tick now]> (r_players r)) in
      let r := set_spatial r (Spatial.Update (r_spatial r) pid
                 (Pos (v_X (t_Position transform)) (v_Z (t_Position transform)))).1 in
      set_dirtyPlayers r (r_dirtyPlayers r ∪ {[pid]})
  end.

Definition handlePlayerInput r (cmd : RoomCommand) (tick : Z) (now : Time) : Room A :=
  match cmd_Payload cmd with
  | PayloadInput input =>
      match ValidatePlayerInput input with
      | Some _ => r
      | None => applyTransform r (cmd_PlayerID cmd) (in_Transform input) tick now
      end
  | _ => r
  end.

Definition handleUpdatePlayerTransform r (cmd : RoomCommand) (tick : Z) (now : Time) : Room A :=
  match cmd_Payload cmd with
  | PayloadTransform t => applyTransform r (cmd_PlayerID cmd) t tick now
  | _ => r
  end.

Definition handleLockAcquire r (cmd : RoomCommand) : Room A :=
  match cmd_Payload cmd with
  | PayloadObject p =>
      set_lockMgr r (LockManager.AcquireLock (r_lockMgr r) (ocp_ObjectID p) (cmd_UserID cmd)
                       (cmd_SessionID cmd) (cmd_Timestamp cmd)).1
  | _ => r
  end.

Definition handleLockRefresh r (cmd : RoomCommand) : Room A :=
  match cmd_Payload cmd with
  | PayloadObject p =>
      set_lockMgr r (LockManager.RefreshLock (r_lockMgr r) (ocp_ObjectID p) (cmd_UserID cmd)
                       (cmd_Timestamp cmd)).1
  | _ => r
  end.

Definition handleLockRelease r (cmd : RoomCommand) : Room A :=
  match cmd_Payload cmd with
  | PayloadObject p =>
      set_lockMgr r (LockManager.ReleaseLock (r_lockMgr r) (ocp_ObjectID p) (cmd_UserID cmd)
                       (cmd_Timestamp cmd)).1
  | _ => r
  end.

Definition handleObjectUpdate r (cmd : RoomCommand) : Room A :=
  match cmd_Payload cmd with
  | PayloadObject p =>
      let m := lm_objects (r_lockMgr r) in
      let m := match ocp_Transform p with
               | Some t => (ObjectManager.UpdateTransform m (ocp_ObjectID p) t).1
               | None => m
               end in
      let m := match ocp_CustomState p with
               | Some st => (ObjectManager.UpdateCustomState m (ocp_ObjectID p) st).1
               | None => m
               end in
      set_lockMgr r (LockManager.set_objects (r_lockMgr r) m)
  | _ => r
  end.

Definition handleCommand (site : list nat) r (cmd : RoomCommand) (tick : Z) (now : Time) : Room A :=
  match cmd_Kind cmd with
  | CmdJoin => handleJoin r cmd
  | CmdLeave => handleLeave site r cmd now
  | CmdDisconnect => handleDisconnect site r cmd now
  | CmdPlayerInput => handlePlayerInput r cmd tick now
  | CmdUpdatePlayerTransform => handleUpdatePlayerTransform r cmd tick now
  | CmdObjectLockAcquire => handleLockAcquire r cmd
  | CmdObjectLockRefresh => handleLockRefresh r cmd
  | CmdObjectLockRelease => handleLockRelease r cmd
  | CmdObjectUpdate => handleObjectUpdate r cmd
  | CmdUnknown _ => r
  end.

(** The [n]-th iteration reads the clock as [clock n]; its loops are named by
    [n :: site]. *)
Fixpoint drain_loop (cmds : list RoomCommand) (n : nat) (site : list nat) r (tick : Z)
    (clock : nat -> Time) : Room A :=
  match cmds with
  | [] => r
  | cmd :: cmds' =>
      let r := set_commands r cmds' in
      drain_loop cmds' (S n) site (handleCommand (n :: site) r cmd tick (clock n)) tick clock
  end.

Definition drainCommands (site : list nat) r (tick : Z) (clock : nat -> Time) : Room A :=
  drain_loop (r_commands r) 0 site r tick clock.

(** ** Clusters *)

Definition shouldRecomputeCluster r (tick : Z) : bool :=
  let cfg := rc_ClusterConfig (r_config r) in
  if negb (cc_Enabled cfg) then false
  else
    let ticksSinceLast := u32 (tick - r_lastClusterTick r) in
    if u32 (cc_ReclusterIntervalTicks cfg) <=? ticksSinceLast then true
    else if fgt (r_maxMovementSinceLastCluster r) (cc_MovementThreshold cfg) then true
    else r_clusterMembershipDirty r.

Definition clusterInput (site : list nat) r : ClusterInput :=
  (fun '(pid, ps) =>
     let pos := t_Position (fst (Player.Snapshot ps)) in
     MkClusterPlayer pid (Pos (v_X pos) (v_Z pos))) <$> range site (r_players r).

Definition recomputeCluster (site : list nat) r (tick : Z) : option (Room A) :=
  '(alloc, res) ← alloc_Compute (r_clusterAlloc r) (clusterInput site r)
                    (rc_ClusterConfig (r_config r));
  let r := set_clusterAlloc r alloc in
  match res with
  | inl _ => Some r
  | inr output =>
      let r := set_clusterOutput r output in
      let r := set_lastClusterTick r tick in
      let r := set_maxMovementSinceLastCluster r f32_zero in
      Some (set_clusterMembershipDirty r false)
  end.

Definition releaseExpiredLocks (site : list nat) r (now : Time) : Room A :=
  set_lockMgr r (LockManager.ReleaseExpired site (r_lockMgr r) now).1.

(** ** Broadcast *)

(** The members of the viewer's cluster, without the viewer. *)
Definition cluster_visible r (pid : PlayerID) : list PlayerID :=
  match co_Assignments (r_clusterOutput r) !! pid with
  | None => []
  | Some viewerCluster =>
      filter (fun m => m <> pid) (default [] (co_Clusters (r_clusterOutput r) !! viewerCluster))
  end.

(** The players around the viewer's own position.  [None]: the query never
    returns. *)
Definition radius_visible (site : list nat) r (pid : PlayerID) (ps : PlayerState)
    : option (list PlayerID) :=
  let pos := t_Position (fst (Player.Snapshot ps)) in
  QueryVisiblePlayers site (r_interestMgr r) (r_spatial r) (Pos (v_X pos) (v_Z pos)) pid.

(** [visiblePlayers] of [buildDeltaBatches]. *)
Definition visible_to (site : list nat) r (pid : PlayerID) (ps : PlayerState)
    : option (list PlayerID) :=
  if cc_Enabled (rc_ClusterConfig (r_config r)) then Some (cluster_visible r pid)
  else radius_visible site r pid ps.

Definition VisiblePlayersFor (site : list nat) r (pid : PlayerID) : option (list PlayerID) :=
  if cc_Enabled (rc_ClusterConfig (r_config r)) then Some (cluster_visible r pid)
  else match r_players r !! pid with
       | None => Some []
       | Some ps => radius_visible site r pid ps
       end.

(** The [i]-th iteration of [for sessionID, att := range r.activeSessions]: the
    cache is the only part of the room the loop changes. *)
Definition build_one (site : list nat) r (tick : Z) (acc : SnapshotCache * Batches)
    (entry : nat * (SessionID * sessionAttachment)) : option (SnapshotCache * Batches) :=
  let '(cache, batches) := acc in
  let '(i, (sessionID, att)) := entry in
  let pid := att_playerID att in
  match r_players r !! pid with
  | None => Some (cache, batches)
  | Some ps =>
      visiblePlayers ← visible_to (0%nat :: i :: site) r pid ps;
      let '(cache, snapshot) := SnapshotCache.GetOrCreate cache sessionID in
      let '(snapshot, pd) :=
        BuildPlayerDelta (1%nat :: i :: site) tick visiblePlayers snapshot (r_players r) in
      Some (<[sessionID := snapshot]> cache,
            <[sessionID := MkDeltaBatch tick (Some pd) None]> batches)
  end.

Fixpoint build_all (site : list nat) r (tick : Z) (acc : SnapshotCache * Batches)
    (entries : list (nat * (SessionID * sessionAttachment))) : option (SnapshotCache * Batches) :=
  match entries with
  | [] => Some acc
  | entry :: entries => acc ← build_one site r tick acc entry; build_all site r tick acc entries
  end.

Definition buildDeltaBatches (site : list nat) r (tick : Z) : option (Room A * Batches) :=
  if decide (size (r_activeSessions r) = 0%nat) then Some (r, ∅)
  else
    '(cache, batches) ← build_all site r tick (r_snapshotCache r, ∅)
        (imap pair (range site (r_activeSessions r)));
    Some (set_snapshotCache r cache, batches).

Definition clearDirtyPlayers r : Room A := set_dirtyPlayers r ∅.

(** The second result is what the broadcaster is called with, if it is. *)
Definition broadcast (site : list nat) r (tick : Z) : option (Room A * option Batches) :=
  '(r, batches) ← buildDeltaBatches site r tick;
  let r := clearDirtyPlayers r in
  Some (r, if r_broadcaster r && negb (bool_decide (size batches = 0%nat)) then Some batches else None).

(** [TickRateHz / BroadcastRateHz] truncates; both are positive there. *)
Definition isBroadcastTick r (tick : Z) : bool :=
  let cfg := r_config r in
  if (rc_BroadcastRateHz cfg <=? 0) || (rc_TickRateHz cfg <=? 0) then false
  else if rc_TickRateHz cfg <=? rc_BroadcastRateHz cfg then true
  else
    let ratio := u32 (rc_TickRateHz cfg ÷ rc_BroadcastRateHz cfg) in
    if ratio =? 0 then true else tick mod ratio =? 0.

(** ** One tick *)

(** What follows the drain: the cluster recompute, then the broadcast.  [None]:
    the tick does not finish, because the recompute panics (it never does, by
    [RoomFacts.recomputeCluster_spec]) or a radius query has no end. *)
Definition finishTick (site : list nat) r (tick : Z) : option (Room A * option Batches) :=
  r ← (if shouldRecomputeCluster r tick then recomputeCluster (2%nat :: site) r tick else Some r);
  if isBroadcastTick r tick then broadcast (3%nat :: site) r tick else Some (r, None).

Definition tick (site : list nat) r (now : Time) (clock : nat -> Time)
    : option (Room A * option Batches) :=
  let t := u32 (r_currentTick r + 1) in
  let r := set_currentTick r t in
  let r := releaseExpiredLocks (0%nat :: site) r now in
  let r := drainCommands (1%nat :: site) r t clock in
  finishTick site r t.
End room.
