(* ===== verification/RoomFacts.v ===== *)
(** * The standing invariant of a room

    The consistency of a room's maps holds after every command, whatever its
    fields, after every tick and every call of another goroutine.  The
    theorems are proved against the allocator interface, for every order in
    which the runtime enumerates maps. *)

From Stdlib Require Import ZArith Lia.
From stdpp Require Import base strings gmap fin_maps list.
From S2P Require Import Prelude.
From S2P Require Import GoFloat.
From S2P Require Import Player.
From S2P Require Import Object.
From S2P Require Import ObjectFacts.
From S2P Require Import Spatial.
From S2P Require Import SpatialFacts.
From S2P Require Import Delta.
From S2P Require Import DeltaFacts.
From S2P Require Import Cluster.
From S2P Require Import ClusterFacts.
From S2P Require Import Room.

Local Open Scope string_scope.
Local Open Scope Z_scope.
Local Open Scope list_scope.

(** ** The invariant *)

(** Every attached session of a named user is the one the index names, so a
    user has at most one session. *)
Definition users_ok (act : gmap SessionID sessionAttachment) (idx : gmap UserID SessionID) : Prop :=
  forall sid att, act !! sid = Some att -> att_userID att <> "" -> idx !! att_userID att = Some sid.

(** The spatial index holds exactly the players of the room. *)
Definition spatial_ok (players : gmap PlayerID PlayerState) (h : GridSpatialHash) : Prop :=
  spatial_inv h /\ dom (g_entities h) = dom players /\
  g_maxWorldCoord h = sc_MaxWorldCoord DefaultSpatialConfig.

(** Until the next recompute is forced, the clusters mention players only. *)
Definition clusters_ok (players : gmap PlayerID PlayerState) (out : ClusterOutput) (dirty : bool)
    : Prop :=
  partition_ok out /\ (dirty = false -> dom (co_Assignments out) ⊆ dom players).

Record room_inv {A} (r : Room A) : Prop := {
  ri_users : users_ok (r_activeSessions r) (r_userSessionIndex r);
  ri_cache : dom (r_snapshotCache r) = dom (r_activeSessions r);
  ri_dirty : r_dirtyPlayers r ⊆ dom (r_players r);
  ri_ids : forall pid p, r_players r !! pid = Some p -> p_ID p = pid;
  ri_spatial : spatial_ok (r_players r) (r_spatial r);
  ri_clusters : clusters_ok (r_players r) (r_clusterOutput r) (r_clusterMembershipDirty r);
  ri_locks : lock_inv (r_lockMgr r);
  ri_queue : Z.of_nat (length (r_commands r)) <= rc_CommandQueueSize (r_config r) }.

(** ** Spatial index *)

Lemma origin_valid h :
  g_maxWorldCoord h = sc_MaxWorldCoord DefaultSpatialConfig ->
  validatePosition h (Pos f32_zero f32_zero) = None.
Proof. intros H. unfold validatePosition. rewrite H. reflexivity. Qed.

Lemma Remove_world h id : g_maxWorldCoord (Spatial.Remove h id) = g_maxWorldCoord h.
Proof. unfold Spatial.Remove. by case_match. Qed.

Lemma spatial_ok_join players h pid p :
  spatial_ok players h ->
  spatial_ok (<[pid := p]> players) (Spatial.Update h pid (Pos f32_zero f32_zero)).1.
Proof.
  intros (Hinv & Hdom & Hw). split_and!.
  - by apply spatial_inv_Update.
  - rewrite Update_entities, origin_valid by done. by rewrite !dom_insert_L, Hdom.
  - by destruct (Update_static h pid (Pos f32_zero f32_zero)) as [_ ->].
Qed.

Lemma spatial_ok_leave players h pid :
  spatial_ok players h -> spatial_ok (delete pid players) (Spatial.Remove h pid).
Proof.
  intros (Hinv & Hdom & Hw). split_and!.
  - by apply spatial_inv_Remove.
  - by rewrite Remove_entities, !dom_delete_L, Hdom.
  - by rewrite Remove_world.
Qed.

Lemma spatial_ok_move players h pid p p' pos :
  spatial_ok players h -> players !! pid = Some p ->
  spatial_ok (<[pid := p']> players) (Spatial.Update h pid pos).1.
Proof.
  intros (Hinv & Hdom & Hw) Hp.
  assert (pid ∈ dom players) as Hin by (apply elem_of_dom; eauto). split_and!.
  - by apply spatial_inv_Update.
  - rewrite Update_entities, dom_insert_L. destruct (validatePosition h pos).
    + rewrite Hdom. set_solver.
    + rewrite dom_insert_L, Hdom. done.
  - by destruct (Update_static h pid pos) as [_ ->].
Qed.

(** ** The three shapes of command *)

Section inv.
Context {A : Type} `{ALLOC : !ClusterAllocator A} `{LAWS : !ClusterAllocatorLaws A} `{GR : !GoRange}.
Implicit Types (r : Room A).

Lemma room_inv_set_lockMgr r lm : room_inv r -> lock_inv lm -> room_inv (set_lockMgr r lm).
Proof. intros [] ?. by split. Qed.

Lemma room_inv_set_commands r cmds :
  room_inv r -> Z.of_nat (length cmds) <= rc_CommandQueueSize (r_config r) ->
  room_inv (set_commands r cmds).
Proof. intros [] ?. by split. Qed.

Lemma dom_GetOrCreate (c : SnapshotCache) sid :
  dom (SnapshotCache.GetOrCreate c sid).1 = {[sid]} ∪ dom c.
Proof.
  unfold SnapshotCache.GetOrCreate. destruct (c !! sid) eqn:Hc; simpl.
  - assert (sid ∈ dom c) by (apply elem_of_dom; eauto). set_solver.
  - by rewrite dom_insert_L.
Qed.

Lemma users_ok_join act idx sid pid uid :
  users_ok act idx ->
  negb (String.eqb uid "") && bool_decide (is_Some (idx !! uid)) = false ->
  users_ok (<[sid := MkAttachment pid uid]> act)
    (if negb (String.eqb uid "") then <[uid := sid]> idx else idx).
Proof.
  intros Hok Hg sid' att. destruct (String.eqb_spec uid "") as [He | Hne]; simpl in *.
  - rewrite lookup_insert_Some. intros [[<- <-] | [_ Ha]]; [by simpl | by apply Hok].
  - go_bool. rewrite lookup_insert_Some. intros [[<- <-] | [Hs Ha]] Hu; simpl in *.
    + by rewrite lookup_insert_eq.
    + pose proof (Hok _ _ Ha Hu) as Hi. rewrite lookup_insert_ne; [done |].
      intros Heq. apply Hg. rewrite Heq. eauto.
Qed.

Lemma users_ok_detach act idx sid att :
  users_ok act idx -> act !! sid = Some att ->
  users_ok (delete sid act)
    (if negb (String.eqb (att_userID att) "") then delete (att_userID att) idx else idx).
Proof.
  intros Hok Ha sid' att'. rewrite lookup_delete_Some. intros [Hne Ha'] Hu.
  pose proof (Hok _ _ Ha' Hu) as Hi.
  destruct (String.eqb_spec (att_userID att) "") as [He | Hne']; simpl; [done |].
  rewrite lookup_delete_ne; [done |]. intros Heq. pose proof (Hok _ _ Ha Hne') as Hi'.
  rewrite Heq in Hi'. congruence.
Qed.

Lemma clusters_ok_dirty players players' out b :
  clusters_ok players out b -> clusters_ok players' out true.
Proof. intros [H _]. by split. Qed.

Lemma room_inv_handleJoin r cmd : room_inv r -> room_inv (handleJoin r cmd).
Proof.
  intros Hinv. unfold handleJoin. destruct (_ && _) eqn:Hg; [done |].
  pose proof (users_ok_join _ _ (cmd_SessionID cmd) (cmd_PlayerID cmd) _ (ri_users _ Hinv) Hg) as Hu.
  destruct Hinv as [_ Hc Hd Hids Hs Hcl Hl Hq].
  destruct (negb (String.eqb (cmd_UserID cmd) "")); split; simpl; try done;
    try (by rewrite dom_GetOrCreate, dom_insert_L, Hc);
    try (by apply spatial_ok_join);
    try (by eapply clusters_ok_dirty);
    try (rewrite dom_insert_L; set_solver);
    intros pid p; rewrite lookup_insert_Some; intros [[<- <-] | [_ Hp]]; simpl; eauto.
Qed.

Lemma room_inv_detach r sid att pid :
  room_inv r -> r_activeSessions r !! sid = Some att -> room_inv (detach r sid att pid).
Proof.
  intros Hinv Ha. pose proof (users_ok_detach _ _ _ _ (ri_users _ Hinv) Ha) as Hu.
  destruct Hinv as [_ Hc Hd Hids Hs Hcl Hl Hq]. unfold detach.
  destruct (negb (String.eqb (att_userID att) "")); split; simpl; try done;
    try (by unfold SnapshotCache.Remove; rewrite !dom_delete_L, Hc);
    try (by apply spatial_ok_leave);
    try (by eapply clusters_ok_dirty);
    try (rewrite dom_delete_L; set_solver);
    intros pid' p; rewrite lookup_delete_Some; intros [_ Hp]; eauto.
Qed.

Lemma clusters_ok_dom players players' out b :
  dom players' = dom players -> clusters_ok players out b -> clusters_ok players' out b.
Proof. intros Hd [H1 H2]. split; [done |]. by rewrite Hd. Qed.

Lemma room_inv_applyTransform r pid t tick now :
  room_inv r -> room_inv (applyTransform r pid t tick now).
Proof.
  intros Hinv. unfold applyTransform. destruct (r_players r !! pid) as [p |] eqn:Hp; [| done].
  assert (pid ∈ dom (r_players r)) as Hin by (apply elem_of_dom; eauto).
  destruct Hinv as [Hu Hc Hd Hids Hs Hcl Hl Hq].
  destruct (fgt _ _); split; simpl; try done;
    try (by eapply spatial_ok_move);
    try (eapply clusters_ok_dom; [| done]; rewrite dom_insert_L; set_solver);
    try (rewrite dom_insert_L; set_solver);
    intros pid' p'; rewrite lookup_insert_Some; intros [[<- <-] | [_ Hp']]; simpl; eauto.
Qed.

(** Every command acts on the lock manager as a sequence of its operations. *)
Inductive lock_steps : LockManager -> LockManager -> Prop :=
  | lock_steps_nil lm : lock_steps lm lm
  | lock_steps_cons lm site op lm' : lock_steps (lock_step site op lm) lm' -> lock_steps lm lm'.

Lemma lock_steps_one lm site op : lock_steps lm (lock_step site op lm).
Proof. apply (lock_steps_cons _ site op), lock_steps_nil. Qed.

Lemma lock_steps_inv lm lm' : lock_steps lm lm' -> lock_inv lm -> lock_inv lm'.
Proof. induction 1; auto using lock_step_inv. Qed.

Lemma room_inv_lock_step r site op :
  room_inv r -> room_inv (set_lockMgr r (lock_step site op (r_lockMgr r))).
Proof. intros Hinv. apply room_inv_set_lockMgr; [done |]. by apply lock_step_inv, ri_locks. Qed.

Lemma handleObjectUpdate_steps r cmd :
  exists lm, handleObjectUpdate r cmd = set_lockMgr r lm /\ lock_steps (r_lockMgr r) lm
  \/ handleObjectUpdate r cmd = r.
Proof.
  unfold handleObjectUpdate. destruct (cmd_Payload cmd) as [| | | p]; try (by exists (r_lockMgr r); right).
  eexists. left. split; [done |].
  destruct (ocp_Transform p) as [t |], (ocp_CustomState p) as [st |].
  - apply (lock_steps_cons _ [] (OpTransform (ocp_ObjectID p) t)).
    exact (lock_steps_one (lock_step [] (OpTransform (ocp_ObjectID p) t) (r_lockMgr r)) []
      (OpCustomState (ocp_ObjectID p) st)).
  - apply (lock_steps_one _ [] (OpTransform (ocp_ObjectID p) t)).
  - apply (lock_steps_one _ [] (OpCustomState (ocp_ObjectID p) st)).
  - rewrite set_objects_id. constructor.
Qed.

Lemma room_inv_handleCommand site r cmd tick now :
  room_inv r -> room_inv (handleCommand site r cmd tick now).
Proof.
  intros Hinv. unfold handleCommand. destruct (cmd_Kind cmd).
  - by apply room_inv_handleJoin.
  - unfold handleLeave. apply (room_inv_lock_step _ site (OpSession _ now)).
    destruct (_ !! _) eqn:Ha; [by apply room_inv_detach | done].
  - unfold handleDisconnect. apply (room_inv_lock_step _ site (OpSession _ now)).
    destruct (_ !! _) eqn:Ha; [by apply room_inv_detach | done].
  - unfold handlePlayerInput. repeat case_match; try done; by apply room_inv_applyTransform.
  - unfold handleUpdatePlayerTransform. case_match; try done; by apply room_inv_applyTransform.
  - unfold handleLockAcquire. case_match; try done. by apply (room_inv_lock_step _ [] (OpAcquire _ _ _ _)).
  - unfold handleLockRefresh. case_match; try done. by apply (room_inv_lock_step _ [] (OpRefresh _ _ _)).
  - unfold handleLockRelease. case_match; try done. by apply (room_inv_lock_step _ [] (OpRelease _ _ _)).
  - destruct (handleObjectUpdate_steps r cmd) as (lm & [[-> Hl] | ->]); [| done].
    apply room_inv_set_lockMgr; [done |]. eapply lock_steps_inv; [done |]. by apply ri_locks.
  - done.
Qed.

(** ** Draining *)

(** What a command leaves alone. *)
Lemma handleCommand_frame site r cmd tick now :
  let r' := handleCommand site r cmd tick now in
  r_commands r' = r_commands r /\ r_config r' = r_config r /\ r_status r' = r_status r /\
  r_currentTick r' = r_currentTick r /\ r_broadcaster r' = r_broadcaster r /\
  r_instanceID r' = r_instanceID r /\ r_interestMgr r' = r_interestMgr r /\
  r_lastClusterTick r' = r_lastClusterTick r.
Proof.
  unfold handleCommand, handleJoin, handleLeave, handleDisconnect, handlePlayerInput,
    handleUpdatePlayerTransform, applyTransform, detach, handleLockAcquire, handleLockRefresh,
    handleLockRelease, handleObjectUpdate, releaseSessionLocks.
  destruct (cmd_Kind cmd); simpl; repeat (case_match; simpl); done.
Qed.

Lemma room_inv_drain_loop cmds n site r tick clock :
  room_inv r -> Z.of_nat (length cmds) <= rc_CommandQueueSize (r_config r) ->
  room_inv (drain_loop cmds n site r tick clock).
Proof.
  revert n r. induction cmds as [| cmd cmds IH]; intros n r Hinv Hl; [done |].
  cbn [drain_loop]. simpl in Hl. apply IH.
  - apply room_inv_handleCommand, room_inv_set_commands; [done | lia].
  - destruct (handleCommand_frame (n :: site) (set_commands r cmds) cmd tick (clock n)) as (_ & -> & _).
    simpl. lia.
Qed.

Lemma room_inv_drainCommands site r tick clock :
  room_inv r -> room_inv (drainCommands site r tick clock).
Proof. intros Hinv. apply room_inv_drain_loop; [done | by apply ri_queue]. Qed.

Lemma drain_loop_empties cmds n site r tick clock :
  r_commands r = cmds -> r_commands (drain_loop cmds n site r tick clock) = [].
Proof.
  revert n r. induction cmds as [| cmd cmds IH]; intros n r Hc; [done |].
  cbn [drain_loop]. apply IH.
  by destruct (handleCommand_frame (n :: site) (set_commands r cmds) cmd tick (clock n)) as (-> & _).
Qed.

(** ** Cluster recompute *)

Lemma NoDup_clusterInput site r : NoDup (cp_PlayerID <$> clusterInput site r).
Proof.
  unfold clusterInput. rewrite <- list_fmap_compose.
  rewrite (list_fmap_ext _ fst); [apply NoDup_fst_range |]. by intros i [pid ps] _.
Qed.

Lemma clusterInput_ids site r :
  list_to_set (cp_PlayerID <$> clusterInput site r) = dom (r_players r).
Proof.
  unfold clusterInput. rewrite <- list_fmap_compose.
  rewrite (list_fmap_ext _ fst) by by intros i [pid ps] _.
  apply set_eq. intros pid. by rewrite elem_of_list_to_set, elem_of_range_fst, elem_of_dom.
Qed.

(** A recompute never panics; it either leaves everything but the allocator
    alone, or installs clusters of current players and resets the triggers. *)
Lemma recomputeCluster_spec site r tick :
  exists r', recomputeCluster site r tick = Some r' /\
    (exists alloc, r' = set_clusterAlloc r alloc /\
       validateConfig (rc_ClusterConfig (r_config r)) <> None
     \/ exists alloc out, r' = set_clusterMembershipDirty (set_maxMovementSinceLastCluster
         (set_lastClusterTick (set_clusterOutput (set_clusterAlloc r alloc) out) tick) f32_zero) false
       /\ partition_ok out /\ dom (co_Assignments out) ⊆ dom (r_players r)).
Proof.
  unfold recomputeCluster. pose proof (NoDup_clusterInput site r) as Hnd.
  destruct (alloc_total (r_clusterAlloc r) _ (rc_ClusterConfig (r_config r)) Hnd)
    as [[alloc [err | out]] HC]; rewrite HC; simpl; eexists; (split; [done |]); exists alloc.
  - left. split; [done |]. intros Hv. by apply (alloc_valid _ _ _ _ _ Hv Hnd) in HC.
  - right. exists alloc, out. destruct (alloc_sound _ _ _ _ _ Hnd HC) as [Hp Hd].
    split_and!; [done | done |]. by rewrite clusterInput_ids in Hd.
Qed.

Lemma room_inv_recomputeCluster site r tick r' :
  room_inv r -> recomputeCluster site r tick = Some r' -> room_inv r'.
Proof.
  intros [Hu Hc Hd Hids Hs Hcl Hl Hq] Hr.
  destruct (recomputeCluster_spec site r tick) as (r2 & Hr2 & alloc & [[-> _] | (a2 & out & -> & Hp & Hdom)]);
    rewrite Hr in Hr2; injection Hr2 as ->; split; simpl; try done.
Qed.

(** ** Building the batches *)

(** What a session that sees the players [vis] is sent, given its snapshot. *)
Definition session_delta (site : list nat) r (tick : Z) (i : nat) (vis : list PlayerID)
    (snap : ClientSnapshot) : ClientSnapshot * PlayerDelta :=
  BuildPlayerDelta (1%nat :: i :: site) tick vis snap (r_players r).

Lemma build_one_Some site r tick cache batches i sid att res :
  build_one site r tick (cache, batches) (i, (sid, att)) = Some res ->
  match r_players r !! att_playerID att with
  | None => res = (cache, batches)
  | Some ps =>
      exists vis, visible_to (0%nat :: i :: site) r (att_playerID att) ps = Some vis /\
        let d := session_delta site r tick i vis (default NewClientSnapshot (cache !! sid)) in
        res = (<[sid := d.1]> cache, <[sid := MkDeltaBatch tick (Some d.2) None]> batches)
  end.
Proof.
  unfold build_one, session_delta, SnapshotCache.GetOrCreate.
  destruct (r_players r !! att_playerID att) as [ps |]; [| by intros [= <-]].
  intros (vis & Hvis & Hres)%bind_Some. exists vis. split; [done |]. revert Hres.
  set (build := BuildPlayerDelta (1%nat :: i :: site) tick vis).
  destruct (cache !! sid) as [snap |] eqn:Hc; cbn [default from_option]; unfold id.
  - destruct (build snap (r_players r)). by intros [= <-].
  - destruct (build NewClientSnapshot (r_players r)). intros [= <-]. by rewrite insert_insert_eq.
Qed.

(** The loop treats each listed session once, from the cache it started with. *)
Lemma build_all_spec site r tick (l : list (nat * (SessionID * sessionAttachment))) cache batches res sid :
  NoDup (snd <$> l).*1 ->
  build_all site r tick (cache, batches) l = Some res ->
  (forall i att ps, (i, (sid, att)) ∈ l -> r_players r !! att_playerID att = Some ps ->
     exists vis, visible_to (0%nat :: i :: site) r (att_playerID att) ps = Some vis /\
       let d := session_delta site r tick i vis (default NewClientSnapshot (cache !! sid)) in
       res.1 !! sid = Some d.1 /\ res.2 !! sid = Some (MkDeltaBatch tick (Some d.2) None)) /\
  ((forall i att, (i, (sid, att)) ∈ l -> r_players r !! att_playerID att = None) ->
     res.1 !! sid = cache !! sid /\ res.2 !! sid = batches !! sid).
Proof.
  revert cache batches. induction l as [| [i [sid0 att0]] l IH]; intros cache batches Hnd Hres.
  { injection Hres as <-. split; [| done]. intros i att ps Hin. by apply not_elem_of_nil in Hin. }
  rewrite !fmap_cons in Hnd. apply NoDup_cons in Hnd as [Hnin Hnd].
  cbn [build_all] in Hres. apply bind_Some in Hres as ([cache1 batches1] & Hone & Hres).
  specialize (IH cache1 batches1 Hnd Hres) as [IH1 IH2]. apply build_one_Some in Hone.
  assert (forall i att, (i, (sid0, att)) ∉ l) as Hfresh.
  { intros j att Hin. apply Hnin. apply list_elem_of_fmap. exists (sid0, att). split; [done |].
    apply list_elem_of_fmap. by exists (j, (sid0, att)). }
  destruct (decide (sid = sid0)) as [-> | Hne].
  - destruct IH2 as [H1 H2]; [intros j' att' Hin; by destruct (Hfresh j' att') |]. rewrite H1, H2. split.
    + intros j att ps [[= -> ->] | Hin]%elem_of_cons Hps; [| by destruct (Hfresh j att)].
      rewrite Hps in Hone. destruct Hone as (vis & Hvis & [= -> ->]). exists vis.
      by rewrite !lookup_insert_eq.
    + intros Hnone. rewrite (Hnone i att0) in Hone by left. by injection Hone as -> ->.
  - assert (forall j att, (j, (sid, att)) ∈ (i, (sid0, att0)) :: l <-> (j, (sid, att)) ∈ l) as Hl.
    { intros j att. rewrite elem_of_cons. split; [intros [[=] |]; done | auto]. }
    assert (cache1 !! sid = cache !! sid /\ batches1 !! sid = batches !! sid) as [Hc Hb].
    { destruct (r_players r !! att_playerID att0); [destruct Hone as (vis & _ & [= -> ->]) |
        by injection Hone as -> ->]. by rewrite !lookup_insert_ne by done. }
    rewrite Hc in IH1, IH2. rewrite Hb in IH2. split.
    + intros j att ps. rewrite Hl. apply IH1.
    + intros Hnone. apply IH2. intros j att. rewrite <- Hl. apply Hnone.
Qed.

Lemma imap_pair_snd {B} (l : list B) : snd <$> imap pair l = l.
Proof.
  rewrite fmap_imap. apply list_eq. intros i. rewrite list_lookup_imap.
  by destruct (l !! i).
Qed.

Lemma elem_of_sessions site r i sid att :
  (i, (sid, att)) ∈ imap pair (range site (r_activeSessions r)) -> r_activeSessions r !! sid = Some att.
Proof.
  intros Hin. apply (elem_of_range site). rewrite <- (imap_pair_snd (range site _)).
  apply list_elem_of_fmap. by exists (i, (sid, att)).
Qed.

Lemma sessions_elem_of site r sid att :
  r_activeSessions r !! sid = Some att ->
  exists i, (i, (sid, att)) ∈ imap pair (range site (r_activeSessions r)).
Proof.
  intros Ha. apply (elem_of_range site) in Ha. rewrite <- (imap_pair_snd (range site _)) in Ha.
  apply list_elem_of_fmap in Ha as ([i [sid' att']] & [= <- <-] & Hin). by exists i.
Qed.

(** What a broadcast does for one session. *)
Lemma buildDeltaBatches_session site r tick res sid :
  buildDeltaBatches site r tick = Some res ->
  (forall att ps, r_activeSessions r !! sid = Some att -> r_players r !! att_playerID att = Some ps ->
     exists i vis, visible_to (0%nat :: i :: site) r (att_playerID att) ps = Some vis /\
       let d := session_delta site r tick i vis (default NewClientSnapshot (r_snapshotCache r !! sid)) in
       r_snapshotCache res.1 !! sid = Some d.1 /\
       res.2 !! sid = Some (MkDeltaBatch tick (Some d.2) None)) /\
  ((forall att, r_activeSessions r !! sid = Some att -> r_players r !! att_playerID att = None) ->
     r_snapshotCache res.1 !! sid = r_snapshotCache r !! sid /\ res.2 !! sid = None).
Proof.
  unfold buildDeltaBatches. case_decide as Hsz.
  { intros [= <-]. apply map_size_empty_inv in Hsz. split; [| done].
    intros att ps. by rewrite Hsz, lookup_empty. }
  assert (NoDup (snd <$> imap pair (range site (r_activeSessions r))).*1) as Hnd
    by (rewrite imap_pair_snd; apply NoDup_fst_range).
  intros ([cache batches] & Hall & [= <-])%bind_Some.
  destruct (build_all_spec site r tick _ (r_snapshotCache r) ∅ _ sid Hnd Hall) as [H1 H2].
  simpl in *. split.
  - intros att ps Ha Hps. destruct (sessions_elem_of site r sid att Ha) as [i Hi].
    exists i. by apply H1.
  - intros Hnone. destruct H2 as [H2a H2b]; [| by rewrite H2b, lookup_empty].
    intros i att Hin. eapply Hnone, elem_of_sessions, Hin.
Qed.

Lemma buildDeltaBatches_frame site r tick res :
  buildDeltaBatches site r tick = Some res -> exists cache, res.1 = set_snapshotCache r cache.
Proof.
  unfold buildDeltaBatches. case_decide.
  - intros [= <-]. exists (r_snapshotCache r). by destruct r.
  - intros ([cache b] & _ & [= <-])%bind_Some. by exists cache.
Qed.

Lemma dom_broadcast_cache site r tick res :
  buildDeltaBatches site r tick = Some res ->
  dom (r_snapshotCache r) = dom (r_activeSessions r) ->
  dom (r_snapshotCache res.1) = dom (r_activeSessions r).
Proof.
  intros Hb Hc. apply set_eq. intros sid. rewrite elem_of_dom.
  destruct (buildDeltaBatches_session site r tick res sid Hb) as [H1 H2].
  destruct (r_activeSessions r !! sid) as [att |] eqn:Ha.
  - destruct (r_players r !! att_playerID att) as [ps |] eqn:Hps.
    + destruct (H1 att ps eq_refl Hps) as (i & vis & _ & -> & _). rewrite elem_of_dom, Ha. split; eauto.
    + destruct H2 as [-> _]; [intros ? [= <-]; done |]. by rewrite <- elem_of_dom, Hc.
  - destruct H2 as [-> _]; [done |]. by rewrite <- elem_of_dom, Hc.
Qed.

(** A broadcast builds the batches, clears the dirty marks and hands over the
    batches, if there are any and somebody to hand them to. *)
Lemma broadcast_Some site r tick r' out :
  broadcast site r tick = Some (r', out) ->
  exists res, buildDeltaBatches site r tick = Some res /\ r' = clearDirtyPlayers res.1 /\
    out = if r_broadcaster res.1 && negb (bool_decide (size res.2 = 0%nat)) then Some res.2 else None.
Proof. unfold broadcast. intros ([r1 b] & Hb & [= <- <-])%bind_Some. by exists (r1, b). Qed.

Lemma room_inv_broadcast site r tick r' out :
  room_inv r -> broadcast site r tick = Some (r', out) -> room_inv r'.
Proof.
  intros Hinv (res & Hb & -> & _)%broadcast_Some.
  pose proof (dom_broadcast_cache site r tick res Hb (ri_cache _ Hinv)) as Hdom.
  destruct (buildDeltaBatches_frame site r tick res Hb) as [cache Hf]. rewrite Hf in *.
  destruct Hinv as [Hu Hc Hd Hids Hs Hcl Hl Hq]. by split.
Qed.

(** *** Broadcasts end *)

(** The room takes visibility from the clusters, or its visual radius spans less
    than [2 ^ 38] cells, so that every radius query ends. *)
Definition queries_end r : Prop :=
  cc_Enabled (rc_ClusterConfig (r_config r)) = true \/
  0 <= cell_radius (r_spatial r) (ic_VisualRadiusM (r_interestMgr r)) < 2 ^ 38.

Lemma visible_to_total site r pid ps : queries_end r -> is_Some (visible_to site r pid ps).
Proof.
  unfold queries_end, visible_to, radius_visible, QueryVisiblePlayers. intros Hq.
  destruct (cc_Enabled (rc_ClusterConfig (r_config r))); [done |].
  destruct Hq as [| Hq]; [done |].
  edestruct (QueryRadius_total site (r_spatial r)) as [ids ->]; [exact Hq | done].
Qed.

Lemma build_all_total site r tick acc l : queries_end r -> is_Some (build_all site r tick acc l).
Proof.
  intros Hq. revert acc. induction l as [| [i [sid att]] l IH]; intros [cache batches]; [done |].
  cbn [build_all]. unfold build_one.
  destruct (r_players r !! att_playerID att) as [ps |]; cbn [mbind option_bind]; [| apply IH].
  destruct (visible_to_total (0%nat :: i :: site) r (att_playerID att) ps Hq) as [vis ->].
  cbn [mbind option_bind]. destruct (SnapshotCache.GetOrCreate cache sid) as [cache1 snap].
  destruct (BuildPlayerDelta _ _ _ _ _) as [snap' pd]. apply IH.
Qed.

Lemma broadcast_total site r tick : queries_end r -> is_Some (broadcast site r tick).
Proof.
  intros Hq. unfold broadcast, buildDeltaBatches. case_decide; [done |].
  edestruct build_all_total as [[cache batches] ->]; [exact Hq | done].
Qed.

(** ** A whole tick *)

Lemma recompute_if_inv site r tick r' :
  room_inv r -> (if shouldRecomputeCluster r tick then recomputeCluster site r tick else Some r) = Some r' ->
  room_inv r'.
Proof.
  intros Hinv Hr. destruct (shouldRecomputeCluster r tick); [by eapply room_inv_recomputeCluster |].
  by injection Hr as <-.
Qed.

Lemma room_inv_finishTick site r tick r' out :
  room_inv r -> finishTick site r tick = Some (r', out) -> room_inv r'.
Proof.
  intros Hinv (r1 & Hr1%recompute_if_inv & Hb)%bind_Some; [| done].
  destruct (isBroadcastTick r1 tick); [by eapply room_inv_broadcast | by injection Hb as <- _].
Qed.

Lemma recompute_queries_end site r tick r' :
  recomputeCluster site r tick = Some r' -> queries_end r -> queries_end r'.
Proof.
  intros Hr. destruct (recomputeCluster_spec site r tick) as (r2 & Hr2 & alloc & [[-> _] | (a2 & out & -> & _)]);
    rewrite Hr in Hr2; by injection Hr2 as ->.
Qed.

Lemma finishTick_total site r tick : queries_end r -> is_Some (finishTick site r tick).
Proof.
  intros Hq. unfold finishTick.
  assert (exists r1, (if shouldRecomputeCluster r tick then recomputeCluster (2%nat :: site) r tick
    else Some r) = Some r1 /\ queries_end r1) as (r1 & -> & Hq1).
  { destruct (shouldRecomputeCluster r tick); [| eauto].
    destruct (recomputeCluster_spec (2%nat :: site) r tick) as (r1 & Hr1 & _).
    exists r1. split; [done |]. by eapply recompute_queries_end. }
  simpl. destruct (isBroadcastTick r1 tick); [by apply broadcast_total | done].
Qed.

Lemma room_inv_set_currentTick r t : room_inv r -> room_inv (set_currentTick r t).
Proof. intros []. by split. Qed.

Lemma room_inv_tick site r now clock r' out :
  room_inv r -> tick site r now clock = Some (r', out) -> room_inv r'.
Proof.
  intros Hinv. unfold tick. apply room_inv_finishTick, room_inv_drainCommands.
  apply (room_inv_lock_step _ (0%nat :: site) (OpExpire now)), room_inv_set_currentTick, Hinv.
Qed.

(** ** Initial state and calls from other goroutines *)

Lemma room_inv_newRoom (alloc : A) spec : room_inv (newRoom_with alloc spec).
Proof.
  split; simpl; try done.
  - split; [| done]. split; simpl; intros *; rewrite !lookup_empty; [| done].
    split; [done |]. by intros (l & ? & _).
  - apply lock_inv_new.
  - destruct (Z.leb_spec (rc_CommandQueueSize (rs_Config spec)) 0); simpl; lia.
Qed.

Lemma room_inv_Enqueue_send r cmd : room_inv r -> room_inv (Enqueue_send r cmd).1.
Proof.
  intros Hinv. unfold Enqueue_send.
  destruct (Z.ltb_spec (Z.of_nat (length (r_commands r))) (rc_CommandQueueSize (r_config r))); [| done].
  simpl. apply room_inv_set_commands; [done |]. rewrite length_app. simpl. lia.
Qed.

Lemma room_inv_Enqueue r cmd : room_inv r -> room_inv (Enqueue r cmd).1.
Proof. intros Hinv. unfold Enqueue. case_decide; [by apply room_inv_Enqueue_send | done]. Qed.

Lemma room_inv_CreateObject r id k t : room_inv r -> room_inv (CreateObject r id k t).1.
Proof.
  intros Hinv. unfold CreateObject.
  pose proof (room_inv_lock_step r [] (OpCreate id k t) Hinv) as H. simpl in H.
  by destruct (ObjectManager.Create _ _ _ _).
Qed.
End inv.
