(* ===== verification/RoomSystem.v ===== *)
(** * The room as a concurrent system

    Models [internal/game/room/lifecycle.go] and the interleaving of the tick
    loop ([runTick] of [tick.go]) with the other goroutines of the process.
    The loop's critical sections and the calls of transport goroutines
    ([Enqueue], [CreateObject], [Start], [Stop], cancellation of the parent
    context) are the steps of a transition system; its invariant, its
    lifecycle and what a stopping room can still do are proved over every
    interleaving.  [Enqueue] tests the status and then sends without the lock:
    a caller that found the room running may send at any later time, which is
    the step [LEnqueueLate]; every room that was started may have such callers. *)

From Stdlib Require Import ZArith Lia.
From stdpp Require Import base strings gmap fin_maps list relations.
From S2P Require Import Prelude.
From S2P Require Import GoFloat.
From S2P Require Import Player.
From S2P Require Import Object.
From S2P Require Import ObjectFacts.
From S2P Require Import Spatial.
From S2P Require Import SpatialFacts.
From S2P Require Import Delta.
From S2P Require Import DeltaFacts.
From S2P Require Import Cluster.
From S2P Require Import ClusterFacts.
From S2P Require Import Room.
From S2P Require Import RoomFacts.

Local Open Scope string_scope.
Local Open Scope Z_scope.
Local Open Scope list_scope.

(** ** Lifecycle operations *)

Inductive StartError := ErrCannotStart (id : RoomInstanceID) (s : RoomStatus).

(** [Start] up to the [go] statement; launching the loop is the step's part. *)
Definition Start {A} (r : Room A) : Room A * option StartError :=
  if decide (r_status r = RoomStatusCreated) then (set_status r RoomStatusRunning, None)
  else (r, Some (ErrCannotStart (r_instanceID r) (r_status r))).

(** [Stop] up to [cancel()]: the room and whether the caller goes on to cancel
    the context and to wait for the loop. *)
Definition StopBegin {A} (r : Room A) : Room A * bool :=
  match r_status r with
  | RoomStatusClosed => (r, false)
  | RoomStatusCreated => (set_status r RoomStatusClosed, false)
  | _ => (set_status r RoomStatusDraining, true)
  end.

(** The rest of [Stop], after [<-r.done]. *)
Definition StopEnd {A} (r : Room A) : Room A := set_status r RoomStatusClosed.

(** [time.Second / time.Duration(r.config.TickRateHz)].  [time.NewTicker] panics
    when it is not positive. *)
Definition tickInterval {A} (r : Room A) : Z := 1000000000 ÷ rc_TickRateHz (r_config r).

(** ** The transition system *)

(** Where the loop goroutine is. *)
Inductive LoopState :=
  | LoopNotStarted
  | LoopIdle                (* in the [select] of [runTick] *)
  | LoopDraining (tick : Z) (* in [drainCommands] of this tick *)
  | LoopExited.             (* [done] is closed *)

Record RoomSys (A : Type) := MkSys {
  sys_room : Room A;
  sys_loop : LoopState;
  sys_ctxDone : bool;        (* the tick context is cancelled *)
  sys_sent : list Batches }. (* calls of [BroadcastDelta], oldest first *)

Arguments MkSys {A}.
Arguments sys_room {A}.
Arguments sys_loop {A}.
Arguments sys_ctxDone {A}.
Arguments sys_sent {A}.

Definition sent_by (out : option Batches) : list Batches := option_list out.

Section system.
Context {A : Type} `{ALLOC : !ClusterAllocator A} `{GR : !GoRange}.
Implicit Types (r : Room A) (s : RoomSys A).

(** What a step is. *)
Inductive Label :=
  | LStart (parentDone : bool)
  | LCancel
  | LStopBegin
  | LStopEnd
  | LExit
  | LTickBegin (site : list nat) (now : Time)
  | LHandle (site : list nat) (now : Time)
  | LTickEnd (site : list nat)
  | LEnqueue (cmd : RoomCommand)
  | LEnqueueLate (cmd : RoomCommand) (* the send of a call whose test was earlier *)
  | LCreateObject (id : ObjectID) (kind : ObjectKind) (t : ObjectTransform)
  | LSetBroadcaster.

(** The first half of [tick]: count, then expire locks. *)
Definition beginTick (site : list nat) r (now : Time) : Room A :=
  releaseExpiredLocks (0%nat :: site) (set_currentTick r (u32 (r_currentTick r + 1))) now.

(** A loop whose [NewTicker] panics takes no step: the other goroutines may until
    the process is gone. *)
Inductive step : Label -> RoomSys A -> RoomSys A -> Prop :=
  | step_start r b sent pd :
      r_status r = RoomStatusCreated ->
      step (LStart pd) (MkSys r LoopNotStarted b sent) (MkSys (Start r).1 LoopIdle pd sent)
  | step_cancel r l b sent :
      step LCancel (MkSys r l b sent) (MkSys r l true sent)
  | step_stop_begin r l b sent :
      step LStopBegin (MkSys r l b sent) (MkSys (StopBegin r).1 l ((StopBegin r).2 || b) sent)
  | step_stop_end r b sent :
      r_status r = RoomStatusDraining ->
      step LStopEnd (MkSys r LoopExited b sent) (MkSys (StopEnd r) LoopExited b sent)
  | step_exit r sent :
      0 < tickInterval r ->
      step LExit (MkSys r LoopIdle true sent) (MkSys r LoopExited true sent)
  | step_tick_begin r b sent site now :
      0 < tickInterval r ->
      step (LTickBegin site now) (MkSys r LoopIdle b sent)
        (MkSys (beginTick site r now) (LoopDraining (u32 (r_currentTick r + 1))) b sent)
  | step_handle r t b sent cmd cmds site now :
      r_commands r = cmd :: cmds ->
      step (LHandle site now) (MkSys r (LoopDraining t) b sent)
        (MkSys (handleCommand site (set_commands r cmds) cmd t now) (LoopDraining t) b sent)
  | step_tick_end r t b sent site r' out :
      r_commands r = [] -> finishTick site r t = Some (r', out) ->
      step (LTickEnd site) (MkSys r (LoopDraining t) b sent) (MkSys r' LoopIdle b (sent ++ sent_by out))
  | step_enqueue r l b sent cmd :
      step (LEnqueue cmd) (MkSys r l b sent) (MkSys (Enqueue r cmd).1 l b sent)
  | step_enqueue_late r l b sent cmd :
      r_status r <> RoomStatusCreated ->
      step (LEnqueueLate cmd) (MkSys r l b sent) (MkSys (Enqueue_send r cmd).1 l b sent)
  | step_create r l b sent id k t :
      step (LCreateObject id k t) (MkSys r l b sent) (MkSys (CreateObject r id k t).1 l b sent)
  | step_broadcaster r b sent :
      step LSetBroadcaster (MkSys r LoopNotStarted b sent) (MkSys (SetBroadcaster r true) LoopNotStarted b sent).

Inductive steps : list Label -> RoomSys A -> RoomSys A -> Prop :=
  | steps_nil s : steps [] s s
  | steps_snoc ls l s1 s2 s3 : steps ls s1 s2 -> step l s2 s3 -> steps (ls ++ [l]) s1 s3.

Definition init_sys (alloc : A) (spec : RoomSpec) : RoomSys A :=
  MkSys (newRoom_with alloc spec) LoopNotStarted false [].

Definition reachable (alloc : A) (spec : RoomSpec) s : Prop :=
  exists ls, steps ls (init_sys alloc spec) s.

(** The transition system as a program: labels determine the next state. *)
Definition exec (l : Label) s : option (RoomSys A) :=
  let '(MkSys r lp b sent) := s in
  match l, lp with
  | LStart pd, LoopNotStarted =>
      if decide (r_status r = RoomStatusCreated) then Some (MkSys (Start r).1 LoopIdle pd sent) else None
  | LCancel, _ => Some (MkSys r lp true sent)
  | LStopBegin, _ => Some (MkSys (StopBegin r).1 lp ((StopBegin r).2 || b) sent)
  | LStopEnd, LoopExited =>
      if decide (r_status r = RoomStatusDraining) then Some (MkSys (StopEnd r) LoopExited b sent) else None
  | LExit, LoopIdle =>
      if decide (0 < tickInterval r) then if b then Some (MkSys r LoopExited true sent) else None else None
  | LTickBegin site now, LoopIdle =>
      if decide (0 < tickInterval r)
      then Some (MkSys (beginTick site r now) (LoopDraining (u32 (r_currentTick r + 1))) b sent) else None
  | LHandle site now, LoopDraining t =>
      match r_commands r with
      | cmd :: cmds =>
          Some (MkSys (handleCommand site (set_commands r cmds) cmd t now) (LoopDraining t) b sent)
      | [] => None
      end
  | LTickEnd site, LoopDraining t =>
      match r_commands r, finishTick site r t with
      | [], Some (r', out) => Some (MkSys r' LoopIdle b (sent ++ sent_by out))
      | _, _ => None
      end
  | LEnqueue cmd, _ => Some (MkSys (Enqueue r cmd).1 lp b sent)
  | LEnqueueLate cmd, _ =>
      if decide (r_status r = RoomStatusCreated) then None else Some (MkSys (Enqueue_send r cmd).1 lp b sent)
  | LCreateObject id k t, _ => Some (MkSys (CreateObject r id k t).1 lp b sent)
  | LSetBroadcaster, LoopNotStarted => Some (MkSys (SetBroadcaster r true) LoopNotStarted b sent)
  | _, _ => None
  end.

Lemma exec_step l s s' : exec l s = Some s' <-> step l s s'.
Proof.
  split.
  - destruct s as [r lp b sent]. destruct l, lp; simpl; intros H; simplify_eq; try (by constructor);
      repeat case_match; simplify_eq; by econstructor.
  - destruct 1; simpl; rewrite ?decide_True by done; rewrite ?decide_False by done; try done.
    + by rewrite H.
    + by rewrite H, H0.
Qed.

Definition run (ls : list Label) s : option (RoomSys A) :=
  foldl (fun o l => s ← o; exec l s) (Some s) ls.

Lemma steps_app ls1 ls2 s1 s2 s3 : steps ls1 s1 s2 -> steps ls2 s2 s3 -> steps (ls1 ++ ls2) s1 s3.
Proof.
  intros H1 H2. revert s1 H1. induction H2 as [s | ls l s2 s3 s4 H2 IH Hs]; intros s1 H1.
  - by rewrite app_nil_r.
  - rewrite app_assoc. econstructor; [by apply IH | done].
Qed.

Lemma steps_one l s s' : step l s s' -> steps [l] s s'.
Proof. intros H. apply (steps_snoc [] l s s s'); [constructor | done]. Qed.

Lemma run_steps ls s s' : run ls s = Some s' -> steps ls s s'.
Proof.
  revert s'. induction ls as [| l ls IH] using rev_ind; intros s'; unfold run.
  - intros [= <-]. constructor.
  - rewrite foldl_snoc. destruct (foldl _ _ ls) as [s1 |] eqn:H1; [| done]. simpl.
    intros He%exec_step. econstructor; [by apply IH | done].
Qed.

Lemma steps_run ls s s' : steps ls s s' -> run ls s = Some s'.
Proof.
  unfold run. induction 1 as [| ls l s1 s2 s3 _ IH Hs]; [done |].
  rewrite foldl_snoc, IH. by apply exec_step.
Qed.

(** A whole call of [Stop].  While the caller waits on [<-r.done] the loop and
    other goroutines go on; [sched] is what they do until the wait is over.
    [None]: under this schedule the call has not returned, because the loop has
    not exited (or the schedule is not one of the room's). *)
Definition Stop (sched : list Label) s : option (RoomSys A) :=
  let '(r, wait) := StopBegin (sys_room s) in
  if wait then
    s ← run sched (MkSys r (sys_loop s) true (sys_sent s));
    match sys_loop s with
    | LoopExited => Some (MkSys (StopEnd (sys_room s)) LoopExited (sys_ctxDone s) (sys_sent s))
    | _ => None
    end
  else Some (MkSys r (sys_loop s) (sys_ctxDone s) (sys_sent s)).
End system.

(** ** Invariant *)

(** The combinations of room status, loop state and context that occur. *)
Definition life_ok (st : RoomStatus) (l : LoopState) (ctxDone : bool) : Prop :=
  match st, l with
  | RoomStatusCreated, LoopNotStarted => True
  | RoomStatusRunning, LoopIdle | RoomStatusRunning, LoopDraining _ => True
  | RoomStatusRunning, LoopExited => ctxDone = true
  | RoomStatusDraining, LoopNotStarted => False
  | RoomStatusDraining, _ => ctxDone = true
  | RoomStatusClosed, LoopNotStarted => True
  | RoomStatusClosed, LoopExited => ctxDone = true
  | _, _ => False
  end.

Record sys_inv {A} (s : RoomSys A) : Prop := {
  sv_room : room_inv (sys_room s);
  sv_life : life_ok (r_status (sys_room s)) (sys_loop s) (sys_ctxDone s);
  sv_tick : forall t, sys_loop s = LoopDraining t -> t = r_currentTick (sys_room s) }.

Section invariant.
Context {A : Type} `{ALLOC : !ClusterAllocator A} `{LAWS : !ClusterAllocatorLaws A} `{GR : !GoRange}.
Implicit Types (r : Room A) (s : RoomSys A).

(** What the second half of a tick leaves alone. *)
Lemma finishTick_frame site r t r' out :
  finishTick site r t = Some (r', out) ->
  r_status r' = r_status r /\ r_config r' = r_config r /\ r_currentTick r' = r_currentTick r /\
  r_commands r' = r_commands r /\ r_broadcaster r' = r_broadcaster r /\
  r_activeSessions r' = r_activeSessions r /\ r_players r' = r_players r /\
  r_interestMgr r' = r_interestMgr r /\ r_spatial r' = r_spatial r /\ r_instanceID r' = r_instanceID r.
Proof.
  unfold finishTick. intros H.
  destruct (if shouldRecomputeCluster r t then _ else _) as [r1 |] eqn:Hr1; [| done]. simpl in H.
  assert (r_status r1 = r_status r /\ r_config r1 = r_config r /\ r_currentTick r1 = r_currentTick r /\
    r_commands r1 = r_commands r /\ r_broadcaster r1 = r_broadcaster r /\
    r_activeSessions r1 = r_activeSessions r /\ r_players r1 = r_players r /\
    r_interestMgr r1 = r_interestMgr r /\ r_spatial r1 = r_spatial r /\
    r_instanceID r1 = r_instanceID r) as H1.
  { destruct (shouldRecomputeCluster r t); [| by injection Hr1 as <-].
    destruct (recomputeCluster_spec (2%nat :: site) r t) as (r2 & Hr2 & alloc & Hcase).
    rewrite Hr1 in Hr2. injection Hr2 as <-.
    by destruct Hcase as [[-> _] | (a2 & o2 & -> & _)]. }
  destruct (isBroadcastTick r1 t); [| by injection H as <- <-].
  apply broadcast_Some in H as (res & [cache Hf]%buildDeltaBatches_frame & -> & _). by rewrite Hf.
Qed.

Lemma room_inv_set_status r st : room_inv r -> room_inv (set_status r st).
Proof. intros []. by split. Qed.

Lemma room_inv_set_broadcaster r b : room_inv r -> room_inv (set_broadcaster r b).
Proof. intros []. by split. Qed.

Lemma room_inv_beginTick site r now : room_inv r -> room_inv (beginTick site r now).
Proof.
  intros Hinv. apply (room_inv_lock_step _ (0%nat :: site) (OpExpire now)).
  by apply room_inv_set_currentTick.
Qed.

Lemma Enqueue_send_frame r cmd :
  exists cmds, (Enqueue_send r cmd).1 = set_commands r cmds.
Proof. unfold Enqueue_send. case_match; simpl; [eauto |]. exists (r_commands r). by destruct r. Qed.

Lemma Enqueue_frame r cmd :
  exists cmds, (Enqueue r cmd).1 = set_commands r cmds.
Proof.
  unfold Enqueue. case_decide; [apply Enqueue_send_frame |]. exists (r_commands r). by destruct r.
Qed.

Lemma CreateObject_frame r id k t :
  exists lm, (CreateObject r id k t).1 = set_lockMgr r lm.
Proof. unfold CreateObject. destruct (ObjectManager.Create _ _ _ _). eauto. Qed.

(** Every step preserves the room's invariant. *)
Lemma step_room_inv l s s' : step l s s' -> room_inv (sys_room s) -> room_inv (sys_room s').
Proof.
  destruct 1; simpl; intros Hinv; try done.
  - unfold Start. case_decide; [by apply room_inv_set_status | done].
  - unfold StopBegin. destruct (r_status r); simpl; try done; by apply room_inv_set_status.
  - by apply room_inv_set_status.
  - by apply room_inv_beginTick.
  - apply room_inv_handleCommand, room_inv_set_commands; [done |].
    pose proof (ri_queue _ Hinv) as Hq. rewrite H in Hq. simpl in Hq. lia.
  - by eapply room_inv_finishTick.
  - by apply room_inv_Enqueue.
  - by apply room_inv_Enqueue_send.
  - by apply room_inv_CreateObject.
  - by apply room_inv_set_broadcaster.
Qed.

Lemma step_life l s s' :
  step l s s' -> life_ok (r_status (sys_room s)) (sys_loop s) (sys_ctxDone s) ->
  life_ok (r_status (sys_room s')) (sys_loop s') (sys_ctxDone s').
Proof.
  destruct 1 as [r b sent pd Hst | r l b sent | r l b sent | r b sent Hst | r sent Hti | r b sent site now Hti
    | r t b sent cmd cmds site now Hc | r t b sent site r' out Hc Hf | r l b sent cmd | r l b sent cmd Hst
    | r l b sent id k t | r b sent]; simpl.
  - unfold Start. by rewrite decide_True.
  - by destruct (r_status r), l.
  - unfold StopBegin. destruct (r_status r) eqn:Hst; simpl; rewrite ?Hst; by destruct l.
  - by rewrite Hst.
  - by destruct (r_status r).
  - by destruct (r_status r).
  - destruct (handleCommand_frame site (set_commands r cmds) cmd t now) as (_ & _ & -> & _). done.
  - destruct (finishTick_frame _ _ _ _ _ Hf) as (-> & _). by destruct (r_status r).
  - by destruct (Enqueue_frame r cmd) as [? ->].
  - by destruct (Enqueue_send_frame r cmd) as [? ->].
  - by destruct (CreateObject_frame r id k t) as [? ->].
  - done.
Qed.

Lemma step_tick_number l s s' t :
  step l s s' -> (forall t, sys_loop s = LoopDraining t -> t = r_currentTick (sys_room s)) ->
  sys_loop s' = LoopDraining t -> t = r_currentTick (sys_room s').
Proof.
  destruct 1 as [r b sent pd Hst | r l b sent | r l b sent | r b sent Hst | r sent Hti | r b sent site now Hti
    | r t' b sent cmd cmds site now Hc | r t' b sent site r' out Hc Hf | r l b sent cmd | r l b sent cmd Hst
    | r l b sent id k t' | r b sent]; simpl; intros Ht Hl; try done; try (by apply Ht).
  - unfold StopBegin. destruct (r_status r); by apply Ht.
  - congruence.
  - destruct (handleCommand_frame site (set_commands r cmds) cmd t' now) as (_ & _ & _ & -> & _).
    by apply Ht.
  - destruct (Enqueue_frame r cmd) as [? ->]. by apply Ht.
  - destruct (Enqueue_send_frame r cmd) as [? ->]. by apply Ht.
  - destruct (CreateObject_frame r id k t') as [? ->]. by apply Ht.
Qed.

Lemma step_sys_inv l s s' : step l s s' -> sys_inv s -> sys_inv s'.
Proof.
  intros Hs [Hr Hl Ht]. split; [by eapply step_room_inv | by eapply step_life |].
  intros t. by eapply step_tick_number.
Qed.

Lemma sys_inv_init (alloc : A) spec : sys_inv (init_sys alloc spec).
Proof. split; [apply room_inv_newRoom | done | done]. Qed.

Lemma steps_sys_inv ls s s' : steps ls s s' -> sys_inv s -> sys_inv s'.
Proof. induction 1; eauto using step_sys_inv. Qed.

(** A room keeps its name. *)
Lemma step_instanceID l s s' : step l s s' -> r_instanceID (sys_room s') = r_instanceID (sys_room s).
Proof.
  destruct 1 as [| | r l b sent | | | | r t b sent cmd cmds site now Hc
    | r t b sent site r' out Hc Hf | r l b sent cmd | r l b sent cmd Hst
    | r l b sent id k t |]; simpl; try done.
  - unfold Start. by case_decide.
  - unfold StopBegin. by destruct (r_status r).
  - by destruct (handleCommand_frame site (set_commands r cmds) cmd t now) as (_ & _ & _ & _ & _ & -> & _).
  - by destruct (finishTick_frame _ _ _ _ _ Hf) as (_ & _ & _ & _ & _ & _ & _ & _ & _ & ->).
  - by destruct (Enqueue_frame r cmd) as [? ->].
  - by destruct (Enqueue_send_frame r cmd) as [? ->].
  - by destruct (CreateObject_frame r id k t) as [? ->].
Qed.

Lemma steps_instanceID ls s s' : steps ls s s' -> r_instanceID (sys_room s') = r_instanceID (sys_room s).
Proof. induction 1 as [| ls l s1 s2 s3 _ IH Hs]; [done |]. rewrite <- IH. by eapply step_instanceID. Qed.

(** What is left of a room once [Stop] has returned. *)
Lemma Stop_spec sched s s' :
  sys_inv s -> Stop sched s = Some s' ->
  sys_inv s' /\ r_status (sys_room s') = RoomStatusClosed /\
  r_instanceID (sys_room s') = r_instanceID (sys_room s).
Proof.
  intros Hinv HS. pose proof (step_stop_begin (sys_room s) (sys_loop s) (sys_ctxDone s) (sys_sent s)) as Hb.
  destruct s as [r l b sent]. unfold Stop in HS. cbn [sys_room sys_loop sys_ctxDone sys_sent] in *.
  pose proof (step_sys_inv _ _ _ Hb Hinv) as Hinv1. pose proof (step_instanceID _ _ _ Hb) as Hid.
  destruct (StopBegin r) as [r1 wait] eqn:HB. cbn [fst snd orb sys_room] in *. destruct wait; cbn [orb] in *.
  - apply bind_Some in HS as (s2 & Hrun%run_steps & HS).
    pose proof (steps_sys_inv _ _ _ Hrun Hinv1) as Hinv2. pose proof (steps_instanceID _ _ _ Hrun) as Hid2.
    destruct s2 as [r2 l2 b2 sent2]. cbn [sys_room sys_loop sys_ctxDone sys_sent] in *.
    destruct l2; try done. injection HS as <-. split_and!; [| done | simpl; congruence].
    destruct Hinv2 as [H1 H2 H3]. split; simpl in *.
    + by apply room_inv_set_status.
    + by destruct (r_status r2).
    + done.
  - injection HS as <-. split_and!; [done | | done]. simpl.
    unfold StopBegin in HB. destruct (r_status r) eqn:Hst; injection HB as <-; done.
Qed.

Lemma reachable_inv (alloc : A) spec s : reachable alloc spec s -> sys_inv s.
Proof. intros [ls H]. eapply steps_sys_inv; [done | apply sys_inv_init]. Qed.

(** *** Loops that always get on *)

(** The loop has a ticker and none of its radius queries is endless. *)
Definition loop_lives r : Prop := 0 < tickInterval r /\ queries_end r.

Lemma loop_lives_ext r r' :
  r_config r' = r_config r -> g_cellSize (r_spatial r') = g_cellSize (r_spatial r) ->
  r_interestMgr r' = r_interestMgr r -> loop_lives r -> loop_lives r'.
Proof. unfold loop_lives, tickInterval, queries_end, cell_radius. by intros -> -> ->. Qed.

Lemma handleCommand_cellSize site r cmd tick now :
  g_cellSize (r_spatial (handleCommand site r cmd tick now)) = g_cellSize (r_spatial r).
Proof.
  assert (forall h id, g_cellSize (Spatial.Remove h id) = g_cellSize h) as Hrem
    by (intros h id; unfold Spatial.Remove; by case_match).
  assert (forall h id pos, g_cellSize (Spatial.Update h id pos).1 = g_cellSize h) as Hup
    by (intros; apply Update_static).
  unfold handleCommand, handleJoin, handleLeave, handleDisconnect, handlePlayerInput,
    handleUpdatePlayerTransform, applyTransform, detach, handleLockAcquire, handleLockRefresh,
    handleLockRelease, handleObjectUpdate, releaseSessionLocks.
  destruct (cmd_Kind cmd); simpl; repeat (case_match; simpl); rewrite ?Hrem, ?Hup; done.
Qed.

Lemma step_loop_lives l s s' : step l s s' -> loop_lives (sys_room s) -> loop_lives (sys_room s').
Proof.
  destruct 1 as [| | r l b sent | | | | r t b sent cmd cmds site now Hc
    | r t b sent site r' out Hc Hf | r l b sent cmd | r l b sent cmd Hst
    | r l b sent id k t |]; simpl; try done.
  - unfold Start. by case_decide.
  - unfold StopBegin. by destruct (r_status r).
  - destruct (handleCommand_frame site (set_commands r cmds) cmd t now) as (_ & ? & _ & _ & _ & _ & ? & _).
    apply loop_lives_ext; [done | apply (handleCommand_cellSize site (set_commands r cmds)) | done].
  - destruct (finishTick_frame _ _ _ _ _ Hf) as (_ & ? & _ & _ & _ & _ & _ & ? & Hsp & _).
    apply loop_lives_ext; [done | by rewrite Hsp | done].
  - by destruct (Enqueue_frame r cmd) as [? ->].
  - by destruct (Enqueue_send_frame r cmd) as [? ->].
  - by destruct (CreateObject_frame r id k t) as [? ->].
Qed.

Lemma steps_loop_lives ls s s' : steps ls s s' -> loop_lives (sys_room s) -> loop_lives (sys_room s').
Proof. induction 1; eauto using step_loop_lives. Qed.

(** What a configuration needs for that: at most 10^9 ticks a second, and
    clusters or a visual radius of less than [2 ^ 38] cells (values that are not
    positive count as their defaults). *)
Definition loop_fits (cfg : RoomConfig) : Prop :=
  let eff := effective_config cfg in
  rc_TickRateHz cfg <= 1000000000 /\
  (cc_Enabled (rc_ClusterConfig cfg) = true \/
   0 <= int_of_f64 (math_Ceil (f64_of_f32
          (f32_div (rc_InterestVisualRadiusM eff) (rc_SpatialCellSizeM eff)))) < 2 ^ 38).

Lemma newRoom_loop_lives (alloc : A) spec :
  loop_fits (rs_Config spec) -> loop_lives (newRoom_with alloc spec).
Proof.
  intros [Hrate Hq]. split; [| exact Hq]. unfold tickInterval. cbn [r_config newRoom_with effective_config rc_TickRateHz].
  destruct (Z.leb_spec (rc_TickRateHz (rs_Config spec)) 0) as [| Hpos]; [vm_compute; done |].
  rewrite Z.quot_div_nonneg by lia. apply Z.div_str_pos. lia.
Qed.

Lemma reachable_loop_lives (alloc : A) spec s :
  loop_fits (rs_Config spec) -> reachable alloc spec s -> loop_lives (sys_room s).
Proof. intros Hfit [ls H]. eapply steps_loop_lives; [done |]. by apply newRoom_loop_lives. Qed.
End invariant.
