(* ===== verification/RoomTheorems.v ===== *)
(** * What a room guarantees

    The properties of a running room, over every interleaving of
    [RoomSystem]: consistency of its maps, one session per user, the lifecycle
    and the end of [Stop], the effect of joining and leaving, the broadcast
    cadence and the freshness of clusters. *)

From Stdlib Require Import ZArith Lia.
From stdpp Require Import base strings gmap fin_maps list relations.
From S2P Require Import Prelude.
From S2P Require Import GoFloat.
From S2P Require Import Player.
From S2P Require Import Object.
From S2P Require Import ObjectFacts.
From S2P Require Import Spatial.
From S2P Require Import SpatialFacts.
From S2P Require Import Delta.
From S2P Require Import DeltaFacts.
From S2P Require Import Cluster.
From S2P Require Import ClusterFacts.
From S2P Require Import Room.
From S2P Require Import RoomFacts.
From S2P Require Import RoomSystem.

Local Open Scope string_scope.
Local Open Scope Z_scope.
Local Open Scope list_scope.

(** ** Lifecycle *)

Definition status_rank (s : RoomStatus) : nat :=
  match s with
  | RoomStatusCreated => 0 | RoomStatusRunning => 1 | RoomStatusDraining => 2 | RoomStatusClosed => 3
  end.

(** The labels of the loop goroutine and of the waiting [Stop]. *)
Definition internal (l : Label) : Prop :=
  match l with LHandle _ _ | LTickEnd _ | LExit | LStopEnd => True | _ => False end.

Section lifecycle.
Context {A : Type} `{ALLOC : !ClusterAllocator A} `{LAWS : !ClusterAllocatorLaws A} `{GR : !GoRange}.
Implicit Types (r : Room A) (s : RoomSys A).

Lemma step_rank l s s' :
  step l s s' -> (status_rank (r_status (sys_room s)) <= status_rank (r_status (sys_room s')))%nat.
Proof.
  destruct 1 as [r b sent pd Hst | r l b sent | r l b sent | r b sent Hst | r sent Hti | r b sent site now Hti
    | r t b sent cmd cmds site now Hc | r t b sent site r' out Hc Hf | r l b sent cmd | r l b sent cmd Hst
    | r l b sent id k t | r b sent]; simpl; try done.
  - rewrite Hst. simpl. lia.
  - unfold StopBegin. destruct (r_status r) eqn:Hst; simpl; rewrite ?Hst; simpl; lia.
  - rewrite Hst. simpl. lia.
  - destruct (handleCommand_frame site (set_commands r cmds) cmd t now) as (_ & _ & -> & _). done.
  - by destruct (finishTick_frame _ _ _ _ _ Hf) as (-> & _).
  - by destruct (Enqueue_frame r cmd) as [? ->].
  - by destruct (Enqueue_send_frame r cmd) as [? ->].
  - by destruct (CreateObject_frame r id k t) as [? ->].
Qed.

Lemma steps_rank ls s s' :
  steps ls s s' -> (status_rank (r_status (sys_room s)) <= status_rank (r_status (sys_room s')))%nat.
Proof.
  induction 1 as [| ls l s1 s2 s3 _ IH Hs]; [done |]. pose proof (step_rank _ _ _ Hs). lia.
Qed.

(** A call of [Stop] is a sequence of the room's steps: its own, around those of
    its schedule. *)
Lemma Stop_steps sched s s' :
  Stop sched s = Some s' -> exists ls, steps (LStopBegin :: ls) s s' /\ (ls = [] \/ ls = sched \/ ls = sched ++ [LStopEnd]).
Proof.
  intros HS. destruct s as [r l b sent]. pose proof (steps_one _ _ _ (step_stop_begin r l b sent)) as Hb.
  unfold Stop in HS. cbn [sys_room sys_loop sys_ctxDone sys_sent] in HS.
  destruct (StopBegin r) as [r1 wait] eqn:HB. cbn [fst snd] in Hb. destruct wait; cbn [orb] in Hb.
  2:{ exists []. split; [congruence | by left]. }
  apply bind_Some in HS as (s2 & Hrun%run_steps & HS). pose proof (steps_rank _ _ _ Hrun) as Hrank.
  pose proof (steps_app _ _ _ _ _ Hb Hrun) as Hall. destruct s2 as [r2 l2 b2 sent2].
  cbn [sys_room sys_loop sys_ctxDone sys_sent] in *. destruct l2; try done. injection HS as <-.
  assert (status_rank (r_status r1) = 2%nat) as Hr1
    by (unfold StopBegin in HB; destruct (r_status r); by injection HB as <-).
  rewrite Hr1 in Hrank. destruct (r_status r2) eqn:Hst; simpl in Hrank; try lia.
  - exists (sched ++ [LStopEnd]). split; [| by right; right].
    apply (steps_snoc (LStopBegin :: sched)) with (2 := step_stop_end r2 b2 sent2 Hst). exact Hall.
  - exists sched. split; [| by right; left]. unfold StopEnd. replace (set_status r2 RoomStatusClosed) with r2; [exact Hall |].
    destruct r2. simpl in Hst. by subst.
Qed.

(** What a closed room keeps. *)
Definition frozen s s' : Prop :=
  r_activeSessions (sys_room s') = r_activeSessions (sys_room s) /\
  r_players (sys_room s') = r_players (sys_room s) /\
  r_commands (sys_room s) `prefix_of` r_commands (sys_room s') /\
  r_currentTick (sys_room s') = r_currentTick (sys_room s) /\
  r_playerCount (sys_room s') = r_playerCount (sys_room s) /\
  sys_sent s' = sys_sent s.

Lemma step_frozen l s s' :
  step l s s' -> sys_inv s -> r_status (sys_room s) = RoomStatusClosed -> frozen s s'.
Proof.
  intros Hs Hinv Hc. pose proof (sv_life _ Hinv) as Hl. rewrite Hc in Hl. unfold frozen.
  destruct Hs as [r b sent pd Hst | r l b sent | r l b sent | r b sent Hst | r sent Hti | r b sent site now Hti
    | r t b sent cmd cmds site now Hcm | r t b sent site r' out Hcm Hf | r l b sent cmd | r l b sent cmd Hst
    | r l b sent id k t | r b sent]; simpl in *; try done.
  - congruence.
  - unfold StopBegin. by rewrite Hc.
  - unfold Enqueue. rewrite decide_False by congruence. done.
  - unfold Enqueue_send. destruct (_ <? _); simpl; [| done]. split_and!; try done. by apply prefix_app_r.
  - by destruct (CreateObject_frame r id k t) as [? ->].
Qed.

Lemma frozen_trans s1 s2 s3 : frozen s1 s2 -> frozen s2 s3 -> frozen s1 s3.
Proof. unfold frozen. intros (?&?&?&?&?&?) (?&?&?&?&?&?). split_and!; try congruence; by etrans. Qed.

Lemma steps_frozen ls s s' :
  steps ls s s' -> sys_inv s -> r_status (sys_room s) = RoomStatusClosed -> frozen s s'.
Proof.
  induction 1 as [s | ls l s1 s2 s3 H IH Hs]; intros Hinv Hc; [by unfold frozen |].
  eapply frozen_trans; [by apply IH |]. eapply step_frozen; [done | by eapply steps_sys_inv |].
  pose proof (steps_rank _ _ _ H) as Hr. rewrite Hc in Hr.
  destruct (r_status (sys_room s2)); simpl in Hr; try lia; done.
Qed.

(** The loop drains what is queued. *)
Lemma drain_steps cmds r t b sent :
  r_commands r = cmds ->
  exists ls r', steps ls (MkSys r (LoopDraining t) b sent) (MkSys r' (LoopDraining t) b sent) /\
    Forall internal ls /\ length ls = length cmds /\ r_commands r' = [] /\ r_status r' = r_status r.
Proof.
  revert r. induction cmds as [| cmd cmds IH]; intros r Hc.
  { exists [], r. split_and!; try done; constructor. }
  destruct (handleCommand_frame [] (set_commands r cmds) cmd t 0) as (Hc' & _ & Hst & _).
  destruct (IH (handleCommand [] (set_commands r cmds) cmd t 0)) as (ls & r' & Hs & Hi & Hl & Hr & Hst').
  { by rewrite Hc'. }
  exists ([LHandle [] 0] ++ ls), r'. split_and!.
  - eapply steps_app; [by apply steps_one, step_handle | done].
  - by constructor.
  - simpl. by rewrite Hl.
  - done.
  - by rewrite Hst', Hst.
Qed.

(** C15: A room's status only moves forward along created, running, draining,
    closed, and a closed room is inert: whatever other goroutines still call,
    no session, player, tick or broadcast of it changes, and nothing is taken
    from its queue (a caller that found it running may still add to it). *)
Theorem lifecycle_monotone_and_closed_frozen (alloc : A) (spec : RoomSpec) s s' (ls : list Label) :
  reachable alloc spec s -> steps ls s s' ->
  (status_rank (r_status (sys_room s)) <= status_rank (r_status (sys_room s')))%nat /\
  (r_status (sys_room s) = RoomStatusClosed -> frozen s s').
Proof.
  intros Hr Hs. split; [by eapply steps_rank |]. intros Hc.
  eapply steps_frozen; [done | by eapply reachable_inv | done].
Qed.

(** From every state in which a [Stop] has begun a live loop alone can exit. *)
Lemma loop_exits s :
  sys_inv s -> loop_lives (sys_room s) -> r_status (sys_room s) = RoomStatusDraining ->
  exists ls s', steps ls s s' /\ Forall internal ls /\
    (length ls <= length (r_commands (sys_room s)) + 2)%nat /\
    sys_loop s' = LoopExited /\ r_status (sys_room s') = RoomStatusDraining.
Proof.
  intros Hinv Hlive Hst. pose proof (sv_life _ Hinv) as Hl.
  rewrite Hst in Hl. destruct s as [r l b sent]. simpl in *.
  destruct l as [| | t |]; try done; simpl in Hl; subst b.
  - exists [LExit]. eexists. split; [apply steps_one, step_exit, Hlive |].
    split; [by repeat constructor |]. split; [simpl; lia | done].
  - destruct (drain_steps _ r t true sent eq_refl) as (ls & r1 & H1 & Hi & Hlen & Hc1 & Hst1).
    pose proof (steps_loop_lives _ _ _ H1 Hlive) as Hlive1. cbn [sys_room] in Hlive1.
    destruct (finishTick_total [] r1 t (proj2 Hlive1)) as [[r2 out] Hf].
    pose proof (step_tick_end r1 t true sent [] r2 out Hc1 Hf) as Hend.
    pose proof (step_loop_lives _ _ _ Hend Hlive1) as [Hti _].
    destruct (finishTick_frame _ _ _ _ _ Hf) as (Hst2 & _).
    exists (ls ++ [LTickEnd []] ++ [LExit]). eexists. split_and!.
    + eapply steps_app; [done |]. eapply steps_app; [by apply steps_one |]. by apply steps_one, step_exit.
    + apply Forall_app. split; [done |]. by repeat constructor.
    + rewrite length_app, Hlen. simpl. lia.
    + done.
    + simpl. congruence.
  - exists []. eexists. split; [constructor |]. split; [constructor |]. split; [simpl; lia | done].
Qed.

Lemma steps_end ls s s' :
  steps ls s s' -> sys_loop s' = LoopExited -> r_status (sys_room s') = RoomStatusDraining ->
  steps (ls ++ [LStopEnd]) s (MkSys (StopEnd (sys_room s')) LoopExited (sys_ctxDone s') (sys_sent s')).
Proof.
  intros Hs Hl Hst. destruct s' as [r l b sent]. simpl in *. subst l.
  econstructor; [done |]. by apply step_stop_end.
Qed.

(** A call of [Stop] returns under some schedule of the loop alone. *)
Lemma Stop_returns s :
  sys_inv s -> loop_lives (sys_room s) -> exists sched s', Forall internal sched /\ Stop sched s = Some s'.
Proof.
  intros Hinv Hlive. pose proof (step_stop_begin (sys_room s) (sys_loop s) (sys_ctxDone s) (sys_sent s)) as Hb.
  destruct s as [r l b sent]. unfold Stop. cbn [sys_room sys_loop sys_ctxDone sys_sent] in *.
  pose proof (step_sys_inv _ _ _ Hb Hinv) as Hinv1. pose proof (step_loop_lives _ _ _ Hb Hlive) as Hlive1.
  destruct (StopBegin r) as [r1 wait] eqn:HB. cbn [fst snd orb] in *.
  destruct wait; [| exists []; eauto]. cbn [orb] in *.
  assert (r_status r1 = RoomStatusDraining) as Hst.
  { unfold StopBegin in HB. destruct (r_status r); by injection HB as <-. }
  destruct (loop_exits _ Hinv1 Hlive1 Hst) as (ls & s' & Hs%steps_run & Hi & _ & Hx & _).
  exists ls. rewrite Hs. simpl. rewrite Hx. eauto.
Qed.

(** C14: [Stop] is never stuck in a room whose configuration asks for at most
    10^9 ticks a second and takes visibility from clusters or from a visual
    radius of less than 2^38 grid cells: from every reachable state in which a
    [Stop] has begun, the loop goroutine by itself can run to its exit, within
    as many steps as there are queued commands plus three, and the room is then
    closed.  No panic, endless query or empty [select] blocks it on the way. *)
Theorem stop_terminates (alloc : A) (spec : RoomSpec) s :
  loop_fits (rs_Config spec) ->
  reachable alloc spec s -> r_status (sys_room s) = RoomStatusDraining ->
  exists ls s', steps ls s s' /\ Forall internal ls /\
    (length ls <= length (r_commands (sys_room s)) + 3)%nat /\
    r_status (sys_room s') = RoomStatusClosed.
Proof.
  intros Hfit Hr Hst.
  destruct (loop_exits s (reachable_inv _ _ _ Hr) (reachable_loop_lives _ _ _ Hfit Hr) Hst)
    as (ls & s' & Hs & Hi & Hlen & Hx & Hd).
  eexists _, _. split; [by apply steps_end |]. split; [apply Forall_app; by repeat constructor |].
  split; [rewrite length_app; simpl; lia | done].
Qed.
End lifecycle.

(** ** Sessions, users and players *)

Section sessions.
Context {A : Type} `{ALLOC : !ClusterAllocator A} `{LAWS : !ClusterAllocatorLaws A} `{GR : !GoRange}.
Implicit Types (r : Room A) (s : RoomSys A).

(** C2: In every reachable state no user has two sessions in the room, the
    delta snapshots are exactly those of the attached sessions, the spatial
    index holds exactly the room's players, every dirty player is in the room,
    no user owns more objects than the lease allows, and the command queue is
    within its capacity; whatever the commands contained. *)
Theorem room_consistent (alloc : A) (spec : RoomSpec) s :
  reachable alloc spec s ->
  let r := sys_room s in
  (forall sid1 sid2 att1 att2, r_activeSessions r !! sid1 = Some att1 ->
     r_activeSessions r !! sid2 = Some att2 -> att_userID att1 = att_userID att2 ->
     att_userID att1 <> "" -> sid1 = sid2) /\
  dom (r_snapshotCache r) = dom (r_activeSessions r) /\
  (forall pid, is_Some (Spatial.Get (r_spatial r) pid) <-> is_Some (r_players r !! pid)) /\
  r_dirtyPlayers r ⊆ dom (r_players r) /\
  (forall u, u <> "" -> Z.of_nat (held u (r_lockMgr r))
     <= Z.max 0 (lease_MaxLocksPerUser (lm_lease (r_lockMgr r)))) /\
  Z.of_nat (length (r_commands r)) <= rc_CommandQueueSize (r_config r).
Proof.
  intros Hr. apply reachable_inv in Hr. destruct (sv_room _ Hr) as [Hu Hc Hd _ (Hsi & Hdom & _) _ Hl Hq].
  simpl. split_and!; try done.
  - intros sid1 sid2 att1 att2 H1 H2 He Hne. pose proof (Hu _ _ H1 Hne) as I1.
    rewrite He in Hne. pose proof (Hu _ _ H2 Hne) as I2. rewrite He in I1. congruence.
  - intros pid. unfold Spatial.Get. rewrite fmap_is_Some, <- !elem_of_dom, Hdom. done.
  - intros u Hne. pose proof (li_held _ Hl u Hne). pose proof (li_quota _ Hl u). lia.
Qed.

(** A join of a user who already has a session changes nothing at all. *)
Theorem duplicate_join_rejected r (cmd : RoomCommand) (site : list nat) (t : Z) (now : Time) :
  cmd_Kind cmd = CmdJoin -> cmd_UserID cmd <> "" -> HasUser r (cmd_UserID cmd) = true ->
  handleCommand site r cmd t now = r.
Proof.
  intros Hk Hne Hu. unfold handleCommand, handleJoin. rewrite Hk. unfold HasUser in Hu.
  rewrite Hu. by destruct (String.eqb_spec (cmd_UserID cmd) "").
Qed.

Lemma Get_Remove h pid pid' :
  Spatial.Get (Spatial.Remove h pid) pid' = if decide (pid = pid') then None else Spatial.Get h pid'.
Proof.
  unfold Spatial.Get. rewrite Remove_entities. case_decide as Hd.
  - subst. by rewrite lookup_delete_eq.
  - by rewrite lookup_delete_ne.
Qed.

Lemma Get_Update_origin h pid pid' :
  g_maxWorldCoord h = sc_MaxWorldCoord DefaultSpatialConfig ->
  Spatial.Get (Spatial.Update h pid (Pos f32_zero f32_zero)).1 pid' =
  if decide (pid = pid') then Some (Pos f32_zero f32_zero) else Spatial.Get h pid'.
Proof.
  intros Hw. unfold Spatial.Get. rewrite Update_entities, origin_valid by done. case_decide as Hd.
  - subst. by rewrite lookup_insert_eq.
  - by rewrite lookup_insert_ne.
Qed.

(** The index after a detach. *)
Lemma detach_fields r sid att pid :
  let r' := detach r sid att pid in
  r_activeSessions r' = delete sid (r_activeSessions r) /\
  r_userSessionIndex r' = (if negb (String.eqb (att_userID att) "")
    then delete (att_userID att) (r_userSessionIndex r) else r_userSessionIndex r) /\
  r_playerCount r' = i32 (r_playerCount r - 1) /\
  r_players r' = delete pid (r_players r) /\
  r_spatial r' = Spatial.Remove (r_spatial r) pid /\
  r_snapshotCache r' = delete sid (r_snapshotCache r) /\
  r_dirtyPlayers r' = r_dirtyPlayers r ∖ {[pid]} /\
  r_lockMgr r' = r_lockMgr r /\ r_clusterMembershipDirty r' = true.
Proof. unfold detach. by destruct (String.eqb (att_userID att) ""). Qed.

Lemma join_fields r cmd :
  negb (String.eqb (cmd_UserID cmd) "") && bool_decide (is_Some (r_userSessionIndex r !! cmd_UserID cmd))
    = false ->
  let r' := handleJoin r cmd in
  r_activeSessions r' = <[cmd_SessionID cmd := MkAttachment (cmd_PlayerID cmd) (cmd_UserID cmd)]>
    (r_activeSessions r) /\
  r_userSessionIndex r' = (if negb (String.eqb (cmd_UserID cmd) "")
    then <[cmd_UserID cmd := cmd_SessionID cmd]> (r_userSessionIndex r) else r_userSessionIndex r) /\
  r_playerCount r' = i32 (r_playerCount r + 1) /\
  r_players r' = <[cmd_PlayerID cmd := SetStatus (NewPlayerState (cmd_PlayerID cmd) (cmd_UserID cmd)
    (cmd_Timestamp cmd)) PlayerStatusActive]> (r_players r) /\
  r_spatial r' = (Spatial.Update (r_spatial r) (cmd_PlayerID cmd) (Pos f32_zero f32_zero)).1 /\
  r_snapshotCache r' = (SnapshotCache.GetOrCreate (r_snapshotCache r) (cmd_SessionID cmd)).1 /\
  r_dirtyPlayers r' = r_dirtyPlayers r /\ r_lockMgr r' = r_lockMgr r /\
  r_clusterMembershipDirty r' = true.
Proof. intros Hg. unfold handleJoin. rewrite Hg. by destruct (String.eqb (cmd_UserID cmd) ""). Qed.

(** C33: A disconnect of an attached session removes its attachment, the index
    entry of the user it is attached for, its player from the room, the spatial
    index and the dirty set, its delta snapshot and every object lock it held
    (each with a version bump), and counts one player less.  It touches nothing
    else: the attachments and snapshots of other sessions, the index entries of
    other users, other players with their positions and dirty marks, every
    object not locked by the session, and the lock counts of users who own none
    of the released objects stay as they were. *)
Theorem disconnect_cleans_up r (cmd : RoomCommand) (att : sessionAttachment) (site : list nat)
    (t : Z) (now : Time) :
  cmd_Kind cmd = CmdDisconnect -> r_activeSessions r !! cmd_SessionID cmd = Some att ->
  let r' := handleCommand site r cmd t now in
  let sid := cmd_SessionID cmd in
  let pid := att_playerID att in
  let holds o := String.eqb (l_SessionID (o_Lock o)) sid && negb (String.eqb (l_LockedBy (o_Lock o)) "") in
  HasSession r' sid = false /\
  (att_userID att <> "" -> HasUser r' (att_userID att) = false) /\
  GetPlayerState r' pid = None /\ Spatial.Get (r_spatial r') pid = None /\
  ~ (pid ∈ r_dirtyPlayers r') /\ r_snapshotCache r' !! sid = None /\
  r_playerCount r' = i32 (r_playerCount r - 1) /\
  (forall sid', sid' <> sid -> r_activeSessions r' !! sid' = r_activeSessions r !! sid' /\
     r_snapshotCache r' !! sid' = r_snapshotCache r !! sid') /\
  (forall u, u <> att_userID att -> r_userSessionIndex r' !! u = r_userSessionIndex r !! u) /\
  (forall pid', pid' <> pid -> r_players r' !! pid' = r_players r !! pid' /\
     Spatial.Get (r_spatial r') pid' = Spatial.Get (r_spatial r) pid' /\
     (pid' ∈ r_dirtyPlayers r' <-> pid' ∈ r_dirtyPlayers r)) /\
  (forall id, lm_objects (r_lockMgr r') !! id =
     (fun o => if holds o then o_set_lock o unlocked (u32 (o_Version o + 1)) else o)
       <$> lm_objects (r_lockMgr r) !! id) /\
  (forall u, u <> "" ->
     (forall id o, lm_objects (r_lockMgr r) !! id = Some o -> holds o = true -> l_LockedBy (o_Lock o) <> u) ->
     UserLockCount r' u = UserLockCount r u).
Proof.
  intros Hk Ha. cbv zeta. unfold handleCommand. rewrite Hk. unfold handleDisconnect. rewrite Ha.
  destruct (detach_fields r (cmd_SessionID cmd) att (att_playerID att))
    as (Hact & Hidx & Hcnt & Hpl & Hsp & Hca & Hdi & Hlm & _).
  set (r1 := detach r (cmd_SessionID cmd) att (att_playerID att)) in *. clearbody r1.
  unfold HasSession, HasUser, GetPlayerState, UserLockCount, releaseSessionLocks. simpl.
  rewrite Hact, Hidx, Hpl, Hsp, Hca, Hdi, Hcnt, Hlm. split_and!.
  - apply bool_decide_eq_false. rewrite lookup_delete_eq. by intros [].
  - intros Hne. destruct (String.eqb_spec (att_userID att) ""); [done |].
    apply bool_decide_eq_false. simpl. rewrite lookup_delete_eq. by intros [].
  - by rewrite lookup_delete_eq.
  - rewrite Get_Remove. by rewrite decide_True.
  - set_solver.
  - by rewrite lookup_delete_eq.
  - done.
  - intros sid' Hne. by rewrite !lookup_delete_ne.
  - intros u Hne. destruct (String.eqb (att_userID att) ""); simpl; [done |]. by rewrite lookup_delete_ne.
  - intros pid' Hne. rewrite lookup_delete_ne, Get_Remove by done. rewrite decide_False by done. set_solver.
  - intros id. apply ReleaseBySession_lookup.
  - intros u Hu Hown. by apply sweep_counts_other.
Qed.

(** C34: A session that joins with a fresh session, player and user ID and then
    disconnects leaves the room as it was: same sessions, user index, players,
    player count, snapshots, dirty set and positions. *)
Theorem join_disconnect_roundtrip r (cmd : RoomCommand) (site : list nat) (now : Time) :
  room_inv r ->
  r_activeSessions r !! cmd_SessionID cmd = None -> r_players r !! cmd_PlayerID cmd = None ->
  (cmd_UserID cmd = "" \/ r_userSessionIndex r !! cmd_UserID cmd = None) ->
  - 2 ^ 31 <= r_playerCount r < 2 ^ 31 ->
  let r' := handleDisconnect site (handleJoin r cmd) cmd now in
  r_activeSessions r' = r_activeSessions r /\
  r_userSessionIndex r' = r_userSessionIndex r /\
  r_players r' = r_players r /\ r_playerCount r' = r_playerCount r /\
  r_snapshotCache r' = r_snapshotCache r /\ r_dirtyPlayers r' = r_dirtyPlayers r /\
  (forall pid, Spatial.Get (r_spatial r') pid = Spatial.Get (r_spatial r) pid).
Proof.
  intros Hinv Hs Hp Hu Hn.
  assert (negb (String.eqb (cmd_UserID cmd) "") &&
    bool_decide (is_Some (r_userSessionIndex r !! cmd_UserID cmd)) = false) as Hg.
  { destruct Hu as [-> | Hu]; [done |]. rewrite Hu. apply andb_false_r. }
  assert (r_snapshotCache r !! cmd_SessionID cmd = None) as Hcache.
  { apply not_elem_of_dom. rewrite (ri_cache _ Hinv). by apply not_elem_of_dom. }
  destruct (join_fields r cmd Hg) as (Ja & Ji & Jn & Jp & Js & Jc & Jd & _ & _).
  set (rj := handleJoin r cmd) in *. clearbody rj.
  cbv zeta. unfold handleDisconnect. rewrite Ja, lookup_insert_eq. cbn [att_playerID].
  set (att := MkAttachment (cmd_PlayerID cmd) (cmd_UserID cmd)).
  destruct (detach_fields rj (cmd_SessionID cmd) att (cmd_PlayerID cmd))
    as (Da & Di & Dn & Dp & Ds & Dc & Dd & _ & _).
  set (r1 := detach rj _ att _) in *. clearbody r1. unfold releaseSessionLocks. simpl.
  rewrite Da, Di, Dn, Dp, Ds, Dc, Dd, Ja, Ji, Jn, Jp, Js, Jc, Jd. simpl. split_and!.
  - by rewrite delete_insert_id.
  - destruct (String.eqb_spec (cmd_UserID cmd) ""); simpl; [done |].
    destruct Hu as [| Hu]; [done |]. by rewrite delete_insert_id.
  - by rewrite delete_insert_id.
  - by apply i32_add_sub.
  - unfold SnapshotCache.GetOrCreate. rewrite Hcache. simpl. by rewrite delete_insert_id.
  - assert (~ (cmd_PlayerID cmd ∈ r_dirtyPlayers r)); [| set_solver].
    intros Hin. apply (ri_dirty _ Hinv), elem_of_dom in Hin as [p Hp']. congruence.
  - intros pid. destruct (ri_spatial _ Hinv) as (_ & Hdom & Hw).
    rewrite Get_Remove, Get_Update_origin by done. case_decide as Hd; [| done]. subst pid.
    unfold Spatial.Get. symmetry. apply fmap_None, not_elem_of_dom. rewrite Hdom. by apply not_elem_of_dom.
Qed.

(** ** Accounting of players *)

(** Sessions and players of the room are in bijection, and counted. *)
Record accounts r : Prop := {
  ac_count : r_playerCount r = i32 (Z.of_nat (size (r_activeSessions r)));
  ac_player : forall sid att, r_activeSessions r !! sid = Some att ->
    is_Some (r_players r !! att_playerID att);
  ac_inj : forall sid1 sid2 att1 att2, r_activeSessions r !! sid1 = Some att1 ->
    r_activeSessions r !! sid2 = Some att2 -> att_playerID att1 = att_playerID att2 -> sid1 = sid2;
  ac_owned : forall pid, is_Some (r_players r !! pid) ->
    exists sid att, r_activeSessions r !! sid = Some att /\ att_playerID att = pid }.

(** A join brings a session and a player the room does not have; a leave names
    the player its session is attached with. *)
Definition cmd_ok r (cmd : RoomCommand) : Prop :=
  match cmd_Kind cmd with
  | CmdJoin => r_activeSessions r !! cmd_SessionID cmd = None /\ r_players r !! cmd_PlayerID cmd = None
  | CmdLeave => from_option (fun att => cmd_PlayerID cmd = att_playerID att) True
                  (r_activeSessions r !! cmd_SessionID cmd)
  | _ => True
  end.

Fixpoint drain_ok (cmds : list RoomCommand) (n : nat) (site : list nat) r (t : Z)
    (clock : nat -> Time) : Prop :=
  match cmds with
  | [] => True
  | cmd :: cmds' =>
      cmd_ok r cmd /\
      drain_ok cmds' (S n) site (handleCommand (n :: site) (set_commands r cmds') cmd t (clock n)) t clock
  end.

Lemma accounts_ext r r' :
  r_activeSessions r' = r_activeSessions r -> dom (r_players r') = dom (r_players r) ->
  r_playerCount r' = r_playerCount r -> accounts r -> accounts r'.
Proof.
  intros Hs Hp Hn [H1 H2 H3 H4].
  assert (forall pid, is_Some (r_players r' !! pid) <-> is_Some (r_players r !! pid)) as Hd
    by (intros; by rewrite <- !elem_of_dom, Hp).
  split.
  - by rewrite Hn, Hs.
  - intros sid att. rewrite Hs, Hd. eauto.
  - rewrite Hs. eauto.
  - intros pid. rewrite Hs, Hd. eauto.
Qed.

Lemma accounts_set_lockMgr r lm : accounts r -> accounts (set_lockMgr r lm).
Proof. by apply accounts_ext. Qed.

Lemma accounts_join r cmd :
  accounts r -> r_activeSessions r !! cmd_SessionID cmd = None ->
  r_players r !! cmd_PlayerID cmd = None -> accounts (handleJoin r cmd).
Proof.
  intros [H1 H2 H3 H4] Hs Hp.
  destruct (negb (String.eqb (cmd_UserID cmd) "") &&
    bool_decide (is_Some (r_userSessionIndex r !! cmd_UserID cmd))) eqn:Hg.
  { unfold handleJoin. by rewrite Hg. }
  destruct (join_fields r cmd Hg) as (Ja & _ & Jn & Jp & _).
  assert (forall sid att, r_activeSessions r !! sid = Some att -> att_playerID att <> cmd_PlayerID cmd) as Hnew.
  { intros sid att Ha He. destruct (H2 _ _ Ha) as [p Hp']. congruence. }
  split; rewrite ?Ja, ?Jp, ?Jn.
  - rewrite H1, map_size_insert_None, i32_add_idemp by done. f_equal. lia.
  - intros sid att. rewrite lookup_insert_Some. intros [[<- <-] | [_ Ha]]; simpl.
    + rewrite lookup_insert_eq. eauto.
    + rewrite lookup_insert_ne by (symmetry; eauto). eauto.
  - intros sid1 sid2 a1 a2. rewrite !lookup_insert_Some.
    intros [[<- <-] | [_ Ha1]] [[<- <-] | [_ Ha2]] He; simpl in *; try done; eauto.
    + by destruct (Hnew _ _ Ha2).
    + by destruct (Hnew _ _ Ha1).
  - intros pid. destruct (decide (pid = cmd_PlayerID cmd)) as [-> | Hne].
    + intros _. exists (cmd_SessionID cmd). rewrite lookup_insert_eq. eauto.
    + rewrite lookup_insert_ne by done. intros Hpid. destruct (H4 pid Hpid) as (sid & att & Ha & He).
      exists sid, att. split; [| done]. rewrite lookup_insert_ne; [done |]. congruence.
Qed.

Lemma accounts_detach r sid att :
  accounts r -> r_activeSessions r !! sid = Some att -> accounts (detach r sid att (att_playerID att)).
Proof.
  intros [H1 H2 H3 H4] Ha. destruct (detach_fields r sid att (att_playerID att)) as (Da & _ & Dn & Dp & _).
  split; rewrite ?Da, ?Dp, ?Dn.
  - rewrite H1, map_size_delete_Some by eauto. unfold Z.sub. rewrite i32_add_idemp. f_equal.
    assert (size (r_activeSessions r) <> 0%nat); [| lia].
    intros Hz%map_size_empty_inv. by rewrite Hz, lookup_empty in Ha.
  - intros sid' att'. rewrite lookup_delete_Some. intros [Hne Ha'].
    rewrite lookup_delete_ne; [eauto |]. intros He. apply Hne. eauto.
  - intros sid1 sid2 a1 a2. rewrite !lookup_delete_Some. intros [_ ?] [_ ?]. eauto.
  - intros pid [p Hp]. apply lookup_delete_Some in Hp as [Hne Hp].
    destruct (H4 pid) as (sid' & att' & Ha' & He); [eauto |]. exists sid', att'. split; [| done].
    rewrite lookup_delete_ne; [done |]. intros <-. congruence.
Qed.

Lemma accounts_transform r pid t tick now : accounts r -> accounts (applyTransform r pid t tick now).
Proof.
  intros H. unfold applyTransform. destruct (r_players r !! pid) as [p |] eqn:Hp; [| done].
  eapply accounts_ext; [| | | done]; destruct (fgt _ _); simpl; try done;
    rewrite dom_insert_L; assert (pid ∈ dom (r_players r)) by (apply elem_of_dom; eauto); set_solver.
Qed.

Lemma accounts_handleCommand site r cmd t now :
  accounts r -> cmd_ok r cmd -> accounts (handleCommand site r cmd t now).
Proof.
  intros Hacc Hok. unfold handleCommand. unfold cmd_ok in Hok. destruct (cmd_Kind cmd).
  - destruct Hok. by apply accounts_join.
  - unfold handleLeave. destruct (r_activeSessions r !! cmd_SessionID cmd) as [att |] eqn:Ha;
      [| by apply accounts_set_lockMgr].
    simpl in Hok. rewrite Hok. by apply accounts_set_lockMgr, accounts_detach.
  - unfold handleDisconnect. destruct (r_activeSessions r !! cmd_SessionID cmd) as [att |] eqn:Ha;
      [| by apply accounts_set_lockMgr].
    by apply accounts_set_lockMgr, accounts_detach.
  - unfold handlePlayerInput. repeat case_match; try done. by apply accounts_transform.
  - unfold handleUpdatePlayerTransform. case_match; try done. by apply accounts_transform.
  - unfold handleLockAcquire. case_match; try done; by apply accounts_set_lockMgr.
  - unfold handleLockRefresh. case_match; try done; by apply accounts_set_lockMgr.
  - unfold handleLockRelease. case_match; try done; by apply accounts_set_lockMgr.
  - unfold handleObjectUpdate. case_match; try done; by apply accounts_set_lockMgr.
  - done.
Qed.

(** C35: As long as joins bring new session and player IDs and leaves name the
    session's own player, draining any queue keeps sessions and players in
    bijection, and [PlayerCount] is the number of attached sessions. *)
Theorem player_accounting (cmds : list RoomCommand) (n : nat) (site : list nat) r (t : Z)
    (clock : nat -> Time) :
  accounts r -> drain_ok cmds n site r t clock -> accounts (drain_loop cmds n site r t clock).
Proof.
  revert n r. induction cmds as [| cmd cmds IH]; intros n r Hacc Hok; [done |].
  destruct Hok as [Hcmd Hok]. apply IH; [| done]. apply accounts_handleCommand; [| done].
  by apply (accounts_ext r).
Qed.
End sessions.
