(* ===== verification/RoomBroadcast.v ===== *)
(** * Broadcasts and cluster freshness

    The cadence of broadcasts, the freshness of the clusters a broadcast is
    computed from, and what each broadcast leaves each session with. *)

From Stdlib Require Import ZArith Lia.
From stdpp Require Import base strings gmap fin_maps list relations.
From S2P Require Import Prelude.
From S2P Require Import GoFloat.
From S2P Require Import Player.
From S2P Require Import Object.
From S2P Require Import ObjectFacts.
From S2P Require Import Spatial.
From S2P Require Import SpatialFacts.
From S2P Require Import Delta.
From S2P Require Import DeltaFacts.
From S2P Require Import Cluster.
From S2P Require Import ClusterFacts.
From S2P Require Import Room.
From S2P Require Import RoomFacts.
From S2P Require Import RoomSystem.

Local Open Scope string_scope.
Local Open Scope Z_scope.
Local Open Scope list_scope.

Section broadcast.
Context {A : Type} `{ALLOC : !ClusterAllocator A} `{LAWS : !ClusterAllocatorLaws A} `{GR : !GoRange}.
Implicit Types (r : Room A) (s : RoomSys A).

(** ** The two halves of the end of a tick *)

(** [r1] is [r] after the recompute that was due, if any. *)
Record recomputed (r r1 : Room A) (t : Z) : Prop := {
  rd_players : r_players r1 = r_players r;
  rd_sessions : r_activeSessions r1 = r_activeSessions r;
  rd_cache : r_snapshotCache r1 = r_snapshotCache r;
  rd_config : r_config r1 = r_config r;
  rd_broadcaster : r_broadcaster r1 = r_broadcaster r;
  rd_spatial : r_spatial r1 = r_spatial r;
  rd_inv : room_inv r1;
  rd_fresh : cc_Enabled (rc_ClusterConfig (r_config r)) = true ->
    validateConfig (rc_ClusterConfig (r_config r)) = None ->
    r_clusterMembershipDirty r1 = false /\
    (u32 (t - r_lastClusterTick r1) < u32 (cc_ReclusterIntervalTicks (rc_ClusterConfig (r_config r)))
     \/ r_lastClusterTick r1 = t) /\
    (r_maxMovementSinceLastCluster r1 = f32_zero \/
     fgt (r_maxMovementSinceLastCluster r1) (cc_MovementThreshold (rc_ClusterConfig (r_config r))) = false) }.

Lemma recompute_phase site r t :
  room_inv r ->
  exists r1, (if shouldRecomputeCluster r t then recomputeCluster site r t else Some r) = Some r1 /\
    recomputed r r1 t.
Proof.
  intros Hinv. destruct (shouldRecomputeCluster r t) eqn:Hsh.
  - destruct (recomputeCluster_spec site r t) as (r1 & Hr1 & alloc & Hcase).
    exists r1. split; [done |]. pose proof (room_inv_recomputeCluster _ _ _ _ Hinv Hr1) as Hinv1.
    destruct Hcase as [[-> Hv] | (a2 & out & -> & _)]; split; simpl in *; try done.
    intros _ _. split_and!; [done | by right | by left].
  - exists r. split; [done |]. split; try done. intros He _. unfold shouldRecomputeCluster in Hsh.
    rewrite He in Hsh. simpl in Hsh.
    destruct (Z.leb_spec (u32 (cc_ReclusterIntervalTicks (rc_ClusterConfig (r_config r))))
      (u32 (t - r_lastClusterTick r))); [done |].
    destruct (fgt _ _) eqn:Hf; [done |]. split_and!; [done | by left | by right].
Qed.

Lemma isBroadcastTick_config r r1 t :
  r_config r1 = r_config r -> isBroadcastTick r1 t = isBroadcastTick r t.
Proof. unfold isBroadcastTick. by intros ->. Qed.

Lemma finishTick_inv site r t r' out :
  room_inv r -> finishTick site r t = Some (r', out) ->
  exists r1, recomputed r r1 t /\
    if isBroadcastTick r t then broadcast (3%nat :: site) r1 t = Some (r', out) else r' = r1 /\ out = None.
Proof.
  intros Hinv Hf. unfold finishTick in Hf.
  destruct (recompute_phase (2%nat :: site) r t Hinv) as (r1 & Hr1 & Hrd).
  rewrite Hr1 in Hf. simpl in Hf. exists r1. split; [done |].
  rewrite (isBroadcastTick_config r r1 t) in Hf by apply Hrd.
  destruct (isBroadcastTick r t); [done |]. by injection Hf as <- <-.
Qed.

(** ** Visibility *)

(** Whatever a broadcast shows a viewer is in the room and is not the viewer. *)
Lemma visible_to_players site r pid ps vis x :
  room_inv r ->
  (cc_Enabled (rc_ClusterConfig (r_config r)) = true -> r_clusterMembershipDirty r = false) ->
  visible_to site r pid ps = Some vis -> x ∈ vis -> is_Some (r_players r !! x) /\ x <> pid.
Proof.
  intros Hinv Hfresh Hvis Hx. rewrite <- elem_of_dom. unfold visible_to in Hvis.
  destruct (cc_Enabled _) eqn:He.
  - injection Hvis as <-. destruct (ri_clusters _ Hinv) as [Hp Hd]. specialize (Hd (Hfresh eq_refl)).
    unfold cluster_visible in Hx.
    destruct (co_Assignments (r_clusterOutput r) !! pid) as [c |]; [| by apply not_elem_of_nil in Hx].
    apply list_elem_of_filter in Hx as [Hne Hx]. split; [| done].
    apply Hd, elem_of_dom. exists c. apply (po_agree _ Hp).
    destruct (co_Clusters (r_clusterOutput r) !! c) as [l |]; [eauto | by apply not_elem_of_nil in Hx].
  - apply bind_Some in Hvis as (ids & Hq & [= <-]). apply list_elem_of_filter in Hx as [Hne Hx].
    split; [| done]. destruct (ri_spatial _ Hinv) as (Hsi & Hdom & _).
    apply (query_radius_members _ _ _ _ _ _ Hsi Hq) in Hx as (_ & _ & p & _ & Hg & _).
    rewrite <- Hdom. apply elem_of_dom. unfold Spatial.Get in Hg.
    apply fmap_Some in Hg as (e & He' & _). eauto.
Qed.

(** [visible_to] reads only parts of the room that a broadcast leaves alone. *)
Lemma visible_to_ext site r r' pid ps :
  r_config r' = r_config r -> r_clusterOutput r' = r_clusterOutput r ->
  r_interestMgr r' = r_interestMgr r -> r_spatial r' = r_spatial r ->
  visible_to site r' pid ps = visible_to site r pid ps.
Proof.
  intros H1 H2 H3 H4. unfold visible_to, cluster_visible, radius_visible. by rewrite H1, H2, H3, H4.
Qed.

Lemma broadcast_frame site r t r' out :
  broadcast site r t = Some (r', out) ->
  exists res, buildDeltaBatches site r t = Some res /\
    r' = set_dirtyPlayers (set_snapshotCache r (r_snapshotCache res.1)) ∅ /\
    out = if r_broadcaster r && negb (bool_decide (size res.2 = 0%nat)) then Some res.2 else None.
Proof.
  intros (res & Hb & -> & ->)%broadcast_Some. exists res. split; [done |].
  destruct (buildDeltaBatches_frame site r t res Hb) as [cache ->]. done.
Qed.

(** The versions a session's snapshot holds after its delta was built. *)
Lemma session_delta_versions site r t i vis snap pid :
  (forall x, x ∈ vis -> is_Some (r_players r !! x)) ->
  cs_VisiblePlayers (session_delta site r t i vis snap).1 !! pid =
  if decide (pid ∈ vis) then p_Version <$> r_players r !! pid else None.
Proof.
  intros Hv. unfold session_delta. rewrite build_snapshot. case_decide as Hd; [| done].
  unfold sent_version. by destruct (Hv pid Hd) as [p ->].
Qed.

(** ** Claims *)

(** C36: With positive rates the room broadcasts at a fixed cadence: among any
    [TickRateHz / BroadcastRateHz] consecutive ticks (one, when the broadcast
    rate is at least the tick rate) exactly one is a broadcast tick, up to the
    wrap-around of the 32-bit tick counter. *)
Theorem broadcast_cadence r (t : Z) :
  let T := rc_TickRateHz (r_config r) in
  let B := rc_BroadcastRateHz (r_config r) in
  0 < B -> 0 < T < 2 ^ 32 ->
  let ratio := if T <=? B then 1 else T / B in
  0 <= t -> t + ratio <= 2 ^ 32 ->
  exists i, 0 <= i < ratio /\ isBroadcastTick r (t + i) = true /\
    forall j, 0 <= j < ratio -> isBroadcastTick r (t + j) = true -> j = i.
Proof.
  intros T B HB HT ratio Ht Hr. unfold isBroadcastTick. fold T B.
  rewrite (proj2 (Z.leb_gt B 0)), (proj2 (Z.leb_gt T 0)) by lia. simpl.
  unfold ratio in *. destruct (Z.leb_spec T B) as [Hle | Hgt].
  { exists 0. split_and!; try done; lia. }
  rewrite Z.quot_div_nonneg by lia.
  assert (1 <= T / B <= T) as Hq.
  { split; [apply Z.div_le_lower_bound; lia | apply Z.div_le_upper_bound; nia]. }
  rewrite u32_small by lia. rewrite (proj2 (Z.eqb_neq (T / B) 0)) by lia.
  set (q := T / B) in *. exists ((- t) mod q).
  pose proof (Z.mod_pos_bound (- t) q ltac:(lia)) as Hm. split; [done |]. split.
  - apply Z.eqb_eq. rewrite Zplus_mod_idemp_r. replace (t + - t) with 0 by lia. apply Z.mod_0_l. lia.
  - intros j Hj Hb%Z.eqb_eq. rewrite <- (Z.mod_small j q) by lia.
    replace j with ((t + j) + - t) at 1 by lia. rewrite <- Zplus_mod_idemp_l, Hb. done.
Qed.

(** When clustering is on, its configuration valid, the interval positive
    and the movement threshold not negative, the end of every tick leaves no
    recompute pending, and the clusters a broadcast uses mention only players
    who are in the room. *)
Theorem clusters_fresh_after_tick (alloc : A) (spec : RoomSpec) s (site : list nat) (t : Z) r' out :
  reachable alloc spec s -> finishTick site (sys_room s) t = Some (r', out) ->
  let cfg := rc_ClusterConfig (r_config (sys_room s)) in
  cc_Enabled cfg = true -> validateConfig cfg = None ->
  0 < u32 (cc_ReclusterIntervalTicks cfg) -> fgt f32_zero (cc_MovementThreshold cfg) = false ->
  shouldRecomputeCluster r' t = false /\
  dom (co_Assignments (r_clusterOutput r')) ⊆ dom (r_players r') /\
  partition_ok (r_clusterOutput r').
Proof.
  intros Hr Hf cfg He Hv Hi Hm. pose proof (sv_room _ (reachable_inv _ _ _ Hr)) as Hinv.
  destruct (finishTick_inv _ _ _ _ _ Hinv Hf) as (r1 & Hrd & Hcase).
  destruct (rd_fresh _ _ _ Hrd He Hv) as (Hd & Hint & Hmv).
  assert (shouldRecomputeCluster r1 t = false) as Hsh.
  { unfold shouldRecomputeCluster. rewrite (rd_config _ _ _ Hrd). fold cfg. rewrite He. simpl.
    rewrite (proj2 (Z.leb_gt _ _)).
    - fold cfg in Hmv. destruct Hmv as [Hmv | ->]; [rewrite Hmv, Hm |]; done.
    - destruct Hint as [Hint | ->]; [done |]. rewrite Z.sub_diag. done. }
  destruct (ri_clusters _ (rd_inv _ _ _ Hrd)) as [Hp Hdom]. specialize (Hdom Hd).
  destruct (isBroadcastTick (sys_room s) t); [| by destruct Hcase as [-> _]].
  by apply broadcast_frame in Hcase as (res & _ & -> & _).
Qed.
End broadcast.
