(* ===== verification/RoomClients.v ===== *)
(** * Clients of a room

    Composes the room, its deltas and a client that applies them: over any
    interleaving, every broadcast leaves every attached client with exactly
    the current transforms of the players visible to it.  The clients are
    ghost state; the room never reads them. *)

From Stdlib Require Import ZArith Lia.
From stdpp Require Import base strings gmap fin_maps list relations.
From S2P Require Import Prelude.
From S2P Require Import GoFloat.
From S2P Require Import Player.
From S2P Require Import Object.
From S2P Require Import ObjectFacts.
From S2P Require Import Spatial.
From S2P Require Import Delta.
From S2P Require Import DeltaFacts.
From S2P Require Import Cluster.
From S2P Require Import ClusterFacts.
From S2P Require Import Room.
From S2P Require Import RoomFacts.
From S2P Require Import RoomSystem.
From S2P Require Import RoomBroadcast.

Local Open Scope string_scope.
Local Open Scope Z_scope.
Local Open Scope list_scope.

(** ** What the clients hold *)

Definition views := SessionID -> client_view.

Definition receive (b : Batches) (v : views) : views := fun sid =>
  match b !! sid with
  | Some batch => from_option (apply_delta (v sid)) (v sid) (db_PlayerDelta batch)
  | None => v sid
  end.

(** After a step: attached clients have received what was broadcast during
    it; a client that is not attached holds nothing. *)
Definition observe {A} (s s' : RoomSys A) (v : views) : views := fun sid =>
  match r_activeSessions (sys_room s') !! sid with
  | None => ∅
  | Some _ =>
      foldl (fun v b => receive b v) v (drop (length (sys_sent s)) (sys_sent s')) sid
  end.

(** The steps under which versions identify transforms: a player ID joins only
    when no client still knows it, a player moves less than 2^32 times, and a
    broadcaster is set. *)
Definition careful {A} (l : Label) (s : RoomSys A) : Prop :=
  let r := sys_room s in
  match l with
  | LHandle _ _ =>
      match r_commands r with
      | cmd :: _ =>
          match cmd_Kind cmd with
          | CmdJoin => map_Forall (fun _ snap =>
              cs_VisiblePlayers snap !! cmd_PlayerID cmd = None) (r_snapshotCache r)
          | CmdPlayerInput | CmdUpdatePlayerTransform =>
              from_option (fun p => p_Version p < 2 ^ 32 - 1) True (r_players r !! cmd_PlayerID cmd)
          | _ => True
          end
      | [] => True
      end
  | LTickEnd _ => r_broadcaster r = true
  | _ => True
  end.

#[global] Instance careful_dec {A} l (s : RoomSys A) : Decision (careful l s).
Proof.
  destruct l; simpl; repeat case_match; try apply _;
    (destruct (r_players (sys_room s) !! _); simpl; apply _).
Defined.

(** ** The relation between players, snapshots and clients *)

Definition snapshot_agrees (hist : history) (players : gmap PlayerID PlayerState)
    (snap : ClientSnapshot) (v : client_view) : Prop :=
  in_sync hist snap v /\
  forall pid ver p, cs_VisiblePlayers snap !! pid = Some ver -> players !! pid = Some p ->
    ver <= p_Version p.

Definition agree (players : gmap PlayerID PlayerState) (cache : SnapshotCache) (v : views) : Prop :=
  exists hist, consistent hist players /\
    (forall pid p, players !! pid = Some p -> 0 <= p_Version p) /\
    forall sid, match cache !! sid with
                | None => v sid = ∅
                | Some snap => snapshot_agrees hist players snap (v sid)
                end.

Definition record (hist : history) (pid : PlayerID) (ver : Z) (t : PlayerTransform) : history :=
  fun pid' ver' => if decide (pid' = pid /\ ver' = ver) then t else hist pid' ver'.

Lemma record_same hist pid ver t : record hist pid ver t pid ver = t.
Proof. unfold record. by rewrite decide_True. Qed.

Lemma record_other hist pid ver t pid' ver' :
  pid' <> pid \/ ver' <> ver -> record hist pid ver t pid' ver' = hist pid' ver'.
Proof. intros H. unfold record. rewrite decide_False; [done |]. tauto. Qed.

Lemma agree_cut players cache v v' :
  (forall sid, v' sid = match cache !! sid with None => ∅ | Some _ => v sid end) ->
  agree players cache v -> agree players cache v'.
Proof.
  intros Hv (hist & Hc & Hn & Ha). exists hist. split_and!; [done | done |].
  intros sid. specialize (Ha sid). rewrite Hv. by destruct (cache !! sid).
Qed.

(** A new player whose ID no client knows. *)
Lemma agree_join players cache v pid p sid :
  (forall sid snap, cache !! sid = Some snap -> cs_VisiblePlayers snap !! pid = None) ->
  0 <= p_Version p -> agree players cache v ->
  agree (<[pid := p]> players) (SnapshotCache.GetOrCreate cache sid).1 v.
Proof.
  intros Hfresh Hp (hist & Hc & Hn & Ha).
  exists (record hist pid (p_Version p) (p_Transform p)). split_and!.
  - intros pid' p'. rewrite lookup_insert_Some. intros [[<- <-] | [Hne Hp']].
    + by rewrite record_same.
    + rewrite record_other by auto. by apply Hc.
  - intros pid' p'. rewrite lookup_insert_Some. intros [[_ <-] | [_ Hp']]; eauto.
  - intros sid'. specialize (Ha sid').
    assert (match cache !! sid' with
      | None => v sid' = ∅
      | Some snap => snapshot_agrees (record hist pid (p_Version p) (p_Transform p)) (<[pid := p]> players) snap (v sid')
      end) as Hold.
    { destruct (cache !! sid') as [snap |] eqn:Hs; [| done]. destruct Ha as [Hsync Hle].
      pose proof (Hfresh _ _ Hs) as Hno. split.
      - intros x. rewrite Hsync. destruct (cs_VisiblePlayers snap !! x) as [ver |] eqn:Hx; [| done].
        simpl. rewrite record_other; [done |]. left. congruence.
      - intros x ver p' Hx. rewrite lookup_insert_ne by congruence. by apply Hle. }
    unfold SnapshotCache.GetOrCreate. destruct (cache !! sid) eqn:Hs; simpl; [done |].
    destruct (decide (sid = sid')) as [<- | Hne].
    + rewrite lookup_insert_eq. rewrite Hs in Hold. split; [| done].
      intros x. by rewrite Hold.
    + by rewrite lookup_insert_ne.
Qed.

Lemma agree_detach players cache v pid sid :
  agree players cache v ->
  agree (delete pid players) (delete sid cache) (fun x => if decide (x = sid) then ∅ else v x).
Proof.
  intros (hist & Hc & Hn & Ha). exists hist. split_and!.
  - intros x p. rewrite lookup_delete_Some. intros [_ H]. eauto.
  - intros x p. rewrite lookup_delete_Some. intros [_ H]. eauto.
  - intros sid'. destruct (decide (sid' = sid)) as [-> | Hne]; [by rewrite lookup_delete_eq |].
    rewrite lookup_delete_ne by done. specialize (Ha sid').
    destruct (cache !! sid') as [snap |]; [| done]. destruct Ha as [Hsync Hle]. split; [done |].
    intros x ver p Hx. rewrite lookup_delete_Some. intros [_ Hp]. eauto.
Qed.

Lemma agree_update players cache v pid p t tick now :
  players !! pid = Some p -> p_Version p < 2 ^ 32 - 1 -> agree players cache v ->
  agree (<[pid := Player.UpdateTransform p t tick now]> players) cache v.
Proof.
  intros Hp Hlt (hist & Hc & Hn & Ha). set (p' := Player.UpdateTransform p t tick now).
  assert (p_Version p' = p_Version p + 1) as Hv.
  { apply UpdateTransform_Version. pose proof (Hn _ _ Hp). lia. }
  clearbody p'.
  exists (record hist pid (p_Version p') (p_Transform p')). split_and!.
  - intros x q. rewrite lookup_insert_Some. intros [[<- <-] | [Hne Hq]].
    + by rewrite record_same.
    + rewrite record_other by auto. by apply Hc.
  - intros x q. rewrite lookup_insert_Some. intros [[_ <-] | [_ Hq]]; [| eauto].
    pose proof (Hn _ _ Hp). lia.
  - intros sid. specialize (Ha sid). destruct (cache !! sid) as [snap |]; [| done].
    destruct Ha as [Hsync Hle]. split.
    + intros x. rewrite Hsync. destruct (cs_VisiblePlayers snap !! x) as [ver |] eqn:Hx; [| done].
      simpl. rewrite record_other; [done |]. destruct (decide (x = pid)) as [-> |]; [| by left].
      right. pose proof (Hle _ _ _ Hx Hp). lia.
    + intros x ver q Hx. rewrite lookup_insert_Some. intros [[<- <-] | [_ Hq]]; [| eauto].
      pose proof (Hle _ _ _ Hx Hp). lia.
Qed.

Section clients.
Context {A : Type} `{ALLOC : !ClusterAllocator A} `{LAWS : !ClusterAllocatorLaws A} `{GR : !GoRange}.
Implicit Types (r : Room A) (s : RoomSys A).

Definition agrees r (v : views) : Prop := agree (r_players r) (r_snapshotCache r) v.

Lemma agree_session_delta hist site r t i vis snap w :
  consistent hist (r_players r) -> in_sync hist snap w ->
  let d := session_delta site r t i vis snap in
  snapshot_agrees hist (r_players r) d.1 (apply_delta w d.2).
Proof.
  intros Hc Hs. cbv zeta. unfold session_delta. split; [by apply in_sync_build |].
  intros x ver p. rewrite build_snapshot. case_decide; [| done]. unfold sent_version.
  intros Hx Hp. rewrite Hp in Hx. injection Hx as <-. lia.
Qed.

Lemma agree_broadcast site r t v res :
  agrees r v -> buildDeltaBatches site r t = Some res ->
  agree (r_players r) (r_snapshotCache res.1) (receive res.2 v).
Proof.
  intros (hist & Hc & Hn & Ha) Hbuild. exists hist. split_and!; [done | done |].
  intros sid. specialize (Ha sid). destruct (buildDeltaBatches_session site r t res sid Hbuild) as [H1 H2].
  assert ((forall att, r_activeSessions r !! sid = Some att -> r_players r !! att_playerID att = None) \/
    exists att ps, r_activeSessions r !! sid = Some att /\ r_players r !! att_playerID att = Some ps)
    as [Hnone | (att & ps & Hatt & Hps)].
  { destruct (r_activeSessions r !! sid) as [att |]; [| by left].
    destruct (r_players r !! att_playerID att) as [ps |] eqn:Hps; [right; eauto |].
    left. by intros ? [= <-]. }
  - destruct (H2 Hnone) as [-> Hb]. unfold receive. by rewrite Hb.
  - destruct (H1 att ps Hatt Hps) as (i & vis & _ & Hcache & Hb). rewrite Hcache.
    unfold receive. rewrite Hb. simpl. apply agree_session_delta; [done |].
    destruct (r_snapshotCache r !! sid) as [snap |]; simpl; [apply Ha |].
    intros x. by rewrite Ha.
Qed.

(** ** Steps *)

(** The transform a command moves its player to. *)
Definition moves_to (cmd : RoomCommand) (t : PlayerTransform) : Prop :=
  match cmd_Payload cmd with
  | PayloadInput i => ValidatePlayerInput i = None /\ t = in_Transform i
  | PayloadTransform t' => t = t'
  | _ => False
  end.

(** How a command can change the players and the snapshots. *)
Inductive data_change r (cmd : RoomCommand) (r' : Room A) : Prop :=
  | dc_same : r_players r' = r_players r -> r_snapshotCache r' = r_snapshotCache r -> data_change r cmd r'
  | dc_join p : cmd_Kind cmd = CmdJoin -> p_Version p = 0 ->
      p_Transform p = MkPlayerTransform origin IdentityQuaternion 0 ->
      r_players r' = <[cmd_PlayerID cmd := p]> (r_players r) ->
      r_snapshotCache r' = (SnapshotCache.GetOrCreate (r_snapshotCache r) (cmd_SessionID cmd)).1 ->
      data_change r cmd r'
  | dc_detach pid : r_players r' = delete pid (r_players r) ->
      r_snapshotCache r' = delete (cmd_SessionID cmd) (r_snapshotCache r) -> data_change r cmd r'
  | dc_update p t tick now :
      cmd_Kind cmd = CmdPlayerInput \/ cmd_Kind cmd = CmdUpdatePlayerTransform -> moves_to cmd t ->
      r_players r !! cmd_PlayerID cmd = Some p ->
      r_players r' = <[cmd_PlayerID cmd := Player.UpdateTransform p t tick now]> (r_players r) ->
      r_snapshotCache r' = r_snapshotCache r -> data_change r cmd r'.

Lemma applyTransform_change r cmd t tick now :
  cmd_Kind cmd = CmdPlayerInput \/ cmd_Kind cmd = CmdUpdatePlayerTransform -> moves_to cmd t ->
  data_change r cmd (applyTransform r (cmd_PlayerID cmd) t tick now).
Proof.
  intros Hk Hm. unfold applyTransform. destruct (r_players r !! cmd_PlayerID cmd) as [p |] eqn:Hp.
  - apply (dc_update _ _ _ p t tick now); try done; by destruct (fgt _ _).
  - by apply dc_same.
Qed.

Lemma handleCommand_change site r cmd t now : data_change r cmd (handleCommand site r cmd t now).
Proof.
  unfold handleCommand. destruct (cmd_Kind cmd) eqn:Hk.
  - unfold handleJoin. destruct (_ && _); [by apply dc_same |].
    apply (dc_join _ _ _ (SetStatus (NewPlayerState (cmd_PlayerID cmd) (cmd_UserID cmd)
      (cmd_Timestamp cmd)) PlayerStatusActive)); try done;
      by destruct (negb (String.eqb (cmd_UserID cmd) "")).
  - unfold handleLeave. destruct (_ !! _) as [att |] eqn:Ha; [| by apply dc_same].
    apply (dc_detach _ _ _ (cmd_PlayerID cmd)); unfold detach;
      by destruct (negb (String.eqb (att_userID att) "")).
  - unfold handleDisconnect. destruct (_ !! _) as [att |] eqn:Ha; [| by apply dc_same].
    apply (dc_detach _ _ _ (att_playerID att)); unfold detach;
      by destruct (negb (String.eqb (att_userID att) "")).
  - unfold handlePlayerInput. destruct (cmd_Payload cmd) as [| i | |] eqn:Hp; try (by apply dc_same).
    destruct (ValidatePlayerInput i) eqn:Hv; [by apply dc_same |].
    apply applyTransform_change; [by left |]. unfold moves_to. by rewrite Hp.
  - unfold handleUpdatePlayerTransform. destruct (cmd_Payload cmd) eqn:Hp; try (by apply dc_same).
    apply applyTransform_change; [by right |]. unfold moves_to. by rewrite Hp.
  - unfold handleLockAcquire. case_match; by apply dc_same.
  - unfold handleLockRefresh. case_match; by apply dc_same.
  - unfold handleLockRelease. case_match; by apply dc_same.
  - unfold handleObjectUpdate. case_match; by apply dc_same.
  - by apply dc_same.
Qed.

(** On a consistent room, [observe] can be read off the snapshots. *)
Lemma observe_cache s s' v sid :
  room_inv (sys_room s') ->
  observe s s' v sid =
  match r_snapshotCache (sys_room s') !! sid with
  | None => ∅
  | Some _ => foldl (fun v b => receive b v) v (drop (length (sys_sent s)) (sys_sent s')) sid
  end.
Proof.
  intros Hinv. unfold observe. pose proof (ri_cache _ Hinv) as Hc.
  assert (is_Some (r_snapshotCache (sys_room s') !! sid) <->
          is_Some (r_activeSessions (sys_room s') !! sid)) as Hiff by by rewrite <- !elem_of_dom, Hc.
  destruct (r_activeSessions (sys_room s') !! sid), (r_snapshotCache (sys_room s') !! sid); try done;
    exfalso; destruct Hiff as [H1 H2]; [destruct H2 | destruct H1]; by eauto.
Qed.

(** Steps that broadcast nothing. *)
Lemma agrees_quiet s s' v v0 :
  room_inv (sys_room s') -> sys_sent s' = sys_sent s ->
  agrees (sys_room s') v0 ->
  (forall sid, is_Some (r_snapshotCache (sys_room s') !! sid) -> v0 sid = v sid) ->
  agrees (sys_room s') (observe s s' v).
Proof.
  intros Hinv Hsent Ha Heq. apply (agree_cut _ _ v0); [| done]. intros sid.
  rewrite observe_cache by done. rewrite Hsent, drop_all. simpl.
  destruct (r_snapshotCache (sys_room s') !! sid) eqn:Hs; [| done]. symmetry. apply Heq. by rewrite Hs.
Qed.

Lemma agrees_same_data s s' v :
  room_inv (sys_room s') -> sys_sent s' = sys_sent s ->
  r_players (sys_room s') = r_players (sys_room s) ->
  r_snapshotCache (sys_room s') = r_snapshotCache (sys_room s) ->
  agrees (sys_room s) v -> agrees (sys_room s') (observe s s' v).
Proof.
  intros Hinv Hsent Hp Hc Ha. apply (agrees_quiet _ _ _ v); [done | done | | done].
  unfold agrees. by rewrite Hp, Hc.
Qed.

Lemma agrees_handle r cmd cmds t b sent site now v :
  r_commands r = cmd :: cmds -> room_inv r ->
  let s := MkSys r (LoopDraining t) b sent in
  let s' := MkSys (handleCommand site (set_commands r cmds) cmd t now) (LoopDraining t) b sent in
  room_inv (sys_room s') -> careful (LHandle site now) s -> agrees r v -> agrees (sys_room s') (observe s s' v).
Proof.
  intros Hcmds Hinv s s' Hinv' Hcare Ha. unfold careful in Hcare. simpl in Hcare. rewrite Hcmds in Hcare.
  destruct (handleCommand_change site (set_commands r cmds) cmd t now)
    as [Hp Hc | p Hk Hv Hpt Hp Hc | pid Hp Hc | p t' tick' now' Hk Hm Hpl Hp Hc]; simpl in Hp, Hc.
  - by apply agrees_same_data.
  - rewrite Hk in Hcare. apply (agrees_quiet _ _ _ v); [done | done | | done].
    unfold agrees. simpl. rewrite Hp, Hc. apply agree_join; [done | lia | done].
  - apply (agrees_quiet _ _ _ (fun x => if decide (x = cmd_SessionID cmd) then ∅ else v x)); [done | done | |].
    + unfold agrees. simpl. rewrite Hp, Hc. by apply agree_detach.
    + intros sid. simpl. rewrite Hc. intros [snap Hs]. apply lookup_delete_Some in Hs as [Hne _].
      by rewrite decide_False by done.
  - apply (agrees_quiet _ _ _ v); [done | done | | done].
    unfold agrees. simpl in *. rewrite Hp, Hc. apply agree_update; [done | | done].
    destruct Hk as [Hk | Hk]; rewrite Hk in Hcare; by rewrite Hpl in Hcare.
Qed.

Lemma agrees_tick_end r t b sent site r' out v :
  room_inv r -> room_inv r' -> finishTick site r t = Some (r', out) -> r_broadcaster r = true ->
  let s := MkSys r (LoopDraining t) b sent in
  let s' := MkSys r' LoopIdle b (sent ++ sent_by out) in
  agrees r v -> agrees r' (observe s s' v).
Proof.
  intros Hinv Hinv' Hf Hbc s s' Ha.
  destruct (finishTick_inv _ _ _ _ _ Hinv Hf) as (r1 & Hrd & Hcase).
  assert (agrees r1 v) as Ha1
    by (unfold agrees; by rewrite (rd_players _ _ _ Hrd), (rd_cache _ _ _ Hrd)).
  destruct (isBroadcastTick r t).
  2:{ destruct Hcase as [-> ->]. apply (agrees_quiet s s' v v); try done.
      simpl. by rewrite app_nil_r. }
  apply broadcast_frame in Hcase as (res & Hbuild & -> & ->).
  pose proof (agree_broadcast (3%nat :: site) r1 t v res Ha1 Hbuild) as Hb.
  unfold agrees. simpl.
  eapply agree_cut; [| exact Hb]. intros sid. rewrite observe_cache by done. simpl.
  rewrite drop_app_length, (rd_broadcaster _ _ _ Hrd), Hbc. destruct (r_snapshotCache _ !! sid); [| done].
  destruct (bool_decide _) eqn:Hsz; simpl; [| done].
  apply bool_decide_eq_true_1, map_size_empty_inv in Hsz. unfold receive. by rewrite Hsz, lookup_empty.
Qed.

(** A run of the system watched by its clients. *)
Inductive watched (alloc : A) (spec : RoomSpec) : RoomSys A -> views -> Prop :=
  | watched_init : watched alloc spec (init_sys alloc spec) (fun _ => ∅)
  | watched_step l s s' v : watched alloc spec s v -> careful l s -> step l s s' ->
      watched alloc spec s' (observe s s' v).

Lemma agrees_step l s s' v :
  sys_inv s -> careful l s -> step l s s' -> agrees (sys_room s) v -> agrees (sys_room s') (observe s s' v).
Proof.
  intros Hinv Hcare Hs Ha. pose proof (sv_room _ Hinv) as Hr.
  pose proof (step_room_inv _ _ _ Hs Hr) as Hr'.
  destruct Hs as [r b sent pd Hst | r l b sent | r l b sent | r b sent Hst | r sent Hti | r b sent site now Hti
    | r t b sent cmd cmds site now Hcm | r t b sent site r' out Hcm Hf | r l b sent cmd | r l b sent cmd Hst
    | r l b sent id k t | r b sent]; try (by apply agrees_same_data).
  - apply agrees_same_data; try done; simpl; unfold Start; by case_decide.
  - apply agrees_same_data; try done; simpl; unfold StopBegin; by destruct (r_status r).
  - by apply (agrees_handle r cmd cmds t b sent site now v).
  - by apply (agrees_tick_end r t b sent site r' out v).
  - destruct (Enqueue_frame r cmd) as [cmds He]. apply agrees_same_data; try done; simpl; by rewrite He.
  - destruct (Enqueue_send_frame r cmd) as [cmds He]. apply agrees_same_data; try done; simpl; by rewrite He.
  - destruct (CreateObject_frame r id k t) as [lm He].
    apply agrees_same_data; try done; simpl; by rewrite He.
Qed.

(** Runs the system and its clients together, checking each step. *)
Fixpoint watch (ls : list Label) s (v : views) : option (RoomSys A * views) :=
  match ls with
  | [] => Some (s, v)
  | l :: ls' =>
      if decide (careful l s) then
        match exec l s with
        | Some s' => watch ls' s' (observe s s' v)
        | None => None
        end
      else None
  end.

Lemma watch_watched alloc spec ls s v s' v' :
  watched alloc spec s v -> watch ls s v = Some (s', v') -> watched alloc spec s' v'.
Proof.
  revert s v. induction ls as [| l ls IH]; intros s v Hw; simpl.
  - by intros [= <- <-].
  - case_decide as Hc; [| done]. destruct (exec l s) as [s1 |] eqn:He; [| done].
    apply IH. apply exec_step in He. by eapply watched_step.
Qed.

Lemma watched_inv alloc spec s v : watched alloc spec s v -> sys_inv s /\ agrees (sys_room s) v.
Proof.
  induction 1 as [| l s s' v Hw [Hinv Ha] Hcare Hs].
  - split; [apply sys_inv_init |]. exists (fun _ _ => MkPlayerTransform origin IdentityQuaternion 0).
    split_and!; intros *; simpl; rewrite ?lookup_empty; done.
  - split; [by eapply step_sys_inv | by eapply agrees_step].
Qed.

Lemma view_after_broadcast (alloc : A) (spec : RoomSpec) r (t : Z) (b : bool) (sent : list Batches)
    (v : views) (site : list nat) s' (sid : SessionID) (att : sessionAttachment) (ps : PlayerState) :
  let s := MkSys r (LoopDraining t) b sent in
  watched alloc spec s v -> r_broadcaster r = true -> step (LTickEnd site) s s' ->
  isBroadcastTick r t = true ->
  (cc_Enabled (rc_ClusterConfig (r_config r)) = true ->
   validateConfig (rc_ClusterConfig (r_config r)) = None) ->
  let r' := sys_room s' in
  r_activeSessions r' !! sid = Some att -> r_players r' !! att_playerID att = Some ps ->
  exists (site' : list nat) (visible : list PlayerID),
    visible_to site' r' (att_playerID att) ps = Some visible /\
    (forall pid, pid ∈ visible -> is_Some (r_players r' !! pid) /\ pid <> att_playerID att) /\
    forall pid, observe s s' v sid !! pid =
      if decide (pid ∈ visible) then Player.Snapshot <$> r_players r' !! pid else None.
Proof.
  intros s Hw Hbc Hs Hbt Hval r' Hatt Hps.
  destruct (watched_inv _ _ _ _ Hw) as [Hinv Ha].
  pose proof (agrees_step (LTickEnd site) _ _ _ Hinv Hbc Hs Ha) as Ha'.
  pose proof (sv_room _ Hinv) as Hr. simpl in Hr, Ha.
  inversion Hs as [| | | | | | | r0 t0 b0 sent0 site0 r1' out Hcm Hf | | | |]; subst.
  simpl in r', Ha'. subst r'. clear Hs.
  destruct (finishTick_inv _ _ _ _ _ Hr Hf) as (r1 & Hrd & Hcase). rewrite Hbt in Hcase.
  apply broadcast_frame in Hcase as (res & Hbuild & -> & _). simpl in Hatt, Hps.
  destruct (buildDeltaBatches_session (3%nat :: site) r1 t res sid Hbuild) as [H1 _].
  destruct (H1 att ps Hatt Hps) as (i & vis & Hv & Hsnap & _). cbv zeta in Hsnap.
  exists (0%nat :: i :: 3%nat :: site), vis. rewrite (visible_to_ext _ r1) by done. split; [done |].
  assert (forall pid, pid ∈ vis ->
    is_Some (r_players r1 !! pid) /\ pid <> att_playerID att) as Hvis.
  { intros pid. eapply visible_to_players; [apply Hrd | | exact Hv]. rewrite (rd_config _ _ _ Hrd).
    intros He. by apply (rd_fresh _ _ _ Hrd He), Hval. }
  split; [done |]. intros pid. simpl.
  destruct Ha' as (hist & Hc & _ & Ha'). specialize (Ha' sid). simpl in Ha'. 
  rewrite Hsnap in Ha'. destruct Ha' as [Hsync _]. rewrite Hsync.
  rewrite session_delta_versions by (intros; by apply Hvis).
  case_decide as Hd; [| done]. destruct (Hvis pid Hd) as [[p Hp] _]. rewrite Hp. simpl.
  by rewrite <- (Hc _ _ Hp).
Qed.

(** C1: In every run in which no player joins under an ID a client still knows,
    no player moves 2^32 times and a broadcaster is set: after every broadcast
    tick, in any interleaving, each attached client whose player is in the room
    holds exactly the players visible to it, each with its current transform and
    version, and nothing stale: no update is lost, no player who left or went
    out of range lingers.  It holds for both interest modes, with a valid
    cluster configuration where clusters are used. *)
Theorem clients_converge (alloc : A) (spec : RoomSpec) r (t : Z) (b : bool) (sent : list Batches)
    (v : views) (site : list nat) s' (sid : SessionID) (att : sessionAttachment) (ps : PlayerState) :
  let s := MkSys r (LoopDraining t) b sent in
  watched alloc spec s v -> r_broadcaster r = true -> step (LTickEnd site) s s' ->
  isBroadcastTick r t = true ->
  (cc_Enabled (rc_ClusterConfig (r_config r)) = true ->
   validateConfig (rc_ClusterConfig (r_config r)) = None) ->
  let r' := sys_room s' in
  r_activeSessions r' !! sid = Some att -> r_players r' !! att_playerID att = Some ps ->
  exists (site' : list nat) (visible : list PlayerID),
    visible_to site' r' (att_playerID att) ps = Some visible /\
    (forall pid, pid ∈ visible -> is_Some (r_players r' !! pid) /\ pid <> att_playerID att) /\
    forall pid, observe s s' v sid !! pid =
      if decide (pid ∈ visible) then Player.Snapshot <$> r_players r' !! pid else None.
Proof. apply view_after_broadcast. Qed.
End clients.
