(* ===== verification/RoomWitness.v ===== *)
(** * Concrete rooms

    Runs of the room system that exhibit the situations the room theorems are
    about, and the counterexamples that show where their assumptions matter. *)

From Stdlib Require Import ZArith Lia.
From stdpp Require Import base strings gmap fin_maps list relations.
From S2P Require Import Prelude.
From S2P Require Import GoFloat.
From S2P Require Import Player.
From S2P Require Import Object.
From S2P Require Import Spatial.
From S2P Require Import Delta.
From S2P Require Import DeltaFacts.
From S2P Require Import Cluster.
From S2P Require Import ClusterFacts.
From S2P Require Import Room.
From S2P Require Import RoomFacts.
From S2P Require Import RoomSystem.
From S2P Require Import RoomTheorems.
From S2P Require Import RoomBroadcast.
From S2P Require Import RoomClients.

Local Open Scope string_scope.
Local Open Scope Z_scope.
Local Open Scope list_scope.

Module RoomExample.

#[local] Existing Instance canonical_range.

Abbreviation KRoom := (Room KMeansClusterAllocator).
Abbreviation KSys := (RoomSys KMeansClusterAllocator).

Definition spec : RoomSpec := MkRoomSpec "expo" "expo-0001" DefaultRoomConfig.

Definition init : KSys := init_sys NewKMeansClusterAllocator spec.

Definition join (sid pid uid : string) : RoomCommand :=
  MkRoomCommand CmdJoin sid pid uid PayloadNone 100.

Definition leave (sid pid : string) : RoomCommand :=
  MkRoomCommand CmdLeave sid pid "" PayloadNone 100.

Definition disconnect (sid : string) : RoomCommand :=
  MkRoomCommand CmdDisconnect sid "" "" PayloadNone 100.

Definition place_at (x : Z) : PlayerTransform :=
  MkPlayerTransform (MkVector3 (f32_of_Z x) f32_zero f32_zero) IdentityQuaternion 0.

Definition move (sid pid : string) (x : Z) : RoomCommand :=
  MkRoomCommand CmdUpdatePlayerTransform sid pid "" (PayloadTransform (place_at x)) 100.

Definition tick_with (n : nat) : list Label :=
  [LTickBegin [] 0] ++ replicate n (LHandle [] 0) ++ [LTickEnd []].

Definition enqueue_all (cmds : list RoomCommand) : list Label := LEnqueue <$> cmds.

(** Two players join; the first broadcast tick is about to end. *)
Definition two_players : list Label :=
  [LSetBroadcaster; LStart false] ++
  enqueue_all [join "s1" "pA" "uA"; join "s2" "pB" "uB"] ++ tick_with 2 ++
  enqueue_all [move "s2" "pB" 1] ++ [LTickBegin [] 0; LHandle [] 0].

Definition mid_tick : KSys := default init (run two_players init).

(** The same room after [Stop] was called. *)
Definition stopping : KSys := default init (run (two_players ++ [LStopBegin]) init).

Lemma reachable_run ls s : run ls init = Some s -> reachable NewKMeansClusterAllocator spec s.
Proof. intros H. exists ls. by apply run_steps. Qed.

Lemma run_default ls :
  is_Some (run ls init) -> run ls init = Some (default init (run ls init)).
Proof. by intros [s ->]. Qed.

Lemma reachable_default ls :
  is_Some (run ls init) -> reachable NewKMeansClusterAllocator spec (default init (run ls init)).
Proof. intros H. eapply reachable_run. by apply run_default. Qed.

Lemma mid_tick_reachable : reachable NewKMeansClusterAllocator spec mid_tick.
Proof. apply reachable_default. apply (bool_decide_unpack _). vm_compute. exact I. Qed.

Lemma stopping_reachable : reachable NewKMeansClusterAllocator spec stopping.
Proof. apply reachable_default. apply (bool_decide_unpack _). vm_compute. exact I. Qed.

End RoomExample.

Import RoomExample.
#[local] Existing Instance canonical_range.

Lemma room_consistent_witness :
  r_playerCount (sys_room mid_tick) = 2 /\
  dom (r_snapshotCache (sys_room mid_tick)) = dom (r_activeSessions (sys_room mid_tick)).
Proof.
  split; [vm_compute; reflexivity |].
  apply (room_consistent NewKMeansClusterAllocator spec mid_tick mid_tick_reachable).
Defined.

(** The default radius and cell size, whether clusters are used or not. *)
Lemma spec_fits : loop_fits (rs_Config spec).
Proof. split; [vm_compute; discriminate |]. right. vm_compute. split; [discriminate | reflexivity]. Qed.

Lemma stop_terminates_witness :
  exists ls s', steps ls stopping s' /\ r_status (sys_room s') = RoomStatusClosed.
Proof.
  destruct (stop_terminates NewKMeansClusterAllocator spec stopping spec_fits stopping_reachable)
    as (ls & s' & Hs & _ & _ & Hc).
  - vm_compute. reflexivity.
  - exists ls, s'. split; [exact Hs | exact Hc].
Defined.

(** More than 10^9 ticks a second: the interval of the ticker is zero. *)
Definition fast_spec : RoomSpec :=
  MkRoomSpec "expo" "expo-0002" (MkRoomConfig 200 2000000000 10 256 (f32_of_Z 10) (f32_of_Z 30)
    DefaultLockLease DefaultClusterConfig).

Lemma no_ticker_no_step ls (s s' : KSys) :
  steps ls s s' -> sys_loop s = LoopIdle -> tickInterval (sys_room s) <= 0 ->
  sys_loop s' = LoopIdle /\ tickInterval (sys_room s') <= 0.
Proof.
  induction 1 as [| ls l s1 s2 s3 _ IH Hs]; intros Hl Ht; [done |].
  destruct (IH Hl Ht) as [Hl2 Ht2]. clear IH.
  destruct Hs as [| | r l b sent | | r sent Hti | r b sent site now Hti | | | r l b sent cmd | r l b sent cmd Hst
    | r l b sent id k t |]; simpl in *; try done; try lia.
  - split; [done |]. unfold StopBegin. by destruct (r_status r).
  - destruct (Enqueue_frame r cmd) as [cmds ->]. by split.
  - destruct (Enqueue_send_frame r cmd) as [cmds ->]. by split.
  - destruct (CreateObject_frame r id k t) as [lm ->]. by split.
Qed.

(** [time.NewTicker] panics for such a room, so a [Stop] of it never gets to the
    end of the loop it waits for. *)
Lemma fast_ticker_blocks_stop :
  exists s, reachable NewKMeansClusterAllocator fast_spec s /\
    r_status (sys_room s) = RoomStatusDraining /\
    forall ls s', steps ls s s' -> r_status (sys_room s') <> RoomStatusClosed.
Proof.
  destruct (run [LStart false; LStopBegin] (init_sys NewKMeansClusterAllocator fast_spec)) as [s |] eqn:Hr;
    [| exfalso; revert Hr; vm_compute; discriminate].
  assert (sys_loop s = LoopIdle /\ tickInterval (sys_room s) <= 0 /\ r_status (sys_room s) = RoomStatusDraining)
    as (Hl & Ht & Hst) by (revert Hr; vm_compute; intros [= <-]; done).
  apply run_steps in Hr.
  exists s. split; [by eexists |]. split; [done |]. intros ls s' Hs Hc.
  destruct (no_ticker_no_step ls s s' Hs Hl Ht) as [Hl' _].
  assert (sys_inv s') as Hinv by (eapply steps_sys_inv; [exact Hs |]; eapply steps_sys_inv; [exact Hr |]; apply sys_inv_init).
  pose proof (sv_life _ Hinv) as Hlife. by rewrite Hc, Hl' in Hlife.
Qed.

Lemma lifecycle_monotone_and_closed_frozen_witness :
  (status_rank (r_status (sys_room mid_tick)) <= status_rank (r_status (sys_room stopping)))%nat.
Proof.
  apply (lifecycle_monotone_and_closed_frozen NewKMeansClusterAllocator spec mid_tick stopping [LStopBegin]).
  - exact mid_tick_reachable.
  - apply steps_one, exec_step. vm_compute. reflexivity.
Defined.

(** A caller that found the room running can be told that its command was
    taken when the room is closed, and nothing will ever handle it. *)
Definition late_run : list Label :=
  [LStart false; LStopBegin; LExit; LStopEnd; LEnqueueLate (join "s1" "pA" "uA")].

Lemma late_command_stranded :
  exists s, run late_run (init_sys NewKMeansClusterAllocator spec) = Some s /\
    r_status (sys_room s) = RoomStatusClosed /\ length (r_commands (sys_room s)) = 1%nat /\
    forall ls s', steps ls s s' -> r_commands (sys_room s) `prefix_of` r_commands (sys_room s').
Proof.
  destruct (run late_run (init_sys NewKMeansClusterAllocator spec)) as [s |] eqn:Hr;
    [| exfalso; revert Hr; vm_compute; discriminate].
  assert (r_status (sys_room s) = RoomStatusClosed) as Hc by (revert Hr; vm_compute; by intros [= <-]).
  exists s. split_and!; [done | done | by revert Hr; vm_compute; intros [= <-] |].
  intros ls s' Hs. apply run_steps in Hr.
  eapply (steps_frozen ls s s' Hs); [| done]. by eapply steps_sys_inv, sys_inv_init.
Qed.

Lemma duplicate_join_rejected_witness :
  handleCommand [] (sys_room mid_tick) (join "s3" "pC" "uA") 2 0 = sys_room mid_tick.
Proof.
  apply duplicate_join_rejected; [reflexivity | discriminate | vm_compute; reflexivity].
Defined.

Lemma disconnect_cleans_up_witness :
  HasSession (handleCommand [] (sys_room mid_tick) (disconnect "s2") 2 0) "s2" = false.
Proof.
  apply (disconnect_cleans_up (sys_room mid_tick) (disconnect "s2") (MkAttachment "pB" "uB")).
  - reflexivity.
  - vm_compute. reflexivity.
Defined.

Lemma join_disconnect_roundtrip_witness :
  r_players (handleDisconnect [] (handleJoin (sys_room mid_tick) (join "s3" "pC" "uC")) (join "s3" "pC" "uC") 0)
  = r_players (sys_room mid_tick).
Proof.
  apply (join_disconnect_roundtrip (sys_room mid_tick) (join "s3" "pC" "uC") [] 0).
  - apply (sv_room _ (reachable_inv _ _ _ mid_tick_reachable)).
  - vm_compute. reflexivity.
  - vm_compute. reflexivity.
  - right. vm_compute. reflexivity.
  - replace (r_playerCount (sys_room mid_tick)) with 2 by (vm_compute; reflexivity). lia.
Defined.

(** ** Accounting *)

Definition fresh_room : KRoom := newRoom spec.

Lemma accounts_newRoom sp : accounts (newRoom sp).
Proof.
  split; simpl.
  - reflexivity.
  - intros sid att. by rewrite lookup_empty.
  - intros sid1 sid2 att1 att2. by rewrite lookup_empty.
  - intros pid [p Hp]. by rewrite lookup_empty in Hp.
Qed.

Definition three_commands : list RoomCommand :=
  [join "s1" "pA" "uA"; join "s2" "pB" "uB"; leave "s1" "pA"].

Lemma player_accounting_witness :
  accounts (drain_loop three_commands 0 [] fresh_room 1 (fun _ => 0)) /\
  r_playerCount (drain_loop three_commands 0 [] fresh_room 1 (fun _ => 0)) = 1.
Proof.
  split; [| vm_compute; reflexivity]. apply player_accounting.
  - apply accounts_newRoom.
  - vm_compute. repeat split.
Defined.

(** ** Cadence and clusters *)

Lemma broadcast_cadence_witness :
  exists i, 0 <= i < 2 /\ isBroadcastTick fresh_room (5 + i) = true.
Proof.
  destruct (broadcast_cadence fresh_room 5) as (i & Hi & Hb & _).
  - vm_compute. reflexivity.
  - split; vm_compute; reflexivity.
  - vm_compute. discriminate.
  - vm_compute. discriminate.
  - exists i. split; [exact Hi | exact Hb].
Defined.

Lemma clusters_fresh_after_tick_witness :
  exists r' out, finishTick [] (sys_room mid_tick) 2 = Some (r', out) /\
    shouldRecomputeCluster r' 2 = false.
Proof.
  destruct (finishTick_total [] (sys_room mid_tick) 2) as [[r' out] Hf].
  { left. vm_compute. reflexivity. }
  exists r', out. split; [exact Hf |].
  apply (clusters_fresh_after_tick NewKMeansClusterAllocator spec mid_tick [] 2 r' out mid_tick_reachable Hf);
    vm_compute; reflexivity.
Defined.

(** ** Clients *)

Definition isSome {B} (o : option B) : bool := match o with Some _ => true | None => false end.

Definition no_views : views := fun _ => ∅.

Definition watched_mid : KSys * views := default (init, no_views) (watch two_players init no_views).

Lemma watched_mid_ok : watched NewKMeansClusterAllocator spec watched_mid.1 watched_mid.2.
Proof.
  apply (watch_watched _ _ two_players init no_views); [apply watched_init |].
  assert (isSome (watch two_players init no_views) = true) as H by (vm_compute; reflexivity).
  unfold watched_mid. by destruct (watch two_players init no_views) as [[s v] |].
Qed.

Lemma sys_eta (s : KSys) t :
  sys_loop s = LoopDraining t -> s = MkSys (sys_room s) (LoopDraining t) (sys_ctxDone s) (sys_sent s).
Proof. destruct s. simpl. by intros ->. Qed.

Definition mid_room : KRoom := sys_room watched_mid.1.

Lemma mid_end :
  exists r' out, finishTick [] mid_room 2 = Some (r', out) /\
    r_activeSessions r' = r_activeSessions mid_room /\ r_players r' = r_players mid_room.
Proof.
  destruct (finishTick_total [] mid_room 2) as [[r' out] Hf].
  { left. vm_compute. reflexivity. }
  exists r', out. destruct (finishTick_frame _ _ _ _ _ Hf) as (_ & _ & _ & _ & _ & Ha & Hp & _).
  exact (conj Hf (conj Ha Hp)).
Qed.

Lemma clients_converge_witness :
  exists s' site' visible, r_activeSessions (sys_room s') !! "s1" = Some (MkAttachment "pA" "uA") /\
    visible_to site' (sys_room s') "pA"
      (default (NewPlayerState "" "" 0) (r_players mid_room !! "pA")) = Some visible /\
    forall pid, observe watched_mid.1 s' watched_mid.2 "s1" !! pid =
      if decide (pid ∈ visible) then Player.Snapshot <$> r_players (sys_room s') !! pid else None.
Proof.
  destruct mid_end as (r' & out & Hf & Ha & Hp).
  assert (watched_mid.1 = MkSys mid_room (LoopDraining 2) (sys_ctxDone watched_mid.1) (sys_sent watched_mid.1))
    as Heta by (apply sys_eta; vm_compute; reflexivity).
  set (s' := MkSys r' LoopIdle (sys_ctxDone watched_mid.1) (sys_sent watched_mid.1 ++ sent_by out)).
  assert (r_activeSessions r' !! "s1" = Some (MkAttachment "pA" "uA")) as Hs
    by (rewrite Ha; vm_compute; reflexivity).
  exists s'.
  destruct (clients_converge NewKMeansClusterAllocator spec mid_room 2 (sys_ctxDone watched_mid.1)
    (sys_sent watched_mid.1) watched_mid.2 [] s' "s1" (MkAttachment "pA" "uA")
    (default (NewPlayerState "" "" 0) (r_players mid_room !! "pA"))) as (site' & visible & Hvis & _ & Hview).
  - rewrite <- Heta. exact watched_mid_ok.
  - vm_compute. reflexivity.
  - apply step_tick_end; [vm_compute; reflexivity | exact Hf].
  - vm_compute. reflexivity.
  - intros _. vm_compute. reflexivity.
  - exact Hs.
  - unfold s'. simpl. rewrite Hp. vm_compute. reflexivity.
  - exists site', visible. split; [exact Hs |]. split; [exact Hvis |].
    intros pid. rewrite Heta at 1. apply Hview.
Defined.

(** ** Where the assumptions matter *)

(** The system and its clients, without the checks of [careful]. *)
Definition watch_any (ls : list Label) : option (KSys * views) :=
  foldl (fun o l => p ← o; s' ← exec l p.1; Some (s', observe p.1 s' p.2)) (Some (init, no_views)) ls.

(** A player who leaves and rejoins with the same ID between two broadcasts,
    and moves as often as before. *)
Definition rejoin : list Label :=
  two_players ++ [LTickEnd []] ++
  enqueue_all [leave "s2" "pB"; join "s2" "pB" "uB"; move "s2" "pB" 7] ++
  tick_with 3 ++ tick_with 0.

(** When a player ID is reused between two broadcasts, versions no longer
    identify transforms: here the player is seen at x = 1 with version 1,
    leaves, rejoins and moves to x = 7, again with version 1; the following
    broadcast sends nothing, and the other client shows x = 1 while the room
    has x = 7. *)
Theorem rejoin_hides_update :
  exists s v, watch_any rejoin = Some (s, v) /\
    isBroadcastTick (sys_room s) (r_currentTick (sys_room s)) = true /\
    PlayerCluster (sys_room s) "pA" = PlayerCluster (sys_room s) "pB" /\
    (option_map (fun tv => (v_X (t_Position tv.1), tv.2)) (GetPlayerState (sys_room s) "pB"))
      = Some (f32_of_Z 7, 1) /\
    (option_map (fun tv => (v_X (t_Position tv.1), tv.2)) (v "s1" !! "pB")) = Some (f32_of_Z 1, 1).
Proof.
  assert (isSome (watch_any rejoin) = true) as Hrun by (vm_compute; reflexivity).
  destruct (watch_any rejoin) as [[s v] |] eqn:H; [| discriminate].
  exists s, v. split; [reflexivity |].
  assert (s = (default (init, no_views) (watch_any rejoin)).1) as -> by by rewrite H.
  assert (v = (default (init, no_views) (watch_any rejoin)).2) as -> by by rewrite H.
  split_and!; vm_compute; reflexivity.
Qed.

(** A room configured for one player. *)
Definition small_room : KRoom :=
  newRoom (MkRoomSpec "expo" "expo-0002" (MkRoomConfig 1 20 10 256 (f32_of_Z 10) (f32_of_Z 30)
    DefaultLockLease DefaultClusterConfig)).

(** [MaxPlayers] is not enforced by the room: a room configured for one
    player admits two. *)
Theorem max_players_not_enforced :
  let r := handleCommand [] (handleCommand [] small_room (join "s1" "pA" "uA") 1 0) (join "s2" "pB" "uB") 1 0 in
  rc_MaxPlayers (r_config r) = 1 /\ PlayerCount r = 2 /\ HasSession r "s1" = true /\ HasSession r "s2" = true.
Proof. vm_compute. done. Qed.

(** Joining again on an attached session under another user is accepted
    and leaves the first user locked out: his index entry keeps naming the
    session and even the end of the session does not free it; the player count
    stays one too high. *)
Theorem rejoin_as_other_user_leaks :
  let r1 := handleCommand [] fresh_room (join "s1" "pA" "uA") 1 0 in
  let r2 := handleCommand [] r1 (join "s1" "pA" "uB") 1 0 in
  let r3 := handleCommand [] r2 (disconnect "s1") 1 0 in
  HasSession r3 "s1" = false /\ HasUser r3 "uB" = false /\ HasUser r3 "uA" = true /\
  PlayerCount r3 = 1 /\ size (r_activeSessions r3) = 0%nat /\
  handleCommand [] r3 (join "s4" "pD" "uA") 2 0 = r3.
Proof.
  cbv zeta. split_and!; try (vm_compute; reflexivity).
Qed.
