(* ===== verification/RoomManager.v ===== *)
(** * Room registry and room manager

    Models [internal/game/room/registry.go] and [manager.go].  The registry
    hands out pointers: the same [*RoomInstance] sits in [instances], in a
    slice of [byLogical] and in the hands of callers, and [MarkClosed] mutates
    it through the first.  The instances therefore live in an explicit heap and
    both indexes hold locations.

    Rooms are shared in the same way: a [*Room] sits in the manager's map, in
    the hands of the callers of [GetRoom] and in the room's own goroutine.  They
    live in the manager's heap, each as the transition system of [RoomSystem];
    [CloseRoom] and [Shutdown] run [Stop] on it, which waits for that system to
    leave its loop. *)

From Stdlib Require Import ZArith Lia Ascii.
From stdpp Require Import base strings gmap fin_maps list.
From S2P Require Import Prelude.
From S2P Require Import Player.
From S2P Require Import Cluster.
From S2P Require Import Room.
From S2P Require Import RoomSystem.

Local Open Scope string_scope.
Local Open Scope Z_scope.

(** ** Registry *)

Record RoomInstance := MkRoomInstance {
  inst_InstanceID : RoomInstanceID;
  inst_LogicalRoomID : LogicalRoomID;
  inst_Status : RoomStatus;
  inst_CreatedAt : Time;
  inst_ClosedAt : option Time }.

Abbreviation loc := nat.

Record Registry := MkRegistry {
  reg_heap : gmap loc RoomInstance;
  reg_next : loc;
  reg_instances : gmap RoomInstanceID loc;
  reg_byLogical : gmap LogicalRoomID (list loc) }.

Inductive RegistryError :=
  | ErrInstanceExists (id : RoomInstanceID)
  | ErrInstanceNotFound (id : RoomInstanceID).

Module Registry.

Definition NewInMemoryRoomRegistry : Registry := MkRegistry ∅ 0 ∅ ∅.

Definition CreateRoom (r : Registry) (spec : RoomSpec) (now : Time)
    : Registry * (RegistryError + loc) :=
  match reg_instances r !! rs_InstanceID spec with
  | Some _ => (r, inl (ErrInstanceExists (rs_InstanceID spec)))
  | None =>
      let l := reg_next r in
      let inst := MkRoomInstance (rs_InstanceID spec) (rs_LogicalRoomID spec) RoomStatusCreated now None in
      (MkRegistry (<[l := inst]> (reg_heap r)) (S l)
         (<[rs_InstanceID spec := l]> (reg_instances r))
         (<[rs_LogicalRoomID spec :=
              (default [] (reg_byLogical r !! rs_LogicalRoomID spec) ++ [l])%list]> (reg_byLogical r)),
       inr l)
  end.

Definition GetRoom (r : Registry) (id : RoomInstanceID) : RegistryError + loc :=
  match reg_instances r !! id with
  | None => inl (ErrInstanceNotFound id)
  | Some l => inr l
  end.

(** A copy of the slice; the pointers in it are shared. *)
Definition ListInstances (r : Registry) (logical : LogicalRoomID) : list loc :=
  default [] (reg_byLogical r !! logical).

Definition MarkClosed (r : Registry) (id : RoomInstanceID) (now : Time)
    : Registry * option RegistryError :=
  match reg_instances r !! id with
  | None => (r, Some (ErrInstanceNotFound id))
  | Some l =>
      (MkRegistry
         (alter (fun i => MkRoomInstance (inst_InstanceID i) (inst_LogicalRoomID i) RoomStatusClosed
                            (inst_CreatedAt i) (Some now)) l (reg_heap r))
         (reg_next r) (reg_instances r) (reg_byLogical r), None)
  end.

End Registry.

(** ** Instance IDs *)

(** [%04d] of an unsigned 64-bit number, which has at most 20 digits. *)
Definition format_04d (n : Z) : string :=
  let ds := digits 20 n [] in
  String.string_of_list_ascii (digit_char <$> (replicate (4 - length ds) 0 ++ ds)%list).

(** ** Manager *)

(** A room with its loop goroutine. *)
Abbreviation MRoom := (RoomSys KMeansClusterAllocator).

Record RoomManager := MkRoomManager {
  rm_registry : Registry;
  rm_config : RoomConfig;
  rm_heap : gmap loc MRoom;
  rm_next : loc;
  rm_rooms : gmap RoomInstanceID loc;
  rm_instanceCounter : Z }.

Inductive ManagerError :=
  | ErrRegister (e : RegistryError)
  | ErrStart (e : StartError)
  | ErrRoomNotFound (id : RoomInstanceID).

Module RoomManager.

Definition NewRoomManager (registry : Registry) (cfg : RoomConfig) : RoomManager :=
  MkRoomManager registry cfg ∅ 0 ∅ 0.

Definition generateInstanceID (m : RoomManager) (logical : LogicalRoomID)
    : RoomManager * RoomInstanceID :=
  let n := u64 (rm_instanceCounter m + 1) in
  (MkRoomManager (rm_registry m) (rm_config m) (rm_heap m) (rm_next m) (rm_rooms m) n,
   logical +:+ "-" +:+ format_04d n).

Definition set_registry (m : RoomManager) (r : Registry) : RoomManager :=
  MkRoomManager r (rm_config m) (rm_heap m) (rm_next m) (rm_rooms m) (rm_instanceCounter m).

Definition set_rooms (m : RoomManager) (rs : gmap RoomInstanceID loc) : RoomManager :=
  MkRoomManager (rm_registry m) (rm_config m) (rm_heap m) (rm_next m) rs (rm_instanceCounter m).

Definition set_heap (m : RoomManager) (h : gmap loc MRoom) : RoomManager :=
  MkRoomManager (rm_registry m) (rm_config m) h (rm_next m) (rm_rooms m) (rm_instanceCounter m).

(** [&Room{...}] *)
Definition alloc_room (m : RoomManager) (s : MRoom) : RoomManager :=
  MkRoomManager (rm_registry m) (rm_config m) (<[rm_next m := s]> (rm_heap m)) (S (rm_next m))
    (rm_rooms m) (rm_instanceCounter m).

(** [now] and [now'] are the clock readings of the registry calls, [ctxDone]
    whether the caller's context is already cancelled, which the context of the
    tick loop inherits.  The result is the pointer of the running room. *)
Definition CreateRoomWithBroadcaster (m : RoomManager) (logical : LogicalRoomID) (broadcaster : bool)
    (ctxDone : bool) (now now' : Time) : RoomManager * (ManagerError + loc) :=
  let '(m, id) := generateInstanceID m logical in
  let spec := MkRoomSpec logical id (rm_config m) in
  match Registry.CreateRoom (rm_registry m) spec now with
  | (reg, inl e) => (set_registry m reg, inl (ErrRegister e))
  | (reg, inr _) =>
      let m := set_registry m reg in
      let l := rm_next m in
      match Start (SetBroadcaster (newRoom spec) broadcaster) with
      | (r, Some e) =>
          let m := alloc_room m (MkSys r LoopNotStarted false []) in
          (set_registry m (Registry.MarkClosed (rm_registry m) id now').1, inl (ErrStart e))
      | (r, None) =>
          let m := alloc_room m (MkSys r LoopIdle ctxDone []) in
          (set_rooms m (<[id := l]> (rm_rooms m)), inr l)
      end
  end.

Definition CreateRoom (m : RoomManager) (logical : LogicalRoomID) (ctxDone : bool) (now now' : Time)
    : RoomManager * (ManagerError + loc) :=
  CreateRoomWithBroadcaster m logical false ctxDone now now'.

Definition GetRoom (m : RoomManager) (id : RoomInstanceID) : ManagerError + loc :=
  match rm_rooms m !! id with
  | None => inl (ErrRoomNotFound id)
  | Some l => inr l
  end.

Section stopping.
Context `{GR : !GoRange}.

(** [room.Stop()] followed by [registry.MarkClosed], as [CloseRoom] and
    [Shutdown] do it to a room they removed from the map; [None] while [Stop]
    has not returned. *)
Definition stop_and_mark (m : RoomManager) (id : RoomInstanceID) (l : loc)
    (sched : list Label) (now : Time) : option RoomManager :=
  s ← rm_heap m !! l;
  s ← Stop sched s;
  let m := set_heap m (<[l := s]> (rm_heap m)) in
  Some (set_registry m (Registry.MarkClosed (rm_registry m) id now).1).

Definition CloseRoom (m : RoomManager) (id : RoomInstanceID) (sched : list Label) (now : Time)
    : option (RoomManager * option ManagerError) :=
  match rm_rooms m !! id with
  | None => Some (m, Some (ErrRoomNotFound id))
  | Some l =>
      let m := set_rooms m (delete id (rm_rooms m)) in
      m ← stop_and_mark m id l sched now;
      Some (m, None)
  end.

Fixpoint stop_all (rooms : list (RoomInstanceID * loc)) (m : RoomManager)
    (sched : RoomInstanceID -> list Label) (now : RoomInstanceID -> Time) : option RoomManager :=
  match rooms with
  | [] => Some m
  | (id, l) :: rooms' =>
      m ← stop_and_mark m id l (sched id) (now id);
      stop_all rooms' m sched now
  end.

(** The copy of the map is ranged over after the manager has forgotten every
    room; each room has its own schedule and clock reading. *)
Definition Shutdown (site : list nat) (m : RoomManager) (sched : RoomInstanceID -> list Label)
    (now : RoomInstanceID -> Time) : option RoomManager :=
  let rooms := rm_rooms m in
  stop_all (range site rooms) (set_rooms m ∅) sched now.
End stopping.

Definition ActiveRoomCount (m : RoomManager) : nat := size (rm_rooms m).

End RoomManager.
