(* ===== verification/RoomManagerFacts.v ===== *)
(** * Correctness of the room registry and manager

    Instance IDs never repeat, so creating a room cannot fail before the
    64-bit counter wraps; the registry's two indexes describe the same shared
    records; live rooms are exactly the registered instances that are not
    closed, and a shutdown closes them all. *)

From Stdlib Require Import ZArith Lia Ascii.
From stdpp Require Import base strings gmap fin_maps list.
From S2P Require Import Prelude.
From S2P Require Import Player.
From S2P Require Import Cluster.
From S2P Require Import Room.
From S2P Require Import ClusterFacts.
From S2P Require Import RoomFacts.
From S2P Require Import RoomSystem.
From S2P Require Import RoomTheorems.
From S2P Require Import RoomManager.

Local Open Scope string_scope.
Local Open Scope Z_scope.
Local Open Scope list_scope.

(** ** Decimal numerals *)

Definition dec_value (ds : list Z) : Z := foldl (fun a d => 10 * a + d) 0 ds.

Lemma dec_value_app ds a : foldl (fun a d => 10 * a + d) a ds = a * 10 ^ Z.of_nat (length ds) + dec_value ds.
Proof.
  unfold dec_value. revert a. induction ds as [| d ds IH]; intros a; [simpl; lia |].
  cbn [foldl length]. rewrite (IH (10 * a + d)), (IH (10 * 0 + d)).
  rewrite Nat2Z.inj_succ, Z.pow_succ_r by lia. ring.
Qed.

Lemma digits_value fuel n acc :
  0 <= n < 10 ^ Z.of_nat fuel ->
  dec_value (digits fuel n acc) = n * 10 ^ Z.of_nat (length acc) + dec_value acc.
Proof.
  revert n acc. induction fuel as [| fuel IH]; intros n acc Hn; simpl.
  { simpl in Hn. assert (n = 0) as -> by lia. lia. }
  rewrite Nat2Z.inj_succ, Z.pow_succ_r in Hn by lia.
  pose proof (Z.div_mod n 10 ltac:(lia)) as Hdm.
  assert (dec_value (n mod 10 :: acc) = (n mod 10) * 10 ^ Z.of_nat (length acc) + dec_value acc) as Hc.
  { unfold dec_value at 1. simpl. by rewrite dec_value_app. }
  destruct (Z.eqb_spec (n / 10) 0) as [H0 | H0].
  - rewrite Hc. rewrite H0 in Hdm. rewrite <- Hdm at 1. done.
  - rewrite IH.
    + rewrite Hc. simpl length. rewrite Nat2Z.inj_succ, Z.pow_succ_r by lia. rewrite Hdm at 3. ring.
    + split; [apply Z.div_pos; lia | apply Z.div_lt_upper_bound; lia].
Qed.

Lemma digits_range fuel n acc :
  Forall (fun d => 0 <= d < 10) acc -> Forall (fun d => 0 <= d < 10) (digits fuel n acc).
Proof.
  revert n acc. induction fuel as [| fuel IH]; intros n acc Ha; simpl; [done |].
  assert (Forall (fun d => 0 <= d < 10) (n mod 10 :: acc)) as Hc
    by (constructor; [apply Z.mod_pos_bound; lia | done]).
  case_match; [done | by apply IH].
Qed.

Lemma dec_value_zeros k ds : dec_value (replicate k 0 ++ ds) = dec_value ds.
Proof. unfold dec_value. rewrite foldl_app. f_equal. by induction k. Qed.

Definition padded (n : Z) : list Z := replicate (4 - length (digits 20 n [])) 0 ++ digits 20 n [].

Lemma padded_value n : 0 <= n < 2 ^ 64 -> dec_value (padded n) = n.
Proof.
  intros Hn. unfold padded. rewrite dec_value_zeros, digits_value; [simpl; unfold dec_value; simpl; lia |].
  simpl. lia.
Qed.

Lemma padded_range n : Forall (fun d => 0 <= d < 10) (padded n).
Proof.
  unfold padded. apply Forall_app. split; [apply Forall_replicate; lia |]. by apply digits_range.
Qed.

Lemma digit_char_nat d : 0 <= d < 10 -> nat_of_ascii (digit_char d) = (48 + Z.to_nat d)%nat.
Proof. intros Hd. unfold digit_char. apply nat_ascii_embedding. lia. Qed.

Lemma digit_chars_inj ds ds' :
  Forall (fun d => 0 <= d < 10) ds -> Forall (fun d => 0 <= d < 10) ds' ->
  digit_char <$> ds = digit_char <$> ds' -> ds = ds'.
Proof.
  intros Hd. revert ds'. induction Hd as [| d ds Hd _ IH]; intros [| d' ds'] Hd' He; try done.
  apply Forall_cons_1 in Hd' as [Hd0 Hd']. simpl in He. injection He as He1 He2.
  f_equal; [| by apply IH]. apply (f_equal nat_of_ascii) in He1. rewrite !digit_char_nat in He1 by done. lia.
Qed.

Lemma digit_char_not_dash d : 0 <= d < 10 -> digit_char d <> "-"%char.
Proof. intros Hd He%(f_equal nat_of_ascii). rewrite digit_char_nat in He by done. compute in He. lia. Qed.

(** ** Instance IDs are unique *)

(** What follows the last separator determines the whole suffix. *)
Lemma last_sep_unique {B} (x : B) (a a' s s' : list B) :
  x ∉ s -> x ∉ s' -> a ++ x :: s = a' ++ x :: s' -> s = s'.
Proof.
  revert a'. induction a as [| y a IH]; intros [| y' a'] Hs Hs' He; simpl in He.
  - by injection He.
  - injection He as _ He. destruct Hs. rewrite He. set_solver.
  - injection He as _ He. destruct Hs'. rewrite <- He. set_solver.
  - injection He as _ He. by eapply IH.
Qed.

Lemma list_ascii_app a b :
  String.list_ascii_of_string (a +:+ b) = String.list_ascii_of_string a ++ String.list_ascii_of_string b.
Proof. induction a as [| c a IH]; simpl; [done |]. by rewrite IH. Qed.

Lemma format_04d_chars n :
  String.list_ascii_of_string (format_04d n) = digit_char <$> padded n.
Proof. apply String.list_ascii_of_string_of_list_ascii. Qed.

Lemma instance_id_inj logical logical' n n' :
  0 <= n < 2 ^ 64 -> 0 <= n' < 2 ^ 64 ->
  logical +:+ "-" +:+ format_04d n = logical' +:+ "-" +:+ format_04d n' -> n = n'.
Proof.
  intros Hn Hn' He. apply (f_equal String.list_ascii_of_string) in He.
  rewrite !list_ascii_app, !format_04d_chars in He.
  change (String.list_ascii_of_string "-") with ["-"%char] in He. cbn [app] in He.
  assert (forall m, "-"%char ∉ digit_char <$> padded m) as Hno.
  { intros m (d & Hd & Hin)%list_elem_of_fmap.
    pose proof (proj1 (Forall_forall _ _) (padded_range m) d Hin) as Hr. by apply (digit_char_not_dash d). }
  apply last_sep_unique in He; [| apply Hno | apply Hno].
  apply digit_chars_inj in He; [| apply padded_range | apply padded_range].
  rewrite <- (padded_value n), <- (padded_value n') by done. by rewrite He.
Qed.

(** ** Invariant *)

(** Both indexes of the registry describe the heap. *)
Record reg_inv (reg : Registry) : Prop := {
  gi_ids : forall id l, reg_instances reg !! id = Some l ->
    exists inst, reg_heap reg !! l = Some inst /\ inst_InstanceID inst = id;
  gi_heap : forall l inst, reg_heap reg !! l = Some inst ->
    (l < reg_next reg)%nat /\ reg_instances reg !! inst_InstanceID inst = Some l;
  gi_logical : forall lg l, l ∈ Registry.ListInstances reg lg <->
    exists inst, reg_heap reg !! l = Some inst /\ inst_LogicalRoomID inst = lg }.

(** The instance is registered and not closed. *)
Definition open_instance (reg : Registry) (id : RoomInstanceID) : Prop :=
  exists l inst, reg_instances reg !! id = Some l /\ reg_heap reg !! l = Some inst /\
    inst_Status inst <> RoomStatusClosed.

(** A room of the heap: started, consistent, and either live under its own name
    or closed. *)
Record room_ok (m : RoomManager) (l : loc) (s : MRoom) : Prop := {
  ro_next : (l < rm_next m)%nat;
  ro_inv : sys_inv s;
  ro_started : (1 <= status_rank (r_status (sys_room s)))%nat;
  ro_named : is_Some (reg_instances (rm_registry m) !! r_instanceID (sys_room s));
  ro_live : rm_rooms m !! r_instanceID (sys_room s) = Some l \/ r_status (sys_room s) = RoomStatusClosed }.

Record mgr_inv (m : RoomManager) : Prop := {
  mi_counter : 0 <= rm_instanceCounter m < 2 ^ 64;
  mi_reg : reg_inv (rm_registry m);
  mi_named : forall id, is_Some (reg_instances (rm_registry m) !! id) ->
    exists lg k, 1 <= k <= rm_instanceCounter m /\ id = lg +:+ "-" +:+ format_04d k;
  mi_live : forall id, is_Some (rm_rooms m !! id) <-> open_instance (rm_registry m) id;
  mi_rooms : forall id l, rm_rooms m !! id = Some l ->
    exists s, rm_heap m !! l = Some s /\ r_instanceID (sys_room s) = id;
  mi_heap : forall l s, rm_heap m !! l = Some s -> room_ok m l s }.

Lemma reg_inv_new : reg_inv Registry.NewInMemoryRoomRegistry.
Proof.
  split; simpl; intros *; rewrite ?lookup_empty; try done.
  unfold Registry.ListInstances. simpl. rewrite lookup_empty. simpl. rewrite elem_of_nil. split; [done |].
  by intros (inst & Hi & _).
Qed.

(** Closing an instance changes its status at one location, for every holder. *)
Definition close_inst (now : Time) (i : RoomInstance) : RoomInstance :=
  MkRoomInstance (inst_InstanceID i) (inst_LogicalRoomID i) RoomStatusClosed (inst_CreatedAt i) (Some now).

Lemma MarkClosed_heap reg id now l :
  reg_heap (Registry.MarkClosed reg id now).1 !! l =
  if decide (reg_instances reg !! id = Some l) then close_inst now <$> reg_heap reg !! l
  else reg_heap reg !! l.
Proof.
  unfold Registry.MarkClosed. destruct (reg_instances reg !! id) as [l0 |] eqn:Hi; simpl.
  - destruct (decide (l0 = l)) as [-> | Hne].
    + rewrite decide_True by done. apply lookup_alter_eq.
    + rewrite decide_False by congruence. by apply lookup_alter_ne.
  - done.
Qed.

Lemma MarkClosed_index reg id now :
  reg_instances (Registry.MarkClosed reg id now).1 = reg_instances reg /\
  reg_byLogical (Registry.MarkClosed reg id now).1 = reg_byLogical reg /\
  reg_next (Registry.MarkClosed reg id now).1 = reg_next reg.
Proof. unfold Registry.MarkClosed. by case_match. Qed.

Lemma MarkClosed_inst reg id now l inst :
  reg_heap (Registry.MarkClosed reg id now).1 !! l = Some inst ->
  exists inst0, reg_heap reg !! l = Some inst0 /\ inst_InstanceID inst = inst_InstanceID inst0 /\
    inst_LogicalRoomID inst = inst_LogicalRoomID inst0 /\
    (reg_instances reg !! id <> Some l -> inst = inst0).
Proof.
  rewrite MarkClosed_heap. case_decide as Hd.
  - intros (i0 & Hi0 & ->)%fmap_Some. exists i0. by split_and!.
  - intros Hi. eauto.
Qed.

Lemma MarkClosed_lookup reg id now l inst0 :
  reg_heap reg !! l = Some inst0 ->
  exists inst, reg_heap (Registry.MarkClosed reg id now).1 !! l = Some inst /\
    inst_InstanceID inst = inst_InstanceID inst0 /\ inst_LogicalRoomID inst = inst_LogicalRoomID inst0.
Proof. intros H. rewrite MarkClosed_heap, H. case_decide; simpl; eauto. Qed.

Lemma reg_inv_MarkClosed reg id now : reg_inv reg -> reg_inv (Registry.MarkClosed reg id now).1.
Proof.
  intros [H1 H2 H3]. destruct (MarkClosed_index reg id now) as (E1 & E2 & E3). split.
  - intros id' l. rewrite E1. intros Hl. destruct (H1 _ _ Hl) as (i0 & Hi0 & Hid).
    destruct (MarkClosed_lookup reg id now l i0 Hi0) as (i & Hi & Hn & _). exists i. split; [done | congruence].
  - intros l i Hi. destruct (MarkClosed_inst _ _ _ _ _ Hi) as (i0 & Hi0 & Hn & _ & _).
    rewrite E1, E3, Hn. eauto.
  - intros lg l. unfold Registry.ListInstances. rewrite E2. etransitivity; [apply H3 |]. split.
    + intros (i0 & Hi0 & Hlg). destruct (MarkClosed_lookup reg id now l i0 Hi0) as (i & Hi & _ & Hn).
      exists i. split; [done | congruence].
    + intros (i & Hi & Hlg). destruct (MarkClosed_inst _ _ _ _ _ Hi) as (i0 & Hi0 & _ & Hn & _).
      exists i0. split; [done | congruence].
Qed.

(** Marking an instance closed closes it and no other. *)
Lemma open_MarkClosed reg id now id' :
  reg_inv reg ->
  open_instance (Registry.MarkClosed reg id now).1 id' <-> id' <> id /\ open_instance reg id'.
Proof.
  intros Hinv. destruct (MarkClosed_index reg id now) as (E1 & _ & _). unfold open_instance.
  setoid_rewrite E1. setoid_rewrite MarkClosed_heap. split.
  - intros (l & i & Hl & Hi & Hs). case_decide as Hd.
    + apply fmap_Some in Hi as (i0 & _ & ->). done.
    + split; [congruence | eauto 10].
  - intros [Hne (l & i & Hl & Hi & Hs)]. exists l, i. split_and!; [done | | done].
    rewrite decide_False; [done |]. intros Hl'.
    destruct (gi_ids _ Hinv _ _ Hl) as (i1 & Hi1 & <-), (gi_ids _ Hinv _ _ Hl') as (i2 & Hi2 & <-).
    congruence.
Qed.

Lemma CreateRoom_fresh reg spec now :
  reg_instances reg !! rs_InstanceID spec = None ->
  Registry.CreateRoom reg spec now =
  (MkRegistry (<[reg_next reg := MkRoomInstance (rs_InstanceID spec) (rs_LogicalRoomID spec)
      RoomStatusCreated now None]> (reg_heap reg)) (S (reg_next reg))
    (<[rs_InstanceID spec := reg_next reg]> (reg_instances reg))
    (<[rs_LogicalRoomID spec := Registry.ListInstances reg (rs_LogicalRoomID spec) ++ [reg_next reg]]>
      (reg_byLogical reg)), inr (reg_next reg)).
Proof. intros H. unfold Registry.CreateRoom. by rewrite H. Qed.

Lemma reg_inv_CreateRoom reg spec now :
  reg_inv reg -> reg_instances reg !! rs_InstanceID spec = None ->
  reg_inv (Registry.CreateRoom reg spec now).1.
Proof.
  intros [H1 H2 H3] Hf. rewrite CreateRoom_fresh by done. simpl.
  assert (reg_heap reg !! reg_next reg = None) as Hn.
  { destruct (reg_heap reg !! reg_next reg) as [i |] eqn:Hi; [| done]. destruct (H2 _ _ Hi). lia. }
  split; simpl.
  - intros id l. rewrite lookup_insert_Some. intros [[<- <-] | [Hne Hl]].
    + rewrite lookup_insert_eq. eauto.
    + destruct (H1 _ _ Hl) as (i & Hi & Hid). exists i. split; [| done].
      rewrite lookup_insert_ne; [done |]. congruence.
  - intros l i. rewrite lookup_insert_Some. intros [[<- <-] | [Hne Hi]]; simpl.
    + rewrite lookup_insert_eq. split; [lia | done].
    + destruct (H2 _ _ Hi) as [Hlt Hl]. split; [lia |]. rewrite lookup_insert_ne; [done |]. congruence.
  - intros lg l. unfold Registry.ListInstances at 1. simpl.
    destruct (decide (lg = rs_LogicalRoomID spec)) as [-> | Hne].
    + rewrite lookup_insert_eq. simpl. rewrite elem_of_app, list_elem_of_singleton, H3. split.
      * intros [(i & Hi & Hlg) | ->]; [| rewrite lookup_insert_eq; eauto].
        exists i. split; [| done]. rewrite lookup_insert_ne; [done |]. congruence.
      * intros (i & Hi & Hlg). apply lookup_insert_Some in Hi as [[-> _] | [_ Hi]]; [auto | left; eauto].
    + rewrite lookup_insert_ne by done. etransitivity; [apply H3 |]. split.
      * intros (i & Hi & Hlg). exists i. split; [| done]. rewrite lookup_insert_ne; [done |]. congruence.
      * intros (i & Hi & Hlg). apply lookup_insert_Some in Hi as [[_ <-] | [_ Hi]]; [| eauto].
        simpl in Hlg. congruence.
Qed.

Lemma open_CreateRoom reg spec now id :
  reg_inv reg -> reg_instances reg !! rs_InstanceID spec = None ->
  open_instance (Registry.CreateRoom reg spec now).1 id <->
  id = rs_InstanceID spec \/ open_instance reg id.
Proof.
  intros Hinv Hf. rewrite CreateRoom_fresh by done. unfold open_instance. simpl.
  destruct (decide (id = rs_InstanceID spec)) as [-> | Hne].
  - rewrite lookup_insert_eq. split; [auto |]. intros _. eexists _, _. split; [done |].
    rewrite lookup_insert_eq. by split.
  - rewrite (lookup_insert_ne (reg_instances reg)) by done. split.
    + intros (l & i & Hl & Hi & Hs). right. exists l, i. split_and!; [done | | done].
      apply lookup_insert_Some in Hi as [[<- _] | [_ Hi]]; [| done].
      destruct (gi_ids _ Hinv _ _ Hl) as (i' & Hi' & _). destruct (gi_heap _ Hinv _ _ Hi'). lia.
    + intros [-> | (l & i & Hl & Hi & Hs)]; [done |]. exists l, i. split_and!; [done | | done].
      rewrite lookup_insert_ne; [done |]. destruct (gi_heap _ Hinv _ _ Hi). lia.
Qed.

(** ** Operations of the manager *)

(** Calls on the manager, and the steps the rooms take in between, by their
    loops or by whoever holds their pointers. *)
Inductive ManagerOp :=
  | OpCreateRoom (logical : LogicalRoomID) (broadcaster ctxDone : bool) (now now' : Time)
  | OpCloseRoom (id : RoomInstanceID) (sched : list Label) (now : Time)
  | OpShutdown (site : list nat) (sched : RoomInstanceID -> list Label) (now : RoomInstanceID -> Time)
  | OpRoom (l : loc) (lab : Label).

Section manager.
Context `{GR : !GoRange}.

(** [None]: the call does not return under its schedule, or the room cannot take
    the step. *)
Definition manager_step (op : ManagerOp) (m : RoomManager) : option RoomManager :=
  match op with
  | OpCreateRoom lg b c now now' => Some (RoomManager.CreateRoomWithBroadcaster m lg b c now now').1
  | OpCloseRoom id sched now => fst <$> RoomManager.CloseRoom m id sched now
  | OpShutdown site sched now => RoomManager.Shutdown site m sched now
  | OpRoom l lab =>
      s ← rm_heap m !! l; s ← exec lab s; Some (RoomManager.set_heap m (<[l := s]> (rm_heap m)))
  end.

Fixpoint manager_run (ops : list ManagerOp) (m : RoomManager) : option RoomManager :=
  match ops with
  | [] => Some m
  | op :: ops' => m ← manager_step op m; manager_run ops' m
  end.

(** The next instance ID has never been used. *)
Lemma next_id_fresh m lg :
  mgr_inv m -> rm_instanceCounter m < 2 ^ 64 - 1 ->
  reg_instances (rm_registry m) !! (lg +:+ "-" +:+ format_04d (rm_instanceCounter m + 1)) = None.
Proof.
  intros Hinv Hlt. destruct (reg_instances _ !! _) eqn:Hl; [| done].
  destruct (mi_named _ Hinv (lg +:+ "-" +:+ format_04d (rm_instanceCounter m + 1))) as (lg' & k & Hk & He);
    [by rewrite Hl |].
  pose proof (mi_counter _ Hinv). apply instance_id_inj in He; lia.
Qed.

(** The room a create call starts. *)
Definition started (cfg : RoomConfig) (lg : LogicalRoomID) (id : RoomInstanceID) (b c : bool) : MRoom :=
  MkSys (set_status (SetBroadcaster (newRoom (MkRoomSpec lg id cfg)) b) RoomStatusRunning) LoopIdle c [].

Lemma started_inv cfg lg id b c : sys_inv (started cfg lg id b c).
Proof.
  split; [| done | done]. apply room_inv_set_status, room_inv_set_broadcaster.
  exact (sv_room _ (sys_inv_init NewKMeansClusterAllocator (MkRoomSpec lg id cfg))).
Qed.

Lemma create_eq m lg b c now now' :
  mgr_inv m -> rm_instanceCounter m < 2 ^ 64 - 1 ->
  let id := lg +:+ "-" +:+ format_04d (rm_instanceCounter m + 1) in
  RoomManager.CreateRoomWithBroadcaster m lg b c now now' =
  (MkRoomManager (Registry.CreateRoom (rm_registry m) (MkRoomSpec lg id (rm_config m)) now).1 (rm_config m)
     (<[rm_next m := started (rm_config m) lg id b c]> (rm_heap m)) (S (rm_next m))
     (<[id := rm_next m]> (rm_rooms m)) (rm_instanceCounter m + 1), inr (rm_next m)).
Proof.
  intros Hinv Hlt id. pose proof (next_id_fresh m lg Hinv Hlt) as Hf. fold id in Hf.
  unfold RoomManager.CreateRoomWithBroadcaster, RoomManager.generateInstanceID.
  assert (u64 (rm_instanceCounter m + 1) = rm_instanceCounter m + 1) as ->.
  { pose proof (mi_counter _ Hinv). apply u64_small. lia. }
  fold id. cbn [rm_config rm_registry].
  rewrite (CreateRoom_fresh (rm_registry m) (MkRoomSpec lg id (rm_config m)) now) by done. done.
Qed.

Lemma mgr_inv_create m lg b c now now' :
  mgr_inv m -> rm_instanceCounter m < 2 ^ 64 - 1 ->
  mgr_inv (RoomManager.CreateRoomWithBroadcaster m lg b c now now').1.
Proof.
  intros Hinv Hlt. rewrite create_eq by done. pose proof (next_id_fresh m lg Hinv Hlt) as Hf.
  pose proof (mi_counter _ Hinv) as Hc.
  set (id := lg +:+ "-" +:+ format_04d (rm_instanceCounter m + 1)) in *.
  set (s0 := started (rm_config m) lg id b c).
  assert (r_instanceID (sys_room s0) = id) as Hid0 by done.
  assert (room_inv (sys_room s0) /\ sys_inv s0) as [_ Hs0] by (split; apply started_inv).
  assert (r_status (sys_room s0) = RoomStatusRunning) as Hst0 by done.
  clearbody s0. set (spec := MkRoomSpec lg id (rm_config m)).
  assert (forall l s, rm_heap m !! l = Some s -> r_instanceID (sys_room s) <> id) as Hnew.
  { intros l s Hs He. destruct (ro_named _ _ _ (mi_heap _ Hinv _ _ Hs)) as [? Hn]. congruence. }
  split; cbn [fst rm_instanceCounter rm_registry rm_rooms rm_heap].
  - lia.
  - by apply reg_inv_CreateRoom; [apply Hinv |].
  - intros id'. rewrite (CreateRoom_fresh _ spec) by done. cbn [fst reg_instances rs_InstanceID spec].
    destruct (decide (id' = id)) as [-> | Hne].
    + intros _. exists lg, (rm_instanceCounter m + 1). split; [lia | done].
    + rewrite lookup_insert_ne by done. intros Hs. destruct (mi_named _ Hinv _ Hs) as (lg' & k & Hk & ->).
      exists lg', k. split; [lia | done].
  - intros id'. rewrite open_CreateRoom by (done || apply Hinv). cbn [rs_InstanceID spec].
    rewrite <- (mi_live _ Hinv). destruct (decide (id' = id)) as [-> | Hne].
    + rewrite lookup_insert_eq. split; [by left | eauto].
    + rewrite lookup_insert_ne by done. split; [by right | by intros [|]].
  - intros id' l. rewrite lookup_insert_Some. intros [[<- <-] | [Hne Hl]].
    + exists s0. by rewrite lookup_insert_eq.
    + destruct (mi_rooms _ Hinv _ _ Hl) as (s & Hs & He). exists s. split; [| done].
      rewrite lookup_insert_ne; [done |]. pose proof (ro_next _ _ _ (mi_heap _ Hinv _ _ Hs)). lia.
  - intros l s. rewrite lookup_insert_Some. intros [[<- <-] | [Hne Hs]].
    + split; cbn [rm_next rm_rooms rm_registry]; [lia | done | rewrite Hst0; simpl; lia | |].
      * rewrite (CreateRoom_fresh _ spec) by done. cbn [fst reg_instances rs_InstanceID spec].
        rewrite Hid0, lookup_insert_eq. eauto.
      * left. by rewrite Hid0, lookup_insert_eq.
    + pose proof (Hnew _ _ Hs) as Hn. destruct (mi_heap _ Hinv _ _ Hs) as [H1 H2 H3 H4 H5].
      split; cbn [rm_next rm_rooms rm_registry]; [lia | done | done | |].
      * rewrite (CreateRoom_fresh _ spec) by done. cbn [fst reg_instances rs_InstanceID spec].
        by rewrite lookup_insert_ne.
      * by rewrite lookup_insert_ne.
Qed.

(** Removing a room from the map, stopping it and closing its instance, as one
    change; [Shutdown] does it to one room after the other. *)
Lemma mgr_inv_stop m id l sched now m' :
  mgr_inv m -> rm_rooms m !! id = Some l ->
  RoomManager.stop_and_mark (RoomManager.set_rooms m (delete id (rm_rooms m))) id l sched now = Some m' ->
  mgr_inv m' /\ rm_rooms m' = delete id (rm_rooms m) /\ rm_instanceCounter m' = rm_instanceCounter m /\
  (exists s', rm_heap m' !! l = Some s' /\ r_status (sys_room s') = RoomStatusClosed) /\
  (forall l', l' <> l -> rm_heap m' !! l' = rm_heap m !! l').
Proof.
  intros Hinv Hl. unfold RoomManager.stop_and_mark. cbn [rm_heap RoomManager.set_rooms].
  intros (s & Hs & (s' & HS & [= <-])%bind_Some)%bind_Some.
  unfold RoomManager.set_registry, RoomManager.set_heap, RoomManager.set_rooms.
  cbn [rm_rooms rm_heap rm_next rm_instanceCounter rm_registry rm_config].
  destruct (Stop_spec _ _ _ (ro_inv _ _ _ (mi_heap _ Hinv _ _ Hs)) HS) as (Hinv' & Hst' & Hid').
  destruct (mi_rooms _ Hinv _ _ Hl) as (s0 & Hs0 & Hid). assert (s0 = s) as -> by congruence.
  destruct (MarkClosed_index (rm_registry m) id now) as (E1 & _ & _).
  split_and!; [| done | done | exists s'; by rewrite lookup_insert_eq
              | intros l' Hne; by rewrite lookup_insert_ne].
  split; cbn [rm_rooms rm_heap rm_instanceCounter rm_registry rm_next].
  - apply Hinv.
  - apply reg_inv_MarkClosed, Hinv.
  - intros id'. rewrite E1. apply Hinv.
  - intros id'. rewrite open_MarkClosed by apply Hinv. rewrite <- (mi_live _ Hinv).
    destruct (decide (id' = id)) as [-> | Hne].
    + rewrite lookup_delete_eq. split; [by intros [] | tauto].
    + rewrite lookup_delete_ne by done. tauto.
  - intros id' l' [Hne Hl']%lookup_delete_Some. destruct (mi_rooms _ Hinv _ _ Hl') as (s1 & Hs1 & Hid1).
    exists s1. split; [| done]. rewrite lookup_insert_ne; [done |]. congruence.
  - intros l' s1. rewrite lookup_insert_Some. intros [[<- <-] | [Hne Hs1]].
    + destruct (mi_heap _ Hinv _ _ Hs) as [H1 _ _ H4 _].
      split; cbn; [done | done | rewrite Hst'; simpl; lia | by rewrite E1, Hid' | by right].
    + destruct (mi_heap _ Hinv _ _ Hs1) as [H1 H2 H3 H4 H5].
      split; cbn; [done | done | done | by rewrite E1 |].
      destruct H5 as [H5 | H5]; [left | by right]. rewrite lookup_delete_ne; [done |]. congruence.
Qed.

Lemma close_run m id sched now m' e :
  mgr_inv m -> RoomManager.CloseRoom m id sched now = Some (m', e) ->
  mgr_inv m' /\ rm_instanceCounter m' = rm_instanceCounter m.
Proof.
  intros Hinv. unfold RoomManager.CloseRoom. destruct (rm_rooms m !! id) as [l |] eqn:Hr; [| by intros [= <- <-]].
  intros (m1 & H1 & [= <- <-])%bind_Some. by destruct (mgr_inv_stop _ _ _ _ _ _ Hinv Hr H1) as (? & _ & ? & _).
Qed.

Lemma stop_and_mark_set_rooms m X Y id l sched now :
  RoomManager.stop_and_mark (RoomManager.set_rooms m Y) id l sched now =
  (fun m' => RoomManager.set_rooms m' Y) <$>
    RoomManager.stop_and_mark (RoomManager.set_rooms m X) id l sched now.
Proof.
  unfold RoomManager.stop_and_mark. cbn [rm_heap RoomManager.set_rooms].
  destruct (rm_heap m !! l) as [s |]; [simpl | done]. by destruct (Stop sched s).
Qed.

Lemma set_rooms_id m : RoomManager.set_rooms m (rm_rooms m) = m.
Proof. by destruct m. Qed.

(** Stopping the rooms of a list that the manager has already forgotten amounts
    to closing them one by one. *)
Lemma stop_all_spec rooms m sched now m' :
  mgr_inv m -> NoDup rooms.*1 -> (forall id l, (id, l) ∈ rooms -> rm_rooms m !! id = Some l) ->
  RoomManager.stop_all rooms (RoomManager.set_rooms m ∅) sched now = Some m' ->
  exists m2, mgr_inv m2 /\ m' = RoomManager.set_rooms m2 ∅ /\
    (forall id, is_Some (rm_rooms m2 !! id) <-> is_Some (rm_rooms m !! id) /\ (id ∉ rooms.*1)) /\
    rm_instanceCounter m2 = rm_instanceCounter m.
Proof.
  revert m. induction rooms as [| [id l] rooms IH]; intros m Hinv Hnd Hin; cbn [RoomManager.stop_all].
  { intros [= <-]. exists m. split_and!; try done. intros id. split; [| tauto]. intros ?. split; [done |].
    apply not_elem_of_nil. }
  apply list.NoDup_cons in Hnd as [Hni Hnd]. intros (m1 & H1 & Hrest)%bind_Some.
  assert (rm_rooms m !! id = Some l) as Hl by (apply Hin; left).
  rewrite (stop_and_mark_set_rooms m (delete id (rm_rooms m))) in H1.
  apply fmap_Some in H1 as (m2 & H2 & ->).
  destruct (mgr_inv_stop _ _ _ _ _ _ Hinv Hl H2) as (Hinv2 & Hr2 & Hc2 & _).
  destruct (IH m2) as (m3 & Hinv3 & -> & Hr3 & Hc3); [done | done | | exact Hrest |].
  { intros id' l' Hin'. rewrite Hr2, lookup_delete_ne; [apply Hin; by right |].
    intros <-. apply Hni, list_elem_of_fmap. by exists (id, l'). }
  exists m3. split_and!; [done | done | | congruence].
  intros id'. rewrite Hr3, Hr2, fmap_cons, not_elem_of_cons. simpl.
  destruct (decide (id' = id)) as [-> | Hne].
  - rewrite lookup_delete_eq. split; [by intros [[] _] | tauto].
  - rewrite lookup_delete_ne by done. tauto.
Qed.

Lemma Shutdown_spec site m sched now m' :
  mgr_inv m -> RoomManager.Shutdown site m sched now = Some m' ->
  mgr_inv m' /\ rm_rooms m' = ∅ /\ rm_instanceCounter m' = rm_instanceCounter m.
Proof.
  intros Hinv HS. unfold RoomManager.Shutdown in HS.
  apply stop_all_spec in HS as (m2 & Hinv2 & -> & Hr & Hc);
    [| done | apply NoDup_fst_range | intros id l; by rewrite elem_of_range].
  assert (rm_rooms m2 = ∅) as He.
  { apply map_empty. intros id. apply eq_None_not_Some. intros [Hs Hn]%Hr. by apply Hn, elem_of_range_fst. }
  rewrite <- He, set_rooms_id. by rewrite He.
Qed.

Lemma mgr_inv_room m l lab s s' :
  mgr_inv m -> rm_heap m !! l = Some s -> exec lab s = Some s' ->
  mgr_inv (RoomManager.set_heap m (<[l := s']> (rm_heap m))).
Proof.
  intros Hinv Hs Hx%exec_step. destruct (mi_heap _ Hinv _ _ Hs) as [H1 H2 H3 H4 H5].
  pose proof (step_instanceID _ _ _ Hx) as Hid. pose proof (step_rank _ _ _ Hx) as Hrank.
  pose proof (step_sys_inv _ _ _ Hx H2) as Hinv'.
  split; cbn; try apply Hinv.
  - intros id l' Hl'. destruct (mi_rooms _ Hinv _ _ Hl') as (s1 & Hs1 & Hid1).
    destruct (decide (l' = l)) as [-> | Hne].
    + exists s'. rewrite lookup_insert_eq. split; [done | congruence].
    + exists s1. by rewrite lookup_insert_ne.
  - intros l' s1. rewrite lookup_insert_Some. intros [[<- <-] | [Hne Hs1]].
    + split; cbn; [done | done | lia | by rewrite Hid |]. rewrite Hid. destruct H5 as [H5 | H5]; [by left | right].
      rewrite H5 in Hrank. destruct (r_status (sys_room s')); simpl in Hrank; lia || done.
    + destruct (mi_heap _ Hinv _ _ Hs1). by split.
Qed.

Lemma manager_step_inv op m m' :
  mgr_inv m -> rm_instanceCounter m < 2 ^ 64 - 1 -> manager_step op m = Some m' ->
  mgr_inv m' /\ rm_instanceCounter m' <= rm_instanceCounter m + 1.
Proof.
  intros Hinv Hlt. destruct op as [lg b c now now' | id sched now | site sched now | l lab]; cbn [manager_step].
  - intros [= <-]. split; [by apply mgr_inv_create |]. rewrite create_eq by done. simpl. lia.
  - intros ([m1 e] & H1 & ->)%fmap_Some. destruct (close_run _ _ _ _ _ _ Hinv H1). simpl. split; [done | lia].
  - intros HS. destruct (Shutdown_spec _ _ _ _ _ Hinv HS) as (? & _ & ?). split; [done | lia].
  - intros (s & Hs & (s' & Hx & [= <-])%bind_Some)%bind_Some. split; [by eapply mgr_inv_room |]. simpl. lia.
Qed.

Lemma mgr_inv_new cfg : mgr_inv (RoomManager.NewRoomManager Registry.NewInMemoryRoomRegistry cfg).
Proof.
  split; simpl.
  - lia.
  - apply reg_inv_new.
  - intros id. rewrite lookup_empty. by intros [].
  - intros id. unfold open_instance. simpl. rewrite !lookup_empty. split; [by intros [] |].
    by intros (l & i & Hl & _).
  - intros id l. by rewrite lookup_empty.
  - intros l s. by rewrite lookup_empty.
Qed.

Lemma manager_run_inv ops m m' :
  mgr_inv m -> rm_instanceCounter m + Z.of_nat (length ops) < 2 ^ 64 -> manager_run ops m = Some m' ->
  mgr_inv m' /\ rm_instanceCounter m' <= rm_instanceCounter m + Z.of_nat (length ops).
Proof.
  revert m. induction ops as [| op ops IH]; intros m Hinv Hlen; cbn [manager_run length] in *.
  { intros [= <-]. split; [done | lia]. }
  intros (m1 & H1 & Hrest)%bind_Some. pose proof (mi_counter _ Hinv) as Hc.
  destruct (manager_step_inv _ _ _ Hinv ltac:(lia) H1) as [Hinv1 Hc1].
  destruct (IH m1) as [H2 H3]; [done | lia | done |]. split; [done | lia].
Qed.

(** ** Stopping completes *)

(** Every room the manager made has a loop that gets on, as its configuration
    makes the next one have. *)
Definition rooms_live (m : RoomManager) : Prop :=
  loop_fits (rm_config m) /\ map_Forall (fun _ s => loop_lives (sys_room s)) (rm_heap m).

Lemma rooms_live_new reg cfg : loop_fits cfg -> rooms_live (RoomManager.NewRoomManager reg cfg).
Proof. intros Hfit. split; [done | apply map_Forall_empty]. Qed.

Lemma rooms_live_set m l (s : MRoom) :
  rooms_live m -> loop_lives (sys_room s) -> rooms_live (RoomManager.set_heap m (<[l := s]> (rm_heap m))).
Proof. intros [Hfit Hm] Hs. split; [done |]. by apply map_Forall_insert_2. Qed.

(** A room fresh from [newRoom]. *)
Lemma rooms_live_made m lg id (b : bool) :
  rooms_live m ->
  loop_lives (Start (SetBroadcaster (newRoom (MkRoomSpec lg id (rm_config m))) b)).1.
Proof.
  intros [Hfit _]. apply (loop_lives_ext (newRoom (MkRoomSpec lg id (rm_config m)))); [done .. |].
  by apply newRoom_loop_lives.
Qed.

Lemma rooms_live_alloc m (s : MRoom) :
  rooms_live m -> loop_lives (sys_room s) -> rooms_live (RoomManager.alloc_room m s).
Proof. intros [Hfit Hm] Hs. split; [done |]. by apply map_Forall_insert_2. Qed.

Lemma Stop_loop_lives sched (s s' : MRoom) :
  Stop sched s = Some s' -> loop_lives (sys_room s) -> loop_lives (sys_room s').
Proof. intros (ls & Hs & _)%Stop_steps. by apply (steps_loop_lives _ _ _ Hs). Qed.

Lemma rooms_live_stop m id l sched now m' :
  RoomManager.stop_and_mark m id l sched now = Some m' -> rooms_live m -> rooms_live m'.
Proof.
  intros (s & Hl & (s' & HS & [= <-])%bind_Some)%bind_Some Hm.
  apply (rooms_live_set m l s' Hm). eapply Stop_loop_lives; [done |]. by apply (proj2 Hm l).
Qed.

Lemma rooms_live_stop_all rooms m sched now m' :
  RoomManager.stop_all rooms m sched now = Some m' -> rooms_live m -> rooms_live m'.
Proof.
  revert m. induction rooms as [| [id l] rooms IH]; intros m; cbn [RoomManager.stop_all].
  - by intros [= <-].
  - intros (m1 & H1 & H2)%bind_Some Hm. eapply IH; [done |]. by eapply rooms_live_stop.
Qed.

Lemma rooms_live_step op m m' : manager_step op m = Some m' -> rooms_live m -> rooms_live m'.
Proof.
  destruct op as [lg b c now now' | id sched now | site sched now | l lab]; cbn [manager_step].
  - intros [= <-] Hm. unfold RoomManager.CreateRoomWithBroadcaster. cbn [RoomManager.generateInstanceID rm_config rm_registry].
    destruct (Registry.CreateRoom _ _ _) as [reg [e | l0]]; [exact Hm |].
    pose proof (rooms_live_made m lg (lg +:+ "-" +:+ format_04d (u64 (rm_instanceCounter m + 1))) b Hm) as Hmade.
    destruct (Start _) as [r [e |]]; cbn [fst] in *; by apply (rooms_live_alloc (RoomManager.set_registry _ reg)).
  - unfold RoomManager.CloseRoom. destruct (rm_rooms m !! id); [| by intros [= <-]].
    intros ([m1 e] & (m2 & H2 & [= <- <-])%bind_Some & ->)%fmap_Some Hm. by eapply rooms_live_stop.
  - intros HS Hm. by eapply rooms_live_stop_all.
  - intros (s & Hs & (s' & Hx%exec_step & [= <-])%bind_Some)%bind_Some Hm. apply rooms_live_set; [done |].
    eapply step_loop_lives; [done |]. by apply (proj2 Hm l).
Qed.

Lemma rooms_live_run ops m m' : manager_run ops m = Some m' -> rooms_live m -> rooms_live m'.
Proof.
  revert m. induction ops as [| op ops IH]; intros m; cbn [manager_run]; [by intros [= <-] |].
  intros (m1 & H1 & H2)%bind_Some Hm. eapply IH; [done |]. by eapply rooms_live_step.
Qed.

Lemma stop_and_mark_returns m id l now :
  mgr_inv m -> rooms_live m -> rm_rooms m !! id = Some l ->
  exists sched m', RoomManager.stop_and_mark (RoomManager.set_rooms m (delete id (rm_rooms m))) id l sched now
    = Some m'.
Proof.
  intros Hinv Hlive Hl. destruct (mi_rooms _ Hinv _ _ Hl) as (s & Hs & _).
  destruct (Stop_returns s (ro_inv _ _ _ (mi_heap _ Hinv _ _ Hs)) (proj2 Hlive _ _ Hs)) as (sched & s' & _ & HS).
  exists sched. eexists. unfold RoomManager.stop_and_mark. cbn [rm_heap RoomManager.set_rooms].
  rewrite Hs. simpl. rewrite HS. reflexivity.
Qed.

Lemma stop_all_ext rooms m f g now :
  (forall id, id ∈ rooms.*1 -> f id = g id) ->
  RoomManager.stop_all rooms m f now = RoomManager.stop_all rooms m g now.
Proof.
  revert m. induction rooms as [| [id l] rooms IH]; intros m Hfg; [done |]. cbn [RoomManager.stop_all].
  rewrite (Hfg id) by (simpl; left). destruct (RoomManager.stop_and_mark m id l (g id) (now id)); [simpl | done].
  apply IH. intros id' Hin. apply Hfg. simpl. by right.
Qed.

Lemma stop_all_returns rooms m now :
  mgr_inv m -> rooms_live m -> NoDup rooms.*1 -> (forall id l, (id, l) ∈ rooms -> rm_rooms m !! id = Some l) ->
  exists sched m', RoomManager.stop_all rooms (RoomManager.set_rooms m ∅) sched now = Some m'.
Proof.
  revert m. induction rooms as [| [id l] rooms IH]; intros m Hinv Hlive Hnd Hin.
  { exists (fun _ => []). by eexists. }
  apply list.NoDup_cons in Hnd as [Hni Hnd].
  assert (rm_rooms m !! id = Some l) as Hl by (apply Hin; left).
  destruct (stop_and_mark_returns m id l (now id) Hinv Hlive Hl) as (sched & m2 & H2).
  pose proof (rooms_live_stop _ _ _ _ _ _ H2 Hlive) as Hlive2.
  destruct (mgr_inv_stop _ _ _ _ _ _ Hinv Hl H2) as (Hinv2 & Hr2 & _).
  destruct (IH m2) as (f & m3 & H3); [done | done | done | |].
  { intros id' l' Hin'. rewrite Hr2, lookup_delete_ne; [apply Hin; by right |].
    intros <-. apply Hni, list_elem_of_fmap. by exists (id, l'). }
  exists (fun x => if decide (x = id) then sched else f x), m3. cbn [RoomManager.stop_all].
  rewrite (stop_and_mark_set_rooms m (delete id (rm_rooms m))), decide_True, H2 by done. simpl.
  rewrite <- H3. apply stop_all_ext. intros x Hx. rewrite decide_False; [done |]. by intros ->.
Qed.

(** ** Claims *)

(** Over any run of room creations, closings, shutdowns and steps of the
    rooms themselves, creating a room succeeds with an instance ID that was
    never used before and returns the pointer of a running room, retrievable
    under that ID, as long as fewer than 2^64 operations were performed; in
    particular the duplicate-instance and start errors cannot occur. *)
Theorem create_room_succeeds (cfg : RoomConfig) (ops : list ManagerOp) (m : RoomManager)
    (lg : LogicalRoomID) (b c : bool) (now now' : Time) :
  Z.of_nat (length ops) < 2 ^ 64 - 1 ->
  manager_run ops (RoomManager.NewRoomManager Registry.NewInMemoryRoomRegistry cfg) = Some m ->
  exists m' l s, RoomManager.CreateRoomWithBroadcaster m lg b c now now' = (m', inr l) /\
    rm_heap m' !! l = Some s /\ Status (sys_room s) = RoomStatusRunning /\
    LogicalRoomID_of (sys_room s) = lg /\ r_broadcaster (sys_room s) = b /\
    reg_instances (rm_registry m) !! InstanceID (sys_room s) = None /\
    RoomManager.GetRoom m' (InstanceID (sys_room s)) = inr l /\ rm_heap m !! l = None.
Proof.
  intros Hlen Hrun. destruct (manager_run_inv ops _ m (mgr_inv_new cfg)) as [Hinv Hc]; [simpl; lia | done |].
  simpl in Hc. rewrite create_eq by (done || lia).
  eexists _, _, _. split; [done |]. cbn [rm_heap]. split; [apply lookup_insert_eq |].
  split_and!; [done .. | | |].
  - apply next_id_fresh; [done | lia].
  - unfold RoomManager.GetRoom. cbn [rm_rooms]. by rewrite lookup_insert_eq.
  - destruct (rm_heap m !! rm_next m) as [s |] eqn:Hs; [| done].
    pose proof (ro_next _ _ _ (mi_heap _ Hinv _ _ Hs)). lia.
Qed.

(** After any run the live rooms are exactly the registered instances that
    are not closed, each under its own name; every room that is not live any
    more is closed, for all holders of its pointer; and listing a logical room
    returns exactly its instances, as the registry's own pointers. *)
Theorem manager_registry_agree (cfg : RoomConfig) (ops : list ManagerOp) (m : RoomManager) :
  Z.of_nat (length ops) < 2 ^ 64 ->
  manager_run ops (RoomManager.NewRoomManager Registry.NewInMemoryRoomRegistry cfg) = Some m ->
  (forall id, is_Some (rm_rooms m !! id) <-> open_instance (rm_registry m) id) /\
  (forall id l, RoomManager.GetRoom m id = inr l ->
     exists s, rm_heap m !! l = Some s /\ InstanceID (sys_room s) = id /\
       Status (sys_room s) <> RoomStatusCreated) /\
  (forall l s, rm_heap m !! l = Some s -> RoomManager.GetRoom m (InstanceID (sys_room s)) <> inr l ->
     Status (sys_room s) = RoomStatusClosed) /\
  (forall lg l, l ∈ Registry.ListInstances (rm_registry m) lg <->
     exists inst, reg_heap (rm_registry m) !! l = Some inst /\ inst_LogicalRoomID inst = lg /\
       Registry.GetRoom (rm_registry m) (inst_InstanceID inst) = inr l).
Proof.
  intros Hlen Hrun. destruct (manager_run_inv ops _ m (mgr_inv_new cfg)) as [Hinv _]; [simpl; lia | done |].
  unfold RoomManager.GetRoom, InstanceID, Status. split_and!.
  - apply (mi_live _ Hinv).
  - intros id l Hg. destruct (rm_rooms m !! id) eqn:Hl; [injection Hg as -> | done].
    destruct (mi_rooms _ Hinv _ _ Hl) as (s & Hs & Hid). exists s. split_and!; [done .. |].
    intros He. pose proof (ro_started _ _ _ (mi_heap _ Hinv _ _ Hs)) as Hr. rewrite He in Hr. simpl in Hr. lia.
  - intros l s Hs Hg. destruct (ro_live _ _ _ (mi_heap _ Hinv _ _ Hs)) as [Hl | Hc]; [| done].
    by rewrite Hl in Hg.
  - intros lg l. rewrite (gi_logical _ (mi_reg _ Hinv)). unfold Registry.GetRoom. split.
    + intros (i & Hi & Hlg). exists i. split_and!; [done | done |].
      destruct (gi_heap _ (mi_reg _ Hinv) _ _ Hi) as [_ ->]. done.
    + intros (i & Hi & Hlg & _). eauto.
Qed.

(** A shutdown completes, for a configuration whose room loops get on: after any
    run, whatever the rooms are doing, their loops can finish on their own so
    that [Shutdown] returns; and under
    every schedule under which it returns no room is live, every instance of
    the registry is closed and every room ever created is closed. *)
Theorem shutdown_closes_everything (cfg : RoomConfig) (ops : list ManagerOp) (m : RoomManager)
    (site : list nat) (now : RoomInstanceID -> Time) :
  Z.of_nat (length ops) < 2 ^ 64 ->
  manager_run ops (RoomManager.NewRoomManager Registry.NewInMemoryRoomRegistry cfg) = Some m ->
  (loop_fits cfg -> exists sched m', RoomManager.Shutdown site m sched now = Some m') /\
  (forall sched m', RoomManager.Shutdown site m sched now = Some m' ->
     RoomManager.ActiveRoomCount m' = 0%nat /\ (forall id, ~ open_instance (rm_registry m') id) /\
     forall l s, rm_heap m' !! l = Some s -> Status (sys_room s) = RoomStatusClosed).
Proof.
  intros Hlen Hrun. destruct (manager_run_inv ops _ m (mgr_inv_new cfg)) as [Hinv _]; [simpl; lia | done |].
  split.
  - intros Hfit. apply stop_all_returns; [done | | apply NoDup_fst_range | intros id l; by rewrite elem_of_range].
    eapply rooms_live_run; [done |]. by apply rooms_live_new.
  - intros sched m' HS. destruct (Shutdown_spec _ _ _ _ _ Hinv HS) as (Hinv' & He & _).
    unfold RoomManager.ActiveRoomCount. rewrite He. split_and!; [done | |].
    + intros id Ho%(mi_live _ Hinv'). rewrite He, lookup_empty in Ho. by destruct Ho.
    + intros l s Hs. destruct (ro_live _ _ _ (mi_heap _ Hinv' _ _ Hs)) as [Hl | Hc]; [| done].
      by rewrite He, lookup_empty in Hl.
Qed.
End manager.

Lemma default_config_fits : loop_fits DefaultRoomConfig.
Proof. split; [vm_compute; discriminate |]. right. vm_compute. split; [discriminate | reflexivity]. Qed.

Module ManagerExample.

(** Two rooms; the first enqueues a command, runs a tick and is closed. *)
Definition ops : list ManagerOp :=
  [OpCreateRoom "expo" true false 1 2; OpCreateRoom "expo" false false 3 4;
   OpRoom 0%nat (LEnqueue (MkRoomCommand CmdJoin "s" "p" "u" PayloadNone 0));
   OpRoom 0%nat (LTickBegin [] 5);
   OpCloseRoom "expo-0001" [LHandle [] 6; LTickEnd []; LExit] 7].

Definition state : option RoomManager :=
  @manager_run canonical_range ops
    (RoomManager.NewRoomManager Registry.NewInMemoryRoomRegistry DefaultRoomConfig).

End ManagerExample.

Lemma create_room_succeeds_witness :
  exists m m' l, ManagerExample.state = Some m /\
    RoomManager.CreateRoomWithBroadcaster m "expo" true false 8 9 = (m', inr l).
Proof.
  destruct ManagerExample.state as [m |] eqn:H; [| exfalso; revert H; vm_compute; discriminate].
  destruct (@create_room_succeeds canonical_range DefaultRoomConfig ManagerExample.ops m "expo" true false 8 9
    ltac:(vm_compute; reflexivity) H) as (m' & l & s & Hc & _).
  exists m, m', l. split; [reflexivity | exact Hc].
Defined.

Lemma manager_registry_agree_witness :
  exists m, ManagerExample.state = Some m /\ open_instance (rm_registry m) "expo-0002" /\
    ~ open_instance (rm_registry m) "expo-0001".
Proof.
  destruct ManagerExample.state as [m |] eqn:H; [| exfalso; revert H; vm_compute; discriminate].
  exists m. split; [reflexivity |].
  destruct (@manager_registry_agree canonical_range DefaultRoomConfig ManagerExample.ops m
    ltac:(vm_compute; reflexivity) H) as (Hlive & _).
  assert ((fun m => (rm_rooms m !! "expo-0001", rm_rooms m !! "expo-0002")) <$> ManagerExample.state
    = Some (None, Some 1%nat)) as Hr by (vm_compute; reflexivity).
  rewrite H in Hr. injection Hr as H1 H2. split.
  - apply Hlive. rewrite H2. by exists 1%nat.
  - intros Ho%Hlive. rewrite H1 in Ho. by destruct Ho.
Defined.

Lemma shutdown_closes_everything_witness :
  exists m, ManagerExample.state = Some m /\
    exists sched m', @RoomManager.Shutdown canonical_range [] m sched (fun _ => 10) = Some m'.
Proof.
  destruct ManagerExample.state as [m |] eqn:H; [| exfalso; revert H; vm_compute; discriminate].
  exists m. split; [reflexivity |].
  apply (proj1 (@shutdown_closes_everything canonical_range DefaultRoomConfig ManagerExample.ops m []
    (fun _ => 10) ltac:(vm_compute; reflexivity) H)). exact default_config_fits.
Defined.
