(* ===== verification/ManagerSystem.v ===== *)
(** * The room manager with concurrent callers

    [CreateRoomWithBroadcaster], [CloseRoom] and [Shutdown] of
    [internal/game/room/manager.go] hold the manager's lock only while they
    touch its map; in between other calls, the registry and the rooms go on.
    Here every call is a goroutine with a program counter, and each of its
    steps is what happens between two points where another goroutine can
    interfere.  [RoomManager] has the same calls as functions, which is what
    they are when nothing else happens ([create_alone], [close_alone]).

    In every interleaving each open instance of the registry is in the hands
    of exactly one: the manager's map or one unfinished call. *)

From Stdlib Require Import ZArith Lia.
From stdpp Require Import base strings gmap fin_maps list.
From S2P Require Import Prelude.
From S2P Require Import Player.
From S2P Require Import Cluster.
From S2P Require Import ClusterFacts.
From S2P Require Import Room.
From S2P Require Import RoomFacts.
From S2P Require Import RoomSystem.
From S2P Require Import RoomTheorems.
From S2P Require Import RoomManager.
From S2P Require Import RoomManagerFacts.

Local Open Scope string_scope.
Local Open Scope Z_scope.
Local Open Scope list_scope.

Abbreviation RoomRef := (RoomInstanceID * loc)%type.

(** ** Calls in progress *)

(** [all] are the rooms a closing call took out of the map, [todo] those it has
    still to stop. *)
Inductive Call :=
  | CallRegister (lg : LogicalRoomID) (b c : bool) (id : RoomInstanceID) (* before registry.CreateRoom *)
  | CallStart (lg : LogicalRoomID) (b c : bool) (id : RoomInstanceID)    (* before newRoom and Start *)
  | CallPublish (id : RoomInstanceID) (l : loc)                          (* before the map is updated *)
  | CallStop (all todo : list RoomRef)                                   (* before the next Stop *)
  | CallWait (all : list RoomRef) (id : RoomInstanceID) (l : loc) (todo : list RoomRef) (* in <-r.done *)
  | CallMark (all : list RoomRef) (id : RoomInstanceID) (l : loc) (todo : list RoomRef) (* before MarkClosed *)
  | CallCreated (id : RoomInstanceID) (l : loc)                          (* returned *)
  | CallClosed (all : list RoomRef)
  | CallFailed (e : ManagerError).

Definition returned (c : Call) : bool :=
  match c with CallCreated _ _ | CallClosed _ | CallFailed _ => true | _ => false end.

Record MState := MkMState { ms_mgr : RoomManager; ms_calls : gmap nat Call }.

(** A call begins, another step of a call is taken, or a room goes on. *)
Inductive MLabel :=
  | MCreate (k : nat) (lg : LogicalRoomID) (b c : bool)
  | MClose (k : nat) (id : RoomInstanceID)
  | MShutdown (k : nat) (site : list nat)
  | MCall (k : nat) (now : Time)
  | MRoomStep (l : loc) (lab : Label).

Section system.
Context `{GR : !GoRange}.
Implicit Types (m : RoomManager) (st : MState).

Definition set_room m (l : loc) (s : MRoom) : RoomManager :=
  RoomManager.set_heap m (<[l := s]> (rm_heap m)).

(** The next step of a creation ... *)
Definition create_step (now : Time) m (c : Call) : option (RoomManager * Call) :=
  match c with
  | CallRegister lg b c id =>
      match Registry.CreateRoom (rm_registry m) (MkRoomSpec lg id (rm_config m)) now with
      | (reg, inl e) => Some (RoomManager.set_registry m reg, CallFailed (ErrRegister e))
      | (reg, inr _) => Some (RoomManager.set_registry m reg, CallStart lg b c id)
      end
  | CallStart lg b c id =>
      match Start (SetBroadcaster (newRoom (MkRoomSpec lg id (rm_config m))) b) with
      | (r, Some e) =>
          let m := RoomManager.alloc_room m (MkSys r LoopNotStarted false []) in
          Some (RoomManager.set_registry m (Registry.MarkClosed (rm_registry m) id now).1, CallFailed (ErrStart e))
      | (r, None) => Some (RoomManager.alloc_room m (MkSys r LoopIdle c []), CallPublish id (rm_next m))
      end
  | CallPublish id l => Some (RoomManager.set_rooms m (<[id := l]> (rm_rooms m)), CallCreated id l)
  | _ => None
  end.

(** ... and of a closing or a shutdown. *)
Definition close_step (now : Time) m (c : Call) : option (RoomManager * Call) :=
  match c with
  | CallStop all [] => Some (m, CallClosed all)
  | CallStop all ((id, l) :: todo) =>
      s ← rm_heap m !! l;
      let '(r, wait) := StopBegin (sys_room s) in
      Some (set_room m l (MkSys r (sys_loop s) (wait || sys_ctxDone s) (sys_sent s)),
            if wait then CallWait all id l todo else CallMark all id l todo)
  | CallWait all id l todo =>
      s ← rm_heap m !! l;
      match sys_loop s with
      | LoopExited =>
          Some (set_room m l (MkSys (StopEnd (sys_room s)) LoopExited (sys_ctxDone s) (sys_sent s)),
                CallMark all id l todo)
      | _ => None
      end
  | CallMark all id l todo =>
      Some (RoomManager.set_registry m (Registry.MarkClosed (rm_registry m) id now).1, CallStop all todo)
  | _ => None
  end.

Definition call_step (now : Time) m (c : Call) : option (RoomManager * Call) :=
  match c with
  | CallRegister _ _ _ _ | CallStart _ _ _ _ | CallPublish _ _ => create_step now m c
  | CallStop _ _ | CallWait _ _ _ _ | CallMark _ _ _ _ => close_step now m c
  | CallCreated _ _ | CallClosed _ | CallFailed _ => None
  end.

(** The first step of a call, up to the first unlock. *)
Definition begin_call st (k : nat) (mc : RoomManager * Call) : option MState :=
  match ms_calls st !! k with
  | Some _ => None
  | None => Some (MkMState mc.1 (<[k := mc.2]> (ms_calls st)))
  end.

Definition create_begin m (lg : LogicalRoomID) (b c : bool) : RoomManager * Call :=
  let '(m, id) := RoomManager.generateInstanceID m lg in (m, CallRegister lg b c id).

Definition close_begin m (id : RoomInstanceID) : RoomManager * Call :=
  match rm_rooms m !! id with
  | None => (m, CallFailed (ErrRoomNotFound id))
  | Some l => (RoomManager.set_rooms m (delete id (rm_rooms m)), CallStop [(id, l)] [(id, l)])
  end.

Definition shutdown_begin (site : list nat) m : RoomManager * Call :=
  let rooms := range site (rm_rooms m) in (RoomManager.set_rooms m ∅, CallStop rooms rooms).

Definition mexec (lab : MLabel) st : option MState :=
  let m := ms_mgr st in
  match lab with
  | MCreate k lg b c => begin_call st k (create_begin m lg b c)
  | MClose k id => begin_call st k (close_begin m id)
  | MShutdown k site => begin_call st k (shutdown_begin site m)
  | MCall k now =>
      c ← ms_calls st !! k; '(m, c) ← call_step now m c; Some (MkMState m (<[k := c]> (ms_calls st)))
  | MRoomStep l lab =>
      s ← rm_heap m !! l; s ← exec lab s; Some (MkMState (set_room m l s) (ms_calls st))
  end.

Definition mrun (ls : list MLabel) st : option MState := foldl (fun o lab => st ← o; mexec lab st) (Some st) ls.

Definition minit (cfg : RoomConfig) : MState :=
  MkMState (RoomManager.NewRoomManager Registry.NewInMemoryRoomRegistry cfg) ∅.

Lemma mrun_snoc ls lab st st' :
  mrun (ls ++ [lab]) st = Some st' <-> exists st1, mrun ls st = Some st1 /\ mexec lab st1 = Some st'.
Proof. unfold mrun. rewrite foldl_snoc. apply bind_Some. Qed.

(** ** Who holds what *)

(** The instances a call is responsible for ... *)
Definition names (c : Call) : list RoomInstanceID :=
  match c with
  | CallRegister _ _ _ id | CallStart _ _ _ id | CallPublish id _ => [id]
  | CallStop _ todo => todo.*1
  | CallWait _ id _ todo | CallMark _ id _ todo => id :: todo.*1
  | _ => []
  end.

(** ... which are registered, except the one it is about to register ... *)
Definition registers (c : Call) : bool := match c with CallRegister _ _ _ _ => false | _ => true end.

(** ... the rooms it may find running ... *)
Definition rooms_of (c : Call) : list RoomRef :=
  match c with
  | CallPublish id l => [(id, l)]
  | CallStop _ todo => todo
  | CallWait _ id l todo => (id, l) :: todo
  | CallMark _ _ _ todo => todo
  | _ => []
  end.

(** ... the one it has stopped, the one it waits for, and those it is done with. *)
Definition stopped_of (c : Call) : list RoomRef := match c with CallMark _ id l _ => [(id, l)] | _ => [] end.

Definition waits_for (c : Call) : list RoomRef := match c with CallWait _ id l _ => [(id, l)] | _ => [] end.

Inductive done_with : Call -> list RoomRef -> Prop :=
  | done_stop all fin todo : all = fin ++ todo -> done_with (CallStop all todo) fin
  | done_wait all fin id l todo : all = fin ++ (id, l) :: todo -> done_with (CallWait all id l todo) fin
  | done_mark all fin id l todo : all = fin ++ (id, l) :: todo -> done_with (CallMark all id l todo) fin
  | done_closed all : done_with (CallClosed all) all.

Definition closer (c : Call) : bool :=
  match c with CallStop _ _ | CallWait _ _ _ _ | CallMark _ _ _ _ | CallClosed _ => true | _ => false end.

Definition is_closed m (l : loc) : Prop :=
  exists s, rm_heap m !! l = Some s /\ r_status (sys_room s) = RoomStatusClosed.

(** [Stop] has been called. *)
Definition is_stopping m (l : loc) : Prop :=
  exists s, rm_heap m !! l = Some s /\ (2 <= status_rank (r_status (sys_room s)))%nat.

Definition is_room m (p : RoomRef) : Prop :=
  exists s, rm_heap m !! p.2 = Some s /\ r_instanceID (sys_room s) = p.1.

Record sys_ok m (l : loc) (s : MRoom) : Prop := {
  so_next : (l < rm_next m)%nat;
  so_inv : sys_inv s;
  so_started : (1 <= status_rank (r_status (sys_room s)))%nat;
  so_loop : sys_loop s <> LoopNotStarted }.

Record call_ok m (c : Call) : Prop := {
  co_nodup : NoDup (names c);
  co_named : forall id, id ∈ names c -> exists lg k, 1 <= k <= rm_instanceCounter m /\ id = lg +:+ "-" +:+ format_04d k;
  co_fresh : forall id, registers c = false -> id ∈ names c -> reg_instances (rm_registry m) !! id = None;
  co_open : forall id, registers c = true -> id ∈ names c -> open_instance (rm_registry m) id;
  co_rooms : forall p, p ∈ rooms_of c ++ stopped_of c -> is_room m p;
  co_stopped : forall p, p ∈ stopped_of c -> is_closed m p.2;
  co_waits : forall p, p ∈ waits_for c -> is_stopping m p.2;
  co_done : closer c = true -> exists fin, done_with c fin /\
    forall p, p ∈ fin -> is_closed m p.2 /\ ~ open_instance (rm_registry m) p.1 /\
      is_Some (reg_instances (rm_registry m) !! p.1) }.

Record minv st : Prop := {
  mv_counter : 0 <= rm_instanceCounter (ms_mgr st) < 2 ^ 64;
  mv_reg : reg_inv (rm_registry (ms_mgr st));
  mv_named : forall id, is_Some (reg_instances (rm_registry (ms_mgr st)) !! id) ->
    exists lg k, 1 <= k <= rm_instanceCounter (ms_mgr st) /\ id = lg +:+ "-" +:+ format_04d k;
  mv_heap : forall l s, rm_heap (ms_mgr st) !! l = Some s -> sys_ok (ms_mgr st) l s;
  mv_rooms : forall id l, rm_rooms (ms_mgr st) !! id = Some l ->
    is_room (ms_mgr st) (id, l) /\ open_instance (rm_registry (ms_mgr st)) id;
  mv_calls : forall k c, ms_calls st !! k = Some c -> call_ok (ms_mgr st) c;
  (* nobody shares an instance *)
  mv_map : forall k c id, ms_calls st !! k = Some c -> id ∈ names c -> rm_rooms (ms_mgr st) !! id = None;
  mv_uniq : forall k k' c c' id, ms_calls st !! k = Some c -> ms_calls st !! k' = Some c' ->
    id ∈ names c -> id ∈ names c' -> k = k';
  (* an open instance is in somebody's hands, and so is a room that is not closed *)
  mv_held : forall id, open_instance (rm_registry (ms_mgr st)) id ->
    is_Some (rm_rooms (ms_mgr st) !! id) \/ exists k c, ms_calls st !! k = Some c /\ id ∈ names c;
  mv_live : forall l s, rm_heap (ms_mgr st) !! l = Some s -> r_status (sys_room s) <> RoomStatusClosed ->
    rm_rooms (ms_mgr st) !! r_instanceID (sys_room s) = Some l \/
    exists k c, ms_calls st !! k = Some c /\ (r_instanceID (sys_room s), l) ∈ rooms_of c }.

Lemma minv_init cfg : minv (minit cfg).
Proof.
  assert (forall id, ~ open_instance Registry.NewInMemoryRoomRegistry id) as Hno.
  { intros id (l & i & Hl & _). by simpl in Hl; rewrite lookup_empty in Hl. }
  constructor; simpl; try (intros *; rewrite lookup_empty; done).
  - lia.
  - apply reg_inv_new.
  - intros id Ho. by apply Hno in Ho.
Qed.

(** ** What a step leaves of the others' rooms and instances *)

(** The registry changes at most at [x]; rooms stay, and stay closed. *)
Record evolves (x : option RoomInstanceID) m m' : Prop := {
  ev_counter : rm_instanceCounter m <= rm_instanceCounter m';
  ev_room : forall p, is_room m p -> is_room m' p;
  ev_closed : forall l, is_closed m l -> is_closed m' l;
  ev_stopping : forall l, is_stopping m l -> is_stopping m' l;
  ev_reg : forall id, x <> Some id -> reg_instances (rm_registry m') !! id = reg_instances (rm_registry m) !! id;
  ev_grow : forall id, is_Some (reg_instances (rm_registry m) !! id) -> is_Some (reg_instances (rm_registry m') !! id);
  ev_open : forall id, x <> Some id -> open_instance (rm_registry m') id <-> open_instance (rm_registry m) id;
  ev_shut : forall id, is_Some (reg_instances (rm_registry m) !! id) ->
    open_instance (rm_registry m') id -> open_instance (rm_registry m) id }.

Lemma call_ok_evolves x m m' c :
  evolves x m m' -> (forall id, x = Some id -> id ∉ names c) -> call_ok m c -> call_ok m' c.
Proof.
  intros [] Hx []. assert (forall id, id ∈ names c -> x <> Some id) as Hne by (intros id Hin E; by eapply Hx).
  constructor; try done.
  - intros id Hin. destruct (co_named0 id Hin) as (lg & k & Hk & ->). exists lg, k. split; [lia | done].
  - intros id Hr Hin. rewrite ev_reg0 by auto. auto.
  - intros id Hr Hin. apply ev_open0; auto.
  - auto.
  - auto.
  - auto.
  - intros Hc. destruct (co_done0 Hc) as (fin & Hd & Hfin). exists fin. split; [done |].
    intros p Hp. destruct (Hfin p Hp) as (H1 & H2 & H3). split_and!; auto.
Qed.

(** Changes outside the registry. *)
Lemma evolves_same m m' :
  rm_registry m' = rm_registry m -> rm_instanceCounter m <= rm_instanceCounter m' ->
  (forall p, is_room m p -> is_room m' p) -> (forall l, is_closed m l -> is_closed m' l) ->
  (forall l, is_stopping m l -> is_stopping m' l) -> evolves None m m'.
Proof. intros Hr Hc H1 H2 H3. constructor; rewrite ?Hr; try done. Qed.

Lemma evolves_books m m' :
  rm_registry m' = rm_registry m -> rm_instanceCounter m <= rm_instanceCounter m' -> rm_heap m' = rm_heap m ->
  evolves None m m'.
Proof. intros Hr Hc Hh. apply evolves_same; [done | done | ..]; unfold is_room, is_closed, is_stopping; by rewrite Hh. Qed.

(** A room becomes another state of itself. *)
Record room_change (s s' : MRoom) : Prop := {
  rg_id : r_instanceID (sys_room s') = r_instanceID (sys_room s);
  rg_rank : (status_rank (r_status (sys_room s)) <= status_rank (r_status (sys_room s')))%nat }.

Lemma room_change_closed s s' :
  room_change s s' -> r_status (sys_room s) = RoomStatusClosed -> r_status (sys_room s') = RoomStatusClosed.
Proof. intros [_ Hr] E. rewrite E in Hr. destruct (r_status (sys_room s')); simpl in Hr; try lia; done. Qed.

Lemma evolves_set_room m l s s' :
  rm_heap m !! l = Some s -> room_change s s' -> evolves None m (set_room m l s').
Proof.
  intros Hl Hc. apply evolves_same; [done | done | ..].
  - intros [id l0] (s0 & H0 & Hid). unfold is_room. simpl in *. destruct (decide (l = l0)) as [<- |].
    + exists s'. rewrite lookup_insert_eq. split; [done |]. rewrite (rg_id _ _ Hc). congruence.
    + exists s0. by rewrite lookup_insert_ne.
  - intros l0 (s0 & H0 & Hst). unfold is_closed. simpl. destruct (decide (l = l0)) as [<- |].
    + exists s'. rewrite lookup_insert_eq. split; [done |]. eapply room_change_closed; [done | congruence].
    + exists s0. by rewrite lookup_insert_ne.
  - intros l0 (s0 & H0 & Hst). unfold is_stopping. simpl. destruct (decide (l = l0)) as [<- |].
    + exists s'. rewrite lookup_insert_eq. split; [done |]. pose proof (rg_rank _ _ Hc).
      assert (s0 = s) as -> by congruence. lia.
    + exists s0. by rewrite lookup_insert_ne.
Qed.

Lemma heap_free m : (forall l s, rm_heap m !! l = Some s -> sys_ok m l s) -> rm_heap m !! rm_next m = None.
Proof. intros Hh. destruct (rm_heap m !! rm_next m) eqn:E; [| done]. pose proof (so_next _ _ _ (Hh _ _ E)). lia. Qed.

Lemma evolves_alloc m s : rm_heap m !! rm_next m = None -> evolves None m (RoomManager.alloc_room m s).
Proof.
  intros Hf. apply evolves_same; [done | done | ..].
  - intros p (s0 & H0 & Hid). exists s0. simpl. split; [| done]. rewrite lookup_insert_ne; [done | congruence].
  - intros l (s0 & H0 & Hst). exists s0. simpl. split; [| done]. rewrite lookup_insert_ne; [done | congruence].
  - intros l (s0 & H0 & Hst). exists s0. simpl. split; [| done]. rewrite lookup_insert_ne; [done | congruence].
Qed.

Lemma evolves_register m spec now :
  reg_inv (rm_registry m) -> reg_instances (rm_registry m) !! rs_InstanceID spec = None ->
  evolves (Some (rs_InstanceID spec)) m (RoomManager.set_registry m (Registry.CreateRoom (rm_registry m) spec now).1).
Proof.
  intros Hi Hf. constructor; cbn [RoomManager.set_registry rm_registry rm_instanceCounter rm_heap is_room is_closed is_stopping];
    try done.
  - intros id Hne. rewrite CreateRoom_fresh by done. simpl. rewrite lookup_insert_ne; [done | congruence].
  - intros id Hs. rewrite CreateRoom_fresh by done. simpl. apply lookup_insert_is_Some'. by right.
  - intros id Hne. rewrite open_CreateRoom by done. split; [intros [-> |]; congruence | by right].
  - intros id [l Hl] [-> | Ho]%open_CreateRoom; [congruence | done | done | done].
Qed.

Lemma evolves_mark m id now :
  reg_inv (rm_registry m) ->
  evolves (Some id) m (RoomManager.set_registry m (Registry.MarkClosed (rm_registry m) id now).1).
Proof.
  intros Hi. destruct (MarkClosed_index (rm_registry m) id now) as (E & _ & _).
  constructor; cbn [RoomManager.set_registry rm_registry rm_instanceCounter rm_heap is_room is_closed is_stopping]; try done.
  - by rewrite E.
  - by rewrite E.
  - intros id' Hne. rewrite open_MarkClosed by done. split; [tauto | split; [congruence | done]].
  - intros id' _ Ho. by apply open_MarkClosed in Ho as [_ ?].
Qed.

(** ** A step of a call keeps the invariant *)

Definition at_call (calls : gmap nat Call) (k : nat) {X} (f : Call -> list X) : list X :=
  from_option f [] (calls !! k).

(** Call [k] goes on as [c'], or begins, and the manager becomes [m']. *)
Lemma minv_call x m calls k m' c' :
  minv (MkMState m calls) ->
  0 <= rm_instanceCounter m' < 2 ^ 64 -> reg_inv (rm_registry m') ->
  (forall id, is_Some (reg_instances (rm_registry m') !! id) ->
    exists lg k, 1 <= k <= rm_instanceCounter m' /\ id = lg +:+ "-" +:+ format_04d k) ->
  (forall l s, rm_heap m' !! l = Some s -> sys_ok m' l s) ->
  evolves x m m' -> (forall id, x = Some id -> id ∈ at_call calls k names) ->
  call_ok m' c' ->
  (forall id, id ∈ names c' -> rm_rooms m' !! id = None /\
    forall k' c, k' <> k -> calls !! k' = Some c -> id ∉ names c) ->
  (forall id l, rm_rooms m' !! id = Some l -> rm_rooms m !! id = Some l \/
    id ∈ at_call calls k names /\ is_room m' (id, l) /\ open_instance (rm_registry m') id) ->
  (forall id, open_instance (rm_registry m') id ->
    is_Some (rm_rooms m !! id) \/ id ∈ at_call calls k names -> is_Some (rm_rooms m' !! id) \/ id ∈ names c') ->
  (forall l s', rm_heap m' !! l = Some s' -> r_status (sys_room s') <> RoomStatusClosed ->
    let held := rm_rooms m' !! r_instanceID (sys_room s') = Some l \/ (r_instanceID (sys_room s'), l) ∈ rooms_of c' in
    held \/ exists s, rm_heap m !! l = Some s /\ r_instanceID (sys_room s) = r_instanceID (sys_room s') /\
      r_status (sys_room s) <> RoomStatusClosed /\
      (rm_rooms m !! r_instanceID (sys_room s') = Some l \/
       (r_instanceID (sys_room s'), l) ∈ at_call calls k rooms_of -> held)) ->
  minv (MkMState m' (<[k := c']> calls)).
Proof.
  intros [] Hcnt Hreg Hnamed Hheap Hev Hx Hok HA HC HD HE. simpl in *.
  assert (forall k' c id, k' <> k -> calls !! k' = Some c -> id ∈ at_call calls k names -> id ∉ names c) as Hother.
  { unfold at_call. intros k' c id Hne Hk' Hin Hin'. destruct (calls !! k) as [c0 |] eqn:Hk; [| by apply elem_of_nil in Hin].
    by destruct Hne; eapply mv_uniq0. }
  assert (forall id, x = Some id -> rm_rooms m !! id = None) as Hxr.
  { intros id ->. specialize (Hx id eq_refl). unfold at_call in Hx.
    destruct (calls !! k) as [c0 |] eqn:Hk; [by eapply mv_map0 | by apply elem_of_nil in Hx]. }
  constructor; simpl; try done.
  - intros id l Hl. destruct (HC _ _ Hl) as [Hold | (Hin & H1 & H2)]; [| done].
    destruct (mv_rooms0 _ _ Hold) as [H1 H2]. split; [by eapply ev_room |].
    apply (ev_open _ _ _ Hev); [| done]. intros E. apply Hxr in E. congruence.
  - intros k' c [[<- <-] | [Hne Hc]]%lookup_insert_Some; [done |].
    eapply call_ok_evolves; [done | | by eapply mv_calls0]. intros id Ex. eapply Hother; [done | done | by apply Hx].
  - intros k' c id [[<- <-] | [Hne Hc]]%lookup_insert_Some Hin; [by apply HA |].
    destruct (rm_rooms m' !! id) as [l |] eqn:Hl; [| done]. exfalso.
    destruct (HC _ _ Hl) as [Hold | (Hin' & _)]; [| by eapply Hother].
    rewrite (mv_map0 _ _ _ Hc Hin) in Hold. done.
  - intros k1 k2 c1 c2 id [[<- <-] | [Hne1 H1]]%lookup_insert_Some [[<- <-] | [Hne2 H2]]%lookup_insert_Some Hi1 Hi2;
      [done | | | by eapply mv_uniq0].
    + by destruct (HA id Hi1) as [_ Hn]; destruct (Hn k2 c2).
    + by destruct (HA id Hi2) as [_ Hn]; destruct (Hn k1 c1).
  - intros id Ho.
    assert (is_Some (rm_rooms m !! id) \/ id ∈ at_call calls k names -> is_Some (rm_rooms m' !! id) \/
      exists k0 c, <[k := c']> calls !! k0 = Some c /\ id ∈ names c) as Hgo.
    { intros Hh. destruct (HD id Ho Hh) as [? | ?]; [by left |]. right. exists k, c'. by rewrite lookup_insert_eq. }
    destruct (decide (x = Some id)) as [E | Hne]; [apply Hgo; right; by apply Hx |].
    apply (ev_open _ _ _ Hev) in Ho; [| done].
    destruct (mv_held0 id Ho) as [Hr | (k' & c & Hc & Hin)]; [by apply Hgo; left |].
    destruct (decide (k' = k)) as [-> |]; [apply Hgo; right; unfold at_call; by rewrite Hc |].
    right. exists k', c. by rewrite lookup_insert_ne.
  - intros l s' Hl Hst. destruct (HE l s' Hl Hst) as [Hh | (s & Hs & Hid & Hst0 & Hh)].
    { destruct Hh as [? | ?]; [by left |]. right. exists k, c'. by rewrite lookup_insert_eq. }
    assert (rm_rooms m !! r_instanceID (sys_room s') = Some l \/
      (r_instanceID (sys_room s'), l) ∈ at_call calls k rooms_of ->
      rm_rooms m' !! r_instanceID (sys_room s') = Some l \/
      exists k0 c, <[k := c']> calls !! k0 = Some c /\ (r_instanceID (sys_room s'), l) ∈ rooms_of c) as Hgo.
    { intros Hx0. destruct (Hh Hx0) as [? | ?]; [by left |]. right. exists k, c'. by rewrite lookup_insert_eq. }
    destruct (mv_live0 l s Hs Hst0) as [Hr | (k' & c & Hc & Hin)]; rewrite Hid in *; [by apply Hgo; left |].
    destruct (decide (k' = k)) as [-> |]; [apply Hgo; right; unfold at_call; by rewrite Hc |].
    right. exists k', c. by rewrite lookup_insert_ne.
Qed.

Lemma at_call_eq calls k c {X} (f : Call -> list X) : calls !! k = Some c -> at_call calls k f = f c.
Proof. intros Hk. unfold at_call. by rewrite Hk. Qed.

Lemma at_call_none calls k {X} (f : Call -> list X) : calls !! k = None -> at_call calls k f = [].
Proof. intros Hk. unfold at_call. by rewrite Hk. Qed.

(** A number not given out yet names nothing. *)
Lemma next_name_new m lg id :
  0 <= rm_instanceCounter m -> rm_instanceCounter m + 1 < 2 ^ 64 ->
  (exists lg' k, 1 <= k <= rm_instanceCounter m /\ id = lg' +:+ "-" +:+ format_04d k) ->
  id <> lg +:+ "-" +:+ format_04d (rm_instanceCounter m + 1).
Proof. intros H0 Hlt (lg' & k & Hk & ->) E. apply instance_id_inj in E; lia. Qed.

Lemma sys_ok_books m m' l s : rm_next m' = rm_next m -> sys_ok m l s -> sys_ok m' l s.
Proof. intros Hn []. constructor; rewrite ?Hn; done. Qed.

(** A call that holds nothing. *)
Lemma call_ok_idle m c :
  names c = [] -> rooms_of c = [] -> stopped_of c = [] -> waits_for c = [] ->
  (closer c = true -> exists fin, done_with c fin /\
    forall p, p ∈ fin -> is_closed m p.2 /\ ~ open_instance (rm_registry m) p.1 /\
      is_Some (reg_instances (rm_registry m) !! p.1)) ->
  call_ok m c.
Proof.
  intros Hn Hr Hs Hw Hd. constructor; rewrite ?Hn, ?Hr, ?Hs, ?Hw; try done; [by apply NoDup_nil_2 | ..].
  all: try (by intros ? ?%elem_of_nil); by intros ? _ ?%elem_of_nil.
Qed.

Lemma open_registered reg id : open_instance reg id -> is_Some (reg_instances reg !! id).
Proof. intros (l & i & -> & _). eauto. Qed.

Lemma minv_create m calls k lg b c :
  minv (MkMState m calls) -> calls !! k = None -> rm_instanceCounter m + 1 < 2 ^ 64 ->
  let mc := create_begin m lg b c in minv (MkMState mc.1 (<[k := mc.2]> calls)).
Proof.
  intros Hi Hk Hlt. pose proof (mv_counter _ Hi) as Hc. cbn [ms_mgr] in Hc. unfold create_begin, RoomManager.generateInstanceID.
  rewrite u64_small by lia. set (id := lg +:+ "-" +:+ format_04d (rm_instanceCounter m + 1)). cbn [fst snd].
  pose proof (next_name_new m lg) as Hnew. fold id in Hnew.
  assert (reg_instances (rm_registry m) !! id = None) as Hreg.
  { destruct (reg_instances (rm_registry m) !! id) eqn:E; [| done]. exfalso.
    apply (Hnew id); [lia | lia | | done]. apply (mv_named _ Hi). simpl. by rewrite E. }
  apply (minv_call None m); cbn [ms_mgr rm_instanceCounter rm_registry rm_heap rm_rooms names rooms_of]; try done.
  - lia.
  - apply (mv_reg _ Hi).
  - intros id' Hs. destruct (mv_named _ Hi id' Hs) as (lg' & n & Hn & ->). exists lg', n. simpl in Hn. split; [lia | done].
  - intros l s Hl. eapply sys_ok_books, (mv_heap _ Hi); done.
  - apply evolves_books; simpl; [done | lia | done].
  - constructor; cbn [names registers rooms_of stopped_of closer rm_instanceCounter rm_registry app]; try done.
    + apply NoDup_singleton.
    + intros id' ->%list_elem_of_singleton. exists lg, (rm_instanceCounter m + 1). split; [lia | done].
    + by intros id' _ ->%list_elem_of_singleton.
    + by intros p ?%elem_of_nil.
    + by intros p ?%elem_of_nil.
    + by intros p ?%elem_of_nil.
  - intros id' ->%list_elem_of_singleton. split.
    + destruct (rm_rooms m !! id) as [l |] eqn:E; [| done]. exfalso.
      destruct (mv_rooms _ Hi _ _ E) as [_ [l' Hl']%open_registered]. simpl in Hl'. congruence.
    + intros k' c' _ Hk' Hin. apply (Hnew id); [lia | lia | | done]. by eapply co_named, Hin; eapply (mv_calls _ Hi).
  - by left.
  - intros id' _. rewrite at_call_none by done. by intros [? | ?%elem_of_nil]; [left |].
  - intros l s Hs Hst. right. exists s. split_and!; try done. rewrite at_call_none by done.
    by intros [? | ?%elem_of_nil]; [left |].
Qed.

(** Rooms taken out of the map are the caller's. *)
Lemma minv_take m calls k rooms all :
  minv (MkMState m calls) -> calls !! k = None -> NoDup all.*1 ->
  (forall id l, (id, l) ∈ all <-> rm_rooms m !! id = Some l /\ rooms !! id = None) ->
  (forall id l, rooms !! id = Some l -> rm_rooms m !! id = Some l) ->
  minv (MkMState (RoomManager.set_rooms m rooms) (<[k := CallStop all all]> calls)).
Proof.
  intros Hi Hk Hnd Hall Hsub.
  assert (forall id, id ∈ all.*1 -> exists l, rm_rooms m !! id = Some l /\ rooms !! id = None) as Hin.
  { intros id ([id' l] & -> & Hin)%list_elem_of_fmap. exists l. by apply Hall. }
  apply (minv_call None m); cbn [ms_mgr RoomManager.set_rooms rm_instanceCounter rm_registry rm_heap rm_rooms names rooms_of];
    try done; try apply Hi.
  - intros l s Hl. eapply sys_ok_books, (mv_heap _ Hi); done.
  - constructor; cbn [names registers rooms_of stopped_of closer RoomManager.set_rooms rm_instanceCounter rm_registry]; try done.
    + intros id (l & Hl & _)%Hin. destruct (mv_rooms _ Hi _ _ Hl) as [_ Ho%open_registered]. by apply (mv_named _ Hi).
    + intros id _ (l & Hl & _)%Hin. by destruct (mv_rooms _ Hi _ _ Hl).
    + intros [id l]. rewrite app_nil_r. intros [Hl _]%Hall. by destruct (mv_rooms _ Hi _ _ Hl).
    + by intros p ?%elem_of_nil.
    + by intros p ?%elem_of_nil.
    + intros _. exists []. split; [by constructor |]. by intros p ?%elem_of_nil.
  - intros id (l & Hl & Hn)%Hin. split; [done |]. intros k' c _ Hc Hid.
    pose proof (mv_map _ Hi _ _ _ Hc Hid) as E. simpl in E. congruence.
  - intros id l Hl. left. by apply Hsub.
  - intros id _. rewrite at_call_none by done. intros [[l Hl] | ?%elem_of_nil]; [| done].
    destruct (rooms !! id) eqn:E; [eauto |]. right. apply list_elem_of_fmap. exists (id, l). split; [done | by apply Hall].
  - intros l s Hs Hst. right. exists s. split_and!; try done. rewrite at_call_none by done.
    intros [Hl | ?%elem_of_nil]; [| done]. destruct (rooms !! r_instanceID (sys_room s)) as [l' |] eqn:E.
    + left. apply Hsub in E as E'. congruence.
    + right. by apply Hall.
Qed.

Lemma minv_failed m calls k e :
  minv (MkMState m calls) -> calls !! k = None -> minv (MkMState m (<[k := CallFailed e]> calls)).
Proof.
  intros Hi Hk. apply (minv_call None m); try apply Hi; cbn [names rooms_of]; try done.
  - by apply call_ok_idle.
  - by intros id ?%elem_of_nil.
  - by left.
  - intros id _. rewrite at_call_none by done. by intros [? | ?%elem_of_nil]; [left |].
  - intros l s Hs Hst. right. exists s. split_and!; try done. rewrite at_call_none by done.
    by intros [? | ?%elem_of_nil]; [left |].
Qed.

Lemma minv_begin st k mc st' :
  begin_call st k mc = Some st' -> ms_calls st !! k = None /\ st' = MkMState mc.1 (<[k := mc.2]> (ms_calls st)).
Proof. unfold begin_call. destruct (ms_calls st !! k); [done |]. by intros [= <-]. Qed.

Lemma minv_close m calls k id :
  minv (MkMState m calls) -> calls !! k = None ->
  minv (MkMState (close_begin m id).1 (<[k := (close_begin m id).2]> calls)).
Proof.
  intros Hi Hk. unfold close_begin. destruct (rm_rooms m !! id) as [l |] eqn:Hl; [| by apply minv_failed].
  apply minv_take; [done | done | apply NoDup_singleton | |].
  - intros id' l'. rewrite list_elem_of_singleton, lookup_delete_None. naive_solver.
  - by intros id' l' [_ ?]%lookup_delete_Some.
Qed.

Lemma minv_shutdown m calls k site :
  minv (MkMState m calls) -> calls !! k = None ->
  minv (MkMState (shutdown_begin site m).1 (<[k := (shutdown_begin site m).2]> calls)).
Proof.
  intros Hi Hk. apply minv_take; [done | done | apply NoDup_fst_range | |].
  - intros id l. rewrite elem_of_range, lookup_empty. naive_solver.
  - intros id l. by rewrite lookup_empty.
Qed.

(** The heap and the map stay: a step that only registers or closes an instance. *)
Lemma minv_registry x m calls k c reg c' :
  minv (MkMState m calls) -> calls !! k = Some c ->
  let m' := RoomManager.set_registry m reg in
  reg_inv reg -> (forall id, is_Some (reg_instances reg !! id) -> is_Some (reg_instances (rm_registry m) !! id) \/ id ∈ names c) ->
  evolves x m m' -> (forall id, x = Some id -> id ∈ names c) -> call_ok m' c' ->
  (forall id, id ∈ names c' -> id ∈ names c) ->
  (forall id, open_instance reg id -> id ∈ names c -> id ∈ names c') ->
  (forall p, p ∈ rooms_of c -> p ∈ rooms_of c') ->
  minv (MkMState m' (<[k := c']> calls)).
Proof.
  intros Hi Hk m' Hreg Hnew Hev Hx Hok Hsub Hopen Hrooms.
  apply (minv_call x m); unfold m'; cbn [RoomManager.set_registry rm_instanceCounter rm_registry rm_heap rm_rooms]; try done.
  - apply (mv_counter _ Hi).
  - intros id [Hs | Hs]%Hnew; [by apply (mv_named _ Hi) |]. by eapply co_named, Hs; eapply (mv_calls _ Hi).
  - intros l s Hl. eapply sys_ok_books, (mv_heap _ Hi); done.
  - intros id Ex. rewrite (at_call_eq _ _ c) by done. by apply Hx.
  - intros id Hin%Hsub. split; [by eapply (mv_map _ Hi) |]. intros k' c0 Hne Hc Hin'. destruct Hne.
    by eapply (mv_uniq _ Hi).
  - by left.
  - intros id Ho. rewrite (at_call_eq _ _ c) by done. intros [? | ?]; [by left | right; by apply Hopen].
  - intros l s Hs Hst. right. exists s. split_and!; try done. rewrite (at_call_eq _ _ c) by done.
    intros [? | ?]; [by left | right; by apply Hrooms].
Qed.

Lemma minv_register m calls k lg b c id now m' c' :
  minv (MkMState m calls) -> calls !! k = Some (CallRegister lg b c id) ->
  call_step now m (CallRegister lg b c id) = Some (m', c') -> minv (MkMState m' (<[k := c']> calls)).
Proof.
  intros Hi Hk Hs. pose proof (mv_calls _ Hi _ _ Hk) as Hok.
  pose proof (co_fresh _ _ Hok id eq_refl ltac:(left)) as Hf. cbn [call_step create_step close_step] in Hs. cbn [ms_mgr] in *.
  set (spec := MkRoomSpec lg id (rm_config m)) in *. pose proof (mv_reg _ Hi) as Hreg. simpl in Hreg.
  assert (m' = RoomManager.set_registry m (Registry.CreateRoom (rm_registry m) spec now).1 /\ c' = CallStart lg b c id) as [-> ->]
    by (rewrite CreateRoom_fresh in Hs |- * by done; by injection Hs as <- <-).
  pose proof (evolves_register m spec now Hreg Hf) as Hev.
  apply (minv_registry (Some id) m calls k _ _ _ Hi Hk); try done.
  - by apply reg_inv_CreateRoom.
  - intros id'. rewrite CreateRoom_fresh by done. simpl. intros [<- | ?]%lookup_insert_is_Some'; [right; left | by left].
  - intros id' [= <-]. left.
  - constructor; cbn [names registers rooms_of stopped_of closer app]; try done; try apply Hok.
    + intros id' _ ->%list_elem_of_singleton. simpl. apply open_CreateRoom; [done | done | by left].
Qed.

Lemma minv_mark m calls k all id l todo now :
  minv (MkMState m calls) -> calls !! k = Some (CallMark all id l todo) ->
  minv (MkMState (RoomManager.set_registry m (Registry.MarkClosed (rm_registry m) id now).1)
    (<[k := CallStop all todo]> calls)).
Proof.
  intros Hi Hk. pose proof (mv_calls _ Hi _ _ Hk) as Hok. pose proof (mv_reg _ Hi) as Hreg. simpl in Hok, Hreg.
  destruct (MarkClosed_index (rm_registry m) id now) as (E & _ & _). pose proof (evolves_mark m id now Hreg) as Hev.
  pose proof (co_nodup _ _ Hok) as [Hni Hnd]%NoDup_cons.
  apply (minv_registry (Some id) m calls k _ _ _ Hi Hk); try done.
  - by apply reg_inv_MarkClosed.
  - intros id'. rewrite E. by left.
  - intros id' [= <-]. left.
  - constructor; cbn [names registers rooms_of stopped_of closer]; try done.
    + intros id' Hin. apply (co_named _ _ Hok). by right.
    + intros id' _ Hin. apply open_MarkClosed; [done |]. split; [congruence |]. apply (co_open _ _ Hok); [done | by right].
    + intros p. rewrite app_nil_r. intros Hp. apply (ev_room _ _ _ Hev), (co_rooms _ _ Hok), elem_of_app. by left.
    + by intros p ?%elem_of_nil.
    + by intros p ?%elem_of_nil.
    + intros _. destruct (co_done _ _ Hok eq_refl) as (fin & Hd & Hfin). inversion Hd; subst.
      exists (fin ++ [(id, l)]). split; [constructor; by rewrite <- app_assoc |].
      intros p [Hp | ->%list_elem_of_singleton]%elem_of_app.
      * destruct (Hfin p Hp) as (H1 & H2 & H3). split_and!; [done | | by apply (ev_grow _ _ _ Hev)].
        intros Ho. by apply H2, (ev_shut _ _ _ Hev).
      * split_and!.
        -- apply (ev_closed _ _ _ Hev), (co_stopped _ _ Hok). by left.
        -- simpl. by intros [? _]%open_MarkClosed.
        -- apply (ev_grow _ _ _ Hev), open_registered, (co_open _ _ Hok); [done | left].
  - intros id' Hin. by right.
  - intros id' [Hne _]%open_MarkClosed [-> | Hin]%elem_of_cons; done.
Qed.

Lemma minv_start m calls k lg b c id :
  minv (MkMState m calls) -> calls !! k = Some (CallStart lg b c id) ->
  minv (MkMState (RoomManager.alloc_room m (started (rm_config m) lg id b c)) (<[k := CallPublish id (rm_next m)]> calls)).
Proof.
  intros Hi Hk. pose proof (mv_calls _ Hi _ _ Hk) as Hok. simpl in Hok. pose proof (heap_free m (mv_heap _ Hi)) as Hf.
  apply (minv_call None m); cbn [RoomManager.alloc_room rm_instanceCounter rm_registry rm_heap rm_rooms names rooms_of];
    try done; try apply Hi.
  - intros l s [[<- <-] | [Hne Hl]]%lookup_insert_Some.
    + split; simpl; [lia | apply started_inv | lia | done].
    + destruct (mv_heap _ Hi _ _ Hl) as [? ? ? ?]. split; simpl in *; try done. lia.
  - by apply evolves_alloc.
  - constructor; cbn [names registers rooms_of stopped_of closer RoomManager.alloc_room rm_instanceCounter rm_registry]; try apply Hok; try done.
    + intros p. rewrite app_nil_r. intros ->%list_elem_of_singleton. unfold is_room. simpl. rewrite lookup_insert_eq. eauto.
    + by intros p ?%elem_of_nil.
    + by intros p ?%elem_of_nil.
  - intros id' ->%list_elem_of_singleton. split; [eapply (mv_map _ Hi); [exact Hk | left] |].
    intros k' c' Hne Hc Hin. destruct Hne. eapply (mv_uniq _ Hi); [exact Hc | exact Hk | exact Hin | left].
  - by left.
  - intros id' _. rewrite (at_call_eq _ _ _ _ Hk). by intros [? | ?]; [left | right].
  - intros l s [[<- <-] | [Hne Hl]]%lookup_insert_Some Hst; [left; right; left |]. right. exists s. split_and!; try done.
    rewrite (at_call_eq _ _ _ _ Hk). by intros [? | ?%elem_of_nil]; [left |].
Qed.

Lemma minv_publish m calls k id l :
  minv (MkMState m calls) -> calls !! k = Some (CallPublish id l) ->
  minv (MkMState (RoomManager.set_rooms m (<[id := l]> (rm_rooms m))) (<[k := CallCreated id l]> calls)).
Proof.
  intros Hi Hk. pose proof (mv_calls _ Hi _ _ Hk) as Hok. simpl in Hok.
  apply (minv_call None m); cbn [RoomManager.set_rooms rm_instanceCounter rm_registry rm_heap rm_rooms names rooms_of];
    try done; try apply Hi.
  - intros l' s Hl. eapply sys_ok_books, (mv_heap _ Hi); done.
  - by apply call_ok_idle.
  - by intros id' ?%elem_of_nil.
  - intros id' l' [[<- <-] | [Hne Hl]]%lookup_insert_Some; [right | by left]. rewrite (at_call_eq _ _ _ _ Hk).
    split_and!; [left | apply (co_rooms _ _ Hok); left | apply (co_open _ _ Hok); [done | left]].
  - intros id' _. rewrite (at_call_eq _ _ _ _ Hk). intros [? | ->%list_elem_of_singleton]; left.
    + apply lookup_insert_is_Some'. by right.
    + rewrite lookup_insert_eq. eauto.
  - intros l' s Hs Hst. right. exists s. split_and!; try done. rewrite (at_call_eq _ _ _ _ Hk).
    intros [Hl | [= <- <-]%list_elem_of_singleton]; left; [| by rewrite lookup_insert_eq].
    rewrite lookup_insert_ne; [done |]. intros ->.
    pose proof (mv_map _ Hi _ _ (r_instanceID (sys_room s)) Hk ltac:(left)) as E. simpl in E. congruence.
Qed.

Lemma minv_closed m calls k all :
  minv (MkMState m calls) -> calls !! k = Some (CallStop all []) -> minv (MkMState m (<[k := CallClosed all]> calls)).
Proof.
  intros Hi Hk. pose proof (mv_calls _ Hi _ _ Hk) as Hok. simpl in Hok.
  apply (minv_call None m); try apply Hi; cbn [names rooms_of]; try done.
  - apply call_ok_idle; try done. intros _. destruct (co_done _ _ Hok eq_refl) as (fin & Hd & Hfin).
    inversion Hd; subst. rewrite app_nil_r in *. exists fin. split; [constructor | done].
  - by intros id ?%elem_of_nil.
  - by left.
  - intros id _. rewrite (at_call_eq _ _ _ _ Hk). by intros [? | ?%elem_of_nil]; [left |].
  - intros l s Hs Hst. right. exists s. split_and!; try done. rewrite (at_call_eq _ _ _ _ Hk).
    by intros [? | ?%elem_of_nil]; [left |].
Qed.

(** A call stops a room, or has waited for it. *)
Lemma minv_stop m calls k c c' l s s' :
  minv (MkMState m calls) -> calls !! k = Some c -> rm_heap m !! l = Some s ->
  room_change s s' -> sys_inv s' -> sys_loop s' <> LoopNotStarted ->
  call_ok (set_room m l s') c' -> names c' = names c ->
  (forall p, p ∈ rooms_of c -> p ∈ rooms_of c' \/ p.2 = l /\ r_status (sys_room s') = RoomStatusClosed) ->
  minv (MkMState (set_room m l s') (<[k := c']> calls)).
Proof.
  intros Hi Hk Hl Hc Hinv Hlp Hok Hn Hr.
  apply (minv_call None m); unfold set_room in *; cbn [RoomManager.set_heap rm_instanceCounter rm_registry rm_heap rm_rooms]; try done; try apply Hi.
  - intros l' s2 [[<- <-] | [Hne Hs]]%lookup_insert_Some; [| eapply sys_ok_books, (mv_heap _ Hi); done].
    destruct (mv_heap _ Hi _ _ Hl) as [? ? ? ?], Hc. split; simpl in *; try done. lia.
  - by eapply evolves_set_room.
  - rewrite Hn. intros id Hin. split; [by eapply (mv_map _ Hi) |]. intros k' c0 Hne Hc0 Hin'. destruct Hne.
    by eapply (mv_uniq _ Hi).
  - by left.
  - intros id _. rewrite (at_call_eq _ _ _ _ Hk), Hn. by intros [? | ?]; [left | right].
  - intros l' s2 [[<- <-] | [Hne Hs]]%lookup_insert_Some Hst; right; rewrite (at_call_eq _ _ _ _ Hk).
    + exists s. destruct Hc as [Hid Hrank]. split_and!; [done | done | |].
      * intros E. apply Hst. by eapply room_change_closed.
      * intros [? | [? | [_ ?]]%Hr]; [by left | by right | done].
    + exists s2. split_and!; try done. intros [? | [? | [E _]]%Hr]; [by left | by right | done].
Qed.

(** A room goes on. *)
Lemma minv_room m calls l s s' lab :
  minv (MkMState m calls) -> rm_heap m !! l = Some s -> step lab s s' -> minv (MkMState (set_room m l s') calls).
Proof.
  intros Hi Hl Hs. assert (room_change s s') as Hc by (split; [by eapply step_instanceID | by eapply step_rank]).
  pose proof (evolves_set_room m l s s' Hl Hc) as Hev. destruct (mv_heap _ Hi _ _ Hl) as [H1 H2 H3 H4]. simpl in H1.
  assert (sys_loop s' <> LoopNotStarted) as Hlp by (destruct Hs; simpl in *; congruence).
  destruct Hi. constructor; simpl in *; try done.
  - intros l' s2 [[<- <-] | [Hne Hs2]]%lookup_insert_Some; [| eapply sys_ok_books, mv_heap0; done].
    destruct Hc. split; simpl; [done | by eapply step_sys_inv | lia | done].
  - intros id l' Hl'. destruct (mv_rooms0 _ _ Hl') as [Hr Ho]. split; [by apply (ev_room _ _ _ Hev) | done].
  - intros k c Hk. eapply call_ok_evolves; [done | done | by eapply mv_calls0].
  - intros l' s2 [[<- <-] | [Hne Hs2]]%lookup_insert_Some Hst; [| by apply mv_live0].
    rewrite (rg_id _ _ Hc). apply mv_live0; [done |]. intros E. apply Hst. by eapply room_change_closed.
Qed.

Lemma stop_end_inv (s : MRoom) :
  sys_inv s -> sys_loop s = LoopExited ->
  sys_inv (MkSys (StopEnd (sys_room s)) LoopExited (sys_ctxDone s) (sys_sent s)).
Proof.
  intros [H1 H2 H3] Hl. rewrite Hl in H2. split; simpl; [by apply room_inv_set_status | | done].
  by destruct (r_status (sys_room s)).
Qed.

Lemma call_ok_wait m all id l todo :
  call_ok m (CallStop all ((id, l) :: todo)) -> is_stopping m l -> call_ok m (CallWait all id l todo).
Proof.
  intros [] Hst. constructor; try done; [by intros p ->%list_elem_of_singleton |]. intros _. destruct (co_done0 eq_refl) as (fin & Hd & Hfin).
  exists fin. split; [| done]. inversion Hd; subst. by constructor.
Qed.

Lemma call_ok_mark m all id l todo :
  call_ok m (CallWait all id l todo) -> is_closed m l -> call_ok m (CallMark all id l todo).
Proof.
  intros [] Hcl. constructor; try done.
  - intros p. cbn [rooms_of stopped_of]. intros Hp. apply co_rooms0. cbn [rooms_of stopped_of]. set_solver.
  - by intros p ->%list_elem_of_singleton.
  - by intros p ?%elem_of_nil.
  - intros _. destruct (co_done0 eq_refl) as (fin & Hd & Hfin). exists fin. split; [| done].
    inversion Hd; subst. by constructor.
Qed.

Lemma is_closed_set_room m l s : r_status (sys_room s) = RoomStatusClosed -> is_closed (set_room m l s) l.
Proof. intros Hs. exists s. unfold set_room. simpl. by rewrite lookup_insert_eq. Qed.

Lemma minv_stop_begin m calls k all id l todo s m' c' now :
  minv (MkMState m calls) -> calls !! k = Some (CallStop all ((id, l) :: todo)) -> rm_heap m !! l = Some s ->
  call_step now m (CallStop all ((id, l) :: todo)) = Some (m', c') -> minv (MkMState m' (<[k := c']> calls)).
Proof.
  intros Hi Hk Hl Hs. cbn [call_step create_step close_step] in Hs. rewrite Hl in Hs. simpl in Hs.
  destruct s as [r lp b sent]. pose proof (step_stop_begin r lp b sent) as Hst.
  cbn [sys_room sys_loop sys_ctxDone sys_sent] in Hs. destruct (StopBegin r) as [r1 wait] eqn:HB. simpl in Hst.
  injection Hs as <- <-. set (s' := MkSys r1 lp (wait || b) sent) in *.
  assert (room_change (MkSys r lp b sent) s') as Hc by (split; [by eapply step_instanceID | by eapply step_rank]).
  destruct (mv_heap _ Hi _ _ Hl) as [H1 H2 H3 H4].
  assert (call_ok (set_room m l s') (CallWait all id l todo)) as Hw.
  { apply call_ok_wait.
    - eapply call_ok_evolves; [by eapply evolves_set_room | done | by eapply (mv_calls _ Hi)].
    - exists s'. unfold set_room. simpl. rewrite lookup_insert_eq. split; [done |]. simpl.
      unfold StopBegin in HB. simpl in H3. destruct (r_status r) eqn:E; injection HB as <- <-; rewrite ?E; simpl in *; lia. }
  eapply (minv_stop m calls k _ _ l _ s' Hi Hk Hl Hc); try done.
  - by eapply step_sys_inv.
  - destruct wait; [done |]. apply call_ok_mark; [done |]. apply is_closed_set_room. unfold s'. simpl.
    unfold StopBegin in HB. destruct (r_status r) eqn:E; by injection HB as <-.
  - by destruct wait.
  - destruct wait; [by left |]. intros p [-> | Hp]%elem_of_cons; [right | by left]. split; [done |]. unfold s'. simpl.
    unfold StopBegin in HB. destruct (r_status r) eqn:E; by injection HB as <-.
Qed.

Lemma minv_stop_end m calls k all id l todo s :
  minv (MkMState m calls) -> calls !! k = Some (CallWait all id l todo) -> rm_heap m !! l = Some s ->
  sys_loop s = LoopExited ->
  minv (MkMState (set_room m l (MkSys (StopEnd (sys_room s)) LoopExited (sys_ctxDone s) (sys_sent s)))
    (<[k := CallMark all id l todo]> calls)).
Proof.
  intros Hi Hk Hl Hlp. destruct (mv_heap _ Hi _ _ Hl) as [H1 H2 H3 H4].
  set (s' := MkSys (StopEnd (sys_room s)) LoopExited (sys_ctxDone s) (sys_sent s)).
  assert (room_change s s') as Hc by (split; [done | simpl; by destruct (r_status (sys_room s)); simpl; lia]).
  eapply (minv_stop m calls k _ _ l _ s' Hi Hk Hl Hc); try done.
  - by apply stop_end_inv.
  - apply call_ok_mark; [| by apply is_closed_set_room].
    eapply call_ok_evolves; [by eapply evolves_set_room | done | by eapply (mv_calls _ Hi)].
  - intros p [-> | Hp]%elem_of_cons; [by right | by left].
Qed.

Lemma minv_call_step now m calls k c m' c' :
  minv (MkMState m calls) -> calls !! k = Some c -> call_step now m c = Some (m', c') ->
  minv (MkMState m' (<[k := c']> calls)).
Proof.
  intros Hi Hk Hs. destruct c as [lg b c id | lg b c id | id l | all [| [id l] todo] | all id l todo | all id l todo
    | | |]; try done.
  - by eapply minv_register.
  - simpl in Hs. injection Hs as <- <-. by eapply minv_start.
  - injection Hs as <- <-. by apply minv_publish.
  - injection Hs as <- <-. by apply minv_closed.
  - pose proof Hs as Hs'. cbn [call_step create_step close_step] in Hs'. apply bind_Some in Hs' as (s & Hl & _). by eapply minv_stop_begin.
  - cbn [call_step create_step close_step] in Hs. apply bind_Some in Hs as (s & Hl & Hs). destruct (sys_loop s) eqn:Hlp; try done.
    injection Hs as <- <-. by apply minv_stop_end.
  - injection Hs as <- <-. by eapply minv_mark.
Qed.

Lemma call_step_counter now m c m' c' :
  call_step now m c = Some (m', c') -> rm_instanceCounter m' = rm_instanceCounter m.
Proof.
  destruct c as [lg b c id | lg b c id | id l | all [| [id l] todo] | all id l todo | all id l todo | | |];
    cbn [call_step create_step close_step]; intros Hs; try done.
  - destruct (Registry.CreateRoom _ _ _) as [reg [e | l]]; by injection Hs as <- <-.
  - simpl in Hs. by injection Hs as <- <-.
  - by injection Hs as <- <-.
  - by injection Hs as <- <-.
  - apply bind_Some in Hs as (s & Hl & Hs). destruct (StopBegin (sys_room s)). by injection Hs as <- <-.
  - apply bind_Some in Hs as (s & Hl & Hs). destruct (sys_loop s); try done. by injection Hs as <- <-.
  - by injection Hs as <- <-.
Qed.

Lemma minv_exec lab st st' :
  minv st -> rm_instanceCounter (ms_mgr st) + 1 < 2 ^ 64 -> mexec lab st = Some st' ->
  minv st' /\ rm_instanceCounter (ms_mgr st') <= rm_instanceCounter (ms_mgr st) + 1.
Proof.
  intros Hi Hlt Hs. destruct st as [m calls]. destruct lab as [k lg b c | k id | k site | k now | l lab]; cbn [mexec ms_mgr ms_calls] in *.
  - apply minv_begin in Hs as [Hk ->]. split; [by apply minv_create |]. simpl. pose proof (mv_counter _ Hi) as Hc. simpl in Hc.
    rewrite u64_small; lia.
  - apply minv_begin in Hs as [Hk ->]. split; [by apply minv_close |]. unfold close_begin. simpl.
    destruct (rm_rooms m !! id); simpl; lia.
  - apply minv_begin in Hs as [Hk ->]. split; [by apply minv_shutdown |]. simpl. lia.
  - apply bind_Some in Hs as (c & Hk & ([m' c'] & Hs & [= <-])%bind_Some).
    split; [by eapply minv_call_step |]. apply call_step_counter in Hs. simpl. lia.
  - apply bind_Some in Hs as (s & Hl & (s' & Hs%exec_step & [= <-])%bind_Some).
    split; [by eapply minv_room |]. simpl. lia.
Qed.

Lemma minv_run ls st st' :
  minv st -> rm_instanceCounter (ms_mgr st) + Z.of_nat (length ls) < 2 ^ 64 -> mrun ls st = Some st' ->
  minv st' /\ rm_instanceCounter (ms_mgr st') <= rm_instanceCounter (ms_mgr st) + Z.of_nat (length ls).
Proof.
  intros Hi. revert st'. induction ls as [| lab ls IH] using rev_ind; intros st' Hlt Hr.
  - injection Hr as <-. split; [done | simpl; lia].
  - rewrite length_app in *. simpl in *. apply mrun_snoc in Hr as (st1 & H1 & Hs).
    destruct (IH st1 ltac:(lia) H1) as [Hi1 Hc1]. destruct (minv_exec _ _ _ Hi1 ltac:(lia) Hs). split; [done | lia].
Qed.
End system.
