(* ===== verification/ManagerTheorems.v ===== *)
(** * What the room manager guarantees its callers

    Calls that run alone are the functions of [RoomManager]; in any
    interleaving calls return, and rooms, registry and calls agree. *)

From Stdlib Require Import ZArith Lia.
From stdpp Require Import base strings gmap fin_maps list.
From S2P Require Import Prelude.
From S2P Require Import Player.
From S2P Require Import Cluster.
From S2P Require Import ClusterFacts.
From S2P Require Import Room.
From S2P Require Import RoomFacts.
From S2P Require Import RoomSystem.
From S2P Require Import RoomTheorems.
From S2P Require Import RoomManager.
From S2P Require Import RoomManagerFacts.
From S2P Require Import ManagerSystem.

Local Open Scope string_scope.
Local Open Scope Z_scope.
Local Open Scope list_scope.

Section system.
Context `{GR : !GoRange}.
Implicit Types (m : RoomManager) (st : MState).

(** ** Calls alone *)

Definition runs_to st st' : Prop := exists ls, mrun ls st = Some st'.

Lemma runs_to_trans st1 st2 st3 : runs_to st1 st2 -> runs_to st2 st3 -> runs_to st1 st3.
Proof. intros [ls1 H1] [ls2 H2]. exists (ls1 ++ ls2). unfold mrun in *. by rewrite foldl_app, H1. Qed.

Lemma runs_to_step lab st st' : mexec lab st = Some st' -> runs_to st st'.
Proof. intros Hs. by exists [lab]. Qed.

Lemma runs_to_call now m calls k c m' c' :
  calls !! k = Some c -> call_step now m c = Some (m', c') ->
  runs_to (MkMState m calls) (MkMState m' (<[k := c']> calls)).
Proof. intros Hk Hs. apply (runs_to_step (MCall k now)). simpl. rewrite Hk. simpl. by rewrite Hs. Qed.

Lemma room_run ls m calls l s s' :
  steps ls s s' -> rm_heap m !! l = Some s ->
  mrun (MRoomStep l <$> ls) (MkMState m calls) = Some (MkMState (set_room m l s') calls).
Proof.
  intros Hs Hl. induction Hs as [s | ls lab s1 s2 s3 _ IH Hs].
  - unfold mrun, set_room. simpl. rewrite insert_id by done. by destruct m.
  - rewrite fmap_app. apply mrun_snoc. eexists. split; [by apply IH |]. simpl. rewrite lookup_insert_eq. simpl.
    rewrite (proj2 (exec_step _ _ _) Hs). simpl. unfold set_room, RoomManager.set_heap. simpl. by rewrite insert_insert_eq.
Qed.

(** What a creation returned. *)
Definition created (id : RoomInstanceID) (res : ManagerError + loc) : Call :=
  match res with inl e => CallFailed e | inr l => CallCreated id l end.

Lemma create_alone m calls k lg b c now now' :
  calls !! k = None ->
  let '(m', res) := RoomManager.CreateRoomWithBroadcaster m lg b c now now' in
  runs_to (MkMState m calls) (MkMState m' (<[k := created (RoomManager.generateInstanceID m lg).2 res]> calls)).
Proof.
  intros Hk. unfold RoomManager.CreateRoomWithBroadcaster. destruct (RoomManager.generateInstanceID m lg) as [m1 id] eqn:Hg.
  assert (runs_to (MkMState m calls) (MkMState m1 (<[k := CallRegister lg b c id]> calls))) as H1.
  { apply (runs_to_step (MCreate k lg b c)). cbn [mexec ms_mgr]. unfold begin_call, create_begin. rewrite Hg. cbn [ms_calls]. by rewrite Hk. }
  destruct (Registry.CreateRoom (rm_registry m1) (MkRoomSpec lg id (rm_config m1)) now) as [reg [e | l]] eqn:HR.
  { eapply runs_to_trans; [exact H1 |]. eapply runs_to_trans.
    { eapply (runs_to_call now); [apply lookup_insert_eq | cbn [call_step create_step close_step]; by rewrite HR]. }
    rewrite insert_insert_eq. by exists []. }
  eapply runs_to_trans; [exact H1 |]. eapply runs_to_trans.
  { eapply (runs_to_call now); [apply lookup_insert_eq | cbn [call_step create_step close_step]; by rewrite HR]. }
  eapply runs_to_trans; [eapply (runs_to_call now'); [apply lookup_insert_eq | done] |].
  eapply runs_to_trans; [eapply (runs_to_call now'); [apply lookup_insert_eq | done] |].
  rewrite !insert_insert_eq. by exists [].
Qed.

Lemma stop_alone m calls k all id l todo sched now m' :
  calls !! k = Some (CallStop all ((id, l) :: todo)) -> RoomManager.stop_and_mark m id l sched now = Some m' ->
  runs_to (MkMState m calls) (MkMState m' (<[k := CallStop all todo]> calls)).
Proof.
  intros Hk (s & Hl & (s' & HS & [= <-])%bind_Some)%bind_Some. unfold Stop in HS.
  destruct (StopBegin (sys_room s)) as [r wait] eqn:HB. destruct wait.
  - apply bind_Some in HS as (s2 & Hrun%run_steps & HS). destruct (sys_loop s2) eqn:Hlp; try done. injection HS as <-.
    eapply runs_to_trans. { eapply (runs_to_call now); [exact Hk |]. cbn [call_step create_step close_step]. rewrite Hl. simpl. by rewrite HB. }
    eapply runs_to_trans. { eexists. eapply room_run; [exact Hrun | apply lookup_insert_eq]. }
    eapply runs_to_trans. { eapply (runs_to_call now); [apply lookup_insert_eq |]. cbn [call_step create_step close_step]. simpl. rewrite lookup_insert_eq. simpl. by rewrite Hlp. }
    eapply runs_to_trans. { eapply (runs_to_call now); [apply lookup_insert_eq | done]. }
    rewrite !insert_insert_eq. exists []. unfold set_room, RoomManager.set_heap, RoomManager.set_registry. simpl.
    by rewrite !insert_insert_eq.
  - injection HS as <-. eapply runs_to_trans. { eapply (runs_to_call now); [exact Hk |]. cbn [call_step create_step close_step]. rewrite Hl. simpl. by rewrite HB. }
    eapply runs_to_trans. { eapply (runs_to_call now); [apply lookup_insert_eq | done]. }
    rewrite insert_insert_eq. by exists [].
Qed.

Lemma stop_all_alone rooms m calls k all sched now m' :
  calls !! k = Some (CallStop all rooms) -> RoomManager.stop_all rooms m sched now = Some m' ->
  runs_to (MkMState m calls) (MkMState m' (<[k := CallClosed all]> calls)).
Proof.
  revert m calls. induction rooms as [| [id l] rooms IH]; intros m calls Hk; cbn [RoomManager.stop_all].
  - intros [= <-]. by eapply (runs_to_call 0).
  - intros (m1 & H1 & Hm)%bind_Some. eapply runs_to_trans; [by eapply stop_alone |].
    rewrite <- (insert_insert_eq calls k (CallClosed all) (CallStop all rooms)). eapply IH; [apply lookup_insert_eq | done].
Qed.

Lemma close_alone m calls k id l sched now m' :
  calls !! k = None -> rm_rooms m !! id = Some l -> RoomManager.CloseRoom m id sched now = Some (m', None) ->
  runs_to (MkMState m calls) (MkMState m' (<[k := CallClosed [(id, l)]]> calls)).
Proof.
  intros Hk Hl Hc. unfold RoomManager.CloseRoom in Hc. rewrite Hl in Hc. apply bind_Some in Hc as (m1 & H1 & [= <-]).
  eapply runs_to_trans.
  { apply (runs_to_step (MClose k id)). simpl. unfold begin_call, close_begin. simpl. by rewrite Hk, Hl. }
  simpl. rewrite <- (insert_insert_eq calls k (CallClosed [(id, l)]) (CallStop [(id, l)] [(id, l)])).
  eapply (stop_all_alone [(id, l)] _ _ _ _ (fun _ => sched) (fun _ => now)); [apply lookup_insert_eq |].
  cbn [RoomManager.stop_all]. by rewrite H1.
Qed.

Lemma shutdown_alone m calls k site sched now m' :
  calls !! k = None -> RoomManager.Shutdown site m sched now = Some m' ->
  runs_to (MkMState m calls) (MkMState m' (<[k := CallClosed (range site (rm_rooms m))]> calls)).
Proof.
  intros Hk Hs. eapply runs_to_trans.
  { apply (runs_to_step (MShutdown k site)). simpl. unfold begin_call. simpl. by rewrite Hk. }
  simpl. rewrite <- (insert_insert_eq calls k (CallClosed (range site (rm_rooms m))) (CallStop (range site (rm_rooms m)) (range site (rm_rooms m)))).
  eapply stop_all_alone; [apply lookup_insert_eq | exact Hs].
Qed.

(** ** Calls return *)

(** The steps of call [k] and of the loops of the rooms. *)
Definition own (k : nat) (lab : MLabel) : Prop :=
  match lab with MCall k' _ => k' = k | MRoomStep _ lab => internal lab | _ => False end.

(** Call [k] can return as [c'] without anybody else's help. *)
Definition can_return st (k : nat) (c' : Call) : Prop :=
  exists ls st', mrun ls st = Some st' /\ Forall (own k) ls /\ ms_calls st' !! k = Some c'.

Lemma can_return_run ls st st1 k c' :
  mrun ls st = Some st1 -> Forall (own k) ls -> can_return st1 k c' -> can_return st k c'.
Proof.
  intros H1 Ho (ls2 & st' & H2 & Ho2 & Hc). exists (ls ++ ls2), st'. split_and!; [| by apply Forall_app | done].
  unfold mrun in *. by rewrite foldl_app, H1.
Qed.

Lemma can_return_call st k c m' c1 c' now :
  ms_calls st !! k = Some c -> call_step now (ms_mgr st) c = Some (m', c1) ->
  can_return (MkMState m' (<[k := c1]> (ms_calls st))) k c' -> can_return st k c'.
Proof.
  intros Hk Hs. apply (can_return_run [MCall k now]); [| by repeat constructor].
  unfold mrun. simpl. rewrite Hk. simpl. by rewrite Hs.
Qed.

Lemma returned_at m calls k c' : can_return (MkMState m (<[k := c']> calls)) k c'.
Proof. exists [], (MkMState m (<[k := c']> calls)). split_and!; [done | constructor | apply lookup_insert_eq]. Qed.

Lemma minv_steps ls m calls l s s' :
  minv (MkMState m calls) -> rm_heap m !! l = Some s -> steps ls s s' -> minv (MkMState (set_room m l s') calls).
Proof.
  intros Hi Hl Hs. induction Hs as [s | ls lab s1 s2 s3 _ IH Hs].
  - replace (set_room m l s) with m; [done |]. unfold set_room. rewrite insert_id by done. by destruct m.
  - replace (set_room m l s3) with (set_room (set_room m l s2) l s3)
      by (unfold set_room, RoomManager.set_heap; simpl; by rewrite insert_insert_eq).
    eapply minv_room; [by apply IH | apply lookup_insert_eq | done].
Qed.

(** Every step keeps the rooms' loops going. *)
Lemma call_step_lives now m c m' c' :
  call_step now m c = Some (m', c') -> rooms_live m -> rooms_live m'.
Proof.
  destruct c as [lg b c id | lg b c id | id l | all [| [id l] todo] | all id l todo | all id l todo | | |];
    cbn [call_step create_step close_step]; intros Hs Hm; try done.
  - destruct (Registry.CreateRoom _ _ _) as [reg [e | l0]]; by injection Hs as <- <-.
  - pose proof (rooms_live_made m lg id b Hm) as Hmade.
    destruct (Start _) as [r [e |]]; injection Hs as <- <-; by apply (rooms_live_alloc m).
  - by injection Hs as <- <-.
  - by injection Hs as <- <-.
  - apply bind_Some in Hs as (s & Hl & Hs). pose proof (proj2 Hm l s Hl) as Hlive.
    destruct s as [r lp b sent]. pose proof (step_loop_lives _ _ _ (step_stop_begin r lp b sent) Hlive) as Hb.
    cbn [sys_room] in *. destruct (StopBegin r) as [r1 wait]. injection Hs as <- <-. by apply rooms_live_set.
  - apply bind_Some in Hs as (s & Hl & Hs). pose proof (proj2 Hm l s Hl) as Hlive.
    destruct (sys_loop s); try done. injection Hs as <- <-. by apply rooms_live_set.
  - by injection Hs as <- <-.
Qed.

Lemma mexec_lives lab st st' :
  mexec lab st = Some st' -> rooms_live (ms_mgr st) -> rooms_live (ms_mgr st').
Proof.
  destruct lab as [k lg b c | k id | k site | k now | l lab]; cbn [mexec]; intros Hs Hm.
  - by apply minv_begin in Hs as [_ ->].
  - apply minv_begin in Hs as [_ ->]. unfold close_begin. by destruct (rm_rooms (ms_mgr st) !! id).
  - by apply minv_begin in Hs as [_ ->].
  - apply bind_Some in Hs as (c & _ & ([m' c'] & Hs & [= <-])%bind_Some). by eapply call_step_lives.
  - apply bind_Some in Hs as (s & Hl & (s' & Hx%exec_step & [= <-])%bind_Some).
    apply rooms_live_set; [done |]. eapply step_loop_lives; [done |]. by apply (proj2 Hm l).
Qed.

Lemma mrun_lives ls st st' : mrun ls st = Some st' -> rooms_live (ms_mgr st) -> rooms_live (ms_mgr st').
Proof.
  revert st'. induction ls as [| lab ls IH] using rev_ind; intros st' Hr Hm.
  - by injection Hr as <-.
  - apply mrun_snoc in Hr as (st1 & H1 & Hs). eapply mexec_lives; [done | by eapply IH].
Qed.

(** A stopping room's loop can finish on its own. *)
Lemma stopping_exits (s : MRoom) :
  loop_lives (sys_room s) -> sys_inv s -> sys_loop s <> LoopNotStarted -> (2 <= status_rank (r_status (sys_room s)))%nat ->
  exists ls s', steps ls s s' /\ Forall internal ls /\ sys_loop s' = LoopExited.
Proof.
  intros Hlive Hi Hlp Hr. pose proof (sv_life _ Hi) as Hl. destruct (r_status (sys_room s)) eqn:E; simpl in Hr; try lia.
  - destruct (loop_exits s Hi Hlive E) as (ls & s' & Hs & Hint & _ & Hex & _). by exists ls, s'.
  - exists [], s. destruct (sys_loop s); try done. split_and!; [constructor | constructor | done].
Qed.

(** Waiting for a room ends. *)
Lemma wait_returns m calls k all id l todo c' :
  minv (MkMState m calls) -> rooms_live m -> calls !! k = Some (CallWait all id l todo) ->
  (forall m calls, minv (MkMState m calls) -> rooms_live m -> calls !! k = Some (CallMark all id l todo) ->
    can_return (MkMState m calls) k c') ->
  can_return (MkMState m calls) k c'.
Proof.
  intros Hi Hlive Hk Hmark.
  destruct (co_waits _ _ (mv_calls _ Hi _ _ Hk) (id, l) ltac:(left)) as (s & Hl & Hrank). simpl in Hl.
  destruct (mv_heap _ Hi _ _ Hl) as [_ Hsi _ Hlp].
  pose proof (proj2 Hlive _ _ Hl) as Hls.
  destruct (stopping_exits s Hls Hsi Hlp Hrank) as (ls & s2 & Hst & Hint & Hex).
  pose proof (rooms_live_set m l s2 Hlive (steps_loop_lives _ _ _ Hst Hls)) as Hlive2.
  eapply can_return_run; [by eapply room_run | by apply Forall_fmap; eapply Forall_impl |].
  pose proof (minv_steps _ _ _ _ _ _ Hi Hl Hst) as Hi2.
  assert (rm_heap (set_room m l s2) !! l = Some s2) as Hl2 by apply lookup_insert_eq.
  eapply (can_return_call _ _ _ _ _ _ 0); [exact Hk | cbn [call_step create_step close_step ms_mgr]; rewrite Hl2; simpl; by rewrite Hex |].
  apply Hmark; [by apply (minv_stop_end (set_room m l s2) calls k all id l todo s2) | | apply lookup_insert_eq].
  apply rooms_live_set; [done |]. exact (steps_loop_lives _ _ _ Hst Hls).
Qed.

Lemma close_returns todo m calls k all :
  minv (MkMState m calls) -> rooms_live m -> calls !! k = Some (CallStop all todo) -> can_return (MkMState m calls) k (CallClosed all).
Proof.
  revert m calls. induction todo as [| [id l] todo IH]; intros m calls Hi Hlive Hk.
  { eapply (can_return_call _ _ _ _ _ _ 0); [exact Hk | done | apply returned_at]. }
  assert (forall m calls, minv (MkMState m calls) -> rooms_live m -> calls !! k = Some (CallMark all id l todo) ->
    can_return (MkMState m calls) k (CallClosed all)) as Hmark.
  { intros m1 calls1 Hi1 Hlive1 Hk1. eapply (can_return_call _ _ _ _ _ _ 0); [exact Hk1 | done |].
    apply IH; [by eapply minv_mark | done | apply lookup_insert_eq]. }
  destruct (co_rooms _ _ (mv_calls _ Hi _ _ Hk) (id, l) ltac:(left)) as (s & Hl & _). simpl in Hl.
  destruct (call_step 0 m (CallStop all ((id, l) :: todo))) as [[m1 c1] |] eqn:Hs.
  2:{ exfalso. cbn [call_step create_step close_step] in Hs. rewrite Hl in Hs. simpl in Hs. by destruct (StopBegin (sys_room s)). }
  eapply can_return_call; [exact Hk | exact Hs |].
  pose proof (minv_call_step _ _ _ _ _ _ _ Hi Hk Hs) as Hi1. pose proof (call_step_lives _ _ _ _ _ Hs Hlive) as Hlive1.
  assert (c1 = CallWait all id l todo \/ c1 = CallMark all id l todo) as [-> | ->].
  { cbn [call_step create_step close_step] in Hs. rewrite Hl in Hs. simpl in Hs. destruct (StopBegin (sys_room s)) as [r []]; injection Hs; auto. }
  - eapply wait_returns; [exact Hi1 | done | apply lookup_insert_eq | exact Hmark].
  - apply Hmark; [done | done | apply lookup_insert_eq].
Qed.

(** What a closing call set out to close. *)
Definition snapshot (c : Call) : option (list RoomRef) :=
  match c with
  | CallStop all _ | CallWait all _ _ _ | CallMark all _ _ _ | CallClosed all => Some all
  | _ => None
  end.

Lemma closing_returns m calls k c all :
  minv (MkMState m calls) -> rooms_live m -> calls !! k = Some c -> snapshot c = Some all ->
  can_return (MkMState m calls) k (CallClosed all).
Proof.
  assert (forall all id l todo m calls, minv (MkMState m calls) -> rooms_live m -> calls !! k = Some (CallMark all id l todo) ->
    can_return (MkMState m calls) k (CallClosed all)) as Hmark.
  { intros all0 id l todo m1 calls1 Hi1 Hlive1 Hk1. eapply (can_return_call _ _ _ _ _ _ 0); [exact Hk1 | done |].
    eapply close_returns; [by eapply minv_mark | done | apply lookup_insert_eq]. }
  intros Hi Hlive Hk Hc. destruct c; simplify_eq/=.
  - by eapply close_returns.
  - eapply wait_returns; [done | done | done | eauto].
  - by eapply Hmark.
  - exists [], (MkMState m calls). split_and!; [done | constructor | done].
Qed.

Lemma call_step_snapshot now m c m' c' all :
  call_step now m c = Some (m', c') -> snapshot c = Some all -> snapshot c' = Some all.
Proof.
  destruct c as [lg b c id | lg b c id | id l | all0 [| [id l] todo] | all0 id l todo | all0 id l todo | | |];
    cbn [call_step create_step close_step]; intros Hs Hall; simplify_eq/=; try done.
  - apply bind_Some in Hs as (s & Hl & Hs). destruct (StopBegin (sys_room s)) as [r []]; by injection Hs as <- <-.
  - apply bind_Some in Hs as (s & Hl & Hs). destruct (sys_loop s); try done. by injection Hs as <- <-.
Qed.

Lemma mexec_snapshot lab st st' k c all :
  mexec lab st = Some st' -> ms_calls st !! k = Some c -> snapshot c = Some all ->
  exists c', ms_calls st' !! k = Some c' /\ snapshot c' = Some all.
Proof.
  intros Hs Hk Hc. destruct lab as [k' lg b c0 | k' id | k' site | k' now | l lab]; cbn [mexec] in Hs.
  1,2,3: apply minv_begin in Hs as [Hk' ->]; simpl; rewrite lookup_insert_ne by congruence; eauto.
  - apply bind_Some in Hs as (c0 & Hk' & ([m' c'] & Hs & [= <-])%bind_Some). simpl.
    destruct (decide (k' = k)) as [-> |]; [rewrite lookup_insert_eq | rewrite lookup_insert_ne by done; eauto].
    exists c'. split; [done |]. eapply call_step_snapshot; [done | congruence].
  - apply bind_Some in Hs as (s & Hl & (s' & Hs & [= <-])%bind_Some). eauto.
Qed.

Lemma mrun_snapshot ls st st' k c all :
  mrun ls st = Some st' -> ms_calls st !! k = Some c -> snapshot c = Some all ->
  exists c', ms_calls st' !! k = Some c' /\ snapshot c' = Some all.
Proof.
  revert st'. induction ls as [| lab ls IH] using rev_ind; intros st' Hr Hk Hc.
  - injection Hr as <-. eauto.
  - apply mrun_snoc in Hr as (st1 & H1 & Hs). destruct (IH st1 H1 Hk Hc) as (c1 & Hk1 & Hc1). by eapply mexec_snapshot.
Qed.

(** A creation, too. *)
Lemma create_returns m calls k lg b c id :
  minv (MkMState m calls) -> calls !! k = Some (CallRegister lg b c id) ->
  can_return (MkMState m calls) k (CallCreated id (rm_next m)).
Proof.
  intros Hi Hk. pose proof (co_fresh _ _ (mv_calls _ Hi _ _ Hk) id eq_refl ltac:(left)) as Hf. simpl in Hf.
  eapply (can_return_call _ _ _ _ _ _ 0); [exact Hk | cbn [call_step create_step close_step ms_mgr]; by rewrite CreateRoom_fresh |].
  eapply (can_return_call _ _ _ _ _ _ 0); [apply lookup_insert_eq | done |].
  eapply (can_return_call _ _ _ _ _ _ 0); [apply lookup_insert_eq | done | apply returned_at].
Qed.

Lemma returned_names c : returned c = true -> names c = [] /\ rooms_of c = [].
Proof. by destruct c. Qed.

Lemma mv_open_iff st id :
  minv st ->
  open_instance (rm_registry (ms_mgr st)) id <->
  is_Some (rm_rooms (ms_mgr st) !! id) \/
  exists k c, ms_calls st !! k = Some c /\ registers c = true /\ id ∈ names c.
Proof.
  intros Hi. split.
  - intros Ho. destruct (mv_held _ Hi id Ho) as [? | (k & c & Hk & Hin)]; [by left | right]. exists k, c.
    split_and!; try done. destruct (registers c) eqn:E; [done |].
    apply open_registered in Ho as [l Hl]. rewrite (co_fresh _ _ (mv_calls _ Hi _ _ Hk) id E Hin) in Hl. done.
  - intros [[l Hl] | (k & c & Hk & Hr & Hin)]; [by destruct (mv_rooms _ Hi _ _ Hl) |].
    by apply (co_open _ _ (mv_calls _ Hi _ _ Hk)).
Qed.

(** When nothing is in progress and nothing is live, everything is closed. *)
Lemma quiescent_closed st :
  minv st -> (forall k c, ms_calls st !! k = Some c -> returned c = true) -> rm_rooms (ms_mgr st) = ∅ ->
  (forall id, ~ open_instance (rm_registry (ms_mgr st)) id) /\
  (forall l s, rm_heap (ms_mgr st) !! l = Some s -> Status (sys_room s) = RoomStatusClosed).
Proof.
  intros Hi Hret He. split.
  - intros id [[l Hl] | (k & c & Hk & _ & Hin)]%mv_open_iff; [| | done].
    + by rewrite He, lookup_empty in Hl.
    + destruct (returned_names c (Hret _ _ Hk)) as [E _]. rewrite E in Hin. by apply elem_of_nil in Hin.
  - intros l s Hl. destruct (decide (r_status (sys_room s) = RoomStatusClosed)) as [| Hn]; [done |].
    destruct (mv_live _ Hi _ _ Hl Hn) as [H | (k & c & Hk & Hin)]; [by rewrite He, lookup_empty in H |].
    destruct (returned_names c (Hret _ _ Hk)) as [_ E]. rewrite E in Hin. by apply elem_of_nil in Hin.
Qed.

(** C17: In every interleaving of creations, closings, shutdowns and the rooms
    themselves, an instance is open in the registry exactly when it is in the
    hands of the manager's map or of a call in progress that has registered it
    or is closing it, never of two of them; a room found in the map was started
    under that name; a room that is not closed is in the map or held by a call
    in progress; and when every call has returned the live rooms are exactly
    the open instances. *)
Theorem manager_calls_agree (cfg : RoomConfig) (ls : list MLabel) st :
  Z.of_nat (length ls) < 2 ^ 64 -> mrun ls (minit cfg) = Some st ->
  let m := ms_mgr st in
  (forall id, open_instance (rm_registry m) id <-> is_Some (rm_rooms m !! id) \/
     exists k c, ms_calls st !! k = Some c /\ registers c = true /\ id ∈ names c) /\
  (forall k c id, ms_calls st !! k = Some c -> id ∈ names c -> rm_rooms m !! id = None /\
     forall k' c', ms_calls st !! k' = Some c' -> id ∈ names c' -> k' = k) /\
  (forall id l, RoomManager.GetRoom m id = inr l ->
     exists s, rm_heap m !! l = Some s /\ InstanceID (sys_room s) = id /\ Status (sys_room s) <> RoomStatusCreated) /\
  (forall l s, rm_heap m !! l = Some s -> Status (sys_room s) <> RoomStatusClosed ->
     RoomManager.GetRoom m (InstanceID (sys_room s)) = inr l \/
     exists k c, ms_calls st !! k = Some c /\ (InstanceID (sys_room s), l) ∈ rooms_of c) /\
  ((forall k c, ms_calls st !! k = Some c -> returned c = true) ->
   forall id, is_Some (rm_rooms m !! id) <-> open_instance (rm_registry m) id).
Proof.
  intros Hlen Hrun m. destruct (minv_run ls _ st (minv_init cfg)) as [Hi _]; [simpl; lia | done |].
  unfold RoomManager.GetRoom. split_and!.
  - intros id. by apply mv_open_iff.
  - intros k c id Hk Hin. split; [by eapply (mv_map _ Hi) |]. intros k' c' Hk' Hin'. by eapply (mv_uniq _ Hi).
  - intros id l Hg. destruct (rm_rooms m !! id) eqn:Hl; [injection Hg as -> | done].
    destruct (mv_rooms _ Hi _ _ Hl) as [(s & Hs & Hid) _]. exists s. split_and!; [done | done |].
    intros He. pose proof (so_started _ _ _ (mv_heap _ Hi _ _ Hs)) as Hr. unfold Status in He. rewrite He in Hr. simpl in Hr. lia.
  - intros l s Hs Hst. destruct (mv_live _ Hi _ _ Hs Hst) as [H | ?]; [left | by right].
    unfold InstanceID. fold m in H. by rewrite H.
  - intros Hret id. unfold m. rewrite mv_open_iff by done. split; [by left |]. intros [? | (k & c & Hk & _ & Hin)]; [done |].
    destruct (returned_names c (Hret _ _ Hk)) as [E _]. rewrite E in Hin. by apply elem_of_nil in Hin.
Qed.

(** C16: A shutdown among concurrent calls.  When the room configuration asks for
    at most 10^9 ticks a second and takes visibility from clusters or from a
    visual radius of less than 2^38 grid cells, then at every later point it can
    go on to return by its own steps and those of the rooms' loops.  Whatever the
    configuration, once it has returned every room that was live when it began is closed, for all holders
    of its pointer and in the registry.  When at such a point no call is in
    progress and none has added a room, everything ever created is closed. *)
Theorem shutdown_closes_rooms (cfg : RoomConfig) (ls1 ls2 : list MLabel) st1 st st2 (k : nat) (site : list nat) :
  Z.of_nat (length ls1) + 1 + Z.of_nat (length ls2) < 2 ^ 64 ->
  mrun ls1 (minit cfg) = Some st1 -> mexec (MShutdown k site) st1 = Some st -> mrun ls2 st = Some st2 ->
  let live := range site (rm_rooms (ms_mgr st1)) in
  (loop_fits cfg -> can_return st2 k (CallClosed live)) /\
  (ms_calls st2 !! k = Some (CallClosed live) -> forall id l, RoomManager.GetRoom (ms_mgr st1) id = inr l ->
     is_closed (ms_mgr st2) l /\ ~ open_instance (rm_registry (ms_mgr st2)) id) /\
  ((forall k c, ms_calls st2 !! k = Some c -> returned c = true) -> RoomManager.ActiveRoomCount (ms_mgr st2) = 0%nat ->
     (forall id, ~ open_instance (rm_registry (ms_mgr st2)) id) /\
     (forall l s, rm_heap (ms_mgr st2) !! l = Some s -> Status (sys_room s) = RoomStatusClosed)).
Proof.
  intros Hlen H1 Hs H2 live. destruct (minv_run ls1 _ st1 (minv_init cfg)) as [Hi1 Hc1]; [simpl; lia | done |]. simpl in Hc1.
  destruct (minv_exec _ _ _ Hi1 ltac:(lia) Hs) as [Hi Hc]. destruct (minv_run ls2 _ st2 Hi ltac:(lia) H2) as [Hi2 _].
  assert (loop_fits cfg -> rooms_live (ms_mgr st2)) as Hlive.
  { intros Hfit. eapply mrun_lives; [done |]. eapply mexec_lives; [done |]. eapply mrun_lives; [done |].
    by apply rooms_live_new. }
  cbn [mexec] in Hs. apply minv_begin in Hs as [Hk ->].
  destruct (mrun_snapshot ls2 _ _ k (CallStop live live) live H2) as (c & Hk2 & Hsnap); [apply lookup_insert_eq | done |].
  destruct st2 as [m2 calls2]. simpl in Hk2. split_and!.
  - intros Hfit. eapply closing_returns; [done | by apply Hlive | done | done].
  - intros Hk' id l Hg. unfold RoomManager.GetRoom in Hg. destruct (rm_rooms (ms_mgr st1) !! id) as [l' |] eqn:Hl; [| done].
    injection Hg as ->. destruct (co_done _ _ (mv_calls _ Hi2 _ _ Hk') eq_refl) as (fin & Hd & Hfin).
    inversion Hd; subst. destruct (Hfin (id, l)) as (? & ? & _); [by apply elem_of_range |]. done.
  - intros Hret He. apply quiescent_closed; [done | done |]. by apply map_size_empty_inv.
Qed.
End system.

#[local] Existing Instance canonical_range.

Module ManagerRuns.

(** A room lives; a second one is being created when the shutdown begins and
    returns. *)
Definition before : list MLabel :=
  [MCreate 0 "expo" true false; MCall 0 1; MCall 0 2; MCall 0 3; MCreate 1 "expo" false false; MCall 1 4; MCall 1 5].

Definition shutdown : list MLabel :=
  [MCall 2 6; MRoomStep 0 LExit; MCall 2 7; MCall 2 8; MCall 2 9].

(** Then the creation goes on. *)
Definition after : list MLabel := [MCall 1 10].

Definition state (ls : list MLabel) : MState := default (minit DefaultRoomConfig) (mrun ls (minit DefaultRoomConfig)).

Lemma state_run ls : bool_decide (is_Some (mrun ls (minit DefaultRoomConfig))) = true ->
  mrun ls (minit DefaultRoomConfig) = Some (state ls).
Proof. intros [st Hs]%bool_decide_eq_true_1. unfold state. by rewrite Hs. Qed.

End ManagerRuns.

Import ManagerRuns.

(** A room created while a shutdown runs outlives it: [CreateRoom] returns a
    running room, registered and live, after [Shutdown] has returned. *)
Lemma create_escapes_shutdown :
  let st := state (before ++ MShutdown 2 [] :: shutdown ++ after) in
  ms_calls st !! 2%nat = Some (CallClosed [("expo-0001", 0%nat)]) /\
  RoomManager.GetRoom (ms_mgr st) "expo-0002" = inr 1%nat /\
  (Status ∘ sys_room) <$> rm_heap (ms_mgr st) !! 1%nat = Some RoomStatusRunning.
Proof. vm_compute. done. Qed.

Lemma manager_calls_agree_witness :
  let st := state before in
  open_instance (rm_registry (ms_mgr st)) "expo-0002" /\ rm_rooms (ms_mgr st) !! "expo-0002" = None.
Proof.
  cbv zeta. destruct (@manager_calls_agree canonical_range DefaultRoomConfig before (state before)) as (Hopen & Hex & _).
  - vm_compute. reflexivity.
  - apply state_run. vm_compute. reflexivity.
  - split.
    + apply Hopen. right. exists 1%nat, (CallPublish "expo-0002" 1). split; [vm_compute; reflexivity |].
      split; [reflexivity | left].
    + apply (Hex 1%nat (CallPublish "expo-0002" 1)); [vm_compute; reflexivity | left].
Defined.

Lemma shutdown_closes_rooms_witness :
  is_closed (ms_mgr (state (before ++ MShutdown 2 [] :: shutdown))) 0%nat /\
  can_return (state (before ++ MShutdown 2 [] :: shutdown)) 2 (CallClosed [("expo-0001", 0%nat)]).
Proof.
  assert (mexec (MShutdown 2 []) (state before) = Some (state (before ++ [MShutdown 2 []]))) as Hs by (vm_compute; reflexivity).
  assert (mrun shutdown (state (before ++ [MShutdown 2 []])) = Some (state (before ++ MShutdown 2 [] :: shutdown))) as Hr
    by (vm_compute; reflexivity).
  destruct (@shutdown_closes_rooms canonical_range DefaultRoomConfig before shutdown (state before) _ _ 2%nat []
    ltac:(vm_compute; reflexivity) (state_run before ltac:(vm_compute; reflexivity)) Hs Hr) as (Hret & Hcl & _).
  split.
  - apply (Hcl ltac:(vm_compute; reflexivity) "expo-0001" 0%nat). vm_compute. reflexivity.
  - exact (Hret default_config_fits).
Defined.
