(* ===== verification/Session.v ===== *)
(** * Game sessions

    Models [internal/game/session]: [session.go] and [manager.go], and
    [TransportType] of [internal/transport/session.go].

    [byID], [byUser] and the callers of [Register] and [Get] hold the same
    [*Session] pointers, and every mutation goes through a pointer: sessions
    live in a heap and the two indexes hold locations.  A session stays in the
    heap after it was removed from the indexes, where its holders still see its
    final state.  The transport connection is a handle; closing it is the
    transport's business and is reported as a result. *)

From Stdlib Require Import ZArith Lia.
From stdpp Require Import base strings gmap fin_maps list.
From S2P Require Import Prelude.
From S2P Require Import Player.

Local Open Scope string_scope.
Local Open Scope Z_scope.
Local Open Scope list_scope.

(** ** Data *)

Inductive TransportType := KCP | WebSocket.

Definition TransportType_string (t : TransportType) : string :=
  match t with KCP => "kcp" | WebSocket => "websocket" end.

Inductive SessionState :=
  | SessionStatePending | SessionStateAttached | SessionStateDetached | SessionStateClosed.

#[global] Instance SessionState_eq_dec : EqDecision SessionState.
Proof. solve_decision. Defined.

Definition SessionState_String (s : SessionState) : string :=
  match s with
  | SessionStatePending => "pending"
  | SessionStateAttached => "attached"
  | SessionStateDetached => "detached"
  | SessionStateClosed => "closed"
  end.

Abbreviation sloc := nat.
Abbreviation conn := nat.

Record Session := MkSession {
  s_id : string;
  s_userID : string;
  s_roomInstanceID : string;
  s_transportType : TransportType;
  s_conn : conn;
  s_state : SessionState;
  s_createdAt : Time }.

Record SessionManager := MkSessionManager {
  sm_heap : gmap sloc Session;
  sm_next : sloc;
  sm_byID : gmap string sloc;
  sm_byUser : gmap string sloc }.

Inductive SessionError :=
  | ErrAlreadyRegistered (id : string)
  | ErrSessionNotFound (id : string)
  | ErrCannotAttach (id : string) (s : SessionState)
  | ErrUserHasSession (user id : string).

(** What [Close] ends with: an error, nothing, or the connection's [Close]. *)
Inductive CloseResult :=
  | CloseErr (e : SessionError) | CloseNil | CloseConn (c : conn).

Module SessionManager.

Definition NewSessionManager : SessionManager := MkSessionManager ∅ 0 ∅ ∅.

(** [*p = s] on the shared record. *)
Definition store (m : SessionManager) (l : sloc) (s : Session) : SessionManager :=
  MkSessionManager (<[l := s]> (sm_heap m)) (sm_next m) (sm_byID m) (sm_byUser m).

Definition Register (m : SessionManager) (id : string) (t : TransportType) (c : conn) (now : Time)
    : SessionManager * (SessionError + sloc) :=
  match sm_byID m !! id with
  | Some _ => (m, inl (ErrAlreadyRegistered id))
  | None =>
      let l := sm_next m in
      (MkSessionManager (<[l := MkSession id "" "" t c SessionStatePending now]> (sm_heap m)) (S l)
         (<[id := l]> (sm_byID m)) (sm_byUser m), inr l)
  end.

Definition Get (m : SessionManager) (id : string) : option sloc := sm_byID m !! id.

Definition GetByUser (m : SessionManager) (user : string) : option sloc := sm_byUser m !! user.

(** A pointer of an index always points to a record; [None] of the second
    lookup stands for the nil dereference that cannot happen. *)
Definition lookup_session (m : SessionManager) (l : option sloc) : option (sloc * Session) :=
  l ← l; s ← sm_heap m !! l; Some (l, s).

Definition Attach (m : SessionManager) (id user room : string) : SessionManager * option SessionError :=
  match lookup_session m (sm_byID m !! id) with
  | None => (m, Some (ErrSessionNotFound id))
  | Some (l, s) =>
      if decide (s_state s <> SessionStatePending) then (m, Some (ErrCannotAttach id (s_state s)))
      else
        let taken :=
          if String.eqb user "" then None
          else match lookup_session m (sm_byUser m !! user) with
               | Some (_, existing) =>
                   if String.eqb (s_id existing) id then None
                   else Some (ErrUserHasSession user (s_id existing))
               | None => None
               end in
        match taken with
        | Some e => (m, Some e)
        | None =>
            let m := store m l (MkSession (s_id s) user room (s_transportType s) (s_conn s)
                                  SessionStateAttached (s_createdAt s)) in
            (if String.eqb user "" then m
             else MkSessionManager (sm_heap m) (sm_next m) (sm_byID m) (<[user := l]> (sm_byUser m)),
             None)
        end
  end.

Definition Detach (m : SessionManager) (id : string) : SessionManager * option SessionError :=
  match lookup_session m (sm_byID m !! id) with
  | None => (m, Some (ErrSessionNotFound id))
  | Some (l, s) =>
      match s_state s with
      | SessionStateClosed | SessionStateDetached => (m, None)
      | _ =>
          let byUser := if String.eqb (s_userID s) "" then sm_byUser m
                        else delete (s_userID s) (sm_byUser m) in
          (MkSessionManager
             (<[l := MkSession (s_id s) "" "" (s_transportType s) (s_conn s) SessionStateDetached
                       (s_createdAt s)]> (sm_heap m))
             (sm_next m) (sm_byID m) byUser, None)
      end
  end.

Definition Close (m : SessionManager) (id : string) : SessionManager * CloseResult :=
  match lookup_session m (sm_byID m !! id) with
  | None => (m, CloseErr (ErrSessionNotFound id))
  | Some (l, s) =>
      if decide (s_state s = SessionStateClosed) then (m, CloseNil)
      else
        let byUser := if String.eqb (s_userID s) "" then sm_byUser m
                      else delete (s_userID s) (sm_byUser m) in
        (MkSessionManager
           (<[l := MkSession (s_id s) (s_userID s) (s_roomInstanceID s) (s_transportType s) (s_conn s)
                     SessionStateClosed (s_createdAt s)]> (sm_heap m))
           (sm_next m) (delete id (sm_byID m)) byUser, CloseConn (s_conn s))
  end.

Definition ActiveCount (m : SessionManager) : nat := size (sm_byID m).

End SessionManager.
