(* ===== verification/SessionFacts.v ===== *)
(** * Correctness of the session manager

    The ID index and the user index describe the same shared sessions: a user
    has at most one attached session and the index names it; a session only
    moves forward through its states, whoever holds its pointer. *)

From Stdlib Require Import ZArith Lia.
From stdpp Require Import base strings gmap fin_maps list.
From S2P Require Import Prelude.
From S2P Require Import Player.
From S2P Require Import Session.

Import SessionManager.

Local Open Scope string_scope.
Local Open Scope Z_scope.
Local Open Scope list_scope.

(** ** Invariant *)

(** Location [l] holds a registered session. *)
Definition registered (m : SessionManager) (l : sloc) (s : Session) : Prop :=
  sm_heap m !! l = Some s /\ sm_byID m !! s_id s = Some l.

Record sess_inv (m : SessionManager) : Prop := {
  si_byID : forall id l, sm_byID m !! id = Some l ->
    (l < sm_next m)%nat /\ exists s, sm_heap m !! l = Some s /\ s_id s = id /\ s_state s <> SessionStateClosed;
  si_heap : forall l s, sm_heap m !! l = Some s -> (l < sm_next m)%nat;
  si_byUser : forall u l, sm_byUser m !! u = Some l ->
    u <> "" /\ exists s, registered m l s /\ s_userID s = u /\ s_state s = SessionStateAttached;
  si_named : forall l s, registered m l s -> s_userID s <> "" -> sm_byUser m !! s_userID s = Some l;
  si_idle : forall l s, registered m l s -> s_state s <> SessionStateAttached ->
    s_userID s = "" /\ s_roomInstanceID s = "" }.

Lemma sess_inv_new : sess_inv NewSessionManager.
Proof. split; simpl; intros *; unfold registered; simpl; rewrite ?lookup_empty; naive_solver. Qed.

Lemma lookup_session_Some m o l s :
  lookup_session m o = Some (l, s) <-> o = Some l /\ sm_heap m !! l = Some s.
Proof.
  unfold lookup_session. destruct o as [l0 |]; simpl; [| naive_solver].
  destruct (sm_heap m !! l0) eqn:H; simpl; split; intros; destruct_and?; simplify_eq; auto.
Qed.

Lemma lookup_session_registered m id l s :
  sess_inv m -> lookup_session m (sm_byID m !! id) = Some (l, s) -> registered m l s /\ s_id s = id.
Proof.
  intros Hinv [Hl Hs]%lookup_session_Some. destruct (si_byID _ Hinv _ _ Hl) as (_ & s' & Hs' & Hid & _).
  assert (s' = s) as -> by congruence. split; [| done]. split; [done | by rewrite Hid].
Qed.

(** Registered sessions of a manager whose session at [l] was overwritten. *)
Lemma registered_store (heap : gmap sloc Session) nx byID byUser byUser' l s s' l' s0 :
  registered (MkSessionManager heap nx byID byUser) l s -> s_id s' = s_id s ->
  registered (MkSessionManager (<[l := s']> heap) nx byID byUser') l' s0 <->
  (l' = l /\ s0 = s') \/ (l' <> l /\ registered (MkSessionManager heap nx byID byUser) l' s0).
Proof.
  unfold registered. simpl. intros [Hh Hi] Hid. destruct (decide (l' = l)) as [-> | Hne].
  - rewrite lookup_insert_eq. split.
    + intros [[= <-] _]. auto.
    + intros [[_ ->] | [? _]]; [| done]. by rewrite Hid.
  - rewrite lookup_insert_ne by done. naive_solver.
Qed.

(** ** Preservation *)

Lemma sess_inv_Register m id t c now : sess_inv m -> sess_inv (Register m id t c now).1.
Proof.
  intros Hinv. unfold Register. destruct (sm_byID m !! id) as [l0 |] eqn:Hid; [done |]. simpl.
  set (s0 := MkSession id "" "" t c SessionStatePending now).
  assert (forall l s, sm_heap m !! l = Some s -> l <> sm_next m) as Hlt.
  { intros l s Hs ->. pose proof (si_heap _ Hinv _ _ Hs). lia. }
  assert (forall l s, registered (MkSessionManager (<[sm_next m := s0]> (sm_heap m)) (S (sm_next m))
      (<[id := sm_next m]> (sm_byID m)) (sm_byUser m)) l s <->
    l = sm_next m /\ s = s0 \/ registered m l s) as Hreg.
  { intros l s. unfold registered. simpl. destruct (decide (l = sm_next m)) as [-> | Hne].
    - rewrite lookup_insert_eq. split.
      + intros [[= <-] _]. auto.
      + intros [[_ ->] | [Hh _]]; [by rewrite lookup_insert_eq | by apply Hlt in Hh].
    - rewrite lookup_insert_ne by done. split.
      + intros [Hh Hi]. right. split; [done |]. apply lookup_insert_Some in Hi as [[_ ?] | [_ Hi]]; done.
      + intros [[? _] | [Hh Hi]]; [done |]. split; [done |]. rewrite lookup_insert_ne; [done |]. congruence. }
  split; simpl.
  - intros id' l. rewrite lookup_insert_Some. intros [[<- <-] | [Hne Hl]].
    + split; [lia |]. rewrite lookup_insert_eq. by exists s0.
    + destruct (si_byID _ Hinv _ _ Hl) as (Hll & s & Hs & H). split; [lia |]. exists s. split; [| done].
      rewrite lookup_insert_ne; [done |]. lia.
  - intros l s. rewrite lookup_insert_Some. intros [[<- _] | [_ Hs]]; [lia |].
    pose proof (si_heap _ Hinv _ _ Hs). lia.
  - intros u l Hl. destruct (si_byUser _ Hinv _ _ Hl) as (Hu & s & Hr & H). split; [done |].
    exists s. split; [| done]. apply Hreg. by right.
  - intros l s [[-> ->] | Hr]%Hreg; [done |]. exact (si_named _ Hinv l s Hr).
  - intros l s [[-> ->] | Hr]%Hreg; [done |]. exact (si_idle _ Hinv l s Hr).
Qed.

Lemma not_taken m l s user :
  sess_inv m -> registered m l s -> s_state s = SessionStatePending ->
  (if String.eqb user "" then None
   else match lookup_session m (sm_byUser m !! user) with
        | Some (_, existing) =>
            if String.eqb (s_id existing) (s_id s) then None
            else Some (ErrUserHasSession user (s_id existing))
        | None => None
        end) = None ->
  user = "" \/ sm_byUser m !! user = None.
Proof.
  intros Hinv Hr Hp. destruct (String.eqb_spec user "") as [-> | Hne]; [by left |].
  intros Ht. right. destruct (sm_byUser m !! user) as [l' |] eqn:Hu; [| done].
  destruct (si_byUser _ Hinv _ _ Hu) as (_ & s' & [Hh' Hi'] & _ & Ha).
  rewrite (proj2 (lookup_session_Some m (Some l') l' s')) in Ht by done.
  destruct (String.eqb_spec (s_id s') (s_id s)) as [He | ?]; [| done].
  destruct Hr as [Hh Hi]. rewrite He in Hi'. assert (l' = l) as -> by congruence.
  assert (s' = s) as -> by congruence. congruence.
Qed.

Lemma sess_inv_Attach m id user room : sess_inv m -> sess_inv (Attach m id user room).1.
Proof.
  intros Hinv. unfold Attach.
  destruct (lookup_session m (sm_byID m !! id)) as [[l s] |] eqn:Hl; [| done].
  destruct (lookup_session_registered _ _ _ _ Hinv Hl) as [Hr Hid].
  case_decide as Hp; [done |].
  destruct (if String.eqb user "" then _ else _) as [e |] eqn:Ht; [done |].
  rewrite <- Hid in Ht. pose proof (not_taken m l s user Hinv Hr Hp Ht) as Hfree.
  set (s' := MkSession (s_id s) user room (s_transportType s) (s_conn s) SessionStateAttached (s_createdAt s)).
  destruct m as [heap nx byID byUser]. simpl in *.
  set (byUser' := if String.eqb user "" then byUser else <[user := l]> byUser).
  assert (sess_inv (MkSessionManager (<[l := s']> heap) nx byID byUser')) as Hgoal.
  2:{ unfold byUser' in Hgoal. unfold store. simpl. by destruct (String.eqb user ""). }
  pose proof (fun l' s0 => registered_store heap nx byID byUser byUser' l s s' l' s0 Hr eq_refl) as Hreg.
  assert (forall u l', byUser' !! u = Some l' -> u = user /\ user <> "" /\ l' = l \/ byUser !! u = Some l') as Hbu.
  { intros u l'. unfold byUser'. destruct (String.eqb_spec user ""); [by right |].
    rewrite lookup_insert_Some. intros [[<- <-] | [_ H]]; auto. }
  assert (forall l' s0, registered (MkSessionManager heap nx byID byUser) l' s0 ->
    s_userID s0 <> "" -> byUser' !! s_userID s0 = Some l') as Hnm.
  { intros l' s0 Hr0 Hne. pose proof (si_named _ Hinv _ _ Hr0 Hne) as Hn. simpl in Hn.
    unfold byUser'. destruct (String.eqb_spec user ""); [done |].
    rewrite lookup_insert_ne; [done |]. destruct Hfree as [| Hf]; [done | congruence]. }
  split; simpl.
  - intros id' l' Hl'. destruct (si_byID _ Hinv _ _ Hl') as (Hlt & s0 & Hs0 & Hid0 & Hst). split; [done |].
    simpl in *. destruct (decide (l' = l)) as [-> | Hne].
    + exists s'. rewrite lookup_insert_eq. destruct Hr as [Hh _]. simpl in Hh.
      assert (s0 = s) as -> by congruence. by split_and!.
    + exists s0. by rewrite lookup_insert_ne.
  - intros l' s0. rewrite lookup_insert_Some. intros [[<- _] | [_ Hs0]].
    + apply (si_heap _ Hinv l s), Hr.
    + by apply (si_heap _ Hinv l' s0).
  - intros u l' [(-> & Hne & ->) | Hu]%Hbu.
    + split; [done |]. exists s'. split; [apply Hreg; by left | done].
    + destruct (si_byUser _ Hinv _ _ Hu) as (Hne & s0 & Hr0 & Hu0 & Ha). split; [done |].
      exists s0. split; [| done].
      apply Hreg. right. split; [| done]. intros ->. destruct Hr as [Hh _], Hr0 as [Hh0 _]. congruence.
  - intros l' s0 [[-> ->] | [_ Hr0]]%Hreg Hne; [| by apply Hnm]. simpl in *. unfold byUser'.
    destruct (String.eqb_spec user ""); [done | apply lookup_insert_eq].
  - intros l' s0 [[-> ->] | [_ Hr0]]%Hreg; [done |]. exact (si_idle _ Hinv l' s0 Hr0).
Qed.

(** The user index after a session gave up its user. *)
Definition drop_user (m : SessionManager) (s : Session) : gmap string sloc :=
  if String.eqb (s_userID s) "" then sm_byUser m else delete (s_userID s) (sm_byUser m).

Lemma drop_user_Some m l s u l' :
  sess_inv m -> registered m l s ->
  drop_user m s !! u = Some l' -> sm_byUser m !! u = Some l' /\ l' <> l.
Proof.
  intros Hinv [Hh _]. unfold drop_user. destruct (String.eqb_spec (s_userID s) "") as [He | Hne].
  - intros Hu. split; [done |]. intros ->.
    destruct (si_byUser _ Hinv _ _ Hu) as (Hne & s0 & [Hh0 _] & Hu0 & _). congruence.
  - rewrite lookup_delete_Some. intros [Hnu Hu]. split; [done |]. intros ->.
    destruct (si_byUser _ Hinv _ _ Hu) as (_ & s0 & [Hh0 _] & Hu0 & _). congruence.
Qed.

Lemma drop_user_other m l s l' s0 :
  sess_inv m -> registered m l s -> registered m l' s0 -> l' <> l -> s_userID s0 <> "" ->
  drop_user m s !! s_userID s0 = Some l'.
Proof.
  intros Hinv Hr Hr0 Hne Hu. pose proof (si_named _ Hinv _ _ Hr0 Hu) as Hn.
  unfold drop_user. destruct (String.eqb_spec (s_userID s) "") as [He | Hne']; [done |].
  rewrite lookup_delete_ne; [done |]. intros He. pose proof (si_named _ Hinv _ _ Hr Hne') as Hn'. congruence.
Qed.

Lemma sess_inv_Detach m id : sess_inv m -> sess_inv (Detach m id).1.
Proof.
  intros Hinv. unfold Detach.
  destruct (lookup_session m (sm_byID m !! id)) as [[l s] |] eqn:Hl; [| done].
  destruct (lookup_session_registered _ _ _ _ Hinv Hl) as [Hr Hid].
  set (s' := MkSession (s_id s) "" "" (s_transportType s) (s_conn s) SessionStateDetached (s_createdAt s)).
  fold (drop_user m s).
  assert (sess_inv (MkSessionManager (<[l := s']> (sm_heap m)) (sm_next m) (sm_byID m) (drop_user m s)))
    as Hgoal; [| by destruct (s_state s)].
  pose proof (fun u l' => drop_user_Some m l s u l' Hinv Hr) as Hbu.
  pose proof (fun l' s0 => drop_user_other m l s l' s0 Hinv Hr) as Hnm.
  set (byUser' := drop_user m s) in *. clearbody byUser'.
  assert (forall l' s0, registered (MkSessionManager (<[l := s']> (sm_heap m)) (sm_next m) (sm_byID m) byUser') l' s0
    <-> (l' = l /\ s0 = s') \/ (l' <> l /\ registered m l' s0)) as Hreg.
  { intros l' s0. destruct m as [heap nx byID byUser]. by apply (registered_store _ _ _ byUser _ l s). }
  split; simpl.
  - intros id' l' Hl'. destruct (si_byID _ Hinv _ _ Hl') as (Hlt & s0 & Hs0 & Hid0 & Hst). split; [done |].
    destruct (decide (l' = l)) as [-> | Hne].
    + exists s'. rewrite lookup_insert_eq. destruct Hr as [Hh _].
      assert (s0 = s) as -> by congruence. by split_and!.
    + exists s0. by rewrite lookup_insert_ne.
  - intros l' s0. rewrite lookup_insert_Some. intros [[<- _] | [_ Hs0]].
    + apply (si_heap _ Hinv l s), Hr.
    + by apply (si_heap _ Hinv l' s0).
  - intros u l' [Hu Hne]%Hbu. destruct (si_byUser _ Hinv _ _ Hu) as (Hue & s0 & Hr0 & H).
    split; [done |]. exists s0. split; [| done]. apply Hreg. by right.
  - intros l' s0 [[-> ->] | [Hne Hr0]]%Hreg Hu; [done | by apply Hnm].
  - intros l' s0 [[-> ->] | [_ Hr0]]%Hreg; [done |]. exact (si_idle _ Hinv l' s0 Hr0).
Qed.

Lemma sess_inv_Close m id : sess_inv m -> sess_inv (Close m id).1.
Proof.
  intros Hinv. unfold Close.
  destruct (lookup_session m (sm_byID m !! id)) as [[l s] |] eqn:Hl; [| done].
  destruct (lookup_session_registered _ _ _ _ Hinv Hl) as [Hr Hid].
  case_decide; [done |]. fold (drop_user m s). simpl.
  set (s' := MkSession _ _ _ _ _ _ _).
  pose proof (fun u l' => drop_user_Some m l s u l' Hinv Hr) as Hbu.
  pose proof (fun l' s0 => drop_user_other m l s l' s0 Hinv Hr) as Hnm.
  set (byUser' := drop_user m s) in *. clearbody byUser'.
  assert (forall l' s0, registered (MkSessionManager (<[l := s']> (sm_heap m)) (sm_next m)
      (delete id (sm_byID m)) byUser') l' s0 <-> l' <> l /\ registered m l' s0) as Hreg.
  { intros l' s0. destruct Hr as [Hh Hi]. rewrite Hid in Hi. unfold registered. simpl.
    destruct (decide (l' = l)) as [-> | Hne].
    - rewrite lookup_insert_eq. split; [| naive_solver]. intros [[= <-] Hd]. simpl in Hd.
      rewrite Hid, lookup_delete_eq in Hd. done.
    - rewrite lookup_insert_ne, lookup_delete_Some by done. split; [naive_solver |].
      intros (_ & Hh0 & Hi0). split_and!; [done | | done]. intros He. rewrite <- He in Hi0. congruence. }
  split; simpl.
  - intros id' l'. rewrite lookup_delete_Some. intros [Hne Hl'].
    destruct (si_byID _ Hinv _ _ Hl') as (Hlt & s0 & Hs0 & Hid0 & Hst). split; [done |].
    exists s0. rewrite lookup_insert_ne; [by split_and! |]. intros <-. destruct Hr as [Hh _]. congruence.
  - intros l' s0. rewrite lookup_insert_Some. intros [[<- _] | [_ Hs0]].
    + apply (si_heap _ Hinv l s), Hr.
    + by apply (si_heap _ Hinv l' s0).
  - intros u l' [Hu Hne]%Hbu. destruct (si_byUser _ Hinv _ _ Hu) as (Hue & s0 & Hr0 & H0).
    split; [done |]. exists s0. split; [| done]. by apply Hreg.
  - intros l' s0 [Hne Hr0]%Hreg Hu. by apply Hnm.
  - intros l' s0 [_ Hr0]%Hreg. exact (si_idle _ Hinv l' s0 Hr0).
Qed.

(** ** Runs of the manager *)

(** One call on the manager.  Each method holds the manager's mutex for all of
    its state changes, so concurrent callers are sequences of calls. *)
Inductive SessionOp :=
  | OpRegister (id : string) (t : TransportType) (c : conn) (now : Time)
  | OpAttach (id user room : string)
  | OpDetach (id : string)
  | OpClose (id : string).

Definition session_step (m : SessionManager) (o : SessionOp) : SessionManager :=
  match o with
  | OpRegister id t c now => (Register m id t c now).1
  | OpAttach id user room => (Attach m id user room).1
  | OpDetach id => (Detach m id).1
  | OpClose id => (Close m id).1
  end.

Definition session_run (m : SessionManager) (ops : list SessionOp) : SessionManager :=
  foldl session_step m ops.

Lemma sess_inv_step m o : sess_inv m -> sess_inv (session_step m o).
Proof.
  destruct o; simpl;
    auto using sess_inv_Register, sess_inv_Attach, sess_inv_Detach, sess_inv_Close.
Qed.

Lemma sess_inv_run m ops : sess_inv m -> sess_inv (session_run m ops).
Proof. revert m. induction ops as [| o ops IH]; intros m Hm; simpl; auto using sess_inv_step. Qed.

(** ** States only move forward *)

Definition state_rank (s : SessionState) : nat :=
  match s with
  | SessionStatePending => 0 | SessionStateAttached => 1
  | SessionStateDetached => 2 | SessionStateClosed => 3
  end.

(** What a holder of the pointer [l] sees before and after: the identity of the
    session never changes and its state never moves back. *)
Definition moves_forward (s s' : Session) : Prop :=
  s_id s' = s_id s /\ s_transportType s' = s_transportType s /\ s_conn s' = s_conn s /\
  s_createdAt s' = s_createdAt s /\ (state_rank (s_state s) <= state_rank (s_state s'))%nat /\
  (s_state s' = s_state s -> s' = s).

#[local] Instance moves_forward_preorder : PreOrder moves_forward.
Proof.
  split; [intros s; repeat split; lia |].
  intros s1 s2 s3 (H1 & H2 & H3 & H4 & H5 & H6) (K1 & K2 & K3 & K4 & K5 & K6).
  repeat split; try congruence; [lia |]. intros He.
  assert (s_state s2 = s_state s1) as H12.
  { rewrite He in K5. destruct (s_state s1), (s_state s2); simpl in *; lia || done. }
  rewrite K6 by congruence. by apply H6.
Qed.

(** Every call either leaves a record alone or overwrites it by a later state
    of it; allocation uses a location that was never used. *)
Lemma step_moves_forward m o l s :
  sess_inv m -> sm_heap m !! l = Some s ->
  exists s', sm_heap (session_step m o) !! l = Some s' /\ moves_forward s s'.
Proof.
  intros Hinv Hs.
  assert (forall l0 s0 s0', sm_heap m !! l0 = Some s0 -> moves_forward s0 s0' ->
    exists s', <[l0 := s0']> (sm_heap m) !! l = Some s' /\ moves_forward s s') as Hup.
  { intros l0 s0 s0' H0 Hm. destruct (decide (l = l0)) as [<- | Hne].
    - exists s0'. rewrite lookup_insert_eq. by assert (s0 = s) as <- by congruence.
    - exists s. by rewrite lookup_insert_ne. }
  assert (exists s', sm_heap m !! l = Some s' /\ moves_forward s s') as Hsame by by exists s.
  destruct o as [id t c now | id user room | id | id]; simpl.
  - unfold Register. destruct (sm_byID m !! id); [done |]. simpl.
    exists s. rewrite lookup_insert_ne; [done |]. pose proof (si_heap _ Hinv _ _ Hs). lia.
  - unfold Attach. destruct (lookup_session _ _) as [[l0 s0] |] eqn:Hl; [| done].
    apply lookup_session_Some in Hl as [_ H0]. case_decide as Hp; [done |].
    destruct (if String.eqb user "" then _ else _); [done |]. simpl.
    match goal with |- context [sm_heap (if ?b then ?x else _)] =>
      replace (sm_heap (if b then x else _)) with (sm_heap x) by by destruct b end.
    apply (Hup l0 s0); [done |]. unfold moves_forward; simpl; rewrite Hp; simpl. repeat split; [lia | done].
  - unfold Detach. destruct (lookup_session _ _) as [[l0 s0] |] eqn:Hl; [| done].
    apply lookup_session_Some in Hl as [_ H0].
    destruct (s_state s0) eqn:Hst; simpl; try done;
      (apply (Hup l0 s0); [done |]; unfold moves_forward; simpl; rewrite Hst; simpl; repeat split; [lia | done]).
  - unfold Close. destruct (lookup_session _ _) as [[l0 s0] |] eqn:Hl; [| done].
    apply lookup_session_Some in Hl as [_ H0]. case_decide as Hc; [done |]. simpl.
    apply (Hup l0 s0); [done |]. unfold moves_forward; simpl. repeat split; [| intros; congruence].
    destruct (s_state s0); simpl; lia.
Qed.

Lemma run_moves_forward m ops l s :
  sess_inv m -> sm_heap m !! l = Some s ->
  exists s', sm_heap (session_run m ops) !! l = Some s' /\ moves_forward s s'.
Proof.
  revert m s. induction ops as [| o ops IH]; intros m s Hinv Hs; simpl; [by exists s |].
  destruct (step_moves_forward m o l s Hinv Hs) as (s1 & Hs1 & H1).
  destruct (IH _ s1 (sess_inv_step m o Hinv) Hs1) as (s2 & Hs2 & H2).
  exists s2. split; [done |]. by transitivity s1.
Qed.

(** ** Connections of the sessions *)

(** The connection each registered session has. *)
Definition conns_of (m : SessionManager) : gmap string conn :=
  omap (fun l => s_conn <$> sm_heap m !! l) (sm_byID m).

(** The ID index after a call. *)
Definition byID_after (m : SessionManager) (o : SessionOp) : gmap string sloc :=
  match o with
  | OpRegister id _ _ _ => if decide (sm_byID m !! id = None) then <[id := sm_next m]> (sm_byID m) else sm_byID m
  | OpAttach _ _ _ | OpDetach _ => sm_byID m
  | OpClose id => delete id (sm_byID m)
  end.

Lemma step_byID m o : sess_inv m -> sm_byID (session_step m o) = byID_after m o.
Proof.
  intros Hinv. destruct o as [id t c now | id user room | id | id]; simpl.
  - unfold Register. by destruct (sm_byID m !! id).
  - unfold Attach. repeat case_match; done.
  - unfold Detach. repeat case_match; done.
  - unfold Close. destruct (lookup_session m (sm_byID m !! id)) as [[l s] |] eqn:Hl.
    + destruct (lookup_session_registered _ _ _ _ Hinv Hl) as [[_ Hb] <-].
      apply lookup_session_Some in Hl as [_ Hs]. destruct (si_byID _ Hinv _ _ Hb) as (_ & s' & Hs' & _ & Hst).
      rewrite decide_False by congruence. done.
    + rewrite delete_id; [done |]. destruct (sm_byID m !! id) as [l |] eqn:Hb; [| done].
      destruct (si_byID _ Hinv _ _ Hb) as (_ & s & Hs & _). simpl in Hl. by rewrite Hs in Hl.
Qed.

Lemma step_conn m o id l :
  sess_inv m -> sm_byID m !! id = Some l ->
  s_conn <$> sm_heap (session_step m o) !! l = s_conn <$> sm_heap m !! l.
Proof.
  intros Hinv Hl. destruct (si_byID _ Hinv _ _ Hl) as (_ & s & Hs & _).
  destruct (step_moves_forward m o l s Hinv Hs) as (s' & Hs' & (_ & _ & E & _)). rewrite Hs, Hs'. simpl. by rewrite E.
Qed.

(** A call adds the connection of a session that had none, takes one away, or
    leaves all as they are. *)
Lemma session_manager_lookup m o :
  sess_inv m ->
  conns_of (session_step m o) =
  match o with
  | OpRegister id _ c _ => if decide (conns_of m !! id = None) then <[id := c]> (conns_of m) else conns_of m
  | OpAttach _ _ _ | OpDetach _ => conns_of m
  | OpClose id => delete id (conns_of m)
  end.
Proof.
  intros Hinv.
  assert (forall id', conns_of (session_step m o) !! id' =
    (l ← byID_after m o !! id'; s_conn <$> sm_heap (session_step m o) !! l)) as Hlook.
  { intros id'. unfold conns_of. by rewrite lookup_omap, step_byID. }
  assert (forall id', conns_of m !! id' = None <-> sm_byID m !! id' = None) as Hnone.
  { intros id'. unfold conns_of. rewrite lookup_omap. destruct (sm_byID m !! id') as [l |] eqn:Hl; [| done].
    destruct (si_byID _ Hinv _ _ Hl) as (_ & s & Hs & _). simpl. by rewrite Hs. }
  assert (forall id', (l ← sm_byID m !! id'; s_conn <$> sm_heap (session_step m o) !! l) = conns_of m !! id') as Hsame.
  { intros id'. unfold conns_of. rewrite lookup_omap. destruct (sm_byID m !! id') as [l |] eqn:Hl; simpl; [| done].
    by eapply step_conn. }
  apply map_eq. intros id'. rewrite Hlook.
  destruct o as [id t c now | id user room | id | id]; cbn [byID_after]; [| by apply Hsame .. |].
  - destruct (decide (sm_byID m !! id = None)) as [Hn | Hn].
    + rewrite decide_True by by apply Hnone. destruct (decide (id = id')) as [<- | Hne].
      * rewrite !lookup_insert_eq. simpl. unfold Register. rewrite Hn. simpl. by rewrite lookup_insert_eq.
      * rewrite !lookup_insert_ne by done. apply Hsame.
    + rewrite decide_False by by rewrite Hnone. apply Hsame.
  - destruct (decide (id = id')) as [<- | Hne]; [by rewrite !lookup_delete_eq |].
    rewrite !lookup_delete_ne by done. apply Hsame.
Qed.

(** ** Claims *)

(** The abstract view of the two indexes: which user is attached where. *)
Definition attachment (m : SessionManager) (u id room : string) : Prop :=
  exists l s, Get m id = Some l /\ sm_heap m !! l = Some s /\ s_id s = id /\
    s_state s = SessionStateAttached /\ s_userID s = u /\ s_roomInstanceID s = room.

(** C18: After any sequence of calls on a new manager the two indexes agree:
    [GetByUser] of a user returns a pointer exactly when some registered session
    is attached for that named user, and then it is that session's pointer (so a
    user has at most one); [Get] never returns a closed session; and a
    registered session that is not attached has neither a user nor a room. *)
Theorem session_indexes_agree (ops : list SessionOp) :
  let m := session_run NewSessionManager ops in
  (forall u l, GetByUser m u = Some l <->
     u <> "" /\ exists s, sm_heap m !! l = Some s /\ Get m (s_id s) = Some l /\
       s_state s = SessionStateAttached /\ s_userID s = u) /\
  (forall u id1 room1 id2 room2, u <> "" -> attachment m u id1 room1 -> attachment m u id2 room2 ->
     id1 = id2 /\ room1 = room2) /\
  (forall id l, Get m id = Some l -> exists s, sm_heap m !! l = Some s /\ s_id s = id /\
     s_state s <> SessionStateClosed /\
     (s_state s <> SessionStateAttached -> s_userID s = "" /\ s_roomInstanceID s = "")).
Proof.
  intros m. assert (sess_inv m) as Hinv by apply sess_inv_run, sess_inv_new. clearbody m.
  unfold Get, GetByUser, attachment. split_and!.
  - intros u l. split.
    + intros Hu. destruct (si_byUser _ Hinv _ _ Hu) as (Hne & s & [Hh Hi] & Hus & Ha).
      split; [done |]. by exists s.
    + intros (Hne & s & Hh & Hi & Ha & <-). by apply (si_named _ Hinv l s).
  - intros u id1 room1 id2 room2 Hne (l1 & s1 & Hg1 & Hh1 & Hi1 & _ & Hu1 & <-)
      (l2 & s2 & Hg2 & Hh2 & Hi2 & _ & Hu2 & <-).
    assert (sm_byUser m !! u = Some l1) as H1.
    { rewrite <- Hu1. apply (si_named _ Hinv); [split; [done | by rewrite Hi1] | by rewrite Hu1]. }
    assert (sm_byUser m !! u = Some l2) as H2.
    { rewrite <- Hu2. apply (si_named _ Hinv); [split; [done | by rewrite Hi2] | by rewrite Hu2]. }
    assert (l1 = l2) as <- by congruence. assert (s1 = s2) as <- by congruence. split; congruence.
  - intros id l Hl. destruct (si_byID _ Hinv _ _ Hl) as (_ & s & Hh & Hid & Hst).
    exists s. split_and!; [done .. |]. apply (si_idle _ Hinv l). split; [done | by rewrite Hid].
Qed.

Lemma session_indexes_agree_witness :
  attachment (session_run NewSessionManager
    [OpRegister "s1" KCP 0%nat 0; OpAttach "s1" "u" "r"; OpRegister "s2" WebSocket 1%nat 1;
     OpAttach "s2" "u" "q"]) "u" "s1" "r" /\
  ("s1" = "s1" /\ "r" = "r").
Proof.
  set (ops := [OpRegister "s1" KCP 0%nat 0; OpAttach "s1" "u" "r"; OpRegister "s2" WebSocket 1%nat 1;
     OpAttach "s2" "u" "q"]).
  assert (attachment (session_run NewSessionManager ops) "u" "s1" "r") as H.
  { eexists 0%nat, _. repeat split; vm_compute; reflexivity. }
  split; [exact H |].
  destruct (session_indexes_agree ops) as (_ & Huniq & _).
  exact (Huniq "u" "s1" "r" "s1" "r" ltac:(discriminate) H H).
Defined.

(** C19: Whatever calls follow, a holder of a session pointer sees its state
    only move forward through pending, attached, detached, closed, with the
    session's identity, transport and connection fixed; in particular a session
    that was detached or closed is never attached again, and an [Attach] of it
    reports an error and changes nothing. *)
Theorem session_state_forward (ops1 ops2 : list SessionOp) (l : sloc) (s : Session) :
  let m := session_run NewSessionManager ops1 in
  let m' := session_run m ops2 in
  sm_heap m !! l = Some s ->
  exists s', sm_heap m' !! l = Some s' /\ moves_forward s s' /\
    (state_rank SessionStateDetached <= state_rank (s_state s) ->
     s_state s' <> SessionStateAttached /\
     (Get m' (s_id s) = Some l -> forall user room,
       Attach m' (s_id s) user room = (m', Some (ErrCannotAttach (s_id s) (s_state s')))))%nat.
Proof.
  intros m m' Hs. assert (sess_inv m) as Hinv by apply sess_inv_run, sess_inv_new. clearbody m.
  destruct (run_moves_forward m ops2 l s Hinv Hs) as (s' & Hs' & Hf). exists s'. split_and!; [done .. |].
  intros Hr. destruct Hf as (Hid & _ & _ & _ & Hrank & _).
  split; [intros He; rewrite He in Hrank; simpl in *; lia |].
  intros Hg user room. fold m' in Hs'.
  unfold Attach. unfold Get in Hg.
  rewrite Hg, (proj2 (lookup_session_Some m' (Some l) l s')) by done.
  rewrite decide_True; [done |]. intros He. rewrite He in Hrank. simpl in *. lia.
Qed.

Lemma session_state_forward_witness :
  let m := session_run NewSessionManager
    [OpRegister "s1" KCP 0%nat 0; OpAttach "s1" "u" "r"; OpDetach "s1"] in
  exists s', sm_heap (session_run m [OpAttach "s1" "u" "r"]) !! 0%nat = Some s' /\
    s_state s' <> SessionStateAttached.
Proof.
  intros m.
  destruct (session_state_forward [OpRegister "s1" KCP 0%nat 0; OpAttach "s1" "u" "r"; OpDetach "s1"]
    [OpAttach "s1" "u" "r"] 0%nat (MkSession "s1" "" "" KCP 0%nat SessionStateDetached 0)
    ltac:(vm_compute; reflexivity)) as (s' & H1 & _ & H2).
  exists s'. split; [exact H1 |]. apply H2. simpl. lia.
Defined.

(** [Close] of an attached session removes it from both indexes and hands
    its connection over to be closed, but the record its holders still see keeps
    the user and the room. *)
Theorem close_keeps_room (ops : list SessionOp) (id : string) (l : sloc) (s : Session) :
  let m := session_run NewSessionManager ops in
  Get m id = Some l -> sm_heap m !! l = Some s -> s_state s = SessionStateAttached ->
  exists m', Close m id = (m', CloseConn (s_conn s)) /\
    Get m' id = None /\ GetByUser m' (s_userID s) = None /\
    (forall id', id' <> id -> Get m' id' = Get m id') /\
    (forall u, u <> s_userID s -> GetByUser m' u = GetByUser m u) /\
    Close m' id = (m', CloseErr (ErrSessionNotFound id)) /\
    sm_heap m' !! l = Some (MkSession id (s_userID s) (s_roomInstanceID s) (s_transportType s)
                              (s_conn s) SessionStateClosed (s_createdAt s)).
Proof.
  intros m Hg Hs Ha. assert (sess_inv m) as Hinv by apply sess_inv_run, sess_inv_new. clearbody m.
  unfold Get, GetByUser in *.
  assert (lookup_session m (sm_byID m !! id) = Some (l, s)) as Hl by (apply lookup_session_Some; by rewrite Hg).
  destruct (lookup_session_registered _ _ _ _ Hinv Hl) as [Hr Hid].
  unfold Close at 1. rewrite Hl. rewrite decide_False by congruence. eexists. split; [reflexivity |].
  simpl. split_and!.
  - apply lookup_delete_eq.
  - destruct (String.eqb_spec (s_userID s) "") as [He |]; [| apply lookup_delete_eq].
    destruct (sm_byUser m !! s_userID s) eqn:Hu; [| done]. by destruct (si_byUser _ Hinv _ _ Hu).
  - intros id' Hne. by rewrite lookup_delete_ne.
  - intros u Hne. destruct (String.eqb _ _); [done |]. by rewrite lookup_delete_ne.
  - unfold Close. simpl. by rewrite lookup_delete_eq.
  - rewrite lookup_insert_eq. by rewrite Hid.
Qed.

Lemma close_keeps_room_witness :
  exists m', Close (session_run NewSessionManager [OpRegister "s1" KCP 0%nat 0; OpAttach "s1" "u" "r"]) "s1"
      = (m', CloseConn 0%nat) /\
    exists s, sm_heap m' !! 0%nat = Some s /\ s_roomInstanceID s = "r".
Proof.
  destruct (close_keeps_room [OpRegister "s1" KCP 0%nat 0; OpAttach "s1" "u" "r"] "s1" 0%nat
    (MkSession "s1" "u" "r" KCP 0%nat SessionStateAttached 0)
    ltac:(vm_compute; reflexivity) ltac:(vm_compute; reflexivity) eq_refl)
    as (m' & H1 & _ & _ & _ & _ & _ & H2).
  exists m'. split; [exact H1 |]. eexists. split; [exact H2 | reflexivity].
Defined.
