(* ===== verification/Protocol.v ===== *)
(** * Wire protocol

    Models [internal/protocol]: [protocol.go] (versions, sizes, message types,
    the envelope), [messages.go] (wire structs and their [Validate] methods)
    and [codec.go] (encoding and decoding with validation).

    The MessagePack library is not part of the repository: a [Msgpack] instance
    per type stands for [msgpack.Marshal] and [msgpack.Unmarshal] on it.  What
    is relied on is [MsgpackLaws]: what was marshalled from values of the Go
    types can be unmarshalled, and the size of an encoded envelope exceeds its
    body by a bounded overhead, as the MessagePack format has it. *)

From Stdlib Require Import ZArith Lia Floats.SpecFloat.
From stdpp Require Import base strings gmap fin_maps list.
From S2P Require Import Prelude.
From S2P Require Import GoFloat.

Local Open Scope string_scope.
Local Open Scope Z_scope.
Local Open Scope list_scope.
Local Open Scope go_scope.

(** ** Versions, sizes and message types *)

Definition CurrentVersion : Z := 1.
Definition MinVersion : Z := 1.
Definition MaxVersion : Z := 1.

Definition MaxPacketSize : Z := 64 * 1024.
Definition MaxPayloadSize : Z := 60 * 1024.

(** [type MessageType uint16] *)
Abbreviation MessageType := Z.

Definition TypeHello : MessageType := 1.
Definition TypeJoinRoom : MessageType := 2.
Definition TypeReconnect : MessageType := 3.
Definition TypePlayerInput : MessageType := 4.
Definition TypePing : MessageType := 5.
Definition TypePlayerTransformUpdate : MessageType := 6.
Definition TypeWelcome : MessageType := 1001.
Definition TypeJoinAccepted : MessageType := 1002.
Definition TypeReconnectAccepted : MessageType := 1003.
Definition TypeReconnectRejected : MessageType := 1004.
Definition TypeFullSnapshot : MessageType := 1005.
Definition TypePlayerDelta : MessageType := 1006.
Definition TypeObjectDelta : MessageType := 1007.
Definition TypeVoiceGroupDelta : MessageType := 1008.
Definition TypeLockAccepted : MessageType := 1009.
Definition TypeLockRejected : MessageType := 1010.
Definition TypeClusterMembershipDelta : MessageType := 1011.
Definition TypeError : MessageType := 1100.
Definition TypePong : MessageType := 1101.

Definition IsClientToServer (mt : MessageType) : bool := (1 <=? mt) && (mt <=? 99).

Definition IsServerToClient (mt : MessageType) : bool := (1000 <=? mt) && (mt <=? 1999).

(** The cases of [MessageType.String], in source order. *)
Definition type_names : list (MessageType * string) :=
  [(TypeHello, "Hello"); (TypeJoinRoom, "JoinRoom"); (TypeReconnect, "Reconnect");
   (TypePlayerInput, "PlayerInput"); (TypePing, "Ping");
   (TypePlayerTransformUpdate, "PlayerTransformUpdate"); (TypeWelcome, "Welcome");
   (TypeJoinAccepted, "JoinAccepted"); (TypeReconnectAccepted, "ReconnectAccepted");
   (TypeReconnectRejected, "ReconnectRejected"); (TypeFullSnapshot, "FullSnapshot");
   (TypePlayerDelta, "PlayerDelta"); (TypeObjectDelta, "ObjectDelta");
   (TypeVoiceGroupDelta, "VoiceGroupDelta"); (TypeLockAccepted, "LockAccepted");
   (TypeLockRejected, "LockRejected"); (TypeClusterMembershipDelta, "ClusterMembershipDelta");
   (TypeError, "Error"); (TypePong, "Pong")].

Definition MessageType_String (mt : MessageType) : string :=
  match List.find (fun c => c.1 =? mt) type_names with
  | Some c => c.2
  | None => "Unknown(" +:+ format_d mt +:+ ")"
  end.

Definition one_of (mt : MessageType) (cases : list MessageType) : bool :=
  existsb (Z.eqb mt) cases.

Definition IsKnown (mt : MessageType) : bool :=
  one_of mt
    [TypeHello; TypeJoinRoom; TypeReconnect; TypePlayerInput; TypePing; TypePlayerTransformUpdate;
     TypeWelcome; TypeJoinAccepted; TypeReconnectAccepted; TypeReconnectRejected; TypeFullSnapshot;
     TypePlayerDelta; TypeObjectDelta; TypeVoiceGroupDelta; TypeLockAccepted; TypeLockRejected;
     TypeClusterMembershipDelta; TypeError; TypePong].

Definition IsImplemented (mt : MessageType) : bool :=
  one_of mt
    [TypeHello; TypeJoinRoom; TypePlayerInput; TypePing; TypePlayerTransformUpdate; TypeWelcome;
     TypeJoinAccepted; TypeFullSnapshot; TypePlayerDelta; TypeError; TypePong].

(** ** Errors *)

Inductive ProtoError :=
  | ErrUnsupportedVersion (v : Z)
  | ErrUnimplementedType (t : MessageType)
  | ErrPacketTooLarge (n : Z)
  | ErrPayloadTooLarge (n : Z)
  | ErrEncode
  | ErrDecode
  | ErrNotFinite (owner field : string)
  | ErrIDRequired (owner : string)
  | ErrEmptyDelta
  | ErrElement (slice : string) (i : nat) (e : ProtoError).

(** ** Wire structs *)

Abbreviation bytes := (list Byte.byte).

Definition len (data : bytes) : Z := Z.of_nat (length data).

Record Envelope := MkEnvelope {
  e_Version : Z;
  e_Type : MessageType;
  e_Seq : Z;
  e_Tick : Z;
  e_Body : bytes }.

(** The body of a [TypeError] message, and its codes. *)
Record ProtocolError := MkProtocolError { per_Code : Z; per_Message : string }.

Definition ProtocolError_Error (e : ProtocolError) : string :=
  "protocol error " +:+ format_d (per_Code e) +:+ ": " +:+ per_Message e.

Definition ErrCodeInvalidVersion : Z := 1.
Definition ErrCodeInvalidType : Z := 2.
Definition ErrCodeAuthFailed : Z := 3.
Definition ErrCodeRoomFull : Z := 4.
Definition ErrCodeRoomNotFound : Z := 5.
Definition ErrCodePayloadTooLarge : Z := 6.
Definition ErrCodeInternal : Z := 99.

Record Hello := MkHello { hello_Version : Z }.

Record JoinRoom := MkJoinRoom {
  jr_RoomInstanceID : string; jr_SessionToken : string; jr_UserID : string }.

Record Ping := MkPing { ping_Timestamp : Z }.

Record PlayerInput := MkWireInput {
  wi_Seq : Z; wi_MoveX : float32; wi_MoveZ : float32; wi_Yaw : float32; wi_AnimState : Z }.

Record PlayerTransformUpdate := MkWireTransform {
  wt_Seq : Z; wt_X : float32; wt_Z : float32; wt_Yaw : float32; wt_AnimState : Z }.

Record Welcome := MkWelcome {
  welcome_Version : Z; welcome_ServerID : string; welcome_Timestamp : Z }.

Record JoinAccepted := MkJoinAccepted {
  ja_RoomInstanceID : string; ja_LogicalRoomID : string; ja_PlayerID : string; ja_Tick : Z }.

Record ServerError := MkServerError { se_Code : Z; se_Message : string }.

Record Pong := MkPong { pong_Timestamp : Z; pong_ServerTick : Z }.

Record PlayerSnapshot := MkWireSnapshot {
  ws_PlayerID : string; ws_X : float32; ws_Z : float32; ws_Yaw : float32;
  ws_AnimState : Z; ws_Version : Z }.

Record FullSnapshot := MkFullSnapshot { fs_Tick : Z; fs_Players : list PlayerSnapshot }.

Record PlayerEnterDelta := MkWireEnter {
  we_PlayerID : string; we_X : float32; we_Z : float32; we_Yaw : float32;
  we_AnimState : Z; we_Version : Z }.

Record PlayerUpdateDelta := MkWireUpdate {
  wu_PlayerID : string; wu_X : float32; wu_Z : float32; wu_Yaw : float32;
  wu_AnimState : Z; wu_Version : Z }.

Record PlayerLeaveDelta := MkWireLeave { wl_PlayerID : string }.

Record PlayerDelta := MkWireDelta {
  wd_Tick : Z;
  wd_Enters : list PlayerEnterDelta;
  wd_Updates : list PlayerUpdateDelta;
  wd_Leaves : list PlayerLeaveDelta }.

Definition WireDelta_IsEmpty (m : PlayerDelta) : bool :=
  match wd_Enters m, wd_Updates m, wd_Leaves m with [], [], [] => true | _, _, _ => false end.

(** ** Validation of the envelope *)

Definition ValidateVersion (v : Z) : option ProtoError :=
  guard_err ((v <? MinVersion) || (MaxVersion <? v)) (ErrUnsupportedVersion v).

Definition ValidateMessageType (mt : MessageType) : option ProtoError :=
  guard_err (negb (IsImplemented mt)) (ErrUnimplementedType mt).

Definition ValidatePacketSize (data : bytes) : option ProtoError :=
  guard_err (MaxPacketSize <? len data) (ErrPacketTooLarge (len data)).

Definition ValidatePayloadSize (body : bytes) : option ProtoError :=
  guard_err (MaxPayloadSize <? len body) (ErrPayloadTooLarge (len body)).

(** ** Validation of messages *)

Section validation.
Context `{GR : !GoRange}.

(** [for name, value := range fields]: the map's order picks which of several
    bad fields is named. *)
Fixpoint first_bad_field (owner : string) (fields : list (string * float32)) : option ProtoError :=
  match fields with
  | [] => None
  | (name, value) :: fields' =>
      guard_err (IsNaN (f64_of_f32 value) || IsInf (f64_of_f32 value)) (ErrNotFinite owner name) >>?
      first_bad_field owner fields'
  end.

Definition validateFiniteFields (site : list nat) (owner : string) (fields : gmap string float32)
    : option ProtoError :=
  first_bad_field owner (range site fields).

Definition validateFiniteTransform (site : list nat) (owner : string) (x z yaw : float32)
    : option ProtoError :=
  validateFiniteFields site owner {[ "X" := x; "Z" := z; "Yaw" := yaw ]}.

Definition PlayerInput_Validate (site : list nat) (m : PlayerInput) : option ProtoError :=
  validateFiniteFields site "PlayerInput"
    {[ "MoveX" := wi_MoveX m; "MoveZ" := wi_MoveZ m; "Yaw" := wi_Yaw m ]}.

Definition PlayerTransformUpdate_Validate (site : list nat) (m : PlayerTransformUpdate)
    : option ProtoError :=
  validateFiniteTransform site "PlayerTransformUpdate" (wt_X m) (wt_Z m) (wt_Yaw m).

Definition PlayerSnapshot_Validate (site : list nat) (m : PlayerSnapshot) : option ProtoError :=
  guard_err (String.eqb (ws_PlayerID m) "") (ErrIDRequired "PlayerSnapshot") >>?
  validateFiniteTransform site "PlayerSnapshot" (ws_X m) (ws_Z m) (ws_Yaw m).

Definition PlayerEnterDelta_Validate (site : list nat) (m : PlayerEnterDelta) : option ProtoError :=
  guard_err (String.eqb (we_PlayerID m) "") (ErrIDRequired "PlayerEnterDelta") >>?
  validateFiniteTransform site "PlayerEnterDelta" (we_X m) (we_Z m) (we_Yaw m).

Definition PlayerUpdateDelta_Validate (site : list nat) (m : PlayerUpdateDelta) : option ProtoError :=
  guard_err (String.eqb (wu_PlayerID m) "") (ErrIDRequired "PlayerUpdateDelta") >>?
  validateFiniteTransform site "PlayerUpdateDelta" (wu_X m) (wu_Z m) (wu_Yaw m).

Definition PlayerLeaveDelta_Validate (m : PlayerLeaveDelta) : option ProtoError :=
  guard_err (String.eqb (wl_PlayerID m) "") (ErrIDRequired "PlayerLeaveDelta").

(** [for i := range s { if err := s[i].Validate(); err != nil { return ... } }] *)
Fixpoint validate_each {A} (validate : nat -> A -> option ProtoError) (slice : string) (i : nat)
    (l : list A) : option ProtoError :=
  match l with
  | [] => None
  | a :: l' => (ErrElement slice i <$> validate i a) >>? validate_each validate slice (S i) l'
  end.

Definition FullSnapshot_Validate (site : list nat) (m : FullSnapshot) : option ProtoError :=
  validate_each (fun i => PlayerSnapshot_Validate (i :: site)) "FullSnapshot.Players" 0 (fs_Players m).

Definition PlayerDelta_Validate (site : list nat) (m : PlayerDelta) : option ProtoError :=
  guard_err (WireDelta_IsEmpty m) ErrEmptyDelta >>?
  validate_each (fun i => PlayerEnterDelta_Validate (i :: 0%nat :: site)) "PlayerDelta.Enters" 0
    (wd_Enters m) >>?
  validate_each (fun i => PlayerUpdateDelta_Validate (i :: 1%nat :: site)) "PlayerDelta.Updates" 0
    (wd_Updates m) >>?
  validate_each (fun _ => PlayerLeaveDelta_Validate) "PlayerDelta.Leaves" 0 (wd_Leaves m).
End validation.

(** The optional interface [validatable]: a type without the method passes. *)
Class Validatable (M : Type) := Validate : GoRange -> list nat -> M -> option ProtoError.

#[global] Instance validatable_PlayerInput : Validatable PlayerInput := @PlayerInput_Validate.
#[global] Instance validatable_PlayerTransformUpdate : Validatable PlayerTransformUpdate :=
  @PlayerTransformUpdate_Validate.
#[global] Instance validatable_FullSnapshot : Validatable FullSnapshot := @FullSnapshot_Validate.
#[global] Instance validatable_PlayerDelta : Validatable PlayerDelta := @PlayerDelta_Validate.

Definition no_validation {M} : Validatable M := fun _ _ _ => None.

#[global] Instance validatable_Hello : Validatable Hello := no_validation.
#[global] Instance validatable_JoinRoom : Validatable JoinRoom := no_validation.
#[global] Instance validatable_Ping : Validatable Ping := no_validation.
#[global] Instance validatable_Welcome : Validatable Welcome := no_validation.
#[global] Instance validatable_JoinAccepted : Validatable JoinAccepted := no_validation.
#[global] Instance validatable_ServerError : Validatable ServerError := no_validation.
#[global] Instance validatable_Pong : Validatable Pong := no_validation.

(** ** MessagePack *)

(** [msgpack.Marshal] of a value and [msgpack.Unmarshal] into a zero value. *)
Class Msgpack (M : Type) := {
  Marshal : M -> option bytes;
  Unmarshal : bytes -> option M }.

(** ** Codec *)

Section codec.
Context `{GR : !GoRange}.

Definition EncodeEnvelope `{!Msgpack Envelope} (env : Envelope) : ProtoError + bytes :=
  match ValidateVersion (e_Version env) >>? ValidateMessageType (e_Type env) >>?
        ValidatePayloadSize (e_Body env) with
  | Some err => inl err
  | None =>
      match Marshal env with
      | None => inl ErrEncode
      | Some data =>
          match ValidatePacketSize data with
          | Some err => inl err
          | None => inr data
          end
      end
  end.

Definition DecodeEnvelope `{!Msgpack Envelope} (data : bytes) : ProtoError + Envelope :=
  match ValidatePacketSize data with
  | Some err => inl err
  | None =>
      match Unmarshal data with
      | None => inl ErrDecode
      | Some env =>
          match ValidateVersion (e_Version env) >>? ValidateMessageType (e_Type env) >>?
                ValidatePayloadSize (e_Body env) with
          | Some err => inl err
          | None => inr env
          end
      end
  end.

Definition EncodeMessage {M} `{!Msgpack M} `{!Validatable M} (site : list nat) (msg : M)
    : ProtoError + bytes :=
  match Validate GR site msg with
  | Some err => inl err
  | None =>
      match Marshal msg with
      | None => inl ErrEncode
      | Some data =>
          match ValidatePayloadSize data with
          | Some err => inl err
          | None => inr data
          end
      end
  end.

(** The message is unmarshalled into a zero value of its type, which the
    callers use only when no error is returned. *)
Definition DecodeMessage {M} `{!Msgpack M} `{!Validatable M} (site : list nat) (body : bytes)
    : ProtoError + M :=
  match Unmarshal body with
  | None => inl ErrDecode
  | Some msg =>
      match Validate GR site msg with
      | Some err => inl err
      | None => inr msg
      end
  end.

Definition BuildEnvelope {M} `{!Msgpack M} `{!Validatable M} (site : list nat) (version : Z)
    (msgType : MessageType) (seq tick : Z) (msg : M) : ProtoError + Envelope :=
  match ValidateVersion version >>? ValidateMessageType msgType with
  | Some err => inl err
  | None =>
      let! body := EncodeMessage site msg in
      inr (MkEnvelope version msgType seq tick body)
  end.

Definition EncodeAndWrap {M} `{!Msgpack Envelope} `{!Msgpack M} `{!Validatable M} (site : list nat)
    (version : Z) (msgType : MessageType) (seq tick : Z) (msg : M) : ProtoError + bytes :=
  let! env := BuildEnvelope site version msgType seq tick msg in
  EncodeEnvelope env.

Definition DecodeAndUnwrap {M} `{!Msgpack Envelope} `{!Msgpack M} `{!Validatable M} (site : list nat)
    (data : bytes) : ProtoError + (Envelope * M) :=
  let! env := DecodeEnvelope data in
  let! msg := DecodeMessage site (e_Body env) in
  inr (env, msg).
End codec.
