(* ===== verification/ProtocolFacts.v ===== *)
(** * Correctness of the wire protocol

    A packet that can be encoded is decoded to the message it was made from,
    whatever order the runtime validates the fields in; encoding fails only for
    the documented reasons, because a payload within its limit always yields a
    packet within its own. *)

From Stdlib Require Import ZArith Lia Floats.SpecFloat.
From stdpp Require Import base strings gmap fin_maps list.
From S2P Require Import Prelude.
From S2P Require Import GoFloat.
From S2P Require Import Player.
From S2P Require Import Protocol.

Local Open Scope string_scope.
Local Open Scope Z_scope.
Local Open Scope list_scope.
Local Open Scope go_scope.

(** ** Values of the Go types *)

Definition is_u16 (z : Z) : Prop := 0 <= z < 2 ^ 16.
Definition is_u32 (z : Z) : Prop := 0 <= z < 2 ^ 32.
Definition is_i64 (z : Z) : Prop := - 2 ^ 63 <= z < 2 ^ 63.

(** The model's records are wider than the Go structs: [typed] are the values a
    variable of the struct can hold. *)
Class GoTyped (M : Type) := typed : M -> Prop.

#[global] Instance typed_Envelope : GoTyped Envelope := fun e =>
  is_u16 (e_Version e) /\ is_u16 (e_Type e) /\ is_u32 (e_Seq e) /\ is_u32 (e_Tick e).

#[global] Instance typed_PlayerInput : GoTyped Protocol.PlayerInput := fun m =>
  is_u32 (wi_Seq m) /\ is_u16 (wi_AnimState m) /\
  binary32 (wi_MoveX m) /\ binary32 (wi_MoveZ m) /\ binary32 (wi_Yaw m).

#[global] Instance typed_PlayerTransformUpdate : GoTyped PlayerTransformUpdate := fun m =>
  is_u32 (wt_Seq m) /\ is_u16 (wt_AnimState m) /\
  binary32 (wt_X m) /\ binary32 (wt_Z m) /\ binary32 (wt_Yaw m).

#[global] Instance typed_PlayerSnapshot : GoTyped PlayerSnapshot := fun m =>
  is_u16 (ws_AnimState m) /\ is_u32 (ws_Version m) /\
  binary32 (ws_X m) /\ binary32 (ws_Z m) /\ binary32 (ws_Yaw m).

#[global] Instance typed_FullSnapshot : GoTyped FullSnapshot := fun m =>
  is_u32 (fs_Tick m) /\ Forall typed (fs_Players m).

#[global] Instance typed_Enter : GoTyped PlayerEnterDelta := fun m =>
  is_u16 (we_AnimState m) /\ is_u32 (we_Version m) /\
  binary32 (we_X m) /\ binary32 (we_Z m) /\ binary32 (we_Yaw m).

#[global] Instance typed_Update : GoTyped PlayerUpdateDelta := fun m =>
  is_u16 (wu_AnimState m) /\ is_u32 (wu_Version m) /\
  binary32 (wu_X m) /\ binary32 (wu_Z m) /\ binary32 (wu_Yaw m).

#[global] Instance typed_PlayerDelta : GoTyped PlayerDelta := fun m =>
  is_u32 (wd_Tick m) /\ Forall typed (wd_Enters m) /\ Forall typed (wd_Updates m).

(** ** What is relied on of the MessagePack library *)

Class MsgpackLaws (M : Type) `{!Msgpack M} `{!GoTyped M} : Prop := {
  marshal_total : forall m : M, typed m -> is_Some (Marshal m);
  unmarshal_marshal : forall (m : M) d, typed m -> Marshal m = Some d -> Unmarshal d = Some m;
  unmarshal_typed : forall (m : M) d, Unmarshal d = Some m -> typed m }.

(** An encoded envelope is a five-entry map: its one-letter keys, four integers
    and the header of the body take less than this many bytes. *)
Definition envelope_overhead : Z := 4096.

Class EnvelopeSize `{!Msgpack Envelope} : Prop :=
  marshal_envelope_size : forall (e : Envelope) d,
    typed e -> Marshal e = Some d -> len d <= len (e_Body e) + envelope_overhead.

(** ** Validation does not depend on map order *)

Section finite_fields.
Context `{GR : !GoRange}.

Lemma first_bad_field_None owner fields :
  first_bad_field owner fields = None <-> Forall (fun f => nan_or_inf f.2 = false) fields.
Proof.
  induction fields as [| [n v] fields IH]; simpl; [by rewrite Forall_nil |].
  rewrite or_return_None, guard_err_None, IH, Forall_cons. done.
Qed.

Lemma validateFiniteFields_None site owner fields :
  validateFiniteFields site owner fields = None <-> map_Forall (fun _ v => nan_or_inf v = false) fields.
Proof.
  unfold validateFiniteFields. rewrite first_bad_field_None, Forall_forall. split.
  - intros H k v Hk. apply (H (k, v)). by apply elem_of_range.
  - intros H [k v] Hin%elem_of_range. by apply (H k v).
Qed.

Lemma three_fields (P : float32 -> Prop) (a b c : string) (x y z : float32) :
  a <> b -> a <> c -> b <> c ->
  map_Forall (fun _ v => P v) ({[ a := x; b := y; c := z ]} : gmap string float32) <-> P x /\ P y /\ P z.
Proof.
  intros Hab Hac Hbc.
  rewrite !map_Forall_insert, map_Forall_singleton by (simplify_map_eq; done). done.
Qed.

Lemma validateFiniteTransform_None site owner x z yaw :
  validateFiniteTransform site owner x z yaw = None <->
  nan_or_inf x = false /\ nan_or_inf z = false /\ nan_or_inf yaw = false.
Proof.
  unfold validateFiniteTransform. rewrite validateFiniteFields_None. by apply (three_fields (fun v => _ v = false)).
Qed.

Lemma PlayerInput_Validate_None site m :
  PlayerInput_Validate site m = None <->
  nan_or_inf (wi_MoveX m) = false /\ nan_or_inf (wi_MoveZ m) = false /\ nan_or_inf (wi_Yaw m) = false.
Proof.
  unfold PlayerInput_Validate. rewrite validateFiniteFields_None. by apply (three_fields (fun v => _ v = false)).
Qed.

Lemma validate_each_None {A} (validate : nat -> A -> option ProtoError) (P : A -> Prop) slice i l :
  (forall i a, validate i a = None <-> P a) -> validate_each validate slice i l = None <-> Forall P l.
Proof.
  intros HP. revert i. induction l as [| a l IH]; intros i; simpl; [by rewrite Forall_nil |].
  rewrite or_return_None, fmap_None, IH, Forall_cons, HP. done.
Qed.

(** Every entry of the delta has an ID and a finite transform. *)
Definition enter_ok (m : PlayerEnterDelta) : Prop :=
  we_PlayerID m <> "" /\
  nan_or_inf (we_X m) = false /\ nan_or_inf (we_Z m) = false /\ nan_or_inf (we_Yaw m) = false.

Definition update_ok (m : PlayerUpdateDelta) : Prop :=
  wu_PlayerID m <> "" /\
  nan_or_inf (wu_X m) = false /\ nan_or_inf (wu_Z m) = false /\ nan_or_inf (wu_Yaw m) = false.

Definition snapshot_ok (m : PlayerSnapshot) : Prop :=
  ws_PlayerID m <> "" /\
  nan_or_inf (ws_X m) = false /\ nan_or_inf (ws_Z m) = false /\ nan_or_inf (ws_Yaw m) = false.

Lemma PlayerDelta_Validate_None site m :
  PlayerDelta_Validate site m = None <->
  WireDelta_IsEmpty m = false /\ Forall enter_ok (wd_Enters m) /\ Forall update_ok (wd_Updates m) /\
  Forall (fun l => wl_PlayerID l <> "") (wd_Leaves m).
Proof.
  unfold PlayerDelta_Validate. rewrite !or_return_None, guard_err_None.
  rewrite (validate_each_None _ enter_ok), (validate_each_None _ update_ok),
    (validate_each_None _ (fun l => wl_PlayerID l <> "")); [done | | |]; intros i a.
  - unfold PlayerLeaveDelta_Validate. by rewrite guard_err_None, String.eqb_neq.
  - unfold PlayerUpdateDelta_Validate, update_ok.
    by rewrite or_return_None, guard_err_None, String.eqb_neq, validateFiniteTransform_None.
  - unfold PlayerEnterDelta_Validate, enter_ok.
    by rewrite or_return_None, guard_err_None, String.eqb_neq, validateFiniteTransform_None.
Qed.

Lemma FullSnapshot_Validate_None site m :
  FullSnapshot_Validate site m = None <-> Forall snapshot_ok (fs_Players m).
Proof.
  apply validate_each_None. intros i a. unfold PlayerSnapshot_Validate, snapshot_ok.
  by rewrite or_return_None, guard_err_None, String.eqb_neq, validateFiniteTransform_None.
Qed.
End finite_fields.

(** A message is accepted or rejected alike under every map order. *)
Class ValidatableLaws (M : Type) `{!Validatable M} : Prop :=
  validate_order : forall GR site GR' site' (m : M),
    Validate GR site m = None -> Validate GR' site' m = None.

#[global] Instance laws_PlayerInput : ValidatableLaws Protocol.PlayerInput.
Proof. intros GR site GR' site' m. cbv [Validate validatable_PlayerInput]. by rewrite !PlayerInput_Validate_None. Qed.

#[global] Instance laws_PlayerTransformUpdate : ValidatableLaws PlayerTransformUpdate.
Proof.
  intros GR site GR' site' m. cbv [Validate validatable_PlayerTransformUpdate].
  unfold PlayerTransformUpdate_Validate. by rewrite !validateFiniteTransform_None.
Qed.

#[global] Instance laws_FullSnapshot : ValidatableLaws FullSnapshot.
Proof. intros GR site GR' site' m. cbv [Validate validatable_FullSnapshot]. by rewrite !FullSnapshot_Validate_None. Qed.

#[global] Instance laws_PlayerDelta : ValidatableLaws PlayerDelta.
Proof. intros GR site GR' site' m. cbv [Validate validatable_PlayerDelta]. by rewrite !PlayerDelta_Validate_None. Qed.

(** ** Envelopes *)

Lemma ValidateVersion_None v : ValidateVersion v = None <-> v = CurrentVersion.
Proof.
  unfold ValidateVersion, MinVersion, MaxVersion, CurrentVersion.
  rewrite guard_err_None, orb_false_iff, !Z.ltb_ge. lia.
Qed.

Lemma ValidateMessageType_None t : ValidateMessageType t = None <-> IsImplemented t = true.
Proof. unfold ValidateMessageType. by rewrite guard_err_None, negb_false_iff. Qed.

Lemma ValidatePacketSize_None d : ValidatePacketSize d = None <-> len d <= MaxPacketSize.
Proof. unfold ValidatePacketSize. by rewrite guard_err_None, Z.ltb_ge. Qed.

Lemma ValidatePayloadSize_None d : ValidatePayloadSize d = None <-> len d <= MaxPayloadSize.
Proof. unfold ValidatePayloadSize. by rewrite guard_err_None, Z.ltb_ge. Qed.

#[export] Hint Rewrite ValidateVersion_None ValidateMessageType_None ValidatePacketSize_None
  ValidatePayloadSize_None : go.

(** The header fields a server of this version accepts. *)
Definition header_ok (e : Envelope) : Prop :=
  e_Version e = CurrentVersion /\ IsImplemented (e_Type e) = true /\ len (e_Body e) <= MaxPayloadSize.

Lemma header_checks e :
  ValidateVersion (e_Version e) >>? ValidateMessageType (e_Type e) >>? ValidatePayloadSize (e_Body e) = None
  <-> header_ok e.
Proof.
  rewrite !or_return_None, ValidateVersion_None, ValidateMessageType_None, ValidatePayloadSize_None. done.
Qed.

Section envelope.
Context `{!Msgpack Envelope} `{!MsgpackLaws Envelope} `{!EnvelopeSize}.

Lemma DecodeEnvelope_ok d e :
  DecodeEnvelope d = inr e <-> len d <= MaxPacketSize /\ Unmarshal d = Some e /\ header_ok e.
Proof.
  unfold DecodeEnvelope. rewrite <- header_checks, <- ValidatePacketSize_None.
  destruct (ValidatePacketSize d); [naive_solver |]. destruct (Unmarshal d) as [e' |]; [| naive_solver].
  destruct (_ >>? _) eqn:Hh; split; intros; destruct_and?; simplify_eq; auto.
Qed.

Lemma packet_fits e d :
  typed e -> header_ok e -> Marshal e = Some d -> ValidatePacketSize d = None.
Proof.
  intros Ht (_ & _ & Hb) Hm. apply ValidatePacketSize_None.
  pose proof (marshal_envelope_size e d Ht Hm).
  unfold envelope_overhead, MaxPayloadSize, MaxPacketSize in *. lia.
Qed.

Lemma EncodeEnvelope_ok e d :
  typed e -> EncodeEnvelope e = inr d <-> header_ok e /\ Marshal e = Some d.
Proof.
  intros Ht. unfold EncodeEnvelope. rewrite <- header_checks. split.
  - destruct (_ >>? _) eqn:Hh; [done |]. destruct (Marshal e) as [d' |]; [| done].
    destruct (ValidatePacketSize d'); [done |]. by intros [= ->].
  - intros [Hh Hm]. rewrite Hh, Hm. apply header_checks in Hh. by rewrite (packet_fits e d).
Qed.

Lemma EncodeEnvelope_decodes e d :
  typed e -> EncodeEnvelope e = inr d -> DecodeEnvelope d = inr e.
Proof.
  intros Ht [Hh Hm]%EncodeEnvelope_ok; [| done]. apply DecodeEnvelope_ok. split_and!; [| | done].
  - by apply ValidatePacketSize_None, (packet_fits e d).
  - by apply unmarshal_marshal.
Qed.

(** ** Messages *)

Section message.
Context `{GR : !GoRange} {M : Type} `{!Msgpack M} `{!GoTyped M} `{!MsgpackLaws M}
  `{!Validatable M} `{!ValidatableLaws M}.
Implicit Types (m : M).

(** The message passes its validation, under every map order. *)
Definition valid_message m : Prop := forall GR site, Validate GR site m = None.

Lemma valid_message_one site m : Validate GR site m = None <-> valid_message m.
Proof. split; [| auto]. intros Hv GR' site'. by apply (validate_order GR site). Qed.

Lemma EncodeMessage_ok site m body :
  typed m -> EncodeMessage site m = inr body <->
  valid_message m /\ Marshal m = Some body /\ len body <= MaxPayloadSize.
Proof.
  intros Ht. unfold EncodeMessage. rewrite <- (valid_message_one site), <- ValidatePayloadSize_None.
  destruct (Validate GR site m); [naive_solver |]. destruct (Marshal m) as [d |]; [| naive_solver].
  destruct (ValidatePayloadSize d) eqn:Hv; split; intros; destruct_and?; simplify_eq; auto.
Qed.

Lemma DecodeMessage_ok site body m :
  DecodeMessage site body = inr m <-> Unmarshal body = Some m /\ valid_message m.
Proof.
  unfold DecodeMessage. rewrite <- (valid_message_one site).
  destruct (Unmarshal body) as [m' |]; [| naive_solver].
  destruct (Validate GR site m') eqn:Hv; split; intros; destruct_and?; simplify_eq; auto.
Qed.

Lemma EncodeAndWrap_ok site v t seq tick m d :
  is_u16 v -> is_u16 t -> is_u32 seq -> is_u32 tick -> typed m ->
  EncodeAndWrap site v t seq tick m = inr d <->
  v = CurrentVersion /\ IsImplemented t = true /\ valid_message m /\
  exists body, Marshal m = Some body /\ len body <= MaxPayloadSize /\
    Marshal (MkEnvelope v t seq tick body) = Some d.
Proof.
  intros Hv Ht Hs Hk Hm. unfold EncodeAndWrap, BuildEnvelope.
  rewrite <- ValidateVersion_None, <- ValidateMessageType_None.
  assert (forall body, typed (MkEnvelope v t seq tick body)) as Hty by (intros; done).
  destruct (_ >>? _) eqn:Hh.
  - split; [done |]. intros (H1 & H2 & _).
    rewrite (proj2 (or_return_None _ _) (conj H1 H2)) in Hh. done.
  - apply or_return_None in Hh as [Hv0 Ht0]. destruct (EncodeMessage site m) as [e | body] eqn:He.
    + split; [done |]. intros (_ & _ & Hval & body & H1 & H2 & _).
      rewrite (proj2 (EncodeMessage_ok site m body Hm)) in He by done. done.
    + apply EncodeMessage_ok in He as (Hval & Hmb & Hlb); [| done].
      rewrite EncodeEnvelope_ok by done. unfold header_ok. simpl.
      rewrite <- ValidateVersion_None, <- ValidateMessageType_None. split.
      * intros [_ Hd]. split_and!; eauto.
      * intros (_ & _ & _ & body' & H1 & H2 & H3). simplify_eq. done.
Qed.

Lemma EncodeAndWrap_decodes site site' v t seq tick m d :
  is_u16 v -> is_u16 t -> is_u32 seq -> is_u32 tick -> typed m ->
  EncodeAndWrap site v t seq tick m = inr d ->
  exists body, DecodeEnvelope d = inr (MkEnvelope v t seq tick body) /\
    DecodeMessage site' body = inr m.
Proof.
  intros Hv Ht Hs Hk Hm (Hv1 & Ht1 & Hval & body & H1 & H2 & H3)%EncodeAndWrap_ok; [| done ..].
  exists body. split.
  - apply EncodeEnvelope_decodes; [done |]. by apply EncodeEnvelope_ok.
  - apply DecodeMessage_ok. split; [by apply unmarshal_marshal | done].
Qed.

(** C21: A message of this version encodes exactly when its type is
    implemented, it passes its validation and its body fits the payload limit
    (the packet limit never adds a failure); and the packet decodes to the same
    header and the same message, under whatever order either side ranges over
    its maps. *)
Theorem wire_roundtrip (site site' : list nat) (v : Z) (t : MessageType) (seq tick : Z) (m : M) :
  is_u16 v -> is_u16 t -> is_u32 seq -> is_u32 tick -> typed m ->
  ((exists d, EncodeAndWrap site v t seq tick m = inr d) <->
   v = CurrentVersion /\ IsImplemented t = true /\ valid_message m /\
   from_option len 0 (Marshal m) <= MaxPayloadSize) /\
  forall d, EncodeAndWrap site v t seq tick m = inr d ->
    len d <= MaxPacketSize /\
    exists body, DecodeAndUnwrap site' d = inr (MkEnvelope v t seq tick body, m).
Proof.
  intros Hv Ht Hs Hk Hm. setoid_rewrite EncodeAndWrap_ok; [| done ..]. split.
  - destruct (marshal_total m Hm) as [b Hb]. rewrite Hb. simpl. split.
    + intros (d & H1 & H2 & H3 & body & [= <-] & H5 & _). done.
    + intros (H1 & H2 & H3 & H4).
      destruct (marshal_total (MkEnvelope v t seq tick b)) as [d Hd]; [done |]. eauto 10.
  - intros d Hd. pose proof (proj2 (EncodeAndWrap_ok site v t seq tick m d Hv Ht Hs Hk Hm) Hd) as He.
    destruct (EncodeAndWrap_decodes site site' _ _ _ _ _ _ Hv Ht Hs Hk Hm He) as (body & H1 & H2).
    split; [by apply DecodeEnvelope_ok in H1 as (? & _) |].
    exists body. unfold DecodeAndUnwrap. rewrite H1. cbn [e_Body]. by rewrite H2.
Qed.
End message.
End envelope.
