(* ===== verification/ProtocolExample.v ===== *)
(** * A codec that satisfies the laws

    The theorems over the wire protocol hold for every MessagePack library that
    satisfies [MsgpackLaws] and [EnvelopeSize].  This file has one codec that
    does, with which their witnesses compute: it is not MessagePack, and nothing
    else depends on it. *)

From Stdlib Require Import ZArith Lia Floats.SpecFloat.
From stdpp Require Import base strings gmap fin_maps list countable.
From S2P Require Import Prelude.
From S2P Require Import GoFloat.
From S2P Require Import Player.
From S2P Require Import Protocol.
From S2P Require Import ProtocolFacts.

Local Open Scope string_scope.
Local Open Scope Z_scope.
Local Open Scope list_scope.

Module ExampleCodec.

(** ** Envelopes: twelve bytes of header, then the body *)

Definition byte_of (z : Z) : Byte.byte := default Byte.x00 (Byte.of_N (Z.to_N (z mod 256))).

Definition val (b : Byte.byte) : Z := Z.of_N (Byte.to_N b).

Lemma val_byte_of z : val (byte_of z) = z mod 256.
Proof.
  unfold val, byte_of. pose proof (Z.mod_pos_bound z 256 ltac:(lia)) as Hz.
  destruct (Byte.of_N (Z.to_N (z mod 256))) as [b |] eqn:Hb; simpl.
  - apply Byte.to_of_N in Hb. lia.
  - apply Byte.of_N_None_iff in Hb. lia.
Qed.

Lemma val_range b : 0 <= val b < 256.
Proof. unfold val. pose proof (Byte.to_N_bounded b). lia. Qed.

Definition marshal_envelope (e : Envelope) : bytes :=
  byte_of (e_Version e / 256) :: byte_of (e_Version e) ::
  byte_of (e_Type e / 256) :: byte_of (e_Type e) ::
  byte_of (e_Seq e / 2 ^ 24) :: byte_of (e_Seq e / 2 ^ 16) :: byte_of (e_Seq e / 256) :: byte_of (e_Seq e) ::
  byte_of (e_Tick e / 2 ^ 24) :: byte_of (e_Tick e / 2 ^ 16) :: byte_of (e_Tick e / 256) ::
  byte_of (e_Tick e) :: e_Body e.

Definition unmarshal_envelope (d : bytes) : option Envelope :=
  match d with
  | v1 :: v0 :: t1 :: t0 :: s3 :: s2 :: s1 :: s0 :: k3 :: k2 :: k1 :: k0 :: body =>
      Some (MkEnvelope (val v1 * 256 + val v0) (val t1 * 256 + val t0)
              (val s3 * 2 ^ 24 + val s2 * 2 ^ 16 + val s1 * 256 + val s0)
              (val k3 * 2 ^ 24 + val k2 * 2 ^ 16 + val k1 * 256 + val k0) body)
  | _ => None
  end.

#[export] Instance codec_Envelope : Msgpack Envelope :=
  { Marshal := fun e => Some (marshal_envelope e); Unmarshal := unmarshal_envelope }.

Lemma bytes2 z : is_u16 z -> z / 256 mod 256 * 256 + z mod 256 = z.
Proof. unfold is_u16. intros Hz. Z.div_mod_to_equations. lia. Qed.

Lemma bytes4 z :
  is_u32 z ->
  z / 2 ^ 24 mod 256 * 2 ^ 24 + z / 2 ^ 16 mod 256 * 2 ^ 16 + z / 256 mod 256 * 256 + z mod 256 = z.
Proof. unfold is_u32. intros Hz. Z.div_mod_to_equations. lia. Qed.

#[export] Instance codec_Envelope_laws : MsgpackLaws Envelope.
Proof.
  split.
  - intros e _. by eexists.
  - intros e d (Hv & Ht & Hs & Hk) [= <-]. destruct e as [v t s k body]. simpl in *.
    rewrite !val_byte_of, !bytes2, !bytes4 by done. done.
  - intros e d. simpl. unfold unmarshal_envelope. repeat (destruct d as [| ? d]; [done |]).
    intros [= <-]. cbv [typed typed_Envelope is_u16 is_u32]. simpl.
    repeat match goal with |- context [val ?b] => pose proof (val_range b); generalize dependent (val b); intros end.
    lia.
Qed.

#[export] Instance codec_Envelope_size : EnvelopeSize.
Proof. intros e d _ [= <-]. unfold len, marshal_envelope, envelope_overhead. simpl. lia. Qed.

(** ** Messages: the bits of their position in an enumeration *)

Fixpoint bits (p : positive) : bytes :=
  match p with
  | xH => []
  | xO p => Byte.x00 :: bits p
  | xI p => Byte.x01 :: bits p
  end.

Fixpoint unbits (d : bytes) : option positive :=
  match d with
  | [] => Some xH
  | Byte.x00 :: d => xO <$> unbits d
  | Byte.x01 :: d => xI <$> unbits d
  | _ => None
  end.

Lemma unbits_bits p : unbits (bits p) = Some p.
Proof. induction p as [p IH | p IH |]; simpl; rewrite ?IH; done. Qed.

Section enumerated.
Context {M : Type} `{Countable M} `{!GoTyped M} `{!forall m : M, Decision (typed m)}.

Definition enumerated_codec : Msgpack M := {|
  Marshal := fun m => if decide (typed m) then Some (bits (encode m)) else None;
  Unmarshal := fun d => p ← unbits d; m ← decode p; if decide (typed m) then Some m else None |}.

Lemma enumerated_laws : @MsgpackLaws M enumerated_codec _.
Proof.
  split; simpl.
  - intros m Hm. rewrite decide_True by done. by eexists.
  - intros m d Hm. rewrite decide_True by done. intros [= <-].
    rewrite unbits_bits. simpl. rewrite decode_encode. simpl. by rewrite decide_True.
  - intros m d. destruct (unbits d) as [p |]; [| done]. simpl. destruct (decode p) as [m' |]; [| done].
    simpl. case_decide; [by intros [= <-] | done].
Qed.
End enumerated.

#[export] Instance spec_float_eq_dec : EqDecision spec_float.
Proof. solve_decision. Defined.

#[export] Instance spec_float_countable : Countable spec_float.
Proof.
  refine (inj_countable'
    (fun x => match x with
      | S754_zero s => inl s
      | S754_infinity s => inr (inl s)
      | S754_nan => inr (inr None)
      | S754_finite s m e => inr (inr (Some (s, m, e)))
      end)
    (fun y => match y with
      | inl s => S754_zero s
      | inr (inl s) => S754_infinity s
      | inr (inr None) => S754_nan
      | inr (inr (Some (s, m, e))) => S754_finite s m e
      end) _).
  by intros [].
Defined.

#[export] Instance is_u16_dec z : Decision (is_u16 z).
Proof. unfold is_u16. apply _. Defined.
#[export] Instance is_u32_dec z : Decision (is_u32 z).
Proof. unfold is_u32. apply _. Defined.
#[export] Instance binary32_dec x : Decision (binary32 x).
Proof. unfold binary32. apply _. Defined.

(** *** The two client messages *)

#[export] Instance input_eq_dec : EqDecision Protocol.PlayerInput.
Proof. solve_decision. Defined.

#[export] Instance input_countable : Countable Protocol.PlayerInput.
Proof.
  refine (inj_countable' (fun m => (wi_Seq m, wi_MoveX m, wi_MoveZ m, wi_Yaw m, wi_AnimState m))
    (fun '(a, b, c, d, e) => MkWireInput a b c d e) _). by intros [].
Defined.

#[export] Instance input_typed_dec (m : Protocol.PlayerInput) : Decision (typed m).
Proof. unfold typed, typed_PlayerInput. apply _. Defined.

#[export] Instance codec_PlayerInput : Msgpack Protocol.PlayerInput := enumerated_codec.
#[export] Instance codec_PlayerInput_laws : MsgpackLaws Protocol.PlayerInput := enumerated_laws.

#[export] Instance transform_eq_dec : EqDecision PlayerTransformUpdate.
Proof. solve_decision. Defined.

#[export] Instance transform_countable : Countable PlayerTransformUpdate.
Proof.
  refine (inj_countable' (fun m => (wt_Seq m, wt_X m, wt_Z m, wt_Yaw m, wt_AnimState m))
    (fun '(a, b, c, d, e) => MkWireTransform a b c d e) _). by intros [].
Defined.

#[export] Instance transform_typed_dec (m : PlayerTransformUpdate) : Decision (typed m).
Proof. unfold typed, typed_PlayerTransformUpdate. apply _. Defined.

#[export] Instance codec_PlayerTransformUpdate : Msgpack PlayerTransformUpdate := enumerated_codec.
#[export] Instance codec_PlayerTransformUpdate_laws : MsgpackLaws PlayerTransformUpdate := enumerated_laws.

(** *** Deltas *)

#[export] Instance enter_eq_dec : EqDecision PlayerEnterDelta.
Proof. solve_decision. Defined.

#[export] Instance enter_countable : Countable PlayerEnterDelta.
Proof.
  refine (inj_countable' (fun m => (we_PlayerID m, we_X m, we_Z m, we_Yaw m, we_AnimState m, we_Version m))
    (fun '(a, b, c, d, e, f) => MkWireEnter a b c d e f) _). by intros [].
Defined.

#[export] Instance update_eq_dec : EqDecision PlayerUpdateDelta.
Proof. solve_decision. Defined.

#[export] Instance update_countable : Countable PlayerUpdateDelta.
Proof.
  refine (inj_countable' (fun m => (wu_PlayerID m, wu_X m, wu_Z m, wu_Yaw m, wu_AnimState m, wu_Version m))
    (fun '(a, b, c, d, e, f) => MkWireUpdate a b c d e f) _). by intros [].
Defined.

#[export] Instance leave_eq_dec : EqDecision PlayerLeaveDelta.
Proof. solve_decision. Defined.

#[export] Instance leave_countable : Countable PlayerLeaveDelta.
Proof. refine (inj_countable' wl_PlayerID MkWireLeave _). by intros []. Defined.

#[export] Instance delta_eq_dec : EqDecision PlayerDelta.
Proof. solve_decision. Defined.

#[export] Instance delta_countable : Countable PlayerDelta.
Proof.
  refine (inj_countable' (fun m => (wd_Tick m, wd_Enters m, wd_Updates m, wd_Leaves m))
    (fun '(a, b, c, d) => MkWireDelta a b c d) _). by intros [].
Defined.

#[export] Instance enter_typed_dec (m : PlayerEnterDelta) : Decision (typed m).
Proof. unfold typed, typed_Enter. apply _. Defined.
#[export] Instance update_typed_dec (m : PlayerUpdateDelta) : Decision (typed m).
Proof. unfold typed, typed_Update. apply _. Defined.
#[export] Instance delta_typed_dec (m : PlayerDelta) : Decision (typed m).
Proof. unfold typed, typed_PlayerDelta. apply _. Defined.

#[export] Instance codec_PlayerDelta : Msgpack PlayerDelta := enumerated_codec.
#[export] Instance codec_PlayerDelta_laws : MsgpackLaws PlayerDelta := enumerated_laws.

(** ** Sample messages *)

Definition sample_transform : PlayerTransformUpdate :=
  MkWireTransform 7 (f32_of_Z 15) (f32_of_Z (-25)) (f32_of_Z 2) 3.

End ExampleCodec.

Import ExampleCodec.

Lemma wire_roundtrip_witness :
  exists d body, @EncodeAndWrap canonical_range _ _ _ _ []
      CurrentVersion TypePlayerTransformUpdate 1 2 sample_transform = inr d /\
    @DecodeAndUnwrap canonical_range _ _ _ _ [] d
      = inr (MkEnvelope CurrentVersion TypePlayerTransformUpdate 1 2 body, sample_transform).
Proof.
  destruct (@wire_roundtrip _ _ _ canonical_range _ _ _ _ _ _ [] [] CurrentVersion TypePlayerTransformUpdate 1 2
    sample_transform ltac:(vm_compute; split; congruence) ltac:(vm_compute; split; congruence)
    ltac:(vm_compute; split; congruence) ltac:(vm_compute; split; congruence)
    ltac:(apply (bool_decide_unpack _); vm_compute; exact I)) as [Henc Hdec].
  destruct (proj2 Henc) as [d Hd].
  - split; [reflexivity |]. split; [reflexivity |]. split.
    + apply (@valid_message_one canonical_range _ _ _ []). vm_compute. reflexivity.
    + vm_compute. congruence.
  - exists d. destruct (Hdec d Hd) as (_ & body & Hb). exists body. split; [exact Hd | exact Hb].
Defined.
