(* ===== verification/Handler.v ===== *)
(** * From packets to room commands

    Models [internal/game/handler/handler.go] and the receive path of
    [internal/app/realtime/receive.go]: raw bytes are decoded, the session is
    resolved to a player and a room, and a command is put on the room's queue.

    The handler reaches the room through the narrow interface [RoomEnqueuer]
    and the identities through two resolver functions; they are parameters
    here as they are there.  [S] is the state the rooms live in and [R] the type
    of the interface values (pointers to rooms). *)

From Stdlib Require Import ZArith Lia.
From stdpp Require Import base strings gmap fin_maps list.
From S2P Require Import Prelude.
From S2P Require Import GoFloat.
From S2P Require Import Player.
From S2P Require Import Cluster.
From S2P Require Import Room.
From S2P Require Import RoomSystem.
From S2P Require Import RoomManager.
From S2P Require Import Protocol.

Local Open Scope string_scope.
Local Open Scope Z_scope.
Local Open Scope list_scope.
Local Open Scope go_scope.

(** ** Interfaces *)

(** [handler.RoomEnqueuer]: one method, which may change the room it is called
    on. *)
Class RoomEnqueuer (S R : Type) := enqueue_on : R -> RoomCommand -> S -> S * option EnqueueError.

(** What the handler relies on: a rejected command leaves no trace. *)
Class RoomEnqueuerLaws (S R : Type) `{!RoomEnqueuer S R} : Prop :=
  enqueue_rejected : forall r cmd (s s' : S) e, enqueue_on r cmd s = (s', Some e) -> s' = s.

(** [*room.Room] as a [RoomEnqueuer]: rooms are pointers into the manager's
    heap.  Go has no dangling pointers, so the lookup does not fail. *)
Definition on_room (op : Room KMeansClusterAllocator -> RoomCommand -> Room KMeansClusterAllocator * option EnqueueError)
    : RoomEnqueuer RoomManager loc := fun l cmd m =>
  match rm_heap m !! l with
  | None => (m, None)
  | Some s =>
      let '(r, err) := op (sys_room s) cmd in
      (RoomManager.set_heap m
         (<[l := MkSys r (sys_loop s) (sys_ctxDone s) (sys_sent s)]> (rm_heap m)), err)
  end.

#[global] Instance Room_RoomEnqueuer : RoomEnqueuer RoomManager loc := on_room Enqueue.

(** The same call when the room changes between its test and its send. *)
Definition Room_RoomEnqueuer_late : RoomEnqueuer RoomManager loc := on_room Enqueue_send.

(** [transport.RealtimeSession], as far as the receive path uses it. *)
Record SessionHandle := MkSessionHandle { sh_ID : string }.

Inductive ResolveError := ErrResolve (sessionID : string).

(** [time.Time.UnixMilli], rounding down; times count from Go's year 1. *)
Definition UnixMilli (t : Time) : Z := (t - 62135596800 * 10 ^ 9) / 10 ^ 6.

(** ** Handler *)

Record PacketContext := MkPacketContext {
  pc_SessionID : string; pc_PlayerID : PlayerID; pc_UserID : UserID }.

Inductive EnqueueFailure :=
  | ErrResolveRoom (sessionID : string) (e : ResolveError)
  | ErrNotAttached (sessionID : string)
  | ErrRejected (e : EnqueueError).

Inductive HandlerError :=
  | ErrNotClientToServer (t : MessageType)
  | ErrDecodeBody (t : MessageType) (e : ProtoError)
  | ErrUnsupportedGameplay (t : MessageType)
  | ErrPlayerIDRequired (t : MessageType)
  | ErrEnqueueCommand (t : MessageType) (e : EnqueueFailure).

Record HandlePacketResult := MkHandlePacketResult {
  hr_MessageType : MessageType;
  hr_Handled : bool;
  hr_Error : option HandlerError }.

(** The domain values the two messages are mapped to; the wire has no height
    and sends the yaw angle only. *)
Definition wire_transform (x z yaw : float32) : PlayerTransform :=
  MkPlayerTransform (MkVector3 x f32_zero z) (MkQuaternion f32_zero yaw f32_zero f32_one) 0.

Definition input_command (ctx : PacketContext) (msg : Protocol.PlayerInput) (now now' : Time) : RoomCommand :=
  MkRoomCommand CmdPlayerInput (pc_SessionID ctx) (pc_PlayerID ctx) (pc_UserID ctx)
    (PayloadInput (Player.MkPlayerInput (wi_Seq msg)
       (wire_transform (wi_MoveX msg) (wi_MoveZ msg) (wi_Yaw msg)) (UnixMilli now))) now'.

Definition transform_command (ctx : PacketContext) (msg : PlayerTransformUpdate) (now : Time) : RoomCommand :=
  MkRoomCommand CmdUpdatePlayerTransform (pc_SessionID ctx) (pc_PlayerID ctx) (pc_UserID ctx)
    (PayloadTransform (wire_transform (wt_X msg) (wt_Z msg) (wt_Yaw msg))) now.

Section handler.
Context {S R : Type} `{!RoomEnqueuer S R} `{GR : !GoRange}.
Context `{!Msgpack Protocol.PlayerInput} `{!Msgpack PlayerTransformUpdate}.
(** [SessionRoomResolver] *)
Variable resolveRoom : S -> string -> ResolveError + option R.

Definition enqueue (ctx : PacketContext) (cmd : RoomCommand) (s : S) : S * option EnqueueFailure :=
  match resolveRoom s (pc_SessionID ctx) with
  | inl err => (s, Some (ErrResolveRoom (pc_SessionID ctx) err))
  | inr None => (s, Some (ErrNotAttached (pc_SessionID ctx)))
  | inr (Some r) => let '(s, err) := enqueue_on r cmd s in (s, ErrRejected <$> err)
  end.

(** The shared end of both handlers: enqueue, then report. *)
Definition submit (t : MessageType) (ctx : PacketContext) (cmd : RoomCommand) (s : S)
    : S * HandlePacketResult :=
  match enqueue ctx cmd s with
  | (s, Some err) => (s, MkHandlePacketResult t false (Some (ErrEnqueueCommand t err)))
  | (s, None) => (s, MkHandlePacketResult t true None)
  end.

Definition handlePlayerInput (ctx : PacketContext) (msg : Protocol.PlayerInput) (now now' : Time) (s : S)
    : S * HandlePacketResult :=
  let t := TypePlayerInput in
  if String.eqb (pc_PlayerID ctx) "" then
    (s, MkHandlePacketResult t false (Some (ErrPlayerIDRequired t)))
  else submit t ctx (input_command ctx msg now now') s.

Definition handlePlayerTransformUpdate (ctx : PacketContext) (msg : PlayerTransformUpdate) (now : Time)
    (s : S) : S * HandlePacketResult :=
  let t := TypePlayerTransformUpdate in
  if String.eqb (pc_PlayerID ctx) "" then
    (s, MkHandlePacketResult t false (Some (ErrPlayerIDRequired t)))
  else submit t ctx (transform_command ctx msg now) s.

(** [now] and [now'] are the clock readings, in the order of the calls. *)
Definition HandleEnvelope (site : list nat) (ctx : PacketContext) (env : Envelope) (now now' : Time)
    (s : S) : S * HandlePacketResult :=
  let t := e_Type env in
  let failed err := (s, MkHandlePacketResult t false (Some err)) in
  if negb (IsClientToServer t) then failed (ErrNotClientToServer t)
  else if t =? TypePlayerInput then
    match DecodeMessage site (e_Body env) with
    | inl err => failed (ErrDecodeBody t err)
    | inr msg => handlePlayerInput ctx msg now now' s
    end
  else if t =? TypePlayerTransformUpdate then
    match DecodeMessage site (e_Body env) with
    | inl err => failed (ErrDecodeBody t err)
    | inr msg => handlePlayerTransformUpdate ctx msg now s
    end
  else failed (ErrUnsupportedGameplay t).

(** ** Receive path *)

Inductive ProcessError :=
  | ErrDecodeEnvelope (sessionID : string) (e : ProtoError)
  | ErrHandle (t : MessageType) (sessionID : string) (e : HandlerError).

(** [SessionResolver]: player and user ID, both empty before the join. *)
Variable resolve : S -> string -> string * string.

Definition ResolveContext (sess : SessionHandle) (s : S) : PacketContext :=
  let '(playerID, userID) := resolve s (sh_ID sess) in
  MkPacketContext (sh_ID sess) playerID userID.

Context `{!Msgpack Envelope}.

Definition Process (site : list nat) (sess : SessionHandle) (data : bytes) (now now' : Time) (s : S)
    : S * option ProcessError :=
  match DecodeEnvelope data with
  | inl err => (s, Some (ErrDecodeEnvelope (sh_ID sess) err))
  | inr env =>
      let ctx := ResolveContext sess s in
      let '(s, result) := HandleEnvelope site ctx env now now' s in
      match hr_Error result with
      | Some err => (s, Some (ErrHandle (e_Type env) (sh_ID sess) err))
      | None => (s, None)
      end
  end.

(** [ReceiveLoopAdapter.HandlePacket]: errors are only logged. *)
Definition HandlePacket (site : list nat) (sess : SessionHandle) (data : bytes) (now now' : Time) (s : S) : S :=
  (Process site sess data now now' s).1.
End handler.
