(* ===== verification/HandlerFacts.v ===== *)
(** * Correctness of the receive path

    Whatever bytes arrive, at most one command reaches the queue of the
    session's room, it carries the identity of the session and finite
    coordinates, and a packet that is not accepted changes nothing. *)

From Stdlib Require Import ZArith Lia.
From stdpp Require Import base strings gmap fin_maps list.
From S2P Require Import Prelude.
From S2P Require Import GoFloat.
From S2P Require Import Player.
From S2P Require Import Cluster.
From S2P Require Import Room.
From S2P Require Import RoomSystem.
From S2P Require Import RoomManager.
From S2P Require Import Protocol.
From S2P Require Import ProtocolFacts.
From S2P Require Import ProtocolExample.
From S2P Require Import Handler.

Local Open Scope string_scope.
Local Open Scope Z_scope.
Local Open Scope list_scope.

Lemma on_room_laws op :
  (forall r cmd r' e, op r cmd = (r', Some e) -> r' = r) -> @RoomEnqueuerLaws RoomManager loc (on_room op).
Proof.
  intros Hop l cmd m m' e. unfold enqueue_on, on_room.
  destruct (rm_heap m !! l) as [[r lp b sent] |] eqn:Hl; [| done]. cbn [sys_room sys_loop sys_ctxDone sys_sent].
  destruct (op r cmd) as [r' err] eqn:Ho. intros [= <- ->]. apply Hop in Ho as ->.
  rewrite insert_id by done. by destruct m.
Qed.

Lemma Enqueue_send_rejected {A} (r : Room A) cmd r' e : Enqueue_send r cmd = (r', Some e) -> r' = r.
Proof. unfold Enqueue_send. case_match; congruence. Qed.

Lemma Enqueue_rejected {A} (r : Room A) cmd r' e : Enqueue r cmd = (r', Some e) -> r' = r.
Proof. unfold Enqueue. case_decide; [apply Enqueue_send_rejected | congruence]. Qed.

#[global] Instance Room_RoomEnqueuerLaws : RoomEnqueuerLaws RoomManager loc.
Proof. apply on_room_laws, Enqueue_rejected. Qed.

Lemma Room_RoomEnqueuer_late_laws : @RoomEnqueuerLaws RoomManager loc Room_RoomEnqueuer_late.
Proof. apply on_room_laws, Enqueue_send_rejected. Qed.

Section receive.
Context {S R : Type} `{!RoomEnqueuer S R} `{!RoomEnqueuerLaws S R} `{GR : !GoRange}.
Context `{!Msgpack Envelope} `{!Msgpack Protocol.PlayerInput} `{!Msgpack PlayerTransformUpdate}.
Context `{!MsgpackLaws Envelope} `{!MsgpackLaws Protocol.PlayerInput} `{!MsgpackLaws PlayerTransformUpdate}.
Variable resolveRoom : S -> string -> ResolveError + option R.
Variable resolve : S -> string -> string * string.

(** ** What a packet asks for *)

(** The specification of the receive path: the command a packet stands for, for
    a session with this context, at these clock readings. *)
Inductive asks_for (ctx : PacketContext) (data : bytes) (now now' : Time) : RoomCommand -> Prop :=
  | asks_input env msg :
      len data <= MaxPacketSize -> Unmarshal data = Some env -> header_ok env ->
      e_Type env = TypePlayerInput -> Unmarshal (e_Body env) = Some msg -> valid_message msg ->
      asks_for ctx data now now' (input_command ctx msg now now')
  | asks_transform env msg :
      len data <= MaxPacketSize -> Unmarshal data = Some env -> header_ok env ->
      e_Type env = TypePlayerTransformUpdate -> Unmarshal (e_Body env) = Some msg -> valid_message msg ->
      asks_for ctx data now now' (transform_command ctx msg now).

(** Coordinates and yaw are numbers. *)
Definition payload_finite (p : Payload) : Prop :=
  match p with
  | PayloadInput i => ValidatePlayerTransform (in_Transform i) = None
  | PayloadTransform t => ValidatePlayerTransform t = None
  | _ => False
  end.

Lemma wire_transform_valid x z yaw :
  nan_or_inf x = false -> nan_or_inf z = false -> nan_or_inf yaw = false ->
  ValidatePlayerTransform (wire_transform x z yaw) = None.
Proof.
  intros Hx Hz Hy. unfold ValidatePlayerTransform, ValidateVector3, ValidateQuaternion. simpl.
  rewrite Hx, Hz, Hy. simpl. by rewrite andb_false_r.
Qed.

Lemma asks_for_shape ctx data now now' cmd :
  asks_for ctx data now now' cmd ->
  cmd_SessionID cmd = pc_SessionID ctx /\ cmd_PlayerID cmd = pc_PlayerID ctx /\
  cmd_UserID cmd = pc_UserID ctx /\ cmd_Kind cmd ∈ [CmdPlayerInput; CmdUpdatePlayerTransform] /\
  payload_finite (cmd_Payload cmd).
Proof.
  destruct 1 as [env msg _ _ _ _ _ Hv | env msg _ _ _ _ _ Hv]; split_and!; try done.
  - left.
  - apply wire_transform_valid; specialize (Hv GR []); by apply (PlayerInput_Validate_None []) in Hv as (? & ? & ?).
  - right. left.
  - apply wire_transform_valid; specialize (Hv GR []); by apply (validateFiniteTransform_None []) in Hv as (? & ? & ?).
Qed.

(** ** The handler implements it *)

Lemma submit_spec t ctx cmd (s : S) :
  match submit resolveRoom t ctx cmd s with
  | (s', result) =>
      match hr_Error result with
      | None => exists r, resolveRoom s (pc_SessionID ctx) = inr (Some r) /\ enqueue_on r cmd s = (s', None)
      | Some _ => s' = s /\ ~ exists r s2, resolveRoom s (pc_SessionID ctx) = inr (Some r) /\
                    enqueue_on r cmd s = (s2, None)
      end /\ hr_Handled result = bool_decide (hr_Error result = None)
  end.
Proof.
  unfold submit, enqueue. destruct (resolveRoom s (pc_SessionID ctx)) as [e | [r |]]; simpl.
  - split; [| done]. split; [done |]. by intros (r & s2 & ? & _).
  - destruct (enqueue_on r cmd s) as [s' [e |]] eqn:He; simpl; (split; [| done]).
    + split; [by eapply enqueue_rejected |]. intros (r2 & s2 & [= <-] & He2). congruence.
    + by exists r.
  - split; [| done]. split; [done |]. by intros (r & s2 & ? & _).
Qed.

(** The packet is accepted: it asks for a command, and the room takes it. *)
Definition accepts (sess : SessionHandle) (data : bytes) (now now' : Time) (s s' : S) : Prop :=
  let ctx := ResolveContext resolve sess s in
  pc_PlayerID ctx <> "" /\ exists cmd r, asks_for ctx data now now' cmd /\
    resolveRoom s (sh_ID sess) = inr (Some r) /\ enqueue_on r cmd s = (s', None).

Lemma asks_for_fun ctx data now now' cmd cmd' :
  asks_for ctx data now now' cmd -> asks_for ctx data now now' cmd' -> cmd = cmd'.
Proof.
  destruct 1 as [env msg _ H1 _ H2 H3 _ | env msg _ H1 _ H2 H3 _];
    destruct 1 as [env' msg' _ K1 _ K2 K3 _ | env' msg' _ K1 _ K2 K3 _];
    assert (env' = env) as -> by congruence; try (f_equal; congruence);
    unfold TypePlayerInput, TypePlayerTransformUpdate in *; congruence.
Qed.

Lemma ctx_session sess s : pc_SessionID (ResolveContext resolve sess s) = sh_ID sess.
Proof. unfold ResolveContext. by destruct (resolve s (sh_ID sess)). Qed.

(** A handler that only submits the command the packet asks for. *)
Lemma handled_spec t sess data now now' (s : S) cmd (res : S * HandlePacketResult) :
  let ctx := ResolveContext resolve sess s in
  asks_for ctx data now now' cmd ->
  res = (if String.eqb (pc_PlayerID ctx) "" then
           (s, MkHandlePacketResult t false (Some (ErrPlayerIDRequired t)))
         else submit resolveRoom t ctx cmd s) ->
  match hr_Error res.2 with
  | None => accepts sess data now now' s res.1
  | Some _ => res.1 = s /\ ~ exists s', accepts sess data now now' s s'
  end.
Proof.
  intros ctx Hask ->. unfold accepts. fold ctx. destruct (String.eqb_spec (pc_PlayerID ctx) "") as [He | Hne]; simpl.
  { split; [done |]. by intros (s' & Hne & _). }
  pose proof (submit_spec t ctx cmd s) as Hs. unfold ctx in Hs at 2 3. rewrite ctx_session in Hs.
  destruct (submit resolveRoom t ctx cmd s) as [s' result]. destruct Hs as [Hs _]. simpl.
  destruct (hr_Error result).
  - destruct Hs as [-> Hno]. split; [done |]. intros (s2 & _ & cmd' & r & Hask' & Hr & He). apply Hno.
    assert (cmd' = cmd) as -> by (by eapply asks_for_fun). eauto.
  - destruct Hs as (r & Hr & He). split; [done |]. by exists cmd, r.
Qed.

Lemma not_asked sess data now now' (s : S) :
  (forall cmd, ~ asks_for (ResolveContext resolve sess s) data now now' cmd) ->
  ~ exists s', accepts sess data now now' s s'.
Proof. intros Hno (s' & _ & cmd & r & Hask & _). by apply (Hno cmd). Qed.

(** Either message: the handler's result, once the envelope has been decoded. *)
Definition outcome (sess : SessionHandle) (data : bytes) (now now' : Time) (s : S)
    (res : S * HandlePacketResult) : Prop :=
  match hr_Error res.2 with
  | None => accepts sess data now now' s res.1
  | Some _ => res.1 = s /\ ~ exists s', accepts sess data now now' s s'
  end.

Lemma HandleEnvelope_spec site sess data env now now' (s : S) :
  len data <= MaxPacketSize -> Unmarshal data = Some env -> header_ok env ->
  outcome sess data now now' s
    (HandleEnvelope resolveRoom site (ResolveContext resolve sess s) env now now' s).
Proof.
  intros Hlen Hun Hhdr. unfold HandleEnvelope. set (ctx := ResolveContext resolve sess s).
  assert (e_Type env <> TypePlayerInput -> e_Type env <> TypePlayerTransformUpdate ->
    ~ exists s2, accepts sess data now now' s s2) as Hother.
  { intros H4 H6. apply not_asked. destruct 1; simplify_eq; congruence. }
  destruct (IsClientToServer (e_Type env)) eqn:Hcs; simpl.
  2:{ split; [done |]. apply Hother; intros He; by rewrite He in Hcs. }
  destruct (Z.eqb_spec (e_Type env) TypePlayerInput) as [H4 | H4].
  { destruct (DecodeMessage site (e_Body env)) as [err | msg] eqn:Hm; simpl.
    - split; [done |]. apply not_asked. destruct 1 as [env' msg Hl Hu Hh Ht Hb Hv |]; simplify_eq;
        [| unfold TypePlayerInput, TypePlayerTransformUpdate in *; congruence].
      by rewrite (proj2 (DecodeMessage_ok site (e_Body env) msg)) in Hm.
    - apply DecodeMessage_ok in Hm as [Hb Hv].
      by apply (handled_spec TypePlayerInput sess data now now' s (input_command ctx msg now now') _
        (asks_input ctx data now now' env msg Hlen Hun Hhdr H4 Hb Hv)). }
  destruct (Z.eqb_spec (e_Type env) TypePlayerTransformUpdate) as [H6 | H6].
  2:{ split; [done |]. by apply Hother. }
  destruct (DecodeMessage site (e_Body env)) as [err | msg] eqn:Hm; simpl.
  - split; [done |]. apply not_asked. destruct 1 as [| env' msg Hl Hu Hh Ht Hb Hv]; simplify_eq.
    by rewrite (proj2 (DecodeMessage_ok site (e_Body env) msg)) in Hm.
  - apply DecodeMessage_ok in Hm as [Hb Hv].
    by apply (handled_spec TypePlayerTransformUpdate sess data now now' s (transform_command ctx msg now) _
      (asks_transform ctx data now now' env msg Hlen Hun Hhdr H6 Hb Hv)).
Qed.

Lemma Process_spec site sess data now now' (s : S) :
  let '(s', err) := Process resolveRoom resolve site sess data now now' s in
  match err with
  | None => accepts sess data now now' s s'
  | Some _ => s' = s /\ ~ exists s2, accepts sess data now now' s s2
  end.
Proof.
  unfold Process. destruct (DecodeEnvelope data) as [err | env] eqn:Hd.
  { split; [done |]. apply not_asked. intros cmd Hask.
    destruct Hask as [env msg Hl Hu Hh _ _ _ | env msg Hl Hu Hh _ _ _];
      by rewrite (proj2 (DecodeEnvelope_ok data env)) in Hd. }
  apply DecodeEnvelope_ok in Hd as (Hlen & Hun & Hhdr).
  pose proof (HandleEnvelope_spec site sess data env now now' s Hlen Hun Hhdr) as Ho. unfold outcome in Ho.
  destruct (HandleEnvelope _ _ _ _ _ _ _) as [s' result]. simpl in Ho. by destruct (hr_Error result).
Qed.

(** C6: The receive path accepts a packet exactly when it asks for a command,
    the session has a player, and the session's room takes the command; it then
    returns no error and has put on that room's queue the one command the
    packet asks for, which carries the session's own session, player and user
    IDs (never IDs chosen by the client) and a finite transform.  Every other
    input, garbage included, is answered with an error and changes nothing. *)
Theorem receive_spec (site : list nat) (sess : SessionHandle) (data : bytes) (now now' : Time) (s : S) :
  let '(s', err) := Process resolveRoom resolve site sess data now now' s in
  match err with
  | None =>
      exists cmd r, asks_for (ResolveContext resolve sess s) data now now' cmd /\
        resolveRoom s (sh_ID sess) = inr (Some r) /\ enqueue_on r cmd s = (s', None) /\
        cmd_SessionID cmd = sh_ID sess /\ (cmd_PlayerID cmd, cmd_UserID cmd) = resolve s (sh_ID sess) /\
        cmd_PlayerID cmd <> "" /\ payload_finite (cmd_Payload cmd)
  | Some _ => s' = s /\ ~ exists s2, accepts sess data now now' s s2
  end.
Proof.
  pose proof (Process_spec site sess data now now' s) as Hmain.
  destruct (Process _ _ _ _ _ _ _ _) as [s' [err |]]; [done |].
  destruct Hmain as (Hne & cmd & r & Hask & Hr & He). exists cmd, r.
  destruct (asks_for_shape _ _ _ _ _ Hask) as (H1 & H2 & H3 & _ & H5).
  rewrite ctx_session in H1. rewrite H2, H3. split_and!; try done.
  unfold ResolveContext. by destruct (resolve s (sh_ID sess)).
Qed.
End receive.
