(* ===== verification/Bridge.v ===== *)
(** * From deltas to packets

    Models [internal/game/bridge/bridge.go] and the dispatch half of
    [internal/app/realtime/dispatch.go]: a room's delta batches are converted to
    wire messages, encoded and handed to the sessions' transports.

    A transport session is an interface value; [W] is the state of the
    transports behind it, [Sess] the type of the values, and [RealtimeSession]
    their methods.  Conversions between the named string types of the packages
    are identities. *)

From Stdlib Require Import ZArith Lia.
From stdpp Require Import base strings gmap fin_maps list.
From S2P Require Import Prelude.
From S2P Require Import GoFloat.
From S2P Require Import Player.
From S2P Require Import Delta.
From S2P Require Import Room.
From S2P Require Import Protocol.
From S2P Require Import Session.

Local Open Scope string_scope.
Local Open Scope Z_scope.
Local Open Scope list_scope.
Local Open Scope go_scope.

(** ** Conversion *)

Definition yawFromRotation (q : Quaternion) : float32 := q_Y q.

(** [PlayerID], [X], [Z], [Yaw] and [Version] of a domain entry; the wire's
    [AnimState] stays zero. *)
Definition convert_enter (e : Delta.PlayerEnterDelta) : Protocol.PlayerEnterDelta :=
  MkWireEnter (pe_PlayerID e) (v_X (t_Position (pe_Transform e))) (v_Z (t_Position (pe_Transform e)))
    (yawFromRotation (t_Rotation (pe_Transform e))) 0 (pe_Version e).

Definition convert_update (u : Delta.PlayerUpdateDelta) : Protocol.PlayerUpdateDelta :=
  MkWireUpdate (pu_PlayerID u) (v_X (t_Position (pu_Transform u))) (v_Z (t_Position (pu_Transform u)))
    (yawFromRotation (t_Rotation (pu_Transform u))) 0 (pu_Version u).

Definition convert_leave (l : Delta.PlayerLeaveDelta) : Protocol.PlayerLeaveDelta :=
  MkWireLeave (pl_PlayerID l).

(** A nil pointer converts to the zero message. *)
Definition ConvertPlayerDelta (d : option Delta.PlayerDelta) : Protocol.PlayerDelta :=
  match d with
  | None => MkWireDelta 0 [] [] []
  | Some d =>
      MkWireDelta (pd_Tick d) (convert_enter <$> pd_Enters d) (convert_update <$> pd_Updates d)
        (convert_leave <$> pd_Leaves d)
  end.

Record PlayerStateView := MkPlayerStateView {
  psv_PlayerID : PlayerID; psv_Transform : PlayerTransform; psv_Version : Z }.

Definition ConvertFullSnapshot (tick : Z) (players : list PlayerStateView) : FullSnapshot :=
  MkFullSnapshot tick
    ((fun p => MkWireSnapshot (psv_PlayerID p) (v_X (t_Position (psv_Transform p)))
        (v_Z (t_Position (psv_Transform p))) (yawFromRotation (t_Rotation (psv_Transform p))) 0
        (psv_Version p)) <$> players).

(** ** Sending *)

(** [transport.RealtimeSession], as far as the bridge uses it: [Send] queues a
    packet or fails with an error of its own. *)
Class RealtimeSession (W Sess E : Type) := {
  Send : Sess -> bytes -> W -> W * option E;
  Transport : Sess -> TransportType }.

Inductive SendError (E : Type) :=
  | ErrEncodePacket (e : ProtoError)
  | ErrTransport (e : E)
  | ErrNoSession (sessionID : string).

Arguments ErrEncodePacket {E}.
Arguments ErrTransport {E}.
Arguments ErrNoSession {E}.

(** [Transport] is the empty string when there was no session to ask. *)
Record SendResult (E : Type) := MkSendResult {
  sr_SessionID : string;
  sr_Transport : option TransportType;
  sr_Error : option (SendError E) }.

Arguments MkSendResult {E}.
Arguments sr_SessionID {E}.
Arguments sr_Transport {E}.
Arguments sr_Error {E}.

Section sending.
Context {W Sess E : Type} `{!RealtimeSession W Sess E} `{GR : !GoRange}.
Context `{!Msgpack Envelope} `{!Msgpack Protocol.PlayerDelta} `{!Msgpack FullSnapshot}.

(** The callers only pass deltas that are present: [pd.Tick] is read. *)
Definition SendPlayerDelta (site : list nat) (sess : Sess) (pd : Delta.PlayerDelta) (w : W)
    : W * option (SendError E) :=
  let wire := ConvertPlayerDelta (Some pd) in
  match EncodeAndWrap site CurrentVersion TypePlayerDelta 0 (pd_Tick pd) wire with
  | inl err => (w, Some (ErrEncodePacket err))
  | inr data => let '(w, err) := Send sess data w in (w, ErrTransport <$> err)
  end.

Definition SendFullSnapshot (site : list nat) (sess : Sess) (tick : Z) (players : list PlayerStateView)
    (w : W) : W * option (SendError E) :=
  let wire := ConvertFullSnapshot tick players in
  match EncodeAndWrap site CurrentVersion TypeFullSnapshot 0 tick wire with
  | inl err => (w, Some (ErrEncodePacket err))
  | inr data => let '(w, err) := Send sess data w in (w, ErrTransport <$> err)
  end.

(** [SessionLookup]: [None] is the nil interface value. *)
Variable lookup_sess : string -> option Sess.

(** The body of the loop over the batches; [None] is a nil batch pointer. *)
Definition dispatch_one (site : list nat) (w : W) (sessionID : string) (batch : option DeltaBatch)
    : W * list (SendResult E) :=
  match batch with
  | None => (w, [])
  | Some batch =>
      if DeltaBatch_IsEmpty batch then (w, [])
      else
        match db_PlayerDelta batch with
        | None => (w, [])
        | Some pd =>
            if PlayerDelta_IsEmpty pd then (w, [])
            else
              match lookup_sess sessionID with
              | None => (w, [MkSendResult sessionID None (Some (ErrNoSession sessionID))])
              | Some sess =>
                  let '(w, err) := SendPlayerDelta site sess pd w in
                  (w, [MkSendResult sessionID (Some (Transport sess)) err])
              end
        end
  end.

Fixpoint dispatch_loop (n : nat) (site : list nat) (w : W) (batches : list (string * option DeltaBatch))
    : W * list (SendResult E) :=
  match batches with
  | [] => (w, [])
  | (sessionID, batch) :: batches' =>
      let '(w, res) := dispatch_one (n :: site) w sessionID batch in
      let '(w, results) := dispatch_loop (S n) site w batches' in
      (w, res ++ results)
  end.

Definition DispatchBatches (site : list nat) (batches : gmap string (option DeltaBatch)) (w : W)
    : W * list (SendResult E) :=
  if bool_decide (size batches = 0%nat) then (w, [])
  else dispatch_loop 0 (0%nat :: site) w (range site batches).

(** [DeltaBroadcaster.BroadcastDelta]: the per-session results are dropped. *)
Definition DeltaBroadcaster_BroadcastDelta (site : list nat) (batches : gmap string (option DeltaBatch))
    (w : W) : W :=
  (DispatchBatches site batches w).1.

End sending.

(** [RoomDeltaBroadcaster.BroadcastDelta] of [dispatch.go]: the batches of a
    room, whose session IDs are converted key by key.  [None] is a nil receiver
    or a receiver without a dispatcher. *)
Definition RoomDeltaBroadcaster_BroadcastDelta {W Sess E : Type} `{!RealtimeSession W Sess E}
    `{GR : !GoRange} `{!Msgpack Envelope} `{!Msgpack Protocol.PlayerDelta}
    (dispatcher : option (string -> option Sess)) (site : list nat) (batches : Batches) (w : W) : W :=
  match dispatcher with
  | None => w
  | Some lookup_sess =>
      if bool_decide (size batches = 0%nat) then w
      else DeltaBroadcaster_BroadcastDelta lookup_sess site (Some <$> batches) w
  end.
