(* ===== verification/BridgeFacts.v ===== *)
(** * Correctness of the delta bridge

    Every session with something to tell gets one packet, which decodes to its
    delta; a client that only sees packets stays in step with the room as far
    as the wire carries it; and a delta that could not be handed over is never
    built again. *)

From Stdlib Require Import ZArith Lia.
From stdpp Require Import base strings gmap fin_maps list.
From S2P Require Import Prelude.
From S2P Require Import GoFloat.
From S2P Require Import Player.
From S2P Require Import Delta.
From S2P Require Import DeltaFacts.
From S2P Require Import Room.
From S2P Require Import Session.
From S2P Require Import Protocol.
From S2P Require Import ProtocolFacts.
From S2P Require Import ProtocolExample.
From S2P Require Import Bridge.

Local Open Scope string_scope.
Local Open Scope Z_scope.
Local Open Scope list_scope.

(** ** The wire's view of a client *)

(** What a packet tells of a player: position in the plane, yaw and version. *)
Definition wire_state : Type := float32 * float32 * float32 * Z.
Abbreviation wire_view := (gmap PlayerID wire_state).

Definition project (s : PlayerTransform * Z) : wire_state :=
  (v_X (t_Position s.1), v_Z (t_Position s.1), yawFromRotation (t_Rotation s.1), s.2).

Definition wire_enter (v : wire_view) (e : Protocol.PlayerEnterDelta) : wire_view :=
  <[we_PlayerID e := (we_X e, we_Z e, we_Yaw e, we_Version e)]> v.

Definition wire_update (v : wire_view) (u : Protocol.PlayerUpdateDelta) : wire_view :=
  <[wu_PlayerID u := (wu_X u, wu_Z u, wu_Yaw u, wu_Version u)]> v.

Definition wire_leave (v : wire_view) (l : Protocol.PlayerLeaveDelta) : wire_view :=
  delete (wl_PlayerID l) v.

(** A client that applies a decoded delta. *)
Definition apply_wire (v : wire_view) (d : Protocol.PlayerDelta) : wire_view :=
  foldl wire_leave (foldl wire_update (foldl wire_enter v (wd_Enters d)) (wd_Updates d)) (wd_Leaves d).

Lemma foldl_fmap_comm {A B C D} (f : C -> D) (h : A -> B) (step : C -> A -> C) (step' : D -> B -> D)
    (l : list A) (c : C) :
  (forall c a, step' (f c) (h a) = f (step c a)) -> foldl step' (f c) (h <$> l) = f (foldl step c l).
Proof. intros Hs. revert c. induction l as [| a l IH]; intros c; simpl; [done |]. by rewrite Hs, IH. Qed.

(** Converting a delta and applying it commutes with forgetting what the wire
    does not carry. *)
Lemma apply_wire_convert (v : client_view) (d : Delta.PlayerDelta) :
  apply_wire (project <$> v) (ConvertPlayerDelta (Some d)) = project <$> apply_delta v d.
Proof.
  unfold apply_wire, apply_delta. simpl.
  rewrite (foldl_fmap_comm (fmap project) convert_enter apply_enter)
    by (intros; unfold apply_enter; by rewrite fmap_insert).
  rewrite (foldl_fmap_comm (fmap project) convert_update apply_update)
    by (intros; unfold apply_update; by rewrite fmap_insert).
  by rewrite (foldl_fmap_comm (fmap project) convert_leave apply_leave)
    by (intros; unfold apply_leave; by rewrite fmap_delete).
Qed.

Section bridge.
Context `{GR : !GoRange} `{!Msgpack Envelope} `{!Msgpack Protocol.PlayerDelta}.
Context `{!MsgpackLaws Envelope} `{!MsgpackLaws Protocol.PlayerDelta} `{!EnvelopeSize}.

(** A client's reaction to a packet: what does not decode is ignored. *)
Definition receive_packet (site : list nat) (v : wire_view) (data : bytes) : wire_view :=
  match DecodeAndUnwrap site data with
  | inr (env, msg) => if e_Type env =? TypePlayerDelta then apply_wire v msg else v
  | inl _ => v
  end.

Definition packet_of (site : list nat) (pd : Delta.PlayerDelta) : ProtoError + bytes :=
  EncodeAndWrap site CurrentVersion TypePlayerDelta 0 (pd_Tick pd) (ConvertPlayerDelta (Some pd)).

(** The delta's numbers are values of their Go types. *)
Definition delta_typed (pd : Delta.PlayerDelta) : Prop :=
  is_u32 (pd_Tick pd) /\ typed (ConvertPlayerDelta (Some pd)).

Lemma packet_decodes site site' pd d :
  delta_typed pd -> packet_of site pd = inr d ->
  exists body, DecodeAndUnwrap site' d =
    inr (MkEnvelope CurrentVersion TypePlayerDelta 0 (pd_Tick pd) body, ConvertPlayerDelta (Some pd)).
Proof.
  intros [Ht Hty] Hp.
  destruct (EncodeAndWrap_decodes site site' CurrentVersion TypePlayerDelta 0 (pd_Tick pd) _ d
    ltac:(by vm_compute) ltac:(by vm_compute) ltac:(by vm_compute) Ht Hty Hp) as (body & H1 & H2).
  exists body. unfold DecodeAndUnwrap. rewrite H1. cbn [e_Body]. by rewrite H2.
Qed.

Lemma receive_packet_of site site' pd d (v : client_view) :
  delta_typed pd -> packet_of site pd = inr d ->
  receive_packet site' (project <$> v) d = project <$> apply_delta v pd.
Proof.
  intros Hty Hp. destruct (packet_decodes site site' pd d Hty Hp) as [body Hd].
  unfold receive_packet. rewrite Hd. simpl. apply apply_wire_convert.
Qed.

(** ** Dispatch *)

Context {W Sess E : Type} `{!RealtimeSession W Sess E}.
Variable lookup_sess : string -> option Sess.

(** The delta a batch carries, if it has anything to tell. *)
Definition payload_of (batch : option DeltaBatch) : option Delta.PlayerDelta :=
  b ← batch; pd ← db_PlayerDelta b; if PlayerDelta_IsEmpty pd then None else Some pd.

(** The one packet of a session, if there is one. *)
Definition session_packet (site : list nat) (sid : string) (batch : option DeltaBatch)
    : option (Sess * bytes) :=
  pd ← payload_of batch; sess ← lookup_sess sid;
  match packet_of site pd with inr d => Some (sess, d) | inl _ => None end.

Definition send_packet (w : W) (p : Sess * bytes) : W := (Send p.1 p.2 w).1.

Lemma dispatch_one_world site w sid batch :
  (dispatch_one lookup_sess site w sid batch).1 =
  from_option (send_packet w) w (session_packet site sid batch).
Proof.
  unfold dispatch_one, session_packet, payload_of, DeltaBatch_IsEmpty.
  destruct batch as [b |]; simpl; [| done].
  destruct (db_PlayerDelta b) as [pd |]; simpl; [| by destruct (from_option _ _ _)].
  destruct (PlayerDelta_IsEmpty pd) eqn:He; simpl; [by destruct (from_option _ _ _) |].
  destruct (lookup_sess sid) as [sess |]; simpl; [| done].
  unfold SendPlayerDelta. fold (packet_of site pd). destruct (packet_of site pd) as [err | d]; simpl; [done |].
  unfold send_packet. simpl. by destruct (Send sess d w).
Qed.

(** The packets of a dispatch, in the order they are handed to the transports;
    the loop of the [n]-th session is named by [n]. *)
Fixpoint packets (n : nat) (site : list nat) (batches : list (string * option DeltaBatch))
    : list (string * (Sess * bytes)) :=
  match batches with
  | [] => []
  | (sid, batch) :: batches' =>
      option_list (pair sid <$> session_packet (n :: site) sid batch) ++ packets (S n) site batches'
  end.

Lemma dispatch_loop_world n site w batches :
  (dispatch_loop lookup_sess n site w batches).1 =
  foldl send_packet w (snd <$> packets n site batches).
Proof.
  revert n w. induction batches as [| [sid batch] batches IH]; intros n w; [done |].
  cbn [dispatch_loop packets]. pose proof (dispatch_one_world (n :: site) w sid batch) as H1.
  destruct (dispatch_one lookup_sess (n :: site) w sid batch) as [w1 res]. cbn [fst] in H1.
  specialize (IH (S n) w1). destruct (dispatch_loop lookup_sess (S n) site w1 batches) as [w2 results].
  cbn [fst] in *. rewrite IH, H1, fmap_app, foldl_app.
  by destruct (session_packet (n :: site) sid batch).
Qed.

Lemma elem_of_packets n site batches sid p :
  (sid, p) ∈ packets n site batches -> exists k batch, (sid, batch) ∈ batches /\
    session_packet (k :: site) sid batch = Some p.
Proof.
  revert n. induction batches as [| [sid0 b0] batches IH]; intros n; cbn [packets]; [by intros ?%elem_of_nil |].
  rewrite elem_of_app. intros [Hin | Hin].
  - destruct (session_packet (n :: site) sid0 b0) as [p0 |] eqn:Hp; simpl in Hin; [| by apply elem_of_nil in Hin].
    apply list_elem_of_singleton in Hin. simplify_eq. exists n, b0. split; [left | done].
  - destruct (IH _ Hin) as (k & b & Hb & Hp). exists k, b. split; [by right | done].
Qed.

Lemma packets_complete n site batches sid batch :
  (sid, batch) ∈ batches -> exists k,
    forall p, session_packet (k :: site) sid batch = Some p -> (sid, p) ∈ packets n site batches.
Proof.
  revert n. induction batches as [| [sid0 b0] batches IH]; intros n; [by intros ?%elem_of_nil |].
  rewrite elem_of_cons. cbn [packets]. intros [[= <- <-] | Hin].
  - exists n. intros p Hp. rewrite Hp. simpl. left.
  - destruct (IH (S n) Hin) as [k Hk]. exists k. intros p Hp. apply elem_of_app. right. by apply Hk.
Qed.

Lemma packets_NoDup n site batches : NoDup batches.*1 -> NoDup (packets n site batches).*1.
Proof.
  revert n. induction batches as [| [sid0 b0] batches IH]; intros n Hnd; cbn [packets]; [constructor |].
  rewrite fmap_cons in Hnd. apply list.NoDup_cons in Hnd as [Hni Hnd]. simpl in Hni. rewrite fmap_app.
  destruct (session_packet (n :: site) sid0 b0) as [p |]; simpl; [| by apply IH].
  apply list.NoDup_cons. split; [| by apply IH]. intros ([sid p'] & He & Hin)%list_elem_of_fmap. simpl in He. subst sid.
  apply elem_of_packets in Hin as (k & b & Hb & _). apply Hni, list_elem_of_fmap. by exists (sid0, b).
Qed.

(** Whether a delta can be encoded does not depend on the map order. *)
Definition sendable (pd : Delta.PlayerDelta) : Prop :=
  delta_typed pd /\ valid_message (ConvertPlayerDelta (Some pd)) /\
  from_option len 0 (Marshal (ConvertPlayerDelta (Some pd))) <= MaxPayloadSize.

Lemma sendable_packet site pd : sendable pd -> exists d, packet_of site pd = inr d.
Proof.
  intros ([Ht Hty] & Hv & Hl). destruct (marshal_total _ Hty) as [body Hb]. rewrite Hb in Hl. simpl in Hl.
  destruct (marshal_total (MkEnvelope CurrentVersion TypePlayerDelta 0 (pd_Tick pd) body)) as [d Hd].
  { split_and!; [by vm_compute | by vm_compute | by vm_compute | exact Ht]. }
  exists d. apply EncodeAndWrap_ok; try done; try (by vm_compute). split_and!; try done. by exists body.
Qed.

(** The packets of a dispatch. *)
Definition dispatched (site : list nat) (batches : gmap string (option DeltaBatch))
    : list (string * (Sess * bytes)) :=
  if bool_decide (size batches = 0%nat) then [] else packets 0 (0%nat :: site) (range site batches).

Lemma dispatched_world site batches (w : W) :
  (DispatchBatches lookup_sess site batches w).1 = foldl send_packet w (snd <$> dispatched site batches).
Proof. unfold DispatchBatches, dispatched. case_bool_decide; [done |]. apply dispatch_loop_world. Qed.

Lemma dispatched_NoDup site batches : NoDup (dispatched site batches).*1.
Proof.
  unfold dispatched. case_bool_decide; [constructor |]. apply packets_NoDup, NoDup_fst_range.
Qed.

(** ... and what they do to the clients. *)
Lemma dispatched_sound site batches sid sess d :
  (sid, (sess, d)) ∈ dispatched site batches ->
  lookup_sess sid = Some sess /\
  exists batch pd, batches !! sid = Some batch /\ payload_of batch = Some pd /\
    (delta_typed pd -> forall site' (v : client_view),
       receive_packet site' (project <$> v) d = project <$> apply_delta v pd).
Proof.
  unfold dispatched. case_bool_decide; [by intros ?%elem_of_nil |].
  intros (k & batch & Hin & Hp)%elem_of_packets. apply elem_of_range in Hin.
  unfold session_packet in Hp. apply bind_Some in Hp as (pd & Hpd & Hp).
  apply bind_Some in Hp as (sess' & Hs & Hp).
  destruct (packet_of (k :: 0%nat :: site) pd) as [err | d'] eqn:He; [done |]. injection Hp as -> ->.
  split; [done |]. exists batch, pd. split_and!; [done .. |]. intros Hty site' v. by eapply receive_packet_of.
Qed.

Lemma dispatched_complete site batches sid batch pd sess :
  batches !! sid = Some batch -> payload_of batch = Some pd -> lookup_sess sid = Some sess -> sendable pd ->
  exists d, (sid, (sess, d)) ∈ dispatched site batches.
Proof.
  intros Hb Hpd Hs Hsend. unfold dispatched. case_bool_decide as Hsz.
  { apply map_size_empty_inv in Hsz. by rewrite Hsz, lookup_empty in Hb. }
  destruct (packets_complete 0 (0%nat :: site) (range site batches) sid batch) as [k Hk];
    [by apply elem_of_range |].
  destruct (sendable_packet (k :: 0%nat :: site) pd Hsend) as [d Hd]. exists d. apply Hk.
  unfold session_packet. rewrite Hpd. simpl. rewrite Hs. simpl. by rewrite Hd.
Qed.

Lemma dispatch_packets (site : list nat) (batches : gmap string (option DeltaBatch)) (w : W) :
  exists ps : list (string * (Sess * bytes)),
    (DispatchBatches lookup_sess site batches w).1 = foldl send_packet w (snd <$> ps) /\
    NoDup ps.*1 /\
    (forall sid sess d, (sid, (sess, d)) ∈ ps ->
       lookup_sess sid = Some sess /\
       exists batch pd, batches !! sid = Some batch /\ payload_of batch = Some pd /\
         (delta_typed pd -> forall site' (v : client_view),
            receive_packet site' (project <$> v) d = project <$> apply_delta v pd)) /\
    (forall sid batch pd sess, batches !! sid = Some batch -> payload_of batch = Some pd ->
       lookup_sess sid = Some sess -> sendable pd -> exists d, (sid, (sess, d)) ∈ ps).
Proof.
  exists (dispatched site batches). split_and!; [apply dispatched_world | apply dispatched_NoDup | |].
  - apply dispatched_sound.
  - intros. by eapply dispatched_complete.
Qed.

(** ** Claims *)

(** A dispatch hands the transports at most one packet per session, in the
    order it ranges over the batches, and nothing else: every connected session
    whose batch has a delta that can be encoded gets one, and a client that
    receives it ends up exactly where applying the room's delta takes it, as
    far as the wire carries the state (plane position, yaw, version). *)
Theorem dispatch_delivers (site : list nat) (batches : gmap string (option DeltaBatch)) (w : W) :
  exists ps : list (string * (Sess * bytes)),
    (DispatchBatches lookup_sess site batches w).1 = foldl send_packet w (snd <$> ps) /\
    NoDup ps.*1 /\
    (forall sid sess d, (sid, (sess, d)) ∈ ps ->
       lookup_sess sid = Some sess /\
       exists batch pd, batches !! sid = Some batch /\ payload_of batch = Some pd /\
         (delta_typed pd -> forall site' (v : client_view),
            receive_packet site' (project <$> v) d = project <$> apply_delta v pd)) /\
    (forall sid batch pd sess, batches !! sid = Some batch -> payload_of batch = Some pd ->
       lookup_sess sid = Some sess -> sendable pd -> exists d, (sid, (sess, d)) ∈ ps).
Proof. apply dispatch_packets. Qed.

(** The delta after the next one, when nothing has changed. *)
Lemma rebuild_empty site tick visible snap states site' tick' :
  let snap' := (BuildPlayerDelta site tick visible snap states).1 in
  PlayerDelta_IsEmpty (BuildPlayerDelta site' tick' visible snap' states).2 = true.
Proof.
  intros snap'. apply build_empty_iff. unfold snap'. split.
  - intros pid ps Hin Hps. rewrite build_snapshot, decide_True by done. unfold sent_version. by rewrite Hps.
  - intros pid. rewrite build_snapshot. case_decide; [done |]. by intros [].
Qed.

(** C38: A delta that cannot be encoded is lost: nothing is handed to the
    session's transport, only a result that the broadcaster drops reports it,
    and since the room's snapshot already counts the delta as sent, the next
    broadcast of the same players has nothing to send to that session. *)
Theorem unsent_delta_is_lost (site : list nat) (tick : Z) (visible : list PlayerID) (snap : ClientSnapshot)
    (states : gmap PlayerID PlayerState) (dsite : list nat) (err : ProtoError) (sid : string) (sess : Sess)
    (w : W) :
  let '(snap', pd) := BuildPlayerDelta site tick visible snap states in
  PlayerDelta_IsEmpty pd = false -> packet_of dsite pd = inl err -> lookup_sess sid = Some sess ->
  dispatch_one lookup_sess dsite w sid (Some (MkDeltaBatch tick (Some pd) None)) =
    (w, [MkSendResult sid (Some (Transport sess)) (Some (ErrEncodePacket err))]) /\
  forall site' tick' dsite',
    dispatch_one lookup_sess dsite' w sid
      (Some (MkDeltaBatch tick' (Some (BuildPlayerDelta site' tick' visible snap' states).2) None)) = (w, []).
Proof.
  pose proof (rebuild_empty site tick visible snap states) as Hre.
  destruct (BuildPlayerDelta site tick visible snap states) as [snap' pd]. cbn [fst] in Hre.
  intros Hne Hp Hl. split.
  - unfold dispatch_one, DeltaBatch_IsEmpty. simpl. rewrite Hne. simpl. rewrite Hl.
    unfold SendPlayerDelta. fold (packet_of dsite pd). by rewrite Hp.
  - intros site' tick' dsite'. unfold dispatch_one, DeltaBatch_IsEmpty.
    cbn [db_PlayerDelta db_ObjectDelta from_option]. by rewrite Hre.
Qed.
End bridge.

Import ExampleCodec.

Module BridgeExample.

(** A transport that records what it is handed. *)
#[export] Instance recorder : RealtimeSession (list (nat * bytes)) nat unit := {|
  Send := fun sess d w => (w ++ [(sess, d)], None);
  Transport := fun _ => KCP |}.

Definition lookup_sess (sid : string) : option nat := if String.eqb sid "s" then Some 7%nat else None.

Definition there : PlayerTransform :=
  MkPlayerTransform (MkVector3 (f32_of_Z 3) f32_zero (f32_of_Z 4)) IdentityQuaternion 5.

Definition pd : Delta.PlayerDelta := MkPlayerDelta 5 [MkEnter "p" there 1] [] [].

Definition batches : gmap string (option DeltaBatch) :=
  {[ "s" := Some (MkDeltaBatch 5 (Some pd) None); "gone" := Some (MkDeltaBatch 5 (Some pd) None) ]}.

(** A room with a player whose ID is empty. *)
Definition states : gmap PlayerID PlayerState :=
  {[ "" := MkPlayerState "" "u" PlayerStatusActive 0 there 1 0 ]}.

Lemma pd_sendable : sendable pd.
Proof.
  split; [split |].
  - vm_compute. split; congruence.
  - apply (bool_decide_unpack _). vm_compute. exact I.
  - split; [apply (@valid_message_one canonical_range _ _ _ []); vm_compute; reflexivity |].
    vm_compute. congruence.
Qed.

End BridgeExample.

Import BridgeExample.

Lemma dispatch_delivers_witness :
  exists ps d, (@DispatchBatches _ _ _ _ canonical_range _ _ BridgeExample.lookup_sess [] batches []).1
      = foldl send_packet [] (snd <$> ps) /\ ("s", (7%nat, d)) ∈ ps.
Proof.
  destruct (@dispatch_delivers canonical_range _ _ _ _ _ _ _ _ _ BridgeExample.lookup_sess [] batches [])
    as (ps & Hw & _ & _ & Hall).
  destruct (Hall "s" (Some (MkDeltaBatch 5 (Some pd) None)) pd 7%nat) as [d Hd];
    [vm_compute; reflexivity | vm_compute; reflexivity | reflexivity | exact pd_sendable |].
  exists ps, d. split; [exact Hw | exact Hd].
Defined.

Lemma unsent_delta_is_lost_witness :
  exists err, (@dispatch_one _ _ _ _ canonical_range _ _ BridgeExample.lookup_sess [] [] "s"
      (Some (MkDeltaBatch 5 (Some (@BuildPlayerDelta canonical_range [] 5 [""] NewClientSnapshot states).2) None)))
    = ([], [MkSendResult "s" (Some KCP) (Some (ErrEncodePacket err))]).
Proof.
  pose proof (@unsent_delta_is_lost canonical_range _ _ _ _ _ _ BridgeExample.lookup_sess [] 5 [""]
    NewClientSnapshot states [] (ErrElement "PlayerDelta.Enters" 0 (ErrIDRequired "PlayerEnterDelta"))
    "s" 7%nat []) as H.
  exists (ErrElement "PlayerDelta.Enters" 0 (ErrIDRequired "PlayerEnterDelta")).
  apply H; vm_compute; reflexivity.
Defined.
