(* ===== verification/RoomTyped.v ===== *)
(** * Types of the running room

    The records of the model are wider than the Go structs: a [Z] field can hold
    more than a [uint32] and a [spec_float] more than a [float32].  This file
    shows that a room fed with commands of the right types stays within them,
    and with that, that every delta it broadcasts is a well-formed wire message:
    the only way for one not to be encoded is to exceed the payload limit.  The
    commands the receive path makes of packets are of the right types. *)

From Stdlib Require Import ZArith Lia SpecFloat.
From stdpp Require Import base strings gmap fin_maps list.
From S2P Require Import Prelude.
From S2P Require Import GoFloat.
From S2P Require Import Player.
From S2P Require Import Delta.
From S2P Require Import DeltaFacts.
From S2P Require Import Cluster.
From S2P Require Import ClusterFacts.
From S2P Require Import Room.
From S2P Require Import RoomFacts.
From S2P Require Import RoomSystem.
From S2P Require Import RoomBroadcast.
From S2P Require Import RoomClients.
From S2P Require Import Protocol.
From S2P Require Import ProtocolFacts.
From S2P Require Import Handler.
From S2P Require Import HandlerFacts.
From S2P Require Import Bridge.
From S2P Require Import BridgeFacts.
From S2P Require Import ProtocolExample.
From S2P Require Import RoomWitness.

Local Open Scope string_scope.
Local Open Scope Z_scope.
Local Open Scope list_scope.

(** ** Typed and finite transforms *)

(** The part of a transform the wire carries: three [float32] values. *)
Definition wire_binary32 (t : PlayerTransform) : Prop :=
  binary32 (v_X (t_Position t)) /\ binary32 (v_Z (t_Position t)) /\
  binary32 (yawFromRotation (t_Rotation t)).

Definition wire_finite (t : PlayerTransform) : Prop :=
  nan_or_inf (v_X (t_Position t)) = false /\ nan_or_inf (v_Z (t_Position t)) = false /\
  nan_or_inf (yawFromRotation (t_Rotation t)) = false.

Lemma valid_wire_finite t : ValidatePlayerTransform t = None -> wire_finite t.
Proof.
  unfold ValidatePlayerTransform, ValidateVector3, ValidateQuaternion, wire_finite, yawFromRotation.
  rewrite or_return_None, !fmap_None, !or_return_None, !guard_err_None. tauto.
Qed.

(** ** Commands *)

(** A joining player has an ID; the transforms of movement commands are made of
    [float32] values, finite ones where the room does not check that itself. *)
Definition command_typed (cmd : RoomCommand) : Prop :=
  (cmd_Kind cmd = CmdJoin -> cmd_PlayerID cmd <> "") /\
  match cmd_Payload cmd with
  | PayloadInput i => wire_binary32 (in_Transform i)
  | PayloadTransform t => wire_binary32 t /\ wire_finite t
  | _ => True
  end.

Lemma moves_to_typed cmd t : command_typed cmd -> moves_to cmd t -> wire_binary32 t /\ wire_finite t.
Proof.
  unfold command_typed, moves_to. intros [_ Ht]. destruct (cmd_Payload cmd) as [| i | t' |]; try done.
  - intros [Hv ->]. split; [done |]. unfold ValidatePlayerInput in Hv. apply or_return_None in Hv as [Hv _].
    by apply valid_wire_finite.
  - by intros ->.
Qed.

(** The receive path only submits commands of the right types. *)
Lemma asks_for_typed `{!Msgpack Envelope} `{!Msgpack Protocol.PlayerInput} `{!Msgpack PlayerTransformUpdate}
    `{!MsgpackLaws Protocol.PlayerInput} `{!MsgpackLaws PlayerTransformUpdate} ctx data now now' cmd :
  asks_for ctx data now now' cmd -> command_typed cmd.
Proof.
  intros [env msg _ _ _ _ Hu _ | env msg _ _ _ _ Hu Hv]; (split; [done |]); simpl.
  - by destruct (unmarshal_typed _ _ Hu) as (_ & _ & H1 & H2 & H3).
  - destruct (unmarshal_typed _ _ Hu) as (_ & _ & H1 & H2 & H3). split; [done |].
    by apply (validateFiniteTransform_None (GR := canonical_range) [] "PlayerTransformUpdate"), (Hv canonical_range []).
Qed.

Definition label_typed (l : Label) : Prop :=
  match l with LEnqueue cmd | LEnqueueLate cmd => command_typed cmd | _ => True end.

(** ** The invariant *)

Definition player_typed (pid : PlayerID) (p : PlayerState) : Prop :=
  pid <> "" /\ is_u32 (p_Version p) /\ wire_binary32 (p_Transform p) /\ wire_finite (p_Transform p).

(** A delta whose numbers are values of their Go types and which its message's
    [Validate] accepts. *)
Definition well_formed (pd : Delta.PlayerDelta) : Prop :=
  delta_typed pd /\ valid_message (ConvertPlayerDelta (Some pd)).

Definition batches_typed (b : Batches) : Prop :=
  forall sid pd, payload_of (b !! sid) = Some pd -> well_formed pd.

Record room_typed {A} (r : Room A) : Prop := {
  rt_tick : is_u32 (r_currentTick r);
  rt_players : map_Forall player_typed (r_players r);
  rt_cache : map_Forall (fun _ snap => cs_VisiblePlayers snap !! "" = None) (r_snapshotCache r);
  rt_commands : Forall command_typed (r_commands r) }.

Record sys_typed {A} (s : RoomSys A) : Prop := {
  st_room : room_typed (sys_room s);
  st_sent : Forall batches_typed (sys_sent s) }.

Lemma u32_is_u32 z : is_u32 (u32 z).
Proof. apply u32_range. Qed.

Lemma player_typed_new pid p :
  pid <> "" -> p_Version p = 0 -> p_Transform p = MkPlayerTransform origin IdentityQuaternion 0 ->
  player_typed pid p.
Proof. intros Hid Hv Ht. unfold player_typed. rewrite Hv, Ht. split; [done |]. by vm_compute. Qed.

(** ** One delta *)

Section delta.
Context `{GR : !GoRange}.

Lemma build_well_formed site tick visible snap states :
  is_u32 tick -> map_Forall player_typed states -> cs_VisiblePlayers snap !! "" = None ->
  let pd := (BuildPlayerDelta site tick visible snap states).2 in
  PlayerDelta_IsEmpty pd = false -> well_formed pd.
Proof.
  intros Ht Hps Hsnap pd Hne.
  destruct (build_contents site tick visible snap states) as (Htick & _ & _ & _ & He & Hu & Hl).
  fold pd in Htick, He, Hu, Hl. clearbody pd. split.
  - split; [by rewrite Htick |]. split_and!; [simpl; by rewrite Htick | |]; apply Forall_fmap, Forall_forall.
    + intros e (_ & ps & Hp & _ & E1 & E2)%He. destruct (Hps _ _ Hp) as (_ & Hv & (Hx & Hz & Hy) & _).
      split_and!; simpl; rewrite ?E1, ?E2; done.
    + intros e (_ & ps & last & Hp & _ & _ & E1 & E2)%Hu. destruct (Hps _ _ Hp) as (_ & Hv & (Hx & Hz & Hy) & _).
      split_and!; simpl; rewrite ?E1, ?E2; done.
  - apply (valid_message_one []). apply PlayerDelta_Validate_None. split_and!.
    + unfold PlayerDelta_IsEmpty in Hne. simpl. unfold WireDelta_IsEmpty.
      destruct (pd_Enters pd), (pd_Updates pd), (pd_Leaves pd); done.
    + apply Forall_fmap, Forall_forall. intros e (_ & ps & Hp & _ & E1 & E2)%He.
      destruct (Hps _ _ Hp) as (Hid & _ & _ & Hx & Hz & Hy). split_and!; simpl; rewrite ?E1; done.
    + apply Forall_fmap, Forall_forall. intros e (_ & ps & last & Hp & _ & _ & E1 & E2)%Hu.
      destruct (Hps _ _ Hp) as (Hid & _ & _ & Hx & Hz & Hy). split_and!; simpl; rewrite ?E1; done.
    + apply Forall_fmap, Forall_forall. intros e [_ [ver Hs]]%Hl. simpl. intros E. rewrite E in Hs. congruence.
Qed.

Lemma build_keeps_ids site tick visible snap states :
  map_Forall player_typed states -> cs_VisiblePlayers snap !! "" = None ->
  cs_VisiblePlayers (BuildPlayerDelta site tick visible snap states).1 !! "" = None.
Proof.
  intros Hps Hsnap. rewrite build_snapshot. case_decide; [| done]. unfold sent_version.
  destruct (states !! "") as [ps |] eqn:Hp; [| done]. by destruct (Hps _ _ Hp).
Qed.
End delta.

(** ** Steps *)

Section steps.
Context {A : Type} `{ALLOC : !ClusterAllocator A} `{LAWS : !ClusterAllocatorLaws A} `{GR : !GoRange}.
Implicit Types (r : Room A) (s : RoomSys A).

(** Changes that do not touch what is typed. *)
Lemma room_typed_ext r r' :
  r_currentTick r' = r_currentTick r -> r_players r' = r_players r ->
  r_snapshotCache r' = r_snapshotCache r -> r_commands r' = r_commands r -> room_typed r -> room_typed r'.
Proof. intros H1 H2 H3 H4 []. split; by rewrite ?H1, ?H2, ?H3, ?H4. Qed.

Lemma room_typed_set_commands r cmds :
  Forall command_typed cmds -> room_typed r -> room_typed (set_commands r cmds).
Proof. intros Hc []. by split. Qed.

Lemma room_typed_handle site r cmd t now :
  command_typed cmd -> room_typed r -> room_typed (handleCommand site r cmd t now).
Proof.
  intros Hcmd [Ht Hp Hc Hq].
  destruct (handleCommand_frame site r cmd t now) as (F & _ & _ & F4 & _).
  destruct (handleCommand_change site r cmd t now)
    as [Ep Ec | p Hk Hv Hpt Ep Ec | pid Ep Ec | p t' tick' now' Hk Hm Hpl Ep Ec];
    (split; [by rewrite F4 | rewrite Ep | rewrite Ec | by rewrite F]); try done.
  - apply map_Forall_insert_2; [| done]. apply player_typed_new; [by apply Hcmd | done | done].
  - unfold SnapshotCache.GetOrCreate. destruct (r_snapshotCache r !! _); [done |]. by apply map_Forall_insert_2.
  - by apply map_Forall_delete.
  - by apply map_Forall_delete.
  - apply map_Forall_insert_2; [| done]. destruct (Hp _ _ Hpl) as (Hid & _). split; [done |].
    split; [apply u32_is_u32 | by apply moves_to_typed in Hm].
Qed.

(** The deltas of a broadcast, and the snapshots it leaves. *)
Lemma buildDeltaBatches_typed site r t res :
  buildDeltaBatches site r t = Some res -> is_u32 t -> room_typed r ->
  batches_typed res.2 /\
  map_Forall (fun _ snap => cs_VisiblePlayers snap !! "" = None) (r_snapshotCache res.1).
Proof.
  intros Hbuild Ht [_ Hp Hc _].
  assert (forall sid, cs_VisiblePlayers (default NewClientSnapshot (r_snapshotCache r !! sid)) !! "" = None) as Hc'.
  { intros sid. destruct (r_snapshotCache r !! sid) as [snap |] eqn:Hs; [by apply (Hc sid) | done]. }
  assert (forall sid, (exists att ps, r_activeSessions r !! sid = Some att /\ r_players r !! att_playerID att = Some ps) \/
    forall att, r_activeSessions r !! sid = Some att -> r_players r !! att_playerID att = None) as Hcase.
  { intros sid. destruct (r_activeSessions r !! sid) as [att |]; [| by right].
    destruct (r_players r !! att_playerID att) as [ps |] eqn:E; [left; eauto | right; by intros ? [= <-]]. }
  split.
  - intros sid pd Hpd. destruct (buildDeltaBatches_session site r t res sid Hbuild) as [H1 H2].
    destruct (Hcase sid) as [(att & ps & Ha & Hps) | Hn].
    + destruct (H1 att ps Ha Hps) as (i & vis & _ & _ & Hb). rewrite Hb in Hpd. unfold payload_of in Hpd.
      simpl in Hpd. destruct (PlayerDelta_IsEmpty _) eqn:He in Hpd; [done |]. injection Hpd as <-.
      by apply build_well_formed.
    + destruct (H2 Hn) as [_ Hb]. by rewrite Hb in Hpd.
  - intros sid snap Hs. destruct (buildDeltaBatches_session site r t res sid Hbuild) as [H1 H2].
    destruct (Hcase sid) as [(att & ps & Ha & Hps) | Hn].
    + destruct (H1 att ps Ha Hps) as (i & vis & _ & Hd & _). rewrite Hd in Hs. injection Hs as <-.
      by apply (build_keeps_ids _ t).
    + destruct (H2 Hn) as [Hd _]. rewrite Hd in Hs. by apply (Hc sid).
Qed.

Lemma finishTick_typed site r t r' out :
  room_inv r -> t = r_currentTick r -> finishTick site r t = Some (r', out) -> room_typed r ->
  room_typed r' /\ Forall batches_typed (sent_by out).
Proof.
  intros Hinv Ht Hf Hr. destruct (finishTick_frame _ _ _ _ _ Hf) as (_ & _ & E3 & E4 & _ & _ & E7 & _).
  destruct (finishTick_inv _ _ _ _ _ Hinv Hf) as (r1 & Hrd & Hcase).
  assert (room_typed r1) as Hr1.
  { destruct Hr. split; rewrite ?(rd_players _ _ _ Hrd), ?(rd_cache _ _ _ Hrd); try done.
    all: destruct (isBroadcastTick r t); [| by destruct Hcase as [<- _]; congruence].
    all: apply broadcast_frame in Hcase as (res & _ & -> & _); simpl in *; congruence. }
  destruct (isBroadcastTick r t); [| destruct Hcase as [-> ->]; by split].
  apply broadcast_frame in Hcase as (res & Hbuild & -> & ->).
  destruct (buildDeltaBatches_typed (3%nat :: site) r1 t res Hbuild) as [Hb Hc]; [rewrite Ht; apply Hr | done |].
  split; [destruct Hr1; by split |]. destruct (_ && _); simpl; auto.
Qed.

Lemma room_typed_send r cmd : command_typed cmd -> room_typed r -> room_typed (Enqueue_send r cmd).1.
Proof.
  intros Hc Hr. unfold Enqueue_send. case_match; [| done]. apply room_typed_set_commands; [| done].
  apply Forall_app. split; [apply Hr | by constructor].
Qed.

Lemma step_typed l s s' : label_typed l -> step l s s' -> sys_inv s -> sys_typed s -> sys_typed s'.
Proof.
  intros Hl Hs [Hinv _ Htick] [Hr Hsent]. 
  destruct Hs as [r b sent pd Hst | r l b sent | r l b sent | r b sent Hst | r sent Hti | r b sent site now Hti
    | r t b sent cmd cmds site now Hcm | r t b sent site r' out Hcm Hf | r l b sent cmd | r l b sent cmd Hst
    | r l b sent id k t | r b sent]; simpl in *; (split; simpl; [| try done]); try done.
  - eapply room_typed_ext, Hr; unfold Start; by case_decide.
  - eapply room_typed_ext, Hr; unfold StopBegin; by destruct (r_status r).
  - by eapply room_typed_ext, Hr.
  - destruct Hr. split; try done. simpl. apply u32_is_u32.
  - pose proof (rt_commands _ Hr) as Hq. rewrite Hcm in Hq. apply Forall_cons in Hq as [Hc Hq].
    apply room_typed_handle; [done |]. by apply room_typed_set_commands.
  - eapply finishTick_typed; [done | by apply Htick | done | done].
  - apply Forall_app. split; [done |]. eapply finishTick_typed; [done | by apply Htick | done | done].
  - unfold Enqueue. case_decide; [by apply room_typed_send | done].
  - by apply room_typed_send.
  - destruct (CreateObject_frame r id k t) as [lm ->]. by eapply room_typed_ext, Hr.
  - by eapply room_typed_ext, Hr.
Qed.

Lemma steps_typed ls s s' : Forall label_typed ls -> steps ls s s' -> sys_inv s -> sys_typed s -> sys_typed s'.
Proof.
  intros Hl Hs Hi Ht. induction Hs as [| ls l s1 s2 s3 Hs IH H3]; [done |].
  apply Forall_app in Hl as [Hl [Hl1 _]%Forall_cons].
  apply (step_typed l s2 s3); [done | done | by eapply steps_sys_inv | by apply IH].
Qed.

Lemma sys_typed_init (alloc : A) spec : sys_typed (init_sys alloc spec).
Proof. split; [split |]; simpl; try done; try apply map_Forall_empty; by vm_compute. Qed.
End steps.

(** ** Claims *)

Section claims.
Context {A : Type} `{ALLOC : !ClusterAllocator A} `{LAWS : !ClusterAllocatorLaws A} `{GR : !GoRange}.
Context `{!Msgpack Envelope} `{!Msgpack Protocol.PlayerDelta}.
Context `{!MsgpackLaws Envelope} `{!MsgpackLaws Protocol.PlayerDelta} `{!EnvelopeSize}.

Lemma well_formed_encodes site pd :
  well_formed pd ->
  (exists d, packet_of site pd = inr d) <->
  from_option len 0 (Marshal (ConvertPlayerDelta (Some pd))) <= MaxPayloadSize.
Proof.
  intros [[Ht Hty] Hv]. split.
  - intros (d & Hd). unfold packet_of in Hd. apply EncodeAndWrap_ok in Hd as (_ & _ & _ & body & Hb & Hl & _);
      [by rewrite Hb | by vm_compute | by vm_compute | by vm_compute | done | done].
  - intros Hl. apply sendable_packet. by split_and!.
Qed.

(** C9: Types are preserved, and with them the deltas stay well formed: in a
    room whose commands were of the right types (players that join have an ID,
    movements are made of [float32] values, finite ones for transform updates),
    the tick and every version stay [uint32] and every transform finite
    [float32]s in every interleaving, and every delta ever broadcast passes the
    validation of its wire message, so that it is encoded exactly when its body
    fits the payload limit. *)
Theorem broadcasts_encodable (alloc : A) (spec : RoomSpec) (ls : list Label) (s : RoomSys A) :
  Forall label_typed ls -> steps ls (init_sys alloc spec) s ->
  room_typed (sys_room s) /\
  forall b sid pd site, b ∈ sys_sent s -> payload_of (b !! sid) = Some pd ->
    well_formed pd /\
    ((exists d, packet_of site pd = inr d) <->
     from_option len 0 (Marshal (ConvertPlayerDelta (Some pd))) <= MaxPayloadSize).
Proof.
  intros Hl Hs. destruct (steps_typed ls _ s Hl Hs) as [Hr Hb]; [apply sys_inv_init | apply sys_typed_init |].
  split; [done |]. intros b sid pd site Hin Hp. rewrite Forall_forall in Hb. specialize (Hb b Hin sid pd Hp).
  split; [done | by apply well_formed_encodes].
Qed.
End claims.

Import ExampleCodec.
Import RoomExample.

(** The commands of the example, decided. *)
Definition typed_b (l : Label) : bool :=
  match l with
  | LEnqueue cmd | LEnqueueLate cmd =>
      negb (String.eqb (cmd_PlayerID cmd) "") &&
      match cmd_Payload cmd with
      | PayloadTransform t =>
          let ok x := valid_binary 24 128 x && negb (nan_or_inf x) in
          ok (v_X (t_Position t)) && ok (v_Z (t_Position t)) && ok (yawFromRotation (t_Rotation t))
      | PayloadInput _ => false
      | _ => true
      end
  | _ => true
  end.

Lemma typed_b_ok l : typed_b l = true -> label_typed l.
Proof.
  destruct l; try done; simpl; unfold command_typed; intros [Hid Hp]%andb_true_iff.
  all: split; [intros _ E; by rewrite E in Hid |].
  all: destruct (cmd_Payload cmd); try done; go_bool; by repeat split.
Qed.

Definition ex_typed : list Label := two_players ++ [LTickEnd []].

Definition ex_broadcast : KSys := default init (run (GR := canonical_range) ex_typed init).

Lemma broadcasts_encodable_witness :
  length (sys_sent ex_broadcast) = 1%nat /\
  forall b sid pd, b ∈ sys_sent ex_broadcast -> payload_of (b !! sid) = Some pd -> well_formed pd.
Proof.
  split; [vm_compute; reflexivity |].
  assert (Forall label_typed ex_typed) as Hl.
  { apply (Forall_impl (fun l => typed_b l = true)); [| apply typed_b_ok].
    apply Forall_forall. intros l Hin. apply (proj1 (forallb_forall typed_b ex_typed)); [vm_compute; reflexivity |].
    by apply list_elem_of_In. }
  assert (steps (GR := canonical_range) ex_typed init ex_broadcast) as Hs.
  { apply run_steps. apply run_default. apply (bool_decide_unpack _). vm_compute. exact I. }
  destruct (broadcasts_encodable (GR := canonical_range) NewKMeansClusterAllocator spec ex_typed ex_broadcast Hl Hs)
    as [_ Hb].
  intros b sid pd Hin Hp. exact (proj1 (Hb b sid pd [] Hin Hp)).
Defined.
