(* ===== verification/EndToEnd.v ===== *)
(** * From one client to another

    Composes the receive path, the room, the deltas and the bridge.  A movement
    packet ends up in the queue of the player's room and, once handled, as the
    player's position; and clients that only see packets hold, after every
    broadcast, exactly what the wire can say of the players visible to them. *)

From Stdlib Require Import ZArith Lia.
From stdpp Require Import base strings gmap fin_maps list relations.
From S2P Require Import Prelude.
From S2P Require Import GoFloat.
From S2P Require Import Player.
From S2P Require Import Delta.
From S2P Require Import DeltaFacts.
From S2P Require Import Cluster.
From S2P Require Import ClusterFacts.
From S2P Require Import Room.
From S2P Require Import RoomFacts.
From S2P Require Import RoomSystem.
From S2P Require Import RoomBroadcast.
From S2P Require Import RoomClients.
From S2P Require Import RoomManager.
From S2P Require Import Session.
From S2P Require Import Protocol.
From S2P Require Import ProtocolFacts.
From S2P Require Import ProtocolExample.
From S2P Require Import Handler.
From S2P Require Import HandlerFacts.
From S2P Require Import Bridge.
From S2P Require Import BridgeFacts.

Local Open Scope string_scope.
Local Open Scope Z_scope.
Local Open Scope list_scope.

(** ** Clients that see packets *)

Section wire_clients.
Context {A : Type} `{ALLOC : !ClusterAllocator A} `{LAWS : !ClusterAllocatorLaws A} `{GR : !GoRange}.
Context `{!Msgpack Envelope} `{!Msgpack Protocol.PlayerDelta}.
Context `{!MsgpackLaws Envelope} `{!MsgpackLaws Protocol.PlayerDelta} `{!EnvelopeSize}.
Implicit Types (r : Room A) (s : RoomSys A).

Definition wire_views := SessionID -> wire_view.

(** A session receives the packet made of its batch, if there is one. *)
Definition wire_receive (site : list nat) (b : Batches) (v : wire_views) : wire_views := fun sid =>
  match payload_of (b !! sid) with
  | Some pd =>
      match packet_of site pd with
      | inr d => receive_packet site (v sid) d
      | inl _ => v sid
      end
  | None => v sid
  end.

Definition wire_observe (site : list nat) s s' (v : wire_views) : wire_views := fun sid =>
  match r_activeSessions (sys_room s') !! sid with
  | None => ∅
  | Some _ => foldl (fun v b => wire_receive site b v) v (drop (length (sys_sent s)) (sys_sent s')) sid
  end.

(** Every delta of a broadcast can be encoded. *)
Definition deliverable (b : Batches) : Prop :=
  forall sid pd, payload_of (b !! sid) = Some pd -> sendable pd.

(** A run watched both by clients that apply the room's deltas and by clients
    that decode packets; the deltas broadcast on the way can be encoded. *)
Inductive wire_watched (alloc : A) (spec : RoomSpec) : RoomSys A -> views -> wire_views -> Prop :=
  | wire_watched_init : wire_watched alloc spec (init_sys alloc spec) (fun _ => ∅) (fun _ => ∅)
  | wire_watched_step site l s s' v wv :
      wire_watched alloc spec s v wv -> careful l s -> step l s s' ->
      Forall deliverable (drop (length (sys_sent s)) (sys_sent s')) ->
      wire_watched alloc spec s' (observe s s' v) (wire_observe site s s' wv).

(** The packets a client gets stand for its deltas. *)
Definition faithful (v : views) (wv : wire_views) : Prop := forall sid, wv sid = project <$> v sid.

Lemma is_empty_apply (v : client_view) pd : PlayerDelta_IsEmpty pd = true -> apply_delta v pd = v.
Proof.
  unfold PlayerDelta_IsEmpty. rewrite !andb_true_iff, !is_nil_spec. intros [[H1 H2] H3].
  unfold apply_delta. by rewrite H1, H2, H3.
Qed.

Lemma faithful_receive site b v wv :
  deliverable b -> faithful v wv -> faithful (receive b v) (wire_receive site b wv).
Proof.
  intros Hd Hf sid. unfold receive, wire_receive. specialize (Hd sid). unfold payload_of in *.
  rewrite Hf. destruct (b !! sid) as [batch |]; simpl in *; [| done].
  destruct (db_PlayerDelta batch) as [pd |]; simpl in *; [| done].
  destruct (PlayerDelta_IsEmpty pd) eqn:He; [by rewrite is_empty_apply |].
  pose proof (Hd pd eq_refl) as Hs. destruct (sendable_packet site pd Hs) as [d Hp]. rewrite Hp.
  apply (receive_packet_of site site); [apply Hs | done].
Qed.

Lemma faithful_fold site bs v wv :
  Forall deliverable bs -> faithful v wv ->
  faithful (foldl (fun v b => receive b v) v bs) (foldl (fun v b => wire_receive site b v) wv bs).
Proof.
  intros Hd. revert v wv. induction Hd as [| b bs Hb _ IH]; intros v wv Hf; simpl; [done |].
  by apply IH, faithful_receive.
Qed.

Lemma faithful_observe site s s' v wv :
  Forall deliverable (drop (length (sys_sent s)) (sys_sent s')) -> faithful v wv ->
  faithful (observe s s' v) (wire_observe site s s' wv).
Proof.
  intros Hd Hf sid. unfold observe, wire_observe.
  destruct (r_activeSessions (sys_room s') !! sid); [by apply faithful_fold |]. by rewrite fmap_empty.
Qed.

Lemma wire_watched_inv alloc spec s v wv :
  wire_watched alloc spec s v wv -> watched alloc spec s v /\ faithful v wv.
Proof.
  induction 1 as [| site l s s' v wv _ [Hw Hf] Hc Hs Hd].
  - split; [constructor |]. intros sid. by rewrite fmap_empty.
  - split; [by eapply watched_step | by apply faithful_observe].
Qed.

(** End to end, for clients that only decode packets: after every broadcast
    tick, in any interleaving, each attached client holds exactly the plane
    position, yaw and version of every player visible to it and of nobody
    else, as long as the deltas broadcast so far could be encoded and were
    delivered and player IDs are not reused while a client still knows them. *)
Theorem wire_clients_converge (alloc : A) (spec : RoomSpec) r (t : Z) (b : bool) (sent : list Batches)
    (v : views) (wv : wire_views) (site dsite : list nat) s' (sid : SessionID) (att : sessionAttachment)
    (ps : PlayerState) :
  let s := MkSys r (LoopDraining t) b sent in
  wire_watched alloc spec s v wv -> r_broadcaster r = true -> step (LTickEnd site) s s' ->
  Forall deliverable (drop (length sent) (sys_sent s')) ->
  isBroadcastTick r t = true ->
  (cc_Enabled (rc_ClusterConfig (r_config r)) = true ->
   validateConfig (rc_ClusterConfig (r_config r)) = None) ->
  let r' := sys_room s' in
  r_activeSessions r' !! sid = Some att -> r_players r' !! att_playerID att = Some ps ->
  exists (site' : list nat) (visible : list PlayerID),
    visible_to site' r' (att_playerID att) ps = Some visible /\
    forall pid, wire_observe dsite s s' wv sid !! pid =
      if decide (pid ∈ visible) then project ∘ Player.Snapshot <$> r_players r' !! pid else None.
Proof.
  intros s Hww Hbc Hs Hdel Hbt Hval r' Hatt Hps. apply wire_watched_inv in Hww as [Hw Hf].
  destruct (view_after_broadcast alloc spec r t b sent v site s' sid att ps Hw Hbc Hs Hbt Hval Hatt Hps)
    as (site' & visible & Hvis & _ & Hv).
  exists site', visible. split; [done |]. intros pid. rewrite (faithful_observe dsite s s' v wv Hdel Hf sid).
  rewrite lookup_fmap, Hv. unfold r'. case_decide; [| done].
  by rewrite option_fmap_compose.
Qed.
End wire_clients.

(** ** A move *)

Section moving.
Context `{GR : !GoRange}.
Context `{!Msgpack Envelope} `{!Msgpack Protocol.PlayerInput} `{!Msgpack PlayerTransformUpdate}.
Context `{!MsgpackLaws Envelope} `{!MsgpackLaws PlayerTransformUpdate} `{!EnvelopeSize}.
Variable resolveRoom : RoomManager -> string -> ResolveError + option loc.
Variable resolve : RoomManager -> string -> string * string.

(** The room of location [l] with one more command in its queue. *)
Definition with_command (m : RoomManager) (l : loc) (s : MRoom) (cmd : RoomCommand) : RoomManager :=
  RoomManager.set_heap m
    (<[l := MkSys (set_commands (sys_room s) (r_commands (sys_room s) ++ [cmd])) (sys_loop s)
              (sys_ctxDone s) (sys_sent s)]> (rm_heap m)).

Lemma enqueue_on_running m l s cmd :
  rm_heap m !! l = Some s -> Status (sys_room s) = RoomStatusRunning ->
  Z.of_nat (length (r_commands (sys_room s))) < rc_CommandQueueSize (r_config (sys_room s)) ->
  enqueue_on l cmd m = (with_command m l s cmd, None).
Proof.
  intros Hl Hst Hq. unfold enqueue_on, Room_RoomEnqueuer, on_room. rewrite Hl. unfold Enqueue, Enqueue_send. unfold Status in Hst.
  rewrite decide_True by done. by rewrite (proj2 (Z.ltb_lt _ _) Hq).
Qed.

Lemma transform_packet csite seq tick msg data ctx now now' :
  is_u32 seq -> is_u32 tick -> typed msg ->
  EncodeAndWrap csite CurrentVersion TypePlayerTransformUpdate seq tick msg = inr data ->
  asks_for ctx data now now' (transform_command ctx msg now).
Proof.
  intros Hs Ht Hm He.
  destruct (EncodeAndWrap_decodes csite [] CurrentVersion TypePlayerTransformUpdate seq tick msg data
    ltac:(by vm_compute) ltac:(by vm_compute) Hs Ht Hm He) as (body & Hd & Hb).
  apply DecodeEnvelope_ok in Hd as (Hl & Hu & Hh). apply DecodeMessage_ok in Hb as [Hb Hv].
  by apply (asks_transform ctx data now now' (MkEnvelope CurrentVersion TypePlayerTransformUpdate seq tick body)).
Qed.

Lemma transform_handled {A} `{!ClusterAllocator A} site (r : Room A) ctx msg now t now' p :
  r_players r !! pc_PlayerID ctx = Some p ->
  exists p', r_players (handleCommand site r (transform_command ctx msg now) t now') !! pc_PlayerID ctx = Some p' /\
    project (Player.Snapshot p') = (wt_X msg, wt_Z msg, wt_Yaw msg, u32 (p_Version p + 1)).
Proof.
  intros Hp. unfold handleCommand, handleUpdatePlayerTransform. simpl. unfold applyTransform. rewrite Hp.
  exists (UpdateTransform p (wire_transform (wt_X msg) (wt_Z msg) (wt_Yaw msg)) t now').
  split; [| done]. simpl. case_match; simpl; apply lookup_insert_eq.
Qed.

(** C20: What a client reports is what its player becomes: a transform update
    that its client could encode is put, as the only change, at the end of the
    queue of the running room of its session (while the queue has space), and
    whenever the room handles that command the player's plane position and yaw
    are exactly the reported ones, under a new version. *)
Theorem move_reaches_player (site csite : list nat) (sess : SessionHandle) (seq tick : Z)
    (msg : PlayerTransformUpdate) (data : bytes) (now now' : Time) (m : RoomManager) (l : loc) (s : MRoom) :
  is_u32 seq -> is_u32 tick -> typed msg ->
  EncodeAndWrap csite CurrentVersion TypePlayerTransformUpdate seq tick msg = inr data ->
  let pid := (resolve m (sh_ID sess)).1 in
  pid <> "" -> resolveRoom m (sh_ID sess) = inr (Some l) -> rm_heap m !! l = Some s ->
  Status (sys_room s) = RoomStatusRunning ->
  Z.of_nat (length (r_commands (sys_room s))) < rc_CommandQueueSize (r_config (sys_room s)) ->
  exists cmd,
    HandlePacket resolveRoom resolve site sess data now now' m = with_command m l s cmd /\
    forall site' (r : Room KMeansClusterAllocator) p t now2, r_players r !! pid = Some p ->
      exists p', r_players (handleCommand site' r cmd t now2) !! pid = Some p' /\
        project (Player.Snapshot p') = (wt_X msg, wt_Z msg, wt_Yaw msg, u32 (p_Version p + 1)).
Proof.
  intros Hs Ht Hm He pid Hpid Hr Hl Hst Hq. set (ctx := ResolveContext resolve sess m).
  assert (pc_PlayerID ctx = pid) as Hctx.
  { unfold ctx, pid, ResolveContext. by destruct (resolve m (sh_ID sess)). }
  exists (transform_command ctx msg now). split.
  - pose proof (transform_packet csite seq tick msg data ctx now now' Hs Ht Hm He) as Hask.
    pose proof (Process_spec resolveRoom resolve site sess data now now' m) as Hp.
    unfold HandlePacket. destruct (Process _ _ _ _ _ _ _ _) as [m' [err |]]; simpl.
    + destruct Hp as [_ Hno]. destruct Hno. eexists. split; [by rewrite <- Hctx in Hpid |].
      eexists _, l. split; [exact Hask |]. split; [done |]. by apply enqueue_on_running.
    + destruct Hp as (_ & cmd & l' & Hask' & Hr' & He').
      rewrite <- (asks_for_fun _ _ _ _ _ _ Hask Hask') in He'.
      assert (l' = l) as -> by congruence. by rewrite (enqueue_on_running m l s) in He' by done; injection He' as <-.
  - intros site' r p t now2 Hp. rewrite <- Hctx in *. by apply transform_handled.
Qed.
End moving.
