(* ===== verification/EndToEndWitness.v ===== *)
(** * Concrete packets

    Runs of the receive path, the room and the bridge over concrete rooms and
    the sample codec, exhibiting the situations the end-to-end theorems are
    about. *)

From Stdlib Require Import ZArith Lia.
From stdpp Require Import base strings gmap fin_maps list relations.
From S2P Require Import Prelude.
From S2P Require Import GoFloat.
From S2P Require Import Player.
From S2P Require Import Delta.
From S2P Require Import DeltaFacts.
From S2P Require Import Cluster.
From S2P Require Import ClusterFacts.
From S2P Require Import Room.
From S2P Require Import RoomFacts.
From S2P Require Import RoomSystem.
From S2P Require Import RoomBroadcast.
From S2P Require Import RoomClients.
From S2P Require Import RoomWitness.
From S2P Require Import RoomManager.
From S2P Require Import RoomManagerFacts.
From S2P Require Import Session.
From S2P Require Import Protocol.
From S2P Require Import ProtocolFacts.
From S2P Require Import ProtocolExample.
From S2P Require Import Handler.
From S2P Require Import HandlerFacts.
From S2P Require Import Bridge.
From S2P Require Import BridgeFacts.
From S2P Require Import EndToEnd.

Local Open Scope string_scope.
Local Open Scope Z_scope.
Local Open Scope list_scope.

Import ExampleCodec.
Import RoomExample.
#[local] Existing Instance canonical_range.

(** ** Receiving *)

Module ReceiveExample.

Definition sess : SessionHandle := MkSessionHandle "s1".

Definition resolve (_ : RoomManager) (_ : string) : string * string := ("pA", "uA").

Definition resolveRoom (_ : RoomManager) (_ : string) : ResolveError + option loc := inr (Some 0%nat).

(** One running room. *)
Definition manager : RoomManager :=
  (RoomManager.CreateRoom (RoomManager.NewRoomManager Registry.NewInMemoryRoomRegistry DefaultRoomConfig)
     "expo" false 1 2).1.

Definition packet : bytes :=
  match EncodeAndWrap [] CurrentVersion TypePlayerTransformUpdate 1 2 sample_transform with
  | inr d => d
  | inl _ => []
  end.

Lemma packet_ok :
  EncodeAndWrap [] CurrentVersion TypePlayerTransformUpdate 1 2 sample_transform = inr packet.
Proof. vm_compute. reflexivity. Qed.

Lemma sample_typed : typed sample_transform.
Proof. apply (bool_decide_unpack _). vm_compute. exact I. Qed.

End ReceiveExample.

Import ReceiveExample.

Lemma receive_spec_witness :
  exists cmd r, asks_for (ResolveContext resolve sess manager) packet 5 6 cmd /\
    resolveRoom manager (sh_ID sess) = inr (Some r) /\ cmd_PlayerID cmd = "pA".
Proof.
  pose proof (receive_spec resolveRoom resolve [] sess packet 5 6 manager) as H.
  destruct (Process resolveRoom resolve [] sess packet 5 6 manager) as [m' err] eqn:HP.
  assert (snd (Process resolveRoom resolve [] sess packet 5 6 manager) = None) as Hn
    by (vm_compute; reflexivity).
  rewrite HP in Hn. cbn [snd] in Hn. subst err.
  destruct H as (cmd & r & H1 & H2 & _ & _ & H3 & _). exists cmd, r.
  split; [exact H1 |]. split; [exact H2 |]. apply (f_equal fst) in H3. exact H3.
Defined.

Lemma move_reaches_player_witness :
  exists s cmd, rm_heap manager !! 0%nat = Some s /\
    HandlePacket resolveRoom resolve [] sess packet 5 6 manager = with_command manager 0%nat s cmd.
Proof.
  exists (started DefaultRoomConfig "expo" "expo-0001" false false).
  destruct (move_reaches_player resolveRoom resolve [] [] sess 1 2 sample_transform packet 5 6 manager 0%nat
    (started DefaultRoomConfig "expo" "expo-0001" false false)
    ltac:(vm_compute; split; congruence) ltac:(vm_compute; split; congruence) sample_typed packet_ok
    ltac:(discriminate) eq_refl ltac:(vm_compute; reflexivity) eq_refl ltac:(vm_compute; reflexivity))
    as (cmd & Hh & _).
  exists cmd. split; [vm_compute; reflexivity | exact Hh].
Defined.

(** ** Clients that see packets *)

Definition sendable_b (pd : Delta.PlayerDelta) : bool :=
  bool_decide (is_u32 (pd_Tick pd)) && bool_decide (typed (ConvertPlayerDelta (Some pd))) &&
  match Validate canonical_range [] (ConvertPlayerDelta (Some pd)) with None => true | Some _ => false end &&
  (from_option len 0 (Marshal (ConvertPlayerDelta (Some pd))) <=? MaxPayloadSize).

Lemma sendable_b_ok pd : sendable_b pd = true -> sendable pd.
Proof.
  unfold sendable_b. rewrite !andb_true_iff, Z.leb_le. intros [[[H1 H2] H3] H4].
  apply bool_decide_eq_true_1 in H1, H2. split; [done |]. split; [| done].
  apply (valid_message_one []). by destruct (Validate _ _ _).
Qed.

Definition deliverable_b (b : Batches) : bool :=
  forallb (fun kv => from_option sendable_b true (payload_of (Some kv.2))) (map_to_list b).

Lemma deliverable_b_ok b : deliverable_b b = true -> deliverable b.
Proof.
  unfold deliverable_b. rewrite forallb_forall. intros Hall sid pd Hp. apply sendable_b_ok.
  destruct (b !! sid) as [batch |] eqn:Hb; [| done].
  specialize (Hall (sid, batch)). simpl in Hall. unfold payload_of in *. simpl in Hp, Hall. rewrite Hp in Hall.
  apply Hall. by apply list_elem_of_In, elem_of_map_to_list.
Qed.

Fixpoint wire_watch (ls : list Label) (s : KSys) (v : views) (wv : wire_views)
    : option (KSys * views * wire_views) :=
  match ls with
  | [] => Some (s, v, wv)
  | l :: ls' =>
      if decide (careful l s) then
        match exec l s with
        | Some s' =>
            if forallb deliverable_b (drop (length (sys_sent s)) (sys_sent s')) then
              wire_watch ls' s' (observe s s' v) (wire_observe [] s s' wv)
            else None
        | None => None
        end
      else None
  end.

Lemma wire_watch_watched alloc sp ls s v wv s' v' wv' :
  wire_watched alloc sp s v wv -> wire_watch ls s v wv = Some (s', v', wv') ->
  wire_watched alloc sp s' v' wv'.
Proof.
  revert s v wv. induction ls as [| l ls IH]; intros s v wv Hw; simpl.
  - by intros [= <- <- <-].
  - case_decide as Hc; [| done]. destruct (exec l s) as [s1 |] eqn:He; [| done].
    destruct (forallb _ _) eqn:Hd; [| done]. apply IH. apply exec_step in He.
    eapply wire_watched_step; [done | done | done |]. apply Forall_forall. intros b Hb.
    apply deliverable_b_ok. rewrite forallb_forall in Hd. by apply Hd, list_elem_of_In.
Qed.

Definition wire_mid : KSys * views * wire_views :=
  default (init, no_views, fun _ => ∅) (wire_watch two_players init no_views (fun _ => ∅)).

Lemma wire_mid_ok : wire_watched NewKMeansClusterAllocator spec wire_mid.1.1 wire_mid.1.2 wire_mid.2.
Proof.
  apply (wire_watch_watched _ _ two_players init no_views (fun _ => ∅)); [apply wire_watched_init |].
  assert (isSome (wire_watch two_players init no_views (fun _ => ∅)) = true) as H by (vm_compute; reflexivity).
  unfold wire_mid. by destruct (wire_watch two_players init no_views (fun _ => ∅)) as [[[s v] wv] |].
Qed.

Definition wire_room : KRoom := sys_room wire_mid.1.1.

Lemma wire_mid_end :
  exists r' out, finishTick [] wire_room 2 = Some (r', out) /\ Forall deliverable (sent_by out) /\
    r_activeSessions r' = r_activeSessions wire_room /\ r_players r' = r_players wire_room.
Proof.
  destruct (finishTick_total [] wire_room 2) as [[r' out] Hf].
  { left. vm_compute. reflexivity. }
  exists r', out. destruct (finishTick_frame _ _ _ _ _ Hf) as (_ & _ & _ & _ & _ & Ha & Hp & _).
  split; [exact Hf |]. split; [| split; [exact Ha | exact Hp]].
  assert ((fun p => forallb deliverable_b (sent_by p.2)) <$> finishTick [] wire_room 2 = Some true) as Hd
    by (vm_compute; reflexivity).
  rewrite Hf in Hd. injection Hd as Hd. apply Forall_forall. intros b Hb. apply deliverable_b_ok.
  rewrite forallb_forall in Hd. by apply Hd, list_elem_of_In.
Qed.

Lemma wire_clients_converge_witness :
  exists s' site' visible, r_activeSessions (sys_room s') !! "s1" = Some (MkAttachment "pA" "uA") /\
    visible_to site' (sys_room s') "pA"
      (default (NewPlayerState "" "" 0) (r_players wire_room !! "pA")) = Some visible /\
    forall pid, wire_observe [] wire_mid.1.1 s' wire_mid.2 "s1" !! pid =
      if decide (pid ∈ visible) then project ∘ Player.Snapshot <$> r_players (sys_room s') !! pid else None.
Proof.
  destruct wire_mid_end as (r' & out & Hf & Hdel & Ha & Hp).
  assert (wire_mid.1.1 = MkSys wire_room (LoopDraining 2) (sys_ctxDone wire_mid.1.1) (sys_sent wire_mid.1.1))
    as Heta by (apply sys_eta; vm_compute; reflexivity).
  set (s' := MkSys r' LoopIdle (sys_ctxDone wire_mid.1.1) (sys_sent wire_mid.1.1 ++ sent_by out)).
  assert (r_activeSessions r' !! "s1" = Some (MkAttachment "pA" "uA")) as Hs
    by (rewrite Ha; vm_compute; reflexivity).
  exists s'.
  destruct (wire_clients_converge NewKMeansClusterAllocator spec wire_room 2 (sys_ctxDone wire_mid.1.1)
    (sys_sent wire_mid.1.1) wire_mid.1.2 wire_mid.2 [] [] s' "s1" (MkAttachment "pA" "uA")
    (default (NewPlayerState "" "" 0) (r_players wire_room !! "pA"))) as (site' & visible & Hvis & Hview).
  - rewrite <- Heta. exact wire_mid_ok.
  - vm_compute. reflexivity.
  - apply step_tick_end; [vm_compute; reflexivity | exact Hf].
  - unfold s'. simpl. rewrite drop_app_length. exact Hdel.
  - vm_compute. reflexivity.
  - intros _. vm_compute. reflexivity.
  - exact Hs.
  - unfold s'. simpl. rewrite Hp. vm_compute. reflexivity.
  - exists site', visible. split; [exact Hs |]. split; [exact Hvis |].
    intros pid. rewrite Heta at 1. apply Hview.
Defined.
