(* ===== verification/Transport.v ===== *)
(** * Transports

    Models [internal/transport/kcp] and [internal/transport/websocket]: the
    sessions with their send queues, read and write loops and closing protocol
    ([session.go]), and the servers that accept, track and stop them
    ([server.go]).  The two packages have the same structure; [Flavor] selects
    between them where they differ.

    Sockets, KCP, the WebSocket library and the HTTP server are outside: what a
    read, a write or an accept returns is an argument of the step.  Everything
    between two points where another goroutine can be scheduled to notice is a
    step of its own: [sync.Once] runs [close] in stages, [Send] tests for
    closing and then queues, and every loop iteration is split at its channel
    operations and calls. *)

From Stdlib Require Import ZArith Lia.
From stdpp Require Import base strings gmap fin_maps list.
From S2P Require Import Prelude.
From S2P Require Import Player.
From S2P Require Import Session.
From S2P Require Import Protocol.
From S2P Require Import Bridge.

Local Open Scope string_scope.
Local Open Scope Z_scope.
Local Open Scope list_scope.
Local Open Scope go_scope.

Inductive Flavor := FKCP | FWSS.

#[global] Instance Flavor_eq_dec : EqDecision Flavor.
Proof. solve_decision. Defined.

(** ** Configuration *)

Definition Second : Duration := 10 ^ 9.

(** The fields the two [ServerConfig] structs share, and the origin policy of
    the WebSocket one ([MaxPacketSize] and [MaxPayloadSize] are one field).  The
    loggers, and the TLS files of the WebSocket server, which no code reads, are
    left out. *)
Record ServerConfig := MkServerConfig {
  sc_ListenAddr : string;
  sc_MaxSize : Z;
  sc_ReadTimeout : Duration;
  sc_WriteTimeout : Duration;
  sc_SendQueueSize : Z;
  sc_AllowedOrigins : list string;
  sc_DevMode : bool }.

Definition positive_or (x d : Z) : Z := if x <=? 0 then d else x.

Definition defaultReadDeadline : Duration := 10 * Second.
Definition defaultWriteDeadline : Duration := 5 * Second.
Definition defaultSendQueueSize : Z := 256.

Definition maxPacketSize (c : ServerConfig) : Z := positive_or (sc_MaxSize c) (64 * 1024).

Definition defaultMaxPayloadSize : Z := 60 * 1024.

Definition maxPayloadSize (c : ServerConfig) : Z := positive_or (sc_MaxSize c) defaultMaxPayloadSize.

(** The size of the KCP read buffer, the read limit of a WebSocket connection. *)
Definition maxSize (f : Flavor) (c : ServerConfig) : Z :=
  match f with FKCP => maxPacketSize c | FWSS => maxPayloadSize c end.

Definition readTimeout (c : ServerConfig) : Duration := positive_or (sc_ReadTimeout c) defaultReadDeadline.

Definition writeTimeout (c : ServerConfig) : Duration := positive_or (sc_WriteTimeout c) defaultWriteDeadline.

Definition sendQueueSize (c : ServerConfig) : Z := positive_or (sc_SendQueueSize c) defaultSendQueueSize.

Inductive TransportError :=
  | ErrListenAddrRequired
  | ErrInvalidListenAddr (addr : string)
  | ErrHandlerRequired
  | ErrServerRunning
  | ErrListen (addr : string)
  | ErrNetClosed.

(** [resolvable]: whether the resolver of package [net] accepts the address,
    which may involve a name service. *)
Definition ServerConfig_Validate (resolvable : string -> bool) (c : ServerConfig) : option TransportError :=
  guard_err (String.eqb (sc_ListenAddr c) "") ErrListenAddrRequired >>?
  guard_err (negb (resolvable (sc_ListenAddr c))) (ErrInvalidListenAddr (sc_ListenAddr c)).

(** The request's [Origin] header, empty when absent. *)
Definition checkOrigin (c : ServerConfig) (origin : string) : bool :=
  if sc_DevMode c || match sc_AllowedOrigins c with [] => true | _ => false end then true
  else existsb (String.eqb origin) (sc_AllowedOrigins c).

(** ** Sessions *)

(** How far [closeOnce.Do] has come: the channel is closed, then the
    connection, then the session leaves the server's map. *)
Inductive OnceState := OnceIdle | OnceConn | OnceRemove | OnceDone.

#[global] Instance OnceState_eq_dec : EqDecision OnceState.
Proof. solve_decision. Defined.

(** Where the read loop is: not started, about to start the write loop, at the
    [select], in the read, in the deferred [close], in the deferred [wg.Done]. *)
Inductive ReaderPC := RNone | RSpawned | RLoop | RRead | RClose | RWgDone | RDone.

#[global] Instance ReaderPC_eq_dec : EqDecision ReaderPC.
Proof. solve_decision. Defined.

Inductive WriterPC := WNone | WLoop | WWrite (data : bytes) | WDrain | WWgDone | WDone.

(** [ts_pending] are calls of [Send] between their two tests.  The last three
    fields are the history of the session: packets for which [Send] returned
    nil, packets the connection took, packets given to the handler. *)
Record TSession := MkTSession {
  ts_id : string;
  ts_cap : Z;
  ts_queue : list bytes;
  ts_pending : list bytes;
  ts_closed : bool;
  ts_once : OnceState;
  ts_reader : ReaderPC;
  ts_writer : WriterPC;
  ts_accepted : list bytes;
  ts_written : list bytes;
  ts_handled : list bytes }.

Definition newSession (id : string) (c : ServerConfig) : TSession :=
  MkTSession id (sendQueueSize c) [] [] false OnceIdle RNone WNone [] [] [].

Definition IsClosed (s : TSession) : bool := ts_closed s.

Definition set_queue (s : TSession) (q pending : list bytes) : TSession :=
  MkTSession (ts_id s) (ts_cap s) q pending (ts_closed s) (ts_once s) (ts_reader s) (ts_writer s)
    (ts_accepted s) (ts_written s) (ts_handled s).

Definition set_accepted (s : TSession) (a : list bytes) : TSession :=
  MkTSession (ts_id s) (ts_cap s) (ts_queue s) (ts_pending s) (ts_closed s) (ts_once s) (ts_reader s)
    (ts_writer s) a (ts_written s) (ts_handled s).

Definition set_once (s : TSession) (closed : bool) (o : OnceState) : TSession :=
  MkTSession (ts_id s) (ts_cap s) (ts_queue s) (ts_pending s) closed o (ts_reader s) (ts_writer s)
    (ts_accepted s) (ts_written s) (ts_handled s).

Definition set_reader (s : TSession) (r : ReaderPC) : TSession :=
  MkTSession (ts_id s) (ts_cap s) (ts_queue s) (ts_pending s) (ts_closed s) (ts_once s) r (ts_writer s)
    (ts_accepted s) (ts_written s) (ts_handled s).

Definition set_writer (s : TSession) (w : WriterPC) : TSession :=
  MkTSession (ts_id s) (ts_cap s) (ts_queue s) (ts_pending s) (ts_closed s) (ts_once s) (ts_reader s) w
    (ts_accepted s) (ts_written s) (ts_handled s).

Definition set_written (s : TSession) (w : list bytes) : TSession :=
  MkTSession (ts_id s) (ts_cap s) (ts_queue s) (ts_pending s) (ts_closed s) (ts_once s) (ts_reader s)
    (ts_writer s) (ts_accepted s) w (ts_handled s).

Definition set_handled (s : TSession) (h : list bytes) : TSession :=
  MkTSession (ts_id s) (ts_cap s) (ts_queue s) (ts_pending s) (ts_closed s) (ts_once s) (ts_reader s)
    (ts_writer s) (ts_accepted s) (ts_written s) h.

(** The first test of [Send]. *)
Definition Send_check (s : TSession) (data : bytes) : TSession * option TransportError :=
  if IsClosed s then (s, Some ErrNetClosed)
  else (set_queue s (ts_queue s) (ts_pending s ++ [data]), None).

(** [select { case s.sendCh <- data: ... default: ... }] *)
Definition Send_push (s : TSession) (data : bytes) : TSession * option TransportError :=
  if Z.of_nat (length (ts_queue s)) <? ts_cap s then
    (set_accepted (set_queue s (ts_queue s ++ [data]) (ts_pending s)) (ts_accepted s ++ [data]), None)
  else (s, Some ErrNetClosed).

(** A whole call of [Send], when nothing happens between its two tests. *)
Definition Session_Send (s : TSession) (data : bytes) : TSession * option TransportError :=
  if IsClosed s then (s, Some ErrNetClosed) else Send_push s data.

(** ** Loops *)

(** What the connection answers a read with.  For KCP: an error, which is a
    timeout or not, or bytes; for WebSocket: an error, or a message of some
    type. *)
Inductive ReadEvent :=
  | DeadlineErr                (* SetReadDeadline failed *)
  | ReadTimeout
  | ReadErr
  | ReadData (data : bytes)    (* bytes, or a binary message *)
  | ReadText                   (* a text message *)
  | ReadOther.                 (* a message of another type *)

(** The read loop at its [select]: cancellation and closing end it, otherwise it
    sets the deadline and reads. *)
Definition reader_select (ctxDone : bool) (s : TSession) (ev : ReadEvent) : TSession :=
  if ctxDone || ts_closed s then set_reader s RClose
  else match ev with
       | DeadlineErr => set_reader s RClose
       | _ => set_reader s RRead
       end.

(** [HandlePacket], if the packet is not empty; the packet has at most as many
    bytes as the read buffer or the read limit allows. *)
Definition deliver (limit : Z) (s : TSession) (data : bytes) : option TSession :=
  if limit <? len data then None
  else Some (set_reader (if 0 <? len data then set_handled s (ts_handled s ++ [data]) else s) RLoop).

(** What the read loops do with the answer.  A timeout is survived over KCP and
    ends a WebSocket session; so does a text frame. *)
Definition kcp_read (limit : Z) (s : TSession) (ev : ReadEvent) : option TSession :=
  match ev with
  | ReadTimeout => Some (set_reader s RLoop)
  | ReadErr => Some (set_reader s RClose)
  | ReadData data => deliver limit s data
  | _ => None
  end.

Definition wss_read (limit : Z) (s : TSession) (ev : ReadEvent) : option TSession :=
  match ev with
  | ReadTimeout | ReadErr | ReadText => Some (set_reader s RClose)
  | ReadOther => Some (set_reader s RLoop)
  | ReadData data => deliver limit s data
  | DeadlineErr => None
  end.

Definition reader_read (f : Flavor) : Z -> TSession -> ReadEvent -> option TSession :=
  match f with FKCP => kcp_read | FWSS => wss_read end.

(** Which ready case of its [select] the write loop takes, and what the
    connection answers. *)
Inductive WriteEvent := OnCtx | OnClosed | OnData | OnDataDeadlineErr | WriteOk | WriteErr | Proceed.

Definition writer_step (ctxDone : bool) (s : TSession) (ev : WriteEvent) : option TSession :=
  match ts_writer s, ev with
  | WLoop, OnCtx => if ctxDone then Some (set_writer s WWgDone) else None
  | WLoop, OnClosed => if ts_closed s then Some (set_writer s WDrain) else None
  | WLoop, OnData =>
      match ts_queue s with
      | d :: q => Some (set_writer (set_queue s q (ts_pending s)) (WWrite d))
      | [] => None
      end
  | WLoop, OnDataDeadlineErr =>
      match ts_queue s with
      | d :: q => Some (set_writer (set_queue s q (ts_pending s)) WWgDone)
      | [] => None
      end
  | WWrite d, WriteOk => Some (set_writer (set_written s (ts_written s ++ [d])) WLoop)
  | WWrite d, WriteErr => Some (set_writer s WWgDone)
  | WDrain, Proceed =>
      match ts_queue s with
      | _ :: q => Some (set_queue s q (ts_pending s))
      | [] => Some (set_writer s WWgDone)
      end
  | _, _ => None
  end.

(** ** Servers *)

Abbreviation tloc := nat.

(** A goroutine that accepts connections.  For KCP there is one, at key 0, and
    it loops; for WebSocket key 0 is the serve loop of the HTTP server and every
    upgrade request has a handler goroutine of its own. *)
Inductive AcceptPC :=
  | AWait                  (* in Accept or Serve *)
  | AGot (l : tloc)        (* session made, before the lock *)
  | AReg (l : tloc)        (* session in the map, before the read loop is started *)
  | AClose (l : tloc)      (* the server has stopped: closing the session *)
  | AWgDone                (* in the deferred wg.Done *)
  | ADone.

#[global] Instance AcceptPC_eq_dec : EqDecision AcceptPC.
Proof. solve_decision. Defined.

(** Where [Stop] is: not called, closing the sessions of its snapshot, in the
    HTTP server's [Shutdown], in [wg.Wait], returned. *)
Inductive StopPC :=
  | StIdle | StClosing (ls : list tloc) | StShutdown | StWait | StReturned.

Record Server := MkServer {
  sv_flavor : Flavor;
  sv_cfg : ServerConfig;
  sv_running : bool;
  sv_ctxDone : bool;
  sv_listening : bool;
  sv_heap : gmap tloc TSession;
  sv_next : tloc;
  sv_sessions : gmap string tloc;
  sv_acceptors : gmap nat AcceptPC;
  sv_wg : Z;
  sv_count : Z;
  sv_stop : StopPC }.

Definition NewServer (f : Flavor) (resolvable : string -> bool) (c : ServerConfig) (hasHandler : bool)
    : TransportError + Server :=
  match ServerConfig_Validate resolvable c >>? guard_err (negb hasHandler) ErrHandlerRequired with
  | Some err => inl err
  | None => inr (MkServer f c false false false ∅ 0 ∅ ∅ 0 0 StIdle)
  end.

Definition SessionCount (s : Server) : nat := size (sv_sessions s).

(** The counters are variables of their packages. *)
Definition nextSessionID (n : Z) : string := "sess-" +:+ format_d n.

Definition nextWSSSessionID (n : Z) : string := "wss-" +:+ format_d n.

Definition session_name (f : Flavor) : Z -> string := match f with FKCP => nextSessionID | FWSS => nextWSSSessionID end.

Definition upd_heap (s : Server) (h : gmap tloc TSession) : Server :=
  MkServer (sv_flavor s) (sv_cfg s) (sv_running s) (sv_ctxDone s) (sv_listening s) h (sv_next s)
    (sv_sessions s) (sv_acceptors s) (sv_wg s) (sv_count s) (sv_stop s).

Definition upd_sessions (s : Server) (m : gmap string tloc) : Server :=
  MkServer (sv_flavor s) (sv_cfg s) (sv_running s) (sv_ctxDone s) (sv_listening s) (sv_heap s) (sv_next s)
    m (sv_acceptors s) (sv_wg s) (sv_count s) (sv_stop s).

Definition upd_acceptors (s : Server) (a : gmap nat AcceptPC) : Server :=
  MkServer (sv_flavor s) (sv_cfg s) (sv_running s) (sv_ctxDone s) (sv_listening s) (sv_heap s) (sv_next s)
    (sv_sessions s) a (sv_wg s) (sv_count s) (sv_stop s).

Definition upd_wg (s : Server) (n : Z) : Server :=
  MkServer (sv_flavor s) (sv_cfg s) (sv_running s) (sv_ctxDone s) (sv_listening s) (sv_heap s) (sv_next s)
    (sv_sessions s) (sv_acceptors s) n (sv_count s) (sv_stop s).

Definition upd_stop (s : Server) (p : StopPC) : Server :=
  MkServer (sv_flavor s) (sv_cfg s) (sv_running s) (sv_ctxDone s) (sv_listening s) (sv_heap s) (sv_next s)
    (sv_sessions s) (sv_acceptors s) (sv_wg s) (sv_count s) p.

Definition put (s : Server) (l : tloc) (x : TSession) : Server := upd_heap s (<[l := x]> (sv_heap s)).

(** The listener is bound, the context made, and the goroutine that accepts or
    serves is started and counted. *)
Definition started (s : Server) (parentDone : bool) : Server :=
  MkServer (sv_flavor s) (sv_cfg s) true parentDone true (sv_heap s) (sv_next s) (sv_sessions s)
    (<[0%nat := AWait]> (sv_acceptors s)) (sv_wg s + 1) (sv_count s) (sv_stop s).

(** [Start] of either server: [listenErr] is what binding the address answers;
    [parentDone] whether the caller's context is cancelled already.  Programs
    start a server once, and stop it when [Start] has returned. *)
Definition Server_Start (s : Server) (listenErr parentDone : bool) : Server * option TransportError :=
  if sv_running s then (s, Some ErrServerRunning)
  else if listenErr then (s, Some (ErrListen (sc_ListenAddr (sv_cfg s))))
  else (started s parentDone, None).

(** [newSession]: a new session of the server, handed to goroutine [k]. *)
Definition accept_new (s : Server) (k : nat) : Server :=
  let n := u64 (sv_count s + 1) in
  MkServer (sv_flavor s) (sv_cfg s) (sv_running s) (sv_ctxDone s) (sv_listening s)
    (<[sv_next s := newSession (session_name (sv_flavor s) n) (sv_cfg s)]> (sv_heap s)) (S (sv_next s))
    (sv_sessions s) (<[k := AGot (sv_next s)]> (sv_acceptors s)) (sv_wg s) n (sv_stop s).

(** The accepting goroutine goes back to its loop, or its handler returns. *)
Definition accept_next (s : Server) (k : nat) : Server :=
  match sv_flavor s with
  | FKCP => upd_acceptors s (<[k := AWait]> (sv_acceptors s))
  | FWSS => upd_acceptors s (delete k (sv_acceptors s))
  end.

(** ... or, having found the server stopped, leaves. *)
Definition accept_leave (s : Server) (k : nat) : Server :=
  match sv_flavor s with
  | FKCP => upd_acceptors s (<[k := AWgDone]> (sv_acceptors s))
  | FWSS => upd_acceptors s (delete k (sv_acceptors s))
  end.

(** The critical section after the accept: the session is tracked, unless the
    server has been stopped. *)
Definition register (s : Server) (k : nat) (l : tloc) (x : TSession) : Server :=
  if sv_running s then
    upd_acceptors (upd_sessions s (<[ts_id x := l]> (sv_sessions s))) (<[k := AReg l]> (sv_acceptors s))
  else upd_acceptors s (<[k := AClose l]> (sv_acceptors s)).

Definition removeSession (s : Server) (id : string) : Server := upd_sessions s (delete id (sv_sessions s)).

(** A stage of [close] on session [l]. *)
Definition close_begin (s : Server) (l : tloc) (x : TSession) : Server := put s l (set_once x true OnceConn).

Definition close_stage (s : Server) (l : tloc) (x : TSession) : option Server :=
  match ts_once x with
  | OnceConn => Some (put s l (set_once x (ts_closed x) OnceRemove))
  | OnceRemove => Some (removeSession (put s l (set_once x (ts_closed x) OnceDone)) (ts_id x))
  | _ => None
  end.

(** A goroutine inside [sess.close()]: the first caller begins, the others wait
    until it is done and go on with [k]. *)
Definition close_call (s : Server) (l : tloc) (x : TSession) (k : Server) : option Server :=
  match ts_once x with
  | OnceIdle => Some (close_begin s l x)
  | OnceDone => Some k
  | _ => None
  end.

(** The read loop of session [l]. *)
Definition reader_step (s : Server) (l : tloc) (x : TSession) (ev : ReadEvent) : option Server :=
  match ts_reader x with
  | RSpawned => Some (upd_wg (put s l (set_writer (set_reader x RLoop) WLoop)) (sv_wg s + 1))
  | RLoop => Some (put s l (reader_select (sv_ctxDone s) x ev))
  | RRead => x ← reader_read (sv_flavor s) (maxSize (sv_flavor s) (sv_cfg s)) x ev; Some (put s l x)
  | RClose => close_call s l x (put s l (set_reader x RWgDone))
  | RWgDone => Some (upd_wg (put s l (set_reader x RDone)) (sv_wg s - 1))
  | _ => None
  end.

(** ... and its write loop. *)
Definition writer_loop (s : Server) (l : tloc) (x : TSession) (ev : WriteEvent) : option Server :=
  match ts_writer x with
  | WWgDone => Some (upd_wg (put s l (set_writer x WDone)) (sv_wg s - 1))
  | _ => x ← writer_step (sv_ctxDone s) x ev; Some (put s l x)
  end.

Section stop.
Context `{GR : !GoRange}.

(** [Stop] up to its unlock: the context is cancelled and the sessions are
    listed.  The KCP server closes its listener there, the other later. *)
Definition KCP_Stop_begin (site : list nat) (s : Server) : Server :=
  if sv_running s then
    MkServer (sv_flavor s) (sv_cfg s) false true false (sv_heap s) (sv_next s) (sv_sessions s) (sv_acceptors s)
      (sv_wg s) (sv_count s) (StClosing (snd <$> range site (sv_sessions s)))
  else s.

Definition WSS_Stop_begin (site : list nat) (s : Server) : Server :=
  if sv_running s then
    MkServer (sv_flavor s) (sv_cfg s) false true (sv_listening s) (sv_heap s) (sv_next s) (sv_sessions s)
      (sv_acceptors s) (sv_wg s) (sv_count s) (StClosing (snd <$> range site (sv_sessions s)))
  else s.

Definition Stop_begin (site : list nat) (s : Server) : Server :=
  match sv_flavor s with FKCP => KCP_Stop_begin site s | FWSS => WSS_Stop_begin site s end.

(** The rest of [Stop], step by step. *)
Definition Stop_step (s : Server) : option Server :=
  match sv_stop s with
  | StClosing [] => Some (upd_stop s (match sv_flavor s with FKCP => StWait | FWSS => StShutdown end))
  | StClosing (l :: ls) => x ← sv_heap s !! l; close_call s l x (upd_stop s (StClosing ls))
  | StShutdown =>
      Some (MkServer (sv_flavor s) (sv_cfg s) (sv_running s) (sv_ctxDone s) false (sv_heap s) (sv_next s)
              (sv_sessions s) (sv_acceptors s) (sv_wg s) (sv_count s) StWait)
  | StWait => if sv_wg s =? 0 then Some (upd_stop s StReturned) else None
  | _ => None
  end.

(** ** The transition system *)

(** A second [Stop] finds [running] false and returns at once: it is no step. *)
Inductive TLabel :=
  | TAccept                            (* a KCP connection is accepted *)
  | TUpgrade (k : nat) (origin : string) (* a WebSocket request arrives, in a goroutine of its own *)
  | TAcceptErr                         (* Accept or Serve returns an error *)
  | TAcceptor (k : nat)                (* the next step of an accepting goroutine *)
  | TReader (l : tloc) (ev : ReadEvent)
  | TWriter (l : tloc) (ev : WriteEvent)
  | TCloseStage (l : tloc)
  | TClose (l : tloc)                  (* a handler calls Close *)
  | TSendCheck (l : tloc) (data : bytes)
  | TSendPush (l : tloc) (i : nat)     (* the i-th pending Send *)
  | TCancel                            (* the caller's context is cancelled *)
  | TStop (site : list nat)
  | TStopStep.

Definition acceptor_step (s : Server) (k : nat) : option Server :=
  pc ← sv_acceptors s !! k;
  match pc with
  | AGot l => x ← sv_heap s !! l; Some (register s k l x)
  | AReg l => x ← sv_heap s !! l;
      Some (upd_wg (accept_next (put s l (set_reader x RSpawned)) k) (sv_wg s + 1))
  | AClose l => x ← sv_heap s !! l; close_call s l x (accept_leave s k)
  | AWgDone => Some (upd_wg (upd_acceptors s (<[k := ADone]> (sv_acceptors s))) (sv_wg s - 1))
  | _ => None
  end.

(** A connection is accepted.  One may still be pending when the listener is
    closed. *)
Definition kcp_accept (s : Server) : option Server :=
  if decide (sv_flavor s = FKCP /\ sv_acceptors s !! 0%nat = Some AWait) then Some (accept_new s 0) else None.

(** A request of some origin is upgraded, while the HTTP server takes requests;
    an upgrade that fails, for its origin or otherwise, leaves nothing. *)
Definition handleUpgrade (s : Server) (k : nat) (origin : string) : option Server :=
  if decide (sv_flavor s = FWSS /\ k <> 0%nat /\ sv_acceptors s !! k = None /\ sv_listening s = true) then
    if checkOrigin (sv_cfg s) origin then Some (accept_new s k) else None
  else None.

(** The accept or serve call returns an error and its goroutine ends. *)
Definition accept_failed (s : Server) : option Server :=
  if decide (sv_acceptors s !! 0%nat = Some AWait)
  then Some (upd_acceptors s (<[0%nat := AWgDone]> (sv_acceptors s))) else None.

Definition texec (lab : TLabel) (s : Server) : option Server :=
  match lab with
  | TAccept => kcp_accept s
  | TUpgrade k origin => handleUpgrade s k origin
  | TAcceptErr => accept_failed s
  | TAcceptor k => acceptor_step s k
  | TReader l ev => x ← sv_heap s !! l; reader_step s l x ev
  | TWriter l ev => x ← sv_heap s !! l; writer_loop s l x ev
  | TCloseStage l => x ← sv_heap s !! l; close_stage s l x
  | TClose l => x ← sv_heap s !! l;
      (* handlers only know sessions whose read loop was started *)
      match ts_reader x, ts_once x with
      | RNone, _ => None
      | _, OnceIdle => Some (close_begin s l x)
      | _, _ => None
      end
  | TSendCheck l data => x ← sv_heap s !! l;
      match ts_reader x with
      | RNone => None
      | _ => match Send_check x data with (x, None) => Some (put s l x) | (_, Some _) => None end
      end
  | TSendPush l i => x ← sv_heap s !! l; data ← ts_pending x !! i;
      Some (put s l (Send_push (set_queue x (ts_queue x) (delete i (ts_pending x))) data).1)
  | TCancel => Some (MkServer (sv_flavor s) (sv_cfg s) (sv_running s) true (sv_listening s) (sv_heap s)
      (sv_next s) (sv_sessions s) (sv_acceptors s) (sv_wg s) (sv_count s) (sv_stop s))
  | TStop site => if sv_running s then Some (Stop_begin site s) else None
  | TStopStep => Stop_step s
  end.

Definition trun (ls : list TLabel) (s : Server) : option Server :=
  foldl (fun o l => s ← o; texec l s) (Some s) ls.
End stop.

(** ** KCP sessions as sessions of the bridge *)

(** [RealtimeSession] for [kcpSession] ([wssSession] lacks the methods [UserID]
    and [Transport] of that interface): [Send] is the session's, and nothing
    happens between its two tests. *)
#[global] Instance kcpSession_RealtimeSession : RealtimeSession Server tloc TransportError := {|
  Send := fun l data s =>
    match sv_heap s !! l with
    | None => (s, Some ErrNetClosed)
    | Some x => let '(x, err) := Session_Send x data in (put s l x, err)
    end;
  Transport := fun _ => KCP |}.
