(* ===== verification/TransportFacts.v ===== *)
(** * Facts about the transports

    The invariant of a transport server, over every interleaving of its accept,
    read, write, closing and stopping goroutines: the wait group counts the
    goroutines, packets leave a session in the order [Send] accepted them, the
    session map never names a closed session. *)

From Stdlib Require Import ZArith Lia.
From stdpp Require Import base strings gmap fin_maps list.
From S2P Require Import Prelude.
From S2P Require Import Protocol.
From S2P Require Import Transport.

Local Open Scope string_scope.
Local Open Scope Z_scope.
Local Open Scope list_scope.

(** ** One session *)

(** The packets between the queue and the connection. *)
Definition in_order (x : TSession) : Prop :=
  match ts_writer x with
  | WNone | WLoop => ts_accepted x = ts_written x ++ ts_queue x
  | WWrite d => ts_accepted x = ts_written x ++ d :: ts_queue x
  | WDrain | WWgDone | WDone => ts_written x `prefix_of` ts_accepted x
  end.

Definition loops_ok (x : TSession) : Prop :=
  match ts_reader x with
  | RNone | RSpawned => ts_writer x = WNone
  | RLoop | RRead | RClose => ts_writer x <> WNone
  | RWgDone | RDone => ts_writer x <> WNone /\ ts_once x = OnceDone
  end.

Record session_ok (x : TSession) : Prop := {
  so_cap : Z.of_nat (length (ts_queue x)) <= ts_cap x;
  so_order : in_order x;
  so_loops : loops_ok x;
  so_once : ts_closed x = false <-> ts_once x = OnceIdle }.

(** The goroutines of a session that the wait group counts. *)
Definition live (x : TSession) : nat :=
  (match ts_reader x with RNone | RDone => 0 | _ => 1 end +
   match ts_writer x with WNone | WDone => 0 | _ => 1 end)%nat.

(** What one step of a session's own goroutines, of its closing or of its
    senders does to it: it keeps the session well-formed, never unstarts its
    loops, and starts a goroutine only from another one. *)
Record session_step (x y : TSession) : Prop := {
  st_ok : session_ok y;
  st_id : ts_id y = ts_id x;
  st_none : ts_reader y = RNone <-> ts_reader x = RNone;
  st_live : live x = 0%nat -> live y = 0%nat;
  st_done : ts_once y = OnceDone <-> ts_once x = OnceDone }.

Ltac session_cbn :=
  unfold loops_ok, in_order, live in *;
  cbn [ts_id ts_cap ts_queue ts_pending ts_closed ts_once ts_reader ts_writer ts_accepted ts_written
       ts_handled set_queue set_accepted set_once set_reader set_writer set_written set_handled] in *.

Ltac session_crush :=
  repeat (split || intro); session_cbn; simplify_eq/=;
  try solve [done | tauto | lia | congruence | naive_solver].

Lemma in_order_prefix x : in_order x -> ts_written x `prefix_of` ts_accepted x.
Proof. unfold in_order. destruct (ts_writer x); intros H; try rewrite H; try done; by eexists. Qed.

Lemma newSession_ok id c : session_ok (newSession id c).
Proof.
  constructor; try done. unfold newSession, sendQueueSize, positive_or, defaultSendQueueSize. simpl.
  destruct (Z.leb_spec (sc_SendQueueSize c) 0); lia.
Qed.

Lemma close_begin_step x :
  session_ok x -> ts_once x = OnceIdle -> session_step x (set_once x true OnceConn).
Proof.
  intros [Hc Ho Hl Hi] H. destruct x as [id cap q pe cl on r w ac wr ha]. session_cbn. subst on.
  destruct r, w; session_crush.
Qed.

Lemma close_conn_step x :
  session_ok x -> ts_once x = OnceConn -> session_step x (set_once x (ts_closed x) OnceRemove).
Proof.
  intros [Hc Ho Hl Hi] H. destruct x as [id cap q pe cl on r w ac wr ha]. session_cbn. subst on.
  destruct r, w; session_crush.
Qed.

Lemma close_remove_ok x :
  session_ok x -> ts_once x = OnceRemove -> session_ok (set_once x (ts_closed x) OnceDone).
Proof.
  intros [Hc Ho Hl Hi] H. destruct x as [id cap q pe cl on r w ac wr ha]. session_cbn. subst on.
  destruct r; session_crush.
Qed.

(** Moving the read loop between points where the write loop exists and the
    session may be open. *)
Lemma set_reader_step x r :
  session_ok x -> ts_reader x ∈ [RLoop; RRead] -> r ∈ [RLoop; RRead; RClose] ->
  session_step x (set_reader x r).
Proof.
  intros [Hc Ho Hl Hi] Hx Hr. destruct x as [id cap q pe cl on r0 w ac wr ha]. session_cbn.
  rewrite !elem_of_cons, elem_of_nil in Hx. rewrite !elem_of_cons, elem_of_nil in Hr.
  destruct_or!; subst; done || session_crush.
Qed.

Lemma reader_select_step c x ev :
  session_ok x -> ts_reader x = RLoop -> session_step x (reader_select c x ev).
Proof.
  intros Hok Hr. unfold reader_select.
  destruct (c || ts_closed x), ev; apply set_reader_step; rewrite ?Hr; set_solver.
Qed.

Lemma set_handled_ok x h : session_ok x -> session_ok (set_handled x h).
Proof. intros [Hc Ho Hl Hi]. by constructor. Qed.

Lemma set_handled_step x h y : session_step (set_handled x h) y -> session_step x y.
Proof. by intros []; constructor. Qed.

Lemma reader_read_step f lim x ev y :
  session_ok x -> ts_reader x = RRead -> reader_read f lim x ev = Some y -> session_step x y.
Proof.
  intros Hok Hr Hy. unfold reader_read in Hy.
  assert (forall r, r ∈ [RLoop; RRead; RClose] -> session_step x (set_reader x r)) as Hstep
    by (intros; apply set_reader_step; rewrite ?Hr; set_solver).
  unfold kcp_read, wss_read, deliver in Hy. destruct f, ev; simplify_eq; try (apply Hstep; set_solver).
  all: repeat case_match; simplify_eq; try (apply Hstep; set_solver).
  all: eapply set_handled_step, set_reader_step;
    [by apply set_handled_ok | cbn [ts_reader set_handled]; rewrite Hr; set_solver | set_solver].
Qed.

Lemma reader_spawn_step x :
  session_ok x -> ts_reader x = RSpawned -> session_step x (set_writer (set_reader x RLoop) WLoop).
Proof.
  intros [Hc Ho Hl Hi] H. destruct x as [id cap q pe cl on r w ac wr ha]. session_cbn. subst r w.
  session_crush.
Qed.

Lemma reader_closed_step x :
  session_ok x -> ts_reader x = RClose -> ts_once x = OnceDone -> session_step x (set_reader x RWgDone).
Proof.
  intros [Hc Ho Hl Hi] H Hd. destruct x as [id cap q pe cl on r w ac wr ha]. session_cbn. subst r on.
  session_crush.
Qed.

Lemma reader_done_step x :
  session_ok x -> ts_reader x = RWgDone -> session_step x (set_reader x RDone).
Proof.
  intros [Hc Ho Hl Hi] H. destruct x as [id cap q pe cl on r w ac wr ha]. session_cbn. subst r.
  session_crush.
Qed.

Lemma writer_done_step x :
  session_ok x -> ts_writer x = WWgDone -> session_step x (set_writer x WDone).
Proof.
  intros [Hc Ho Hl Hi] H. destruct x as [id cap q pe cl on r w ac wr ha]. session_cbn. subst w.
  destruct r; session_crush.
Qed.

Lemma writer_step_step c x ev y :
  session_ok x -> writer_step c x ev = Some y -> session_step x y.
Proof.
  intros Hok Hy. pose proof (in_order_prefix x (so_order _ Hok)) as Hp. destruct Hok as [Hc Ho Hl Hi].
  destruct x as [id cap q pe cl on r w ac wr ha]. unfold writer_step in Hy. session_cbn.
  destruct w, ev; simplify_eq; repeat case_match; simplify_eq; session_cbn; simplify_eq.
  all: constructor; [constructor | ..]; session_cbn; simplify_eq/=; try (done || lia || by destruct r).
  all: first [by rewrite <- app_assoc | by destruct Hl].
Qed.

Lemma send_drop_step x p : session_ok x -> session_step x (set_queue x (ts_queue x) p).
Proof. by intros [Hc Ho Hl Hi]; constructor; [constructor | ..]. Qed.

Lemma Send_check_step x data y : session_ok x -> Send_check x data = (y, None) -> session_step x y.
Proof. intros Hok. unfold Send_check. destruct (IsClosed x); intros; simplify_eq. by apply send_drop_step. Qed.

Lemma Send_push_step x p data :
  session_ok x -> session_step x (Send_push (set_queue x (ts_queue x) p) data).1.
Proof.
  intros Hok. unfold Send_push. case_match; [| by apply send_drop_step]. destruct Hok as [Hc Ho Hl Hi].
  destruct x as [id cap q pe cl on r w ac wr ha]. simpl. session_cbn. go_bool.
  constructor; [constructor | ..]; session_cbn; try done.
  - rewrite length_app. simpl. lia.
  - destruct w; subst; rewrite <- ?app_assoc; try done; by apply prefix_app_r.
Qed.

(** ** The server *)

(** The session an accepting goroutine is about to register, start or close. *)
Definition pc_loc (pc : AcceptPC) : option tloc :=
  match pc with AGot l | AReg l | AClose l => Some l | AWait | AWgDone | ADone => None end.

(** Whether the goroutine that accepts or serves is counted. *)
Definition accept_live (s : Server) : nat :=
  match sv_acceptors s !! 0%nat with Some ADone | None => 0 | Some _ => 1 end.

Record tinv (s : Server) : Prop := {
  ti_wg : sv_wg s = Z.of_nat (accept_live s + map_sum live (sv_heap s));
  ti_stop : match sv_stop s with
            | StIdle => True
            | _ => sv_running s = false /\ sv_ctxDone s = true
            end;
  (* only a KCP server accepts in goroutine 0; the handlers of the other hold a session *)
  ti_acc : forall k pc, sv_acceptors s !! k = Some pc ->
    match sv_flavor s with
    | FKCP => k = 0%nat
    | FWSS => k = 0%nat <-> pc_loc pc = None
    end;
  ti_pc : forall k pc l, sv_acceptors s !! k = Some pc -> pc_loc pc = Some l ->
    exists x, sv_heap s !! l = Some x /\ ts_reader x = RNone /\ (pc = AGot l -> ts_once x = OnceIdle);
  (* ... and one that is not registered yet is unknown to everybody else *)
  ti_got : forall k l, sv_acceptors s !! k = Some (AGot l) ->
    (forall id, sv_sessions s !! id <> Some l) /\ (forall ls, sv_stop s = StClosing ls -> l ∉ ls);
  ti_uniq : forall k k' pc pc' l, sv_acceptors s !! k = Some pc -> sv_acceptors s !! k' = Some pc' ->
    pc_loc pc = Some l -> pc_loc pc' = Some l -> k = k';
  ti_heap : forall l x, sv_heap s !! l = Some x -> (l < sv_next s)%nat /\ session_ok x;
  (* a session without a read loop is being handled by a goroutine, or closed *)
  ti_held : forall l x, sv_heap s !! l = Some x -> ts_reader x = RNone ->
    ts_once x = OnceDone \/ exists k pc, sv_acceptors s !! k = Some pc /\ pc_loc pc = Some l;
  ti_map : forall id l, sv_sessions s !! id = Some l ->
    exists x, sv_heap s !! l = Some x /\ ts_id x = id /\ ts_once x <> OnceDone;
  ti_snap : forall ls l, sv_stop s = StClosing ls -> l ∈ ls -> is_Some (sv_heap s !! l);
  ti_ret : sv_flavor s = FKCP -> sv_stop s = StReturned -> sv_wg s = 0 }.

Ltac sv_cbn :=
  unfold accept_live in *;
  cbn [sv_flavor sv_cfg sv_running sv_ctxDone sv_listening sv_heap sv_next sv_sessions sv_acceptors
       sv_wg sv_count sv_stop upd_heap upd_sessions upd_acceptors upd_wg upd_stop put] in *.

(** A step of one session's goroutines, with the wait group adjusted by the
    goroutines it starts or ends. *)
Lemma tinv_put s l x y wg :
  tinv s -> sv_heap s !! l = Some x -> session_step x y ->
  (forall k, sv_acceptors s !! k = Some (AGot l) -> ts_once y = OnceIdle) ->
  wg = sv_wg s + Z.of_nat (live y) - Z.of_nat (live x) ->
  tinv (upd_wg (put s l y) wg).
Proof.
  intros [] Hx [] Hgot ->. pose proof (map_sum_insert live _ _ _ y Hx) as Hsum.
  pose proof (map_sum_ge live _ _ _ Hx) as Hge.
  constructor; sv_cbn; try done.
  - lia.
  - intros k pc l' Hk Hl. destruct (decide (l' = l)) as [-> |].
    + exists y. rewrite lookup_insert_eq. destruct (ti_pc0 _ _ _ Hk Hl) as (x' & ? & ? & ?).
      simplify_eq. split; [done |]. split; [tauto |]. intros ->. by eapply Hgot.
    + rewrite lookup_insert_ne by done. by eapply ti_pc0.
  - intros l' x'. destruct (decide (l' = l)) as [-> |].
    + rewrite lookup_insert_eq. intros. simplify_eq. split; [by eapply ti_heap0 | done].
    + rewrite lookup_insert_ne by done. apply ti_heap0.
  - intros l' x'. destruct (decide (l' = l)) as [-> |].
    + rewrite lookup_insert_eq. intros. simplify_eq. rewrite st_done0. apply ti_held0; tauto.
    + rewrite lookup_insert_ne by done. apply ti_held0.
  - intros id l' Hl. destruct (ti_map0 _ _ Hl) as (x' & Hx' & ? & ?). destruct (decide (l' = l)) as [-> |].
    + exists y. rewrite lookup_insert_eq. simplify_eq. split; [done |]. split; [congruence | tauto].
    + exists x'. by rewrite lookup_insert_ne.
  - intros ls l' Hst Hl. destruct (decide (l' = l)) as [-> |].
    + rewrite lookup_insert_eq. eauto.
    + rewrite lookup_insert_ne by done. eauto.
  - intros Hf Hst. specialize (ti_ret0 Hf Hst). lia.
Qed.

(** The last stage of closing: the session leaves the map. *)
Lemma tinv_close_remove s l x :
  tinv s -> sv_heap s !! l = Some x -> ts_once x = OnceRemove ->
  tinv (removeSession (put s l (set_once x (ts_closed x) OnceDone)) (ts_id x)).
Proof.
  intros [] Hx Honce. destruct (ti_heap0 _ _ Hx) as [Hlt Hok].
  assert (live (set_once x (ts_closed x) OnceDone) = live x) as Hlive by done.
  pose proof (map_sum_insert live _ _ _ (set_once x (ts_closed x) OnceDone) Hx) as Hsum.
  constructor; unfold removeSession; sv_cbn; try done.
  - lia.
  - intros k pc l' Hk Hl. destruct (ti_pc0 _ _ _ Hk Hl) as (x' & Hx' & Hr & Hg).
    destruct (decide (l' = l)) as [-> |].
    + eexists. rewrite lookup_insert_eq. simplify_eq. split; [done |]. split; [done |].
      intros E. apply Hg in E. congruence.
    + rewrite lookup_insert_ne by done. eauto.
  - intros k l' Hk. destruct (ti_got0 _ _ Hk) as [Hm ?]. split; [| done].
    intros id [_ E]%lookup_delete_Some. by apply Hm in E.
  - intros l' x'. destruct (decide (l' = l)) as [-> |].
    + rewrite lookup_insert_eq. intros. simplify_eq. split; [done |].
      by apply close_remove_ok.
    + rewrite lookup_insert_ne by done. apply ti_heap0.
  - intros l' x'. destruct (decide (l' = l)) as [-> |].
    + rewrite lookup_insert_eq. intros. simplify_eq. by left.
    + rewrite lookup_insert_ne by done. apply ti_held0.
  - intros id l' [Hne Hl]%lookup_delete_Some. destruct (ti_map0 _ _ Hl) as (x' & Hx' & ? & ?).
    exists x'. rewrite lookup_insert_ne; [done |]. congruence.
  - intros ls l' Hst Hl. destruct (decide (l' = l)) as [-> |].
    + rewrite lookup_insert_eq. eauto.
    + rewrite lookup_insert_ne by done. eauto.
Qed.

Lemma live_new id c : live (newSession id c) = 0%nat.
Proof. done. Qed.

Lemma heap_fresh s : tinv s -> sv_heap s !! sv_next s = None.
Proof.
  intros Hi. destruct (sv_heap s !! sv_next s) as [x |] eqn:E; [| done].
  apply (ti_heap _ Hi) in E as [? _]. lia.
Qed.

(** A new session in the hands of goroutine [k]. *)
Lemma tinv_accept_new s k :
  tinv s ->
  match sv_flavor s with
  | FKCP => k = 0%nat /\ sv_acceptors s !! 0%nat = Some AWait
  | FWSS => k <> 0%nat /\ sv_acceptors s !! k = None
  end -> tinv (accept_new s k).
Proof.
  intros Hinv Hk. pose proof (heap_fresh s Hinv) as Hf. destruct Hinv.
  pose proof (map_sum_insert_fresh live _ _ (newSession (session_name (sv_flavor s) (u64 (sv_count s + 1))) (sv_cfg s)) Hf) as Hsum.
  assert (forall k' pc, sv_acceptors s !! k' = Some pc -> pc_loc pc <> Some (sv_next s)) as Hnew.
  { intros k' pc Hpc Hl. destruct (ti_pc0 _ _ _ Hpc Hl) as (x & Hx & _). congruence. }
  assert (forall l x, sv_heap s !! l = Some x -> l <> sv_next s) as Hne.
  { intros l x Hl ->. congruence. }
  constructor; unfold accept_new; sv_cbn; try done.
  - rewrite Hsum, live_new. destruct (sv_flavor s).
    + destruct Hk as [-> Hk]. rewrite lookup_insert_eq. rewrite Hk in ti_wg0. lia.
    + rewrite lookup_insert_ne by naive_solver. lia.
  - intros k' pc Hpc. destruct (decide (k' = k)) as [-> |].
    + rewrite lookup_insert_eq in Hpc. simplify_eq/=. destruct (sv_flavor s); naive_solver.
    + rewrite lookup_insert_ne in Hpc by done. by apply ti_acc0.
  - intros k' pc l Hpc Hl. destruct (decide (k' = k)) as [-> |].
    + rewrite lookup_insert_eq in Hpc. simplify_eq/=. rewrite lookup_insert_eq. by eexists.
    + rewrite lookup_insert_ne in Hpc by done. destruct (ti_pc0 _ _ _ Hpc Hl) as (x & Hx & ?).
      exists x. rewrite lookup_insert_ne by (specialize (Hne _ _ Hx); done). done.
  - intros k' l [[<- [= <-]] | [? Hl]]%lookup_insert_Some; [| by eapply ti_got0]. split.
    + intros id Hl. apply ti_map0 in Hl as (x & Hx & _). congruence.
    + intros ls Hst Hl. apply (ti_snap0 _ _ Hst) in Hl as [x Hx]. congruence.
  - intros k1 k2 pc1 pc2 l [[<- <-] | [? H1]]%lookup_insert_Some [[<- <-] | [? H2]]%lookup_insert_Some Hl1 Hl2;
      simplify_eq/=; try done.
    + by destruct (Hnew _ _ H2).
    + by destruct (Hnew _ _ H1).
    + by eapply ti_uniq0.
  - intros l x Hx. destruct (decide (l = sv_next s)) as [-> |].
    + rewrite lookup_insert_eq in Hx. simplify_eq. split; [lia | apply newSession_ok].
    + rewrite lookup_insert_ne in Hx by done. destruct (ti_heap0 _ _ Hx). split; [lia | done].
  - intros l x Hx Hr. destruct (decide (l = sv_next s)) as [-> |].
    + right. exists k, (AGot (sv_next s)). by rewrite lookup_insert_eq.
    + rewrite lookup_insert_ne in Hx by done. destruct (ti_held0 _ _ Hx Hr) as [? | (k' & pc & Hpc & Hl)]; [by left |].
      right. exists k', pc. split; [| done]. rewrite lookup_insert_ne; [done |]. intros <-.
      destruct (sv_flavor s); destruct Hk as [? Hk]; subst; congruence || (rewrite Hk in Hpc; by simplify_eq).
  - intros id l Hl. destruct (ti_map0 _ _ Hl) as (x & Hx & ?). exists x.
    rewrite lookup_insert_ne by (specialize (Hne _ _ Hx); done). done.
  - intros ls l Hst Hl. apply (ti_snap0 _ _ Hst) in Hl as [x Hx].
    rewrite lookup_insert_ne by (specialize (Hne _ _ Hx); done). eauto.
Qed.

(** An accepting goroutine moves on, keeping the session it holds or handing it
    over; a handler goroutine may also end. *)
Lemma tinv_pc s k pc (o : option AcceptPC) wg :
  let acc := partial_alter (fun _ => o) k (sv_acceptors s) in
  tinv s -> sv_acceptors s !! k = Some pc -> pc <> ADone ->
  match o with
  | Some pc' => (pc_loc pc' = pc_loc pc /\ (forall l, pc' <> AGot l)) \/ pc_loc pc' = None
  | None => True
  end ->
  (sv_flavor s = FKCP -> o <> None) ->
  (sv_flavor s = FWSS -> match o with Some pc' => k = 0%nat <-> pc_loc pc' = None | None => k <> 0%nat end) ->
  (forall l x, pc_loc pc = Some l -> sv_heap s !! l = Some x -> ts_reader x = RNone ->
     ts_once x = OnceDone \/ exists pc', o = Some pc' /\ pc_loc pc' = Some l) ->
  wg = sv_wg s + Z.of_nat (accept_live (upd_acceptors s acc)) - Z.of_nat (accept_live s) ->
  tinv (upd_wg (upd_acceptors s acc) wg).
Proof.
  intros acc Hinv Hk Hnd Ho Hkcp Hwss Hrel ->. destruct Hinv. subst acc.
  constructor; sv_cbn; try done.
  - lia.
  - intros k' pc' Hpc. destruct (decide (k' = k)) as [-> |].
    + rewrite lookup_partial_alter_eq in Hpc. subst o. specialize (ti_acc0 _ _ Hk).
      destruct (sv_flavor s); [done | by apply Hwss].
    + rewrite lookup_partial_alter_ne in Hpc by done. by apply ti_acc0.
  - intros k' pc' l Hpc Hl. destruct (decide (k' = k)) as [-> |].
    + rewrite lookup_partial_alter_eq in Hpc. subst o. destruct Ho as [[Hs Hg] |]; [| congruence].
      rewrite Hs in Hl. destruct (ti_pc0 _ _ _ Hk Hl) as (x & ? & ? & ?). exists x. naive_solver.
    + rewrite lookup_partial_alter_ne in Hpc by done. by eapply ti_pc0.
  - intros k' l Hpc. destruct (decide (k' = k)) as [-> |].
    + rewrite lookup_partial_alter_eq in Hpc. subst o. destruct Ho as [[_ Hg] |]; [by destruct (Hg l) | done].
    + rewrite lookup_partial_alter_ne in Hpc by done. by eapply ti_got0.
  - assert (forall k' pc' l, partial_alter (fun _ => o) k (sv_acceptors s) !! k' = Some pc' -> pc_loc pc' = Some l ->
      exists pc'', sv_acceptors s !! k' = Some pc'' /\ pc_loc pc'' = Some l) as Hold.
    { intros k' pc' l Hpc Hl. destruct (decide (k' = k)) as [-> |].
      - rewrite lookup_partial_alter_eq in Hpc. subst o. exists pc. destruct Ho as [[Hs _] |]; [| congruence].
        split; [done | congruence].
      - rewrite lookup_partial_alter_ne in Hpc by done. eauto. }
    intros k1 k2 pc1 pc2 l H1 H2 Hl1 Hl2.
    destruct (Hold _ _ _ H1 Hl1) as (pc1' & ? & ?), (Hold _ _ _ H2 Hl2) as (pc2' & ? & ?). by eapply ti_uniq0.
  - intros l x Hx Hr. destruct (ti_held0 _ _ Hx Hr) as [? | (k' & pc' & Hpc & Hl)]; [by left |].
    destruct (decide (k' = k)) as [-> |].
    + simplify_eq. destruct (Hrel _ _ Hl Hx Hr) as [? | (pc' & -> & ?)]; [by left | right].
      exists k, pc'. by rewrite lookup_partial_alter_eq.
    + right. exists k', pc'. by rewrite lookup_partial_alter_ne.
  - intros Hf Hst. specialize (ti_ret0 Hf Hst). specialize (ti_acc0 _ _ Hk). rewrite Hf in ti_acc0. subst k.
    rewrite Hk in ti_wg0. destruct pc; simpl in *; lia || done.
Qed.

Lemma tinv_track s l x :
  tinv s -> sv_heap s !! l = Some x -> ts_once x <> OnceDone ->
  (forall k, sv_acceptors s !! k <> Some (AGot l)) ->
  tinv (upd_sessions s (<[ts_id x := l]> (sv_sessions s))).
Proof.
  intros [] Hx Ho Hg. constructor; sv_cbn; try done.
  - intros k l' Hk. destruct (ti_got0 _ _ Hk) as [Hm ?]. split; [| done].
    intros id [[<- <-] | [? E]]%lookup_insert_Some; [by eapply Hg | by apply Hm in E].
  - intros id l' [[<- <-] | [? Hl]]%lookup_insert_Some; eauto.
Qed.

Lemma accept_next_fields s k :
  let s' := accept_next s k in
  s' = upd_acceptors s (partial_alter
    (fun _ => match sv_flavor s with FKCP => Some AWait | FWSS => None end) k (sv_acceptors s)).
Proof. unfold accept_next. by destruct (sv_flavor s). Qed.

Lemma accept_leave_fields s k :
  let s' := accept_leave s k in
  s' = upd_acceptors s (partial_alter
    (fun _ => match sv_flavor s with FKCP => Some AWgDone | FWSS => None end) k (sv_acceptors s)).
Proof. unfold accept_leave. by destruct (sv_flavor s). Qed.

(** The read loop of a registered session is started. *)
Lemma tinv_start s k l x :
  tinv s -> sv_acceptors s !! k = Some (AReg l) -> sv_heap s !! l = Some x ->
  tinv (upd_wg (accept_next (put s l (set_reader x RSpawned)) k) (sv_wg s + 1)).
Proof.
  intros Hinv Hk Hx. rewrite accept_next_fields.
  destruct (ti_pc _ Hinv _ _ _ Hk eq_refl) as (x' & ? & Hr & _). simplify_eq.
  destruct (ti_heap _ Hinv _ _ Hx) as [Hlt Hok].
  assert (live x = 0%nat) as Hl0.
  { pose proof (so_loops _ Hok) as Hl. unfold loops_ok, live in *. rewrite Hr in *. by rewrite Hl. }
  assert (live (set_reader x RSpawned) = 1%nat) as Hl1.
  { pose proof (so_loops _ Hok) as Hl. unfold loops_ok, live in *. rewrite Hr in *. simpl. by rewrite Hl. }
  pose proof (map_sum_insert live _ _ _ (set_reader x RSpawned) Hx) as Hsum. rewrite Hl0, Hl1 in Hsum.
  assert (forall k', k' <> k -> forall pc', sv_acceptors s !! k' = Some pc' -> pc_loc pc' <> Some l) as Hother.
  { intros k' Hne pc' Hpc Hl. apply Hne. by eapply (ti_uniq _ Hinv). }
  destruct Hinv. pose proof (ti_acc0 _ _ Hk) as Hk0. constructor; sv_cbn; try done.
  - destruct (sv_flavor s).
    + subst k. rewrite lookup_partial_alter_eq. rewrite Hk in ti_wg0. lia.
    + rewrite lookup_partial_alter_ne by naive_solver. lia.
  - intros k' pc Hpc. destruct (decide (k' = k)) as [-> |].
    + rewrite lookup_partial_alter_eq in Hpc. destruct (sv_flavor s); by simplify_eq.
    + rewrite lookup_partial_alter_ne in Hpc by done. by apply ti_acc0.
  - intros k' pc l' Hpc Hl. destruct (decide (k' = k)) as [-> |].
    + rewrite lookup_partial_alter_eq in Hpc. destruct (sv_flavor s); by simplify_eq.
    + rewrite lookup_partial_alter_ne in Hpc by done.
      rewrite lookup_insert_ne by (intros ->; by eapply Hother). by eapply ti_pc0.
  - intros k' l' Hpc. destruct (decide (k' = k)) as [-> |].
    + rewrite lookup_partial_alter_eq in Hpc. destruct (sv_flavor s); by simplify_eq.
    + rewrite lookup_partial_alter_ne in Hpc by done. by eapply ti_got0.
  - intros k1 k2 pc1 pc2 l' H1 H2 Hl1' Hl2.
    destruct (decide (k1 = k)) as [-> |];
      [rewrite lookup_partial_alter_eq in H1; destruct (sv_flavor s); by simplify_eq |].
    destruct (decide (k2 = k)) as [-> |];
      [rewrite lookup_partial_alter_eq in H2; destruct (sv_flavor s); by simplify_eq |].
    rewrite lookup_partial_alter_ne in H1, H2 by done. by eapply ti_uniq0.
  - intros l' x' [[<- <-] | [? Hx']]%lookup_insert_Some; [| by apply ti_heap0]. split; [done |].
    destruct Hok as [? ? Hl ?]. constructor; try done. unfold loops_ok in *. by rewrite Hr in Hl.
  - intros l' x' [[<- <-] | [? Hx']]%lookup_insert_Some Hr'; [done |].
    destruct (ti_held0 _ _ Hx' Hr') as [? | (k' & pc' & Hpc & Hl)]; [by left | right].
    exists k', pc'. rewrite lookup_partial_alter_ne; [done |]. intros <-. by simplify_eq/=.
  - intros id l' Hl. destruct (ti_map0 _ _ Hl) as (x' & Hx' & ? & ?). destruct (decide (l' = l)) as [-> |].
    + exists (set_reader x RSpawned). rewrite lookup_insert_eq. by simplify_eq.
    + exists x'. by rewrite lookup_insert_ne.
  - intros ls l' Hst Hl. apply (ti_snap0 _ _ Hst) in Hl as [x' Hx'].
    destruct (decide (l' = l)) as [-> |]; [rewrite lookup_insert_eq | rewrite lookup_insert_ne by done]; eauto.
  - intros Hf Hst. specialize (ti_ret0 Hf Hst). rewrite Hf in Hk0. subst k. rewrite Hk in ti_wg0. lia.
Qed.

(** ** Every step *)

Lemma tinv_close_call s l x k s' :
  tinv s -> sv_heap s !! l = Some x -> (forall k', sv_acceptors s !! k' <> Some (AGot l)) ->
  (ts_once x = OnceDone -> tinv k) -> close_call s l x k = Some s' -> tinv s'.
Proof.
  intros Hi Hx Hg Hk. unfold close_call. destruct (ts_once x) eqn:Ho; intros; simplify_eq; [| by apply Hk].
  apply (tinv_put s l x _ (sv_wg s)); [done | done | | naive_solver | unfold live; simpl; lia].
  apply close_begin_step; [by eapply ti_heap | done].
Qed.

Lemma started_not_got s l x :
  tinv s -> sv_heap s !! l = Some x -> ts_reader x <> RNone \/ ts_once x <> OnceIdle ->
  forall k, sv_acceptors s !! k <> Some (AGot l).
Proof.
  intros Hi Hx Hr k Hk. destruct (ti_pc _ Hi _ _ _ Hk eq_refl) as (x' & ? & ? & Ho). simplify_eq. naive_solver.
Qed.

(** A step of a session's goroutines that leaves the wait group alone, or
    counts what it starts or ends. *)
Lemma tinv_session_step s l x y wg :
  tinv s -> sv_heap s !! l = Some x -> ts_reader x <> RNone \/ ts_once y = ts_once x -> session_step x y ->
  wg = sv_wg s + Z.of_nat (live y) - Z.of_nat (live x) -> tinv (upd_wg (put s l y) wg).
Proof.
  intros Hi Hx Hr Hs Hwg. apply (tinv_put s l x); try done. intros k Hk.
  destruct (ti_pc _ Hi _ _ _ Hk eq_refl) as (x' & ? & ? & Ho). simplify_eq.
  destruct Hr as [Hr | Hr]; [done | rewrite Hr; by apply Ho].
Qed.

Lemma reader_select_live c x ev : ts_reader x = RLoop -> live (reader_select c x ev) = live x.
Proof. intros Hr. unfold live, reader_select. rewrite Hr. by destruct (c || ts_closed x), ev. Qed.

Lemma reader_read_live f lim x ev y :
  ts_reader x = RRead -> reader_read f lim x ev = Some y -> live y = live x.
Proof.
  intros Hr Hy. unfold live, reader_read in *. rewrite Hr.
  unfold kcp_read, wss_read, deliver in Hy. destruct f, ev; simplify_eq; try done; destruct (lim <? len data); simplify_eq; by destruct (0 <? len data).
Qed.

Lemma tinv_reader s l x ev s' :
  tinv s -> sv_heap s !! l = Some x -> reader_step s l x ev = Some s' -> tinv s'.
Proof.
  intros Hi Hx Hs. destruct (ti_heap _ Hi _ _ Hx) as [_ Hok]. unfold reader_step in Hs.
  destruct (ts_reader x) eqn:Hr; simplify_eq.
  - pose proof (so_loops _ Hok) as Hl. unfold loops_ok in Hl. rewrite Hr in Hl.
    apply (tinv_session_step s l x); [done | done | left; congruence | by apply reader_spawn_step |].
    unfold live. rewrite Hr, Hl. simpl. lia.
  - apply (tinv_session_step s l x _ (sv_wg s)); [done | done | left; congruence | by apply reader_select_step |].
    rewrite reader_select_live by done. lia.
  - destruct (reader_read _ _ _ _) as [y |] eqn:Hy; simplify_eq/=.
    apply (tinv_session_step s l x _ (sv_wg s)); [done | done | left; congruence | by eapply reader_read_step |].
    rewrite (reader_read_live _ _ _ _ _ Hr Hy). lia.
  - apply (tinv_close_call s l x _ s') in Hs; [done | done | done | eapply started_not_got; [done.. | left; congruence] |].
    intros Ho. apply (tinv_session_step s l x _ (sv_wg s)); [done | done | left; congruence | by apply reader_closed_step |].
    unfold live. rewrite Hr. simpl. lia.
  - apply (tinv_session_step s l x); [done | done | left; congruence | by apply reader_done_step |].
    unfold live. rewrite Hr. simpl. lia.
Qed.

Lemma writer_step_live c x ev y : writer_step c x ev = Some y -> live y = live x /\ ts_once y = ts_once x.
Proof.
  unfold writer_step. destruct x as [id cap q pe cl on r w ac wr ha]. simpl. intros Hy.
  destruct w, ev; simplify_eq; try (by split); destruct q, c, cl; by simplify_eq.
Qed.

Lemma tinv_writer s l x ev s' :
  tinv s -> sv_heap s !! l = Some x -> writer_loop s l x ev = Some s' -> tinv s'.
Proof.
  intros Hi Hx Hs. destruct (ti_heap _ Hi _ _ Hx) as [_ Hok]. unfold writer_loop in Hs.
  assert (forall y, writer_step (sv_ctxDone s) x ev = Some y -> tinv (put s l y)) as Hstep.
  { intros y Hy. destruct (writer_step_live _ _ _ _ Hy) as [Hl Ho].
    apply (tinv_session_step s l x _ (sv_wg s)); [done | done | by right | by eapply writer_step_step |].
    rewrite Hl. lia. }
  destruct (ts_writer x) eqn:Hw.
  5: { simplify_eq. apply (tinv_session_step s l x); [done | done | by right | by apply writer_done_step |].
       unfold live. rewrite Hw. simpl. lia. }
  all: destruct (writer_step _ _ _) as [y |]; simplify_eq/=; by apply Hstep.
Qed.

Lemma tinv_pc_keep s k l pc :
  tinv s -> sv_acceptors s !! k = Some (AGot l) -> pc_loc pc = Some l -> pc <> AGot l ->
  tinv (upd_acceptors s (<[k := pc]> (sv_acceptors s))).
Proof.
  intros Hi Hk Hl Hg. pose proof (ti_acc _ Hi _ _ Hk) as Hk0.
  apply (tinv_pc s k (AGot l) (Some pc) (sv_wg s)); try done.
  - left. split; [done |]. intros l' ->. by simplify_eq/=.
  - intros Hf. rewrite Hf in Hk0. by rewrite Hl.
  - intros l' x' [= <-] _ _. right. eauto.
  - unfold accept_live. sv_cbn. destruct (decide (k = 0%nat)) as [-> |].
    + rewrite lookup_partial_alter_eq, Hk. destruct pc; done || lia.
    + rewrite lookup_partial_alter_ne by done. lia.
Qed.

(** Goroutine [k] moves on within the accept loop or the serve loop. *)
Lemma tinv_acceptor s k s' : tinv s -> acceptor_step s k = Some s' -> tinv s'.
Proof.
  intros Hi Hs. unfold acceptor_step in Hs. destruct (sv_acceptors s !! k) as [pc |] eqn:Hk; simplify_eq/=.
  pose proof (ti_acc _ Hi _ _ Hk) as Hk0.
  destruct pc as [| l | l | l | |]; simplify_eq/=.
  - destruct (ti_pc _ Hi _ _ _ Hk eq_refl) as (x & Hx & Hr & Ho). rewrite Hx in Hs. simplify_eq/=.
    unfold register. destruct (sv_running s).
    + change (tinv (upd_sessions (upd_acceptors s (<[k := AReg l]> (sv_acceptors s))) (<[ts_id x := l]> (sv_sessions s)))).
      apply (tinv_track (upd_acceptors s (<[k := AReg l]> (sv_acceptors s))) l x); [| done | by rewrite Ho |].
      2: { cbn [sv_acceptors upd_acceptors]. intros k' [[<- ?] | [? Hk']]%lookup_insert_Some; [done |].
           by destruct (ti_uniq _ Hi _ _ _ _ l Hk Hk' eq_refl eq_refl). }
      by apply (tinv_pc_keep s k l).
    + by apply (tinv_pc_keep s k l).
  - destruct (sv_heap s !! l) as [x |] eqn:Hx; simplify_eq/=. by apply tinv_start.
  - destruct (ti_pc _ Hi _ _ _ Hk eq_refl) as (x & Hx & Hr & Ho). rewrite Hx in Hs. simpl in Hs.
    apply (tinv_close_call s l x _ s') in Hs; [done | done | done | |].
    + intros k' Hk'. pose proof (ti_uniq _ Hi _ _ _ _ l Hk Hk' eq_refl eq_refl). by simplify_eq.
    + intros Hd. rewrite accept_leave_fields. apply (tinv_pc s k (AClose l) _ (sv_wg s)); try done.
      * destruct (sv_flavor s); [by right | done].
      * by intros ->.
      * intros Hf. rewrite Hf in *. intros E. by apply Hk0 in E.
      * intros l' x' ? ? ?. simplify_eq/=. by left.
      * unfold accept_live. sv_cbn. destruct (decide (k = 0%nat)) as [-> |].
        -- rewrite lookup_partial_alter_eq, Hk. destruct (sv_flavor s); [lia |]. by assert (Some l = None) by by apply Hk0.
        -- rewrite lookup_partial_alter_ne by done. lia.
  - apply (tinv_pc s k AWgDone (Some ADone)); try done; [by right | by intros Hf; rewrite Hf in Hk0 |].
    unfold accept_live. sv_cbn. assert (k = 0%nat) as -> by (destruct (sv_flavor s); [done | by apply Hk0]).
    rewrite lookup_partial_alter_eq, Hk. lia.
Qed.

(** ** What a step does to one session *)

(** [sending] tells the effects of [Send] from the others. *)
Inductive session_change (s : Server) (x : TSession) : bool -> TSession -> Prop :=
  | ch_none b : session_change s x b x
  | ch_once c o : session_change s x false (set_once x c o)
  | ch_spawn : ts_reader x = RSpawned -> session_change s x false (set_writer (set_reader x RLoop) WLoop)
  | ch_reader r : session_change s x false (set_reader x r)
  | ch_read ev y : reader_read (sv_flavor s) (maxSize (sv_flavor s) (sv_cfg s)) x ev = Some y -> session_change s x false y
  | ch_write ev y : writer_step (sv_ctxDone s) x ev = Some y -> session_change s x false y
  | ch_write_done : session_change s x false (set_writer x WDone)
  | ch_send_check p : session_change s x true (set_queue x (ts_queue x) p)
  | ch_send_push p data : session_change s x true (Send_push (set_queue x (ts_queue x) p) data).1.

Definition is_send (lab : TLabel) : bool :=
  match lab with TSendCheck _ _ | TSendPush _ _ => true | _ => false end.

Section runs.
Context `{GR : !GoRange}.

Lemma Stop_begin_eq site s :
  sv_running s = true ->
  Stop_begin site s =
    MkServer (sv_flavor s) (sv_cfg s) false true (match sv_flavor s with FKCP => false | FWSS => sv_listening s end)
      (sv_heap s) (sv_next s) (sv_sessions s) (sv_acceptors s) (sv_wg s) (sv_count s)
      (StClosing (snd <$> range site (sv_sessions s))).
Proof. intros Hr. unfold Stop_begin, KCP_Stop_begin, WSS_Stop_begin. rewrite Hr. by destruct (sv_flavor s). Qed.

(** What a step does to the heap: nothing, a change of one session, or a new
    session. *)
Inductive heap_change (s : Server) (b : bool) (h : gmap tloc TSession) : Prop :=
  | hc_same : h = sv_heap s -> heap_change s b h
  | hc_put l x y : sv_heap s !! l = Some x -> session_change s x b y -> h = <[l := y]> (sv_heap s) -> heap_change s b h
  | hc_new id c : h = <[sv_next s := newSession id c]> (sv_heap s) -> heap_change s b h.

Lemma close_call_heap s l x k s' :
  sv_heap s !! l = Some x -> close_call s l x k = Some s' -> heap_change s false (sv_heap k) ->
  heap_change s false (sv_heap s').
Proof.
  intros Hx Hc Hk. unfold close_call in Hc. destruct (ts_once x); simplify_eq; [| done].
  by eapply hc_put; [done | constructor |].
Qed.

Lemma reader_heap s l x ev s' :
  sv_heap s !! l = Some x -> reader_step s l x ev = Some s' -> heap_change s false (sv_heap s').
Proof.
  intros Hx Hs. unfold reader_step in Hs.
  destruct (ts_reader x) eqn:Hr; simplify_eq; try (by eapply hc_put; [done | constructor |]).
  - eapply hc_put; [done | | done]. unfold reader_select. repeat case_match; constructor.
  - destruct (reader_read _ _ _ _) as [y |] eqn:Hy; simplify_eq/=. by eapply hc_put; [done | econstructor |].
  - eapply close_call_heap; [done.. |]. by eapply hc_put; [done | constructor |].
Qed.

Lemma writer_heap s l x ev s' :
  sv_heap s !! l = Some x -> writer_loop s l x ev = Some s' -> heap_change s false (sv_heap s').
Proof.
  intros Hx Hs. unfold writer_loop in Hs.
  destruct (ts_writer x); simplify_eq; try (by eapply hc_put; [done | constructor |]).
  all: destruct (writer_step _ _ _) as [y |] eqn:Hy; simplify_eq/=; by eapply hc_put; [done | econstructor |].
Qed.

Lemma acceptor_heap s k s' : acceptor_step s k = Some s' -> heap_change s false (sv_heap s').
Proof.
  intros Hs. unfold acceptor_step in Hs. destruct (sv_acceptors s !! k) as [[] |]; simplify_eq/=; try by apply hc_same.
  all: destruct (sv_heap s !! l) as [x |] eqn:Hx; simplify_eq/=.
  - unfold register. destruct (sv_running s); by apply hc_same.
  - unfold accept_next. sv_cbn. destruct (sv_flavor s); by eapply hc_put; [done | constructor |].
  - eapply close_call_heap; [done.. |]. unfold accept_leave. destruct (sv_flavor s); by apply hc_same.
Qed.

Lemma texec_heap lab s s' : texec lab s = Some s' -> heap_change s (is_send lab) (sv_heap s').
Proof.
  intros Hs. destruct lab as [| k origin | | k | l ev | l ev | l | l | l data | l i | | site |]; simpl in Hs.
  - unfold kcp_accept in Hs. case_decide; simplify_eq. by eapply hc_new.
  - unfold handleUpgrade in Hs. case_decide; [| done]. case_match; simplify_eq. by eapply hc_new.
  - unfold accept_failed in Hs. case_decide; simplify_eq. by apply hc_same.
  - by eapply acceptor_heap.
  - destruct (sv_heap s !! l) eqn:Hx; simplify_eq/=. by eapply reader_heap.
  - destruct (sv_heap s !! l) eqn:Hx; simplify_eq/=. by eapply writer_heap.
  - destruct (sv_heap s !! l) as [x |] eqn:Hx; simplify_eq/=. unfold close_stage in Hs.
    destruct (ts_once x); simplify_eq; by eapply hc_put; [done | constructor |].
  - destruct (sv_heap s !! l) as [x |] eqn:Hx; simplify_eq/=.
    assert (s' = close_begin s l x) as -> by (repeat case_match; by simplify_eq). by eapply hc_put; [done | constructor |].
  - destruct (sv_heap s !! l) as [x |] eqn:Hx; simplify_eq/=. unfold Send_check in Hs.
    destruct (ts_reader x), (IsClosed x); simplify_eq; by eapply hc_put; [done | constructor |].
  - destruct (sv_heap s !! l) as [x |] eqn:Hx; simplify_eq/=. destruct (ts_pending x !! i); simplify_eq/=.
    by eapply hc_put; [done | constructor |].
  - simplify_eq. by apply hc_same.
  - destruct (sv_running s) eqn:Hr; simplify_eq. rewrite Stop_begin_eq by done. by apply hc_same.
  - unfold Stop_step in Hs. destruct (sv_stop s) as [| [| l0 ls] | | |]; simplify_eq; try by apply hc_same.
    + destruct (sv_heap s !! l0) as [x |] eqn:Hx; simplify_eq/=. eapply close_call_heap; [done.. | by apply hc_same].
    + case_match; simplify_eq. by apply hc_same.
Qed.

Lemma texec_session lab s s' l x :
  tinv s -> sv_heap s !! l = Some x -> texec lab s = Some s' ->
  exists x', sv_heap s' !! l = Some x' /\ session_change s x (is_send lab) x'.
Proof.
  intros Hi Hx Hs. destruct (texec_heap _ _ _ Hs) as [-> | l0 x0 y Hx0 Hy -> | id c ->].
  - exists x. split; [done | constructor].
  - destruct (decide (l0 = l)) as [-> |]; [rewrite lookup_insert_eq; simplify_eq; eauto |].
    rewrite lookup_insert_ne by done. exists x. split; [done | constructor].
  - rewrite lookup_insert_ne by (intros <-; by rewrite heap_fresh in Hx). exists x. split; [done | constructor].
Qed.

(** A session that was not there is new. *)
Lemma texec_new lab s s' l :
  sv_heap s !! l = None -> texec lab s = Some s' ->
  sv_heap s' !! l = None \/ exists id c, sv_heap s' !! l = Some (newSession id c).
Proof.
  intros Hl Hs. destruct (texec_heap _ _ _ Hs) as [-> | l0 x0 y Hx0 Hy -> | id c ->]; [by left | |].
  - left. rewrite lookup_insert_ne; [done | congruence].
  - destruct (decide (sv_next s = l)) as [-> |]; [rewrite lookup_insert_eq; eauto | left; by rewrite lookup_insert_ne].
Qed.

Lemma tinv_stop_begin site s : tinv s -> sv_running s = true -> tinv (Stop_begin site s).
Proof.
  intros [] Hr. rewrite Stop_begin_eq by done. constructor; sv_cbn; try done.
  - intros k l Hk. destruct (ti_got0 _ _ Hk) as [Hm _]. split; [done |].
    intros ls [= <-] ([id l'] & -> & Hin)%list_elem_of_fmap. apply elem_of_range in Hin. by apply Hm in Hin.
  - intros ls l [= <-] ([id l'] & -> & Hin)%list_elem_of_fmap.
    apply elem_of_range, ti_map0 in Hin as (x & ? & _). eauto.
Qed.

(** A later point of [Stop], with what is left of its snapshot. *)
Lemma tinv_upd_stop s b p :
  tinv s -> sv_stop s <> StIdle -> (p = StReturned -> sv_wg s = 0) ->
  (forall ls, p = StClosing ls -> exists ls', sv_stop s = StClosing ls' /\ ls ⊆ ls') ->
  tinv (MkServer (sv_flavor s) (sv_cfg s) (sv_running s) (sv_ctxDone s) b (sv_heap s) (sv_next s)
          (sv_sessions s) (sv_acceptors s) (sv_wg s) (sv_count s) p).
Proof.
  intros [] Hst Hret Hls. constructor; sv_cbn; try done.
  - destruct p, (sv_stop s); done.
  - intros k l Hk. destruct (ti_got0 _ _ Hk) as [? Hs]. split; [done |].
    intros ls Hp Hin. destruct (Hls _ Hp) as (ls' & Hst' & Hsub). apply (Hs _ Hst'). set_solver.
  - intros ls l Hp Hin. destruct (Hls _ Hp) as (ls' & Hst' & Hsub). eapply ti_snap0; [done | set_solver].
Qed.

Lemma tinv_stop_step s s' : tinv s -> Stop_step s = Some s' -> tinv s'.
Proof.
  intros Hi Hs. unfold Stop_step in Hs. destruct (sv_stop s) as [| [| l ls] | | |] eqn:Hst; simplify_eq.
  - apply tinv_upd_stop; [done | congruence | by destruct (sv_flavor s) | by destruct (sv_flavor s)].
  - destruct (ti_snap _ Hi _ l Hst ltac:(set_solver)) as [x Hx]. rewrite Hx in Hs. simpl in Hs.
    apply (tinv_close_call s l x _ s') in Hs; try done.
    + intros k Hk. destruct (ti_got _ Hi _ _ Hk) as [_ Hn]. apply (Hn _ Hst). set_solver.
    + intros Hd. apply tinv_upd_stop; [done | congruence | done |].
      intros ls' [= <-]. eexists. split; [done | set_solver].
  - apply tinv_upd_stop; [done | congruence | done | done].
  - destruct (Z.eqb_spec (sv_wg s) 0); simplify_eq. apply tinv_upd_stop; [done | congruence | done | done].
Qed.

Lemma tinv_texec lab s s' : tinv s -> texec lab s = Some s' -> tinv s'.
Proof.
  intros Hi Hs. destruct lab as [| k origin | | k | l ev | l ev | l | l | l data | l i | | site |]; simpl in Hs.
  - unfold kcp_accept in Hs. case_decide as Hd; simplify_eq. apply tinv_accept_new; [done |]. destruct Hd as [-> ?]. done.
  - unfold handleUpgrade in Hs. case_decide as Hd; [| done]. case_match; simplify_eq.
    apply tinv_accept_new; [done |]. destruct Hd as (-> & ? & ? & _). done.
  - unfold accept_failed in Hs. case_decide as Hd; simplify_eq. apply (tinv_pc s 0 AWait (Some AWgDone) (sv_wg s)); try done; [by right |].
    unfold accept_live. sv_cbn. rewrite lookup_partial_alter_eq, Hd. lia.
  - by eapply tinv_acceptor.
  - destruct (sv_heap s !! l) eqn:Hx; simplify_eq/=. by eapply tinv_reader.
  - destruct (sv_heap s !! l) eqn:Hx; simplify_eq/=. by eapply tinv_writer.
  - destruct (sv_heap s !! l) as [x |] eqn:Hx; simplify_eq/=. destruct (ti_heap _ Hi _ _ Hx) as [_ Hok].
    unfold close_stage in Hs. destruct (ts_once x) eqn:Ho; simplify_eq; [| by apply tinv_close_remove].
    apply (tinv_put s l x _ (sv_wg s)); try done; [by apply close_conn_step | | unfold live; simpl; lia].
    intros k Hk. exfalso. eapply started_not_got; [done.. | right; congruence | done].
  - destruct (sv_heap s !! l) as [x |] eqn:Hx; simplify_eq/=. destruct (ti_heap _ Hi _ _ Hx) as [_ Hok].
    assert (ts_reader x <> RNone /\ ts_once x = OnceIdle /\ s' = close_begin s l x) as (Hr & Ho & ->)
      by (repeat case_match; by simplify_eq).
    apply (tinv_session_step s l x _ (sv_wg s)); try done; [by left | by apply close_begin_step |].
    unfold live. simpl. lia.
  - destruct (sv_heap s !! l) as [x |] eqn:Hx; simplify_eq/=. destruct (ti_heap _ Hi _ _ Hx) as [_ Hok].
    destruct (Send_check x data) as [y [] ] eqn:Hy; [by destruct (ts_reader x) |].
    assert (s' = put s l y) as -> by (destruct (ts_reader x); by simplify_eq).
    apply (tinv_session_step s l x _ (sv_wg s)); try done; [| by eapply Send_check_step |];
      unfold Send_check in Hy; destruct (IsClosed x); simplify_eq; [by right | unfold live; simpl; lia].
  - destruct (sv_heap s !! l) as [x |] eqn:Hx; simplify_eq/=. destruct (ti_heap _ Hi _ _ Hx) as [_ Hok].
    destruct (ts_pending x !! i) as [data |]; simplify_eq/=.
    apply (tinv_session_step s l x _ (sv_wg s)); try done; [| by apply Send_push_step |];
      unfold Send_push; case_match; [by right | by right | unfold live; simpl; lia | unfold live; simpl; lia].
  - simplify_eq. destruct Hi. constructor; sv_cbn; try done. by destruct (sv_stop s); try destruct ti_stop0.
  - destruct (sv_running s) eqn:Hr; simplify_eq. by apply tinv_stop_begin.
  - by eapply tinv_stop_step.
Qed.

Lemma trun_cons lab ls s s' :
  trun (lab :: ls) s = Some s' <-> exists s1, texec lab s = Some s1 /\ trun ls s1 = Some s'.
Proof.
  unfold trun. cbn. destruct (texec lab s) as [s1 |]; [naive_solver |].
  split; [| naive_solver]. intros Hs. exfalso. induction ls as [| a ls IH]; [done | by apply IH].
Qed.

Lemma tinv_trun ls s s' : tinv s -> trun ls s = Some s' -> tinv s'.
Proof.
  revert s. induction ls as [| lab ls IH]; intros s Hi Hs; [by injection Hs as <- |].
  apply trun_cons in Hs as (s1 & H1 & Hs). eapply IH; [by eapply tinv_texec | done].
Qed.

(** The states of a server that was made, started and then run. *)
Definition treachable (f : Flavor) (c : ServerConfig) (s : Server) : Prop :=
  exists resolvable done s0 s1 ls, NewServer f resolvable c true = inr s0 /\
    Server_Start s0 false done = (s1, None) /\ trun ls s1 = Some s.

Lemma tinv_started f resolvable c b d s0 s1 :
  NewServer f resolvable c b = inr s0 -> Server_Start s0 false d = (s1, None) -> tinv s1.
Proof.
  unfold NewServer. case_match; [done |]. intros [= <-] [= <-]. unfold started.
  constructor; sv_cbn; try done.
  all: try (intros k; rewrite lookup_empty; done).
  - intros k pc [[<- <-] | [? E]]%lookup_insert_Some; [by destruct f |]. by rewrite lookup_empty in E.
  - intros k pc l [[<- <-] | [? E]]%lookup_insert_Some; [done |]. by rewrite lookup_empty in E.
  - intros k k' pc pc' l [[<- <-] | [? E]]%lookup_insert_Some; [done |]. by rewrite lookup_empty in E.
Qed.

Lemma treachable_tinv f c s : treachable f c s -> tinv s.
Proof. intros (rs & d & s0 & s1 & ls & H0 & H1 & Hr). by eapply tinv_trun, Hr; eapply tinv_started. Qed.

(** The flavour and the configuration never change. *)
Lemma texec_flavor lab s s' : texec lab s = Some s' -> sv_flavor s' = sv_flavor s /\ sv_cfg s' = sv_cfg s.
Proof.
  destruct s as [f c rn cd li he nx se ac wg co st].
  destruct lab; simpl; unfold acceptor_step, reader_step, writer_loop, close_stage, close_call, Stop_step, register,
    accept_next, accept_leave, removeSession, close_begin, Stop_begin, KCP_Stop_begin, WSS_Stop_begin,
    kcp_accept, handleUpgrade, accept_failed; simpl; intros;
    repeat (case_match || (progress simplify_option_eq) || (progress unfold close_call in * )); done.
Qed.
End runs.
