(* ===== verification/TransportTheorems.v ===== *)
(** * Theorems about the transports

    What a stopped server leaves behind, the order in which packets leave a
    session, and that [Stop] returns. *)

From Stdlib Require Import ZArith Lia.
From stdpp Require Import base strings gmap fin_maps list.
From S2P Require Import Prelude.
From S2P Require Import Protocol.
From S2P Require Import Transport.
From S2P Require Import TransportFacts.

Local Open Scope string_scope.
Local Open Scope Z_scope.
Local Open Scope list_scope.

Section theorems.
Context `{GR : !GoRange}.

Lemma treachable_flavor f c s : treachable f c s -> sv_flavor s = f /\ sv_cfg s = c.
Proof.
  intros (rs & d & s0 & s1 & ls & H0 & H1 & Hr).
  assert (sv_flavor s1 = f /\ sv_cfg s1 = c) as Hs1.
  { unfold NewServer in H0. case_match; simplify_eq. by injection H1 as <-. }
  clear H0 H1. revert s1 Hr Hs1. induction ls as [| lab ls IH]; intros s1 Hr Hs1; [by injection Hr as <- |].
  apply trun_cons in Hr as (s2 & H2 & Hr). destruct (texec_flavor _ _ _ H2) as [Hf Hc].
  apply (IH s2); [done |]. destruct Hs1. split; congruence.
Qed.

Lemma live_zero x : live x = 0%nat ->
  (ts_reader x = RNone \/ ts_reader x = RDone) /\ (ts_writer x = WNone \/ ts_writer x = WDone).
Proof. unfold live. destruct (ts_reader x), (ts_writer x); simpl; try lia; auto. Qed.

(** A KCP server whose [Stop] has returned. *)
Lemma kcp_quiescent s :
  tinv s -> sv_flavor s = FKCP -> sv_stop s = StReturned ->
  sv_wg s = 0 /\ (forall k pc, sv_acceptors s !! k = Some pc -> pc = ADone) /\ sv_sessions s = ∅ /\
  forall l x, sv_heap s !! l = Some x ->
    ts_once x = OnceDone /\ IsClosed x = true /\
    (ts_reader x = RNone \/ ts_reader x = RDone) /\ (ts_writer x = WNone \/ ts_writer x = WDone).
Proof.
  intros Hi Hf Hst.
  pose proof (ti_ret _ Hi Hf Hst) as Hwg. pose proof (ti_wg _ Hi) as Hsum. rewrite Hwg in Hsum.
  assert (forall k pc, sv_acceptors s !! k = Some pc -> pc = ADone) as Hacc.
  { intros k pc Hk. pose proof (ti_acc _ Hi _ _ Hk) as Hk0. rewrite Hf in Hk0. subst k.
    unfold accept_live in Hsum. rewrite Hk in Hsum. destruct pc; done || lia. }
  assert (forall l x, sv_heap s !! l = Some x -> live x = 0%nat) as Hlive.
  { intros l x Hx. pose proof (map_sum_ge live _ _ _ Hx). lia. }
  assert (forall l x, sv_heap s !! l = Some x -> ts_once x = OnceDone) as Hdone.
  { intros l x Hx. destruct (live_zero x (Hlive _ _ Hx)) as [[Hn | Hn] _].
    - destruct (ti_held _ Hi _ _ Hx Hn) as [? | (k & pc & Hk & Hl)]; [done |]. by rewrite (Hacc _ _ Hk) in Hl.
    - destruct (ti_heap _ Hi _ _ Hx) as [_ [_ _ Hl _]]. unfold loops_ok in Hl. rewrite Hn in Hl. by destruct Hl. }
  split_and!; [done | done | |].
  - apply map_empty. intros id. destruct (sv_sessions s !! id) as [l |] eqn:E; [| done].
    destruct (ti_map _ Hi _ _ E) as (x & Hx & _ & Hn). by destruct Hn; eapply Hdone.
  - intros l x Hx. split; [by eapply Hdone |]. split; [| by eapply live_zero, Hlive].
    destruct (ti_heap _ Hi _ _ Hx) as [_ [_ _ _ Ho]]. unfold IsClosed. specialize (Hdone _ _ Hx).
    destruct (ts_closed x); [done |]. rewrite (proj1 Ho eq_refl) in Hdone. done.
Qed.

(** C5: When [Stop] of the KCP server has returned, no goroutine of the server
    is left: the accept loop has ended, every session ever made is closed with
    its read and write loops finished or never started, the session map is
    empty; and so it stays whatever the handlers go on doing.  This holds in
    every interleaving of accepts, reads, writes, sends and closes with the
    stop, including a connection accepted while the server stops. *)
Theorem kcp_stop_quiescent c s :
  treachable FKCP c s -> sv_stop s = StReturned ->
  sv_wg s = 0 /\ (forall k pc, sv_acceptors s !! k = Some pc -> pc = ADone) /\ sv_sessions s = ∅ /\
  forall l x, sv_heap s !! l = Some x ->
    ts_once x = OnceDone /\ IsClosed x = true /\
    (ts_reader x = RNone \/ ts_reader x = RDone) /\ (ts_writer x = WNone \/ ts_writer x = WDone).
Proof.
  intros Hr. apply kcp_quiescent; [by eapply treachable_tinv | by apply treachable_flavor in Hr as [? _]].
Qed.

(** C10: In every reachable state of a server of either kind, what a session has
    written is a prefix of what [Send] accepted: packets leave in order, none
    twice and none skipped; while the write loop has not ended, the accepted
    packets are exactly those written, the one in its hands and those queued;
    and the queue never exceeds its size. *)
Theorem send_order f c s l x :
  treachable f c s -> sv_heap s !! l = Some x ->
  ts_written x `prefix_of` ts_accepted x /\
  (ts_writer x = WLoop -> ts_accepted x = ts_written x ++ ts_queue x) /\
  (forall d, ts_writer x = WWrite d -> ts_accepted x = ts_written x ++ d :: ts_queue x) /\
  Z.of_nat (length (ts_queue x)) <= ts_cap x.
Proof.
  intros Hr Hx. destruct (ti_heap _ (treachable_tinv _ _ _ Hr) _ _ Hx) as [_ [Hc Ho _ _]].
  split_and!; [by apply in_order_prefix | | | done]; unfold in_order in Ho; [intros Hw | intros d Hw]; by rewrite Hw in Ho.
Qed.

(** The wait group counts exactly the goroutines that have not ended, in
    every reachable state, so it is never negative (where [sync.WaitGroup]
    panics); and a session the server tracks is not closed. *)
Lemma waitgroup_exact f c s :
  treachable f c s ->
  sv_wg s = Z.of_nat (accept_live s + map_sum live (sv_heap s)) /\
  forall id l, sv_sessions s !! id = Some l ->
    exists x, sv_heap s !! l = Some x /\ ts_id x = id /\ ts_once x <> OnceDone.
Proof. intros Hr%treachable_tinv. split; [by apply ti_wg | by apply ti_map]. Qed.

(** The write loop has returned. *)
Definition writer_gone (x : TSession) : Prop := ts_writer x = WWgDone \/ ts_writer x = WDone.

(** A write loop that has returned leaves what was written as it is and takes
    nothing from the queue, whatever happens next. *)
Lemma texec_dead_writer lab s s' l x :
  tinv s -> sv_heap s !! l = Some x -> writer_gone x -> texec lab s = Some s' ->
  exists x', sv_heap s' !! l = Some x' /\ writer_gone x' /\ ts_written x' = ts_written x /\
    ts_queue x `prefix_of` ts_queue x'.
Proof.
  intros Hi Hx Hw Hs. destruct (texec_session _ _ _ _ _ Hi Hx Hs) as (x' & Hx' & Hc). exists x'. split; [done |].
  destruct (ti_heap _ Hi _ _ Hx) as [_ Hok]. unfold writer_gone in *.
  destruct Hc as [| | Hr | | ? ? Hy | ? ? Hy | | |]; try (by auto).
  - pose proof (so_loops _ Hok) as Hl. unfold loops_ok in Hl. rewrite Hr in Hl. destruct Hw; congruence.
  - unfold reader_read, kcp_read, wss_read, deliver in Hy. repeat case_match; by simplify_eq.
  - unfold writer_step in Hy. by destruct Hw as [Hw | Hw]; rewrite Hw in Hy.
  - unfold Send_push. case_match; [| by auto]. split_and!; [done | done |]. by apply prefix_app_r.
Qed.

Lemma trun_dead_writer ls s s' l x :
  tinv s -> sv_heap s !! l = Some x -> writer_gone x -> trun ls s = Some s' ->
  exists x', sv_heap s' !! l = Some x' /\ ts_written x' = ts_written x /\ ts_queue x `prefix_of` ts_queue x'.
Proof.
  revert s x. induction ls as [| lab ls IH]; intros s x Hi Hx Hw Hrun.
  - injection Hrun as <-. by exists x.
  - apply trun_cons in Hrun as (s1 & H1 & Hrun).
    destruct (texec_dead_writer _ _ _ _ _ Hi Hx Hw H1) as (x1 & Hx1 & Hw1 & He & Hq).
    destruct (IH s1 x1) as (x' & ? & ? & ?); [by eapply tinv_texec | done | done | done |].
    exists x'. split_and!; [done | congruence | by etrans].
Qed.

(** C39: A failed write, or a write deadline that cannot be set, ends a session's
    write loop but not the session: it is neither closed nor taken from the
    server's map.  From then on, in every continuation, nothing is written to
    the connection and nothing leaves the queue, yet as long as nobody closes
    the session and the queue has room [Send] queues its data and answers that
    all is well. *)
Theorem write_error_blackholes f c s l x ev s1 ls s' :
  treachable f c s -> sv_heap s !! l = Some x ->
  ((exists d, ts_writer x = WWrite d) /\ ev = WriteErr \/ ts_writer x = WLoop /\ ev = OnDataDeadlineErr) ->
  texec (TWriter l ev) s = Some s1 -> trun ls s1 = Some s' ->
  exists x1 x', sv_heap s1 !! l = Some x1 /\ sv_heap s' !! l = Some x' /\
    ts_closed x1 = ts_closed x /\ ts_once x1 = ts_once x /\ sv_sessions s1 = sv_sessions s /\
    ts_written x' = ts_written x /\ ts_queue x1 `prefix_of` ts_queue x' /\
    (ts_closed x' = false -> (Z.of_nat (length (ts_queue x')) < ts_cap x')%Z -> forall data,
       snd (Session_Send x' data) = None /\ ts_queue (fst (Session_Send x' data)) = ts_queue x' ++ [data]).
Proof.
  intros Hr Hx Hev Hs Hrun. apply treachable_tinv in Hr as Hi.
  assert (exists x1, s1 = put s l x1 /\ ts_closed x1 = ts_closed x /\ ts_once x1 = ts_once x /\
    ts_written x1 = ts_written x /\ ts_writer x1 = WWgDone) as (x1 & -> & Hc & Ho & Hwr & Hw).
  { cbn [texec] in Hs. rewrite Hx in Hs. simpl in Hs. unfold writer_loop, writer_step in Hs.
    destruct Hev as [[[d Hw] ->] | [Hw ->]]; rewrite Hw in Hs; [| destruct (ts_queue x); [done |]];
      injection Hs as <-; eexists; split; done. }
  pose proof (tinv_texec _ _ _ Hi Hs) as Hi1.
  assert (sv_heap (put s l x1) !! l = Some x1) as Hx1 by apply lookup_insert_eq.
  destruct (trun_dead_writer ls _ _ _ _ Hi1 Hx1 ltac:(by left) Hrun) as (x' & Hx' & He & Hq).
  exists x1, x'. split_and!; try done; [congruence |]. intros Hcl Hcap data.
  unfold Session_Send, IsClosed, Send_push. rewrite Hcl, (proj2 (Z.ltb_lt _ _) Hcap). done.
Qed.
End theorems.
