(* ===== verification/TransportStop.v ===== *)
(** * [Stop] of a transport returns

    A measure that every step of the server's own goroutines decreases once
    [Stop] has begun, and that some such step is possible until it has
    returned. *)

From Stdlib Require Import ZArith Lia.
From stdpp Require Import base strings gmap fin_maps list.
From S2P Require Import Prelude.
From S2P Require Import Protocol.
From S2P Require Import Transport.
From S2P Require Import TransportFacts.

Local Open Scope string_scope.
Local Open Scope list_scope.

(** ** The measure *)

Definition once_rank (o : OnceState) : nat :=
  match o with OnceIdle => 3 | OnceConn => 2 | OnceRemove => 1 | OnceDone => 0 end.

Definition reader_rank (r : ReaderPC) : nat :=
  match r with
  | RNone => 7 | RSpawned => 6 | RRead => 5 | RLoop => 4 | RClose => 3 | RWgDone => 2 | RDone => 1
  end.

Definition writer_rank (w : WriterPC) : nat :=
  match w with WNone => 6 | WWrite _ => 5 | WLoop => 4 | WDrain => 3 | WWgDone => 2 | WDone => 1 end.

Definition session_rank (x : TSession) : nat :=
  once_rank (ts_once x) + reader_rank (ts_reader x) + writer_rank (ts_writer x) + 3 * length (ts_queue x).

(** A server that has stopped may still accept one connection, whose session
    weighs sixteen. *)
Definition accept_rank (pc : AcceptPC) : nat :=
  match pc with AReg _ => 60 | AWait => 40 | AGot _ => 20 | AClose _ => 10 | AWgDone => 2 | ADone => 1 end.

Definition stop_rank (p : StopPC) : nat :=
  match p with
  | StIdle | StReturned => 0 | StWait => 1 | StShutdown => 2 | StClosing ls => 3 + length ls
  end.

Definition stop_measure (s : Server) : nat :=
  map_sum accept_rank (sv_acceptors s) + map_sum session_rank (sv_heap s) + stop_rank (sv_stop s).

(** The steps of the server's own goroutines, with whatever the network answers
    them; the others are new upgrade requests, calls of [Send], and the caller's
    cancellation and call of [Stop]. *)
Definition own_step (lab : TLabel) : bool :=
  match lab with
  | TUpgrade _ _ | TSendCheck _ _ | TSendPush _ _ | TCancel | TStop _ => false
  | _ => true
  end.

(** ... and those in which no packet handler has a part. *)
Definition server_step (lab : TLabel) : bool :=
  match lab with TClose _ => false | _ => own_step lab end.

Lemma server_step_own lab : server_step lab = true -> own_step lab = true.
Proof. by destruct lab. Qed.

Definition stopping (s : Server) : Prop := sv_stop s <> StIdle.

Lemma stopping_ctx s : tinv s -> stopping s -> sv_running s = false /\ sv_ctxDone s = true.
Proof. intros Hi Hs. pose proof (ti_stop _ Hi). unfold stopping in Hs. by destruct (sv_stop s). Qed.

Lemma measure_put s l x y wg :
  sv_heap s !! l = Some x -> session_rank y < session_rank x ->
  stop_measure (upd_wg (put s l y) wg) < stop_measure s.
Proof.
  intros Hx Hlt. unfold stop_measure. sv_cbn. pose proof (map_sum_insert session_rank _ _ _ y Hx). lia.
Qed.

Ltac rank_cbn :=
  unfold session_rank;
  cbn [ts_id ts_cap ts_queue ts_pending ts_closed ts_once ts_reader ts_writer ts_accepted ts_written
       ts_handled set_queue set_accepted set_once set_reader set_writer set_written set_handled
       once_rank reader_rank writer_rank].

Lemma close_call_decr s l x k s' :
  sv_heap s !! l = Some x -> (ts_once x = OnceDone -> stop_measure k < stop_measure s) ->
  close_call s l x k = Some s' -> stop_measure s' < stop_measure s.
Proof.
  intros Hx Hk. unfold close_call. destruct (ts_once x) eqn:Ho; intros; simplify_eq; [| by apply Hk].
  apply (measure_put s l x _ (sv_wg s)); [done |]. rank_cbn. rewrite Ho. simpl. lia.
Qed.

Lemma reader_decr s l x ev s' :
  tinv s -> stopping s -> sv_heap s !! l = Some x -> reader_step s l x ev = Some s' ->
  stop_measure s' < stop_measure s.
Proof.
  intros Hi Hst Hx Hs. destruct (ti_heap _ Hi _ _ Hx) as [_ Hok].
  destruct (stopping_ctx s Hi Hst) as [_ Hctx]. unfold reader_step in Hs.
  destruct (ts_reader x) eqn:Hr; simplify_eq.
  - apply (measure_put s l x); [done |]. pose proof (so_loops _ Hok) as Hl. unfold loops_ok in Hl. rewrite Hr in Hl.
    rank_cbn. rewrite Hr, Hl. simpl. lia.
  - apply (measure_put s l x _ (sv_wg s)); [done |]. unfold reader_select. rewrite Hctx. simpl.
    rank_cbn. rewrite Hr. simpl. lia.
  - destruct (reader_read _ _ _ _) as [y |] eqn:Hy; simplify_eq/=.
    apply (measure_put s l x _ (sv_wg s)); [done |]. unfold reader_read in Hy.
    unfold kcp_read, wss_read, deliver in Hy.
    destruct (sv_flavor s), ev; simplify_eq; repeat case_match; simplify_eq; rank_cbn; rewrite Hr; simpl; lia.
  - eapply close_call_decr; [done | | done]. intros _.
    apply (measure_put s l x _ (sv_wg s)); [done |]. rank_cbn. rewrite Hr. simpl. lia.
  - apply (measure_put s l x); [done |]. rank_cbn. rewrite Hr. simpl. lia.
Qed.

Lemma writer_step_decr c x ev y : writer_step c x ev = Some y -> session_rank y < session_rank x.
Proof.
  unfold writer_step. destruct x as [id cap q pe cl on r w ac wr ha]. simpl. intros Hy.
  destruct w, ev; simplify_eq; try (destruct q, c, cl; simplify_eq); rank_cbn; simpl; lia.
Qed.

Lemma writer_decr s l x ev s' :
  sv_heap s !! l = Some x -> writer_loop s l x ev = Some s' -> stop_measure s' < stop_measure s.
Proof.
  intros Hx Hs. unfold writer_loop in Hs. destruct (ts_writer x) eqn:Hw.
  5: { simplify_eq. apply (measure_put s l x); [done |]. rank_cbn. rewrite Hw. simpl. lia. }
  all: destruct (writer_step _ _ _) as [y |] eqn:Hy; simplify_eq/=.
  all: apply (measure_put s l x _ (sv_wg s)); [done | by eapply writer_step_decr].
Qed.

(** The accepting goroutines. *)
Lemma measure_pc s k pc (o : option AcceptPC) wg :
  sv_acceptors s !! k = Some pc -> default 0 (accept_rank <$> o) < accept_rank pc ->
  stop_measure (upd_wg (upd_acceptors s (partial_alter (fun _ => o) k (sv_acceptors s))) wg) < stop_measure s.
Proof.
  intros Hk Hlt. unfold stop_measure. sv_cbn. destruct o as [pc' |]; simpl in Hlt.
  - pose proof (map_sum_insert accept_rank _ _ _ pc' Hk) as E. unfold insert, map_insert in E. lia.
  - pose proof (map_sum_delete accept_rank _ _ _ Hk) as E. unfold delete, map_delete in E. lia.
Qed.

Lemma acceptor_decr s k s' :
  tinv s -> stopping s -> acceptor_step s k = Some s' -> stop_measure s' < stop_measure s.
Proof.
  intros Hi Hst Hs. destruct (stopping_ctx s Hi Hst) as [Hrun _]. unfold acceptor_step in Hs.
  destruct (sv_acceptors s !! k) as [pc |] eqn:Hk; simplify_eq/=. destruct pc as [| l | l | l | |]; simplify_eq/=.
  - destruct (sv_heap s !! l) as [x |]; simplify_eq/=. unfold register. rewrite Hrun.
    apply (measure_pc s k (AGot l) (Some (AClose l)) (sv_wg s)); [done | simpl; lia].
  - destruct (ti_pc _ Hi _ _ _ Hk eq_refl) as (x & Hx & Hr & _). rewrite Hx in Hs. simplify_eq/=.
    rewrite accept_next_fields. etrans.
    + apply (measure_pc (put s l (set_reader x RSpawned)) k (AReg l)); [done |]. simpl. destruct (sv_flavor s); simpl; lia.
    + apply (measure_put s l x _ (sv_wg s)); [done |]. rank_cbn. rewrite Hr. simpl. lia.
  - destruct (sv_heap s !! l) as [x |] eqn:Hx; simplify_eq/=. eapply close_call_decr; [done | | done]. intros _.
    rewrite accept_leave_fields. apply (measure_pc s k (AClose l) _ (sv_wg s)); [done |].
    destruct (sv_flavor s); simpl; lia.
  - apply (measure_pc s k AWgDone (Some ADone)); [done | simpl; lia].
Qed.

Lemma accept_decr s :
  tinv s -> sv_acceptors s !! 0 = Some AWait -> stop_measure (accept_new s 0) < stop_measure s.
Proof.
  intros Hi Hk. unfold stop_measure, accept_new. sv_cbn.
  rewrite (map_sum_insert_fresh session_rank) by by apply heap_fresh.
  pose proof (map_sum_insert accept_rank _ _ _ (AGot (sv_next s)) Hk) as E. simpl in E.
  change (session_rank (newSession _ _)) with 16. lia.
Qed.

Section stop.
Context `{GR : !GoRange}.

Lemma stop_step_decr s s' : Stop_step s = Some s' -> stop_measure s' < stop_measure s.
Proof.
  intros Hs. unfold Stop_step in Hs. destruct (sv_stop s) as [| [| l ls] | | |] eqn:Hst; simplify_eq.
  - unfold stop_measure. sv_cbn. rewrite Hst. destruct (sv_flavor s); simpl; lia.
  - destruct (sv_heap s !! l) as [x |] eqn:Hx; simplify_eq/=. eapply close_call_decr; [done | | done]. intros _.
    unfold stop_measure. sv_cbn. rewrite Hst. simpl. lia.
  - unfold stop_measure. sv_cbn. rewrite Hst. simpl. lia.
  - case_match; simplify_eq. unfold stop_measure. sv_cbn. rewrite Hst. simpl. lia.
Qed.

Lemma own_step_decr lab s s' :
  tinv s -> stopping s -> own_step lab = true -> texec lab s = Some s' -> stop_measure s' < stop_measure s.
Proof.
  intros Hi Hst Hown Hs.
  destruct lab as [| k origin | | k | l ev | l ev | l | l | l data | l i | | site |]; simplify_eq/=.
  - unfold kcp_accept in Hs. case_decide as Hd; simplify_eq. apply accept_decr; [done |]. by destruct Hd.
  - unfold accept_failed in Hs. case_decide as Hd; simplify_eq.
    apply (measure_pc s 0 AWait (Some AWgDone) (sv_wg s)); [done | simpl; lia].
  - by eapply acceptor_decr.
  - destruct (sv_heap s !! l) eqn:Hx; simplify_eq/=. by eapply reader_decr.
  - destruct (sv_heap s !! l) eqn:Hx; simplify_eq/=. by eapply writer_decr.
  - destruct (sv_heap s !! l) as [x |] eqn:Hx; simplify_eq/=. unfold close_stage in Hs.
    destruct (ts_once x) eqn:Ho; simplify_eq; unfold removeSession;
      apply (measure_put s l x _ (sv_wg s)); try done; rank_cbn; rewrite Ho; simpl; lia.
  - destruct (sv_heap s !! l) as [x |] eqn:Hx; simplify_eq/=.
    assert (ts_once x = OnceIdle /\ s' = close_begin s l x) as [Ho ->] by (repeat case_match; by simplify_eq).
    apply (measure_put s l x _ (sv_wg s)); [done |]. rank_cbn. rewrite Ho. simpl. lia.
  - by apply stop_step_decr.
Qed.

(** ** Progress *)

Definition can_step (s : Server) : Prop := exists lab s', server_step lab = true /\ texec lab s = Some s'.

Lemma can_close s l x k lab :
  sv_heap s !! l = Some x -> server_step lab = true -> texec lab s = close_call s l x k -> can_step s.
Proof.
  intros Hx Hown Ht. unfold close_call in Ht. destruct (ts_once x) eqn:Ho.
  1, 4: by exists lab; eexists.
  all: exists (TCloseStage l); eexists; split; [done |]; simpl; rewrite Hx; simpl; unfold close_stage; by rewrite Ho.
Qed.

Lemma accept_can_step s : tinv s -> accept_live s <> 0 -> can_step s.
Proof.
  intros Hi Ha. unfold accept_live in Ha. destruct (sv_acceptors s !! 0) as [pc |] eqn:Hk; [| done].
  assert (forall l, pc_loc pc = Some l -> exists x, sv_heap s !! l = Some x) as Hx.
  { intros l Hl. destruct (ti_pc _ Hi _ _ _ Hk Hl) as (x & ? & _). eauto. }
  destruct pc as [| l | l | l | |]; try done.
  - exists TAcceptErr. eexists. split; [done |]. simpl. unfold accept_failed. by rewrite decide_True.
  - destruct (Hx l eq_refl) as [x E]. exists (TAcceptor 0). eexists. split; [done |].
    simpl. unfold acceptor_step. rewrite Hk. simpl. by rewrite E.
  - destruct (Hx l eq_refl) as [x E]. exists (TAcceptor 0). eexists. split; [done |].
    simpl. unfold acceptor_step. rewrite Hk. simpl. by rewrite E.
  - destruct (Hx l eq_refl) as [x E]. eapply (can_close s l x _ (TAcceptor 0)); [done | done |].
    simpl. unfold acceptor_step. rewrite Hk. simpl. by rewrite E.
  - exists (TAcceptor 0). eexists. split; [done |]. simpl. unfold acceptor_step. by rewrite Hk.
Qed.

Lemma session_can_step s l x :
  tinv s -> stopping s -> sv_heap s !! l = Some x -> live x <> 0 -> can_step s.
Proof.
  intros Hi Hst Hx Hl. destruct (stopping_ctx s Hi Hst) as [_ Hctx].
  destruct (decide (ts_reader x = RNone \/ ts_reader x = RDone)) as [Hr | Hr].
  - assert (ts_writer x <> WNone /\ ts_writer x <> WDone) as [Hn Hd].
    { split; intros Hw; apply Hl; unfold live; rewrite Hw; by destruct Hr as [-> | ->]. }
    exists (TWriter l match ts_writer x with WLoop => OnCtx | WWrite _ => WriteErr | _ => Proceed end).
    simpl. rewrite Hx. simpl. unfold writer_loop, writer_step. rewrite Hctx.
    destruct (ts_writer x); try done; destruct (ts_queue x); by eexists.
  - destruct (decide (ts_reader x = RClose)) as [Hc |].
    + eapply (can_close s l x _ (TReader l ReadErr)); [done | done |]. simpl. rewrite Hx. simpl.
      unfold reader_step. by rewrite Hc.
    + exists (TReader l ReadErr). simpl. rewrite Hx. simpl. unfold reader_step.
      destruct (ts_reader x); try tauto; try by eexists.
      unfold reader_read. destruct (sv_flavor s); by eexists.
Qed.

Lemma stop_can_step s : tinv s -> stopping s -> sv_stop s <> StReturned -> can_step s.
Proof.
  intros Hi Hst Hret. destruct (sv_stop s) as [| [| l ls] | | |] eqn:Hs; try done.
  - exists TStopStep. eexists. split; [done |]. simpl. unfold Stop_step. by rewrite Hs.
  - destruct (ti_snap _ Hi _ l Hs ltac:(set_solver)) as [x Hx].
    eapply (can_close s l x _ TStopStep); [done | done |]. simpl. unfold Stop_step. rewrite Hs, Hx. done.
  - exists TStopStep. eexists. split; [done |]. simpl. unfold Stop_step. by rewrite Hs.
  - destruct (decide (accept_live s = 0)) as [Ha |]; [| by apply accept_can_step].
    destruct (decide (map_sum live (sv_heap s) = 0)) as [Hl | Hl].
    + exists TStopStep. eexists. split; [done |]. simpl. unfold Stop_step. rewrite Hs.
      rewrite (ti_wg _ Hi), Ha, Hl. done.
    + destruct (map_sum_pos live (sv_heap s)) as (l & x & Hx & Hpos); [lia |].
      eapply session_can_step; [done | done | done | lia].
Qed.

Lemma stopping_texec lab s s' : stopping s -> texec lab s = Some s' -> stopping s'.
Proof.
  unfold stopping. destruct s as [f c rn cd li he nx se ac wg co st].
  destruct lab; simpl; unfold acceptor_step, reader_step, writer_loop, close_stage, close_call, Stop_step, register,
    accept_next, accept_leave, removeSession, close_begin, Stop_begin, KCP_Stop_begin, WSS_Stop_begin,
    kcp_accept, handleUpgrade, accept_failed; simpl; intros;
    repeat (case_match || (progress simplify_option_eq) || (progress unfold close_call in * )); try done.
Qed.

(** A schedule that leads to the end. *)
Lemma stop_returns s :
  tinv s -> stopping s ->
  exists ls s', trun ls s = Some s' /\ forallb server_step ls = true /\ sv_stop s' = StReturned.
Proof.
  remember (stop_measure s) as n eqn:Hn. revert s Hn. induction (lt_wf n) as [n _ IH]. intros s -> Hi Hst.
  assert (sv_stop s = StReturned \/ sv_stop s <> StReturned) as [Hr | Hr] by (destruct (sv_stop s); auto).
  { by exists [], s. }
  destruct (stop_can_step s Hi Hst Hr) as (lab & s1 & Hl & H1).
  pose proof (own_step_decr lab s s1 Hi Hst (server_step_own _ Hl) H1) as Hd.
  destruct (IH _ Hd s1) as (ls & s' & Hrun & Hls & Hend); [done | by eapply tinv_texec | by eapply stopping_texec |].
  exists (lab :: ls), s'. split_and!; [apply trun_cons; eauto | simpl; by rewrite Hl | done].
Qed.

(** C8: [Stop] returns.  From every reachable state of a server of either kind
    in which [Stop] has begun, a schedule of the server's own goroutines, in
    any order and with any answers of the network, has at most as many steps as
    the measure says, and as long as [Stop] has not returned one of them can
    take another step: no deadlock on a [sync.Once], the wait group or a
    channel. *)
Theorem transport_stop_terminates f c s ls s' :
  treachable f c s -> stopping s -> trun ls s = Some s' -> forallb own_step ls = true ->
  length ls <= stop_measure s /\ (sv_stop s' = StReturned \/ can_step s').
Proof.
  intros Hr Hst Hrun Hown. apply treachable_tinv in Hr as Hi. clear Hr.
  revert s Hi Hst Hrun Hown. induction ls as [| lab ls IH]; intros s Hi Hst Hrun Hown.
  - injection Hrun as <-. split; [simpl; lia |]. destruct (sv_stop s) eqn:E; try by left.
    all: right; apply stop_can_step; [done | done | congruence].
  - apply andb_true_iff in Hown as [Hl Hls]. apply trun_cons in Hrun as (s1 & H1 & Hrun).
    apply (own_step_decr lab) in H1 as Hd; [| done..].
    destruct (IH s1) as [Hlen ?]; [by eapply tinv_texec | by eapply stopping_texec | done | done |].
    split; [simpl; lia | done].
Qed.
End stop.
