(* ===== verification/TransportBridge.v ===== *)
(** * Broadcasting over KCP sessions

    The bridge composed with the transport: the interface [RealtimeSession] of
    the bridge is implemented by the sessions of a KCP server. *)

From Stdlib Require Import ZArith Lia.
From stdpp Require Import base strings gmap fin_maps list.
From S2P Require Import Prelude.
From S2P Require Import Delta.
From S2P Require Import DeltaFacts.
From S2P Require Import Room.
From S2P Require Import Protocol.
From S2P Require Import ProtocolFacts.
From S2P Require Import ProtocolExample.
From S2P Require Import Bridge.
From S2P Require Import BridgeFacts.
From S2P Require Import Transport.

Local Open Scope string_scope.
Local Open Scope Z_scope.
Local Open Scope list_scope.

Lemma send_packet_other (s : Server) l p :
  p.1 <> l -> sv_heap (send_packet s p) !! l = sv_heap s !! l.
Proof.
  intros Hne. unfold send_packet. simpl. destruct (sv_heap s !! p.1) as [y |]; [| done].
  destruct (Session_Send y p.2). simpl. by rewrite lookup_insert_ne.
Qed.

Lemma send_packets_other (ps : list (tloc * bytes)) (s : Server) l :
  l ∉ ps.*1 -> sv_heap (foldl send_packet s ps) !! l = sv_heap s !! l.
Proof.
  revert s. induction ps as [| p ps IH]; intros s Hl; [done |]. cbn in *.
  rewrite IH by set_solver. apply send_packet_other. set_solver.
Qed.

(** A session that gets exactly one of the packets. *)
Lemma send_packets_one (ps : list (tloc * bytes)) (s : Server) l d x :
  NoDup ps.*1 -> (l, d) ∈ ps -> sv_heap s !! l = Some x ->
  sv_heap (foldl send_packet s ps) !! l = Some (Session_Send x d).1.
Proof.
  intros Hnd (p1 & p2 & ->)%list_elem_of_split Hx. rewrite fmap_app in Hnd. simpl in Hnd.
  apply NoDup_app in Hnd as (_ & Hn1 & [Hn2 _]%NoDup_cons).
  rewrite foldl_app. cbn [foldl]. rewrite send_packets_other by done.
  unfold send_packet at 1. simpl. rewrite send_packets_other by set_solver. rewrite Hx.
  destruct (Session_Send x d). simpl. by rewrite lookup_insert_eq.
Qed.

(** Packets for different session IDs go to different connections. *)
Lemma NoDup_connections (lookup_sess : string -> option tloc) (ps : list (string * (tloc * bytes))) :
  (forall sid1 sid2 l, lookup_sess sid1 = Some l -> lookup_sess sid2 = Some l -> sid1 = sid2) ->
  NoDup ps.*1 -> (forall sid l d, (sid, (l, d)) ∈ ps -> lookup_sess sid = Some l) ->
  NoDup (snd <$> ps).*1.
Proof.
  intros Hinj. induction ps as [| [sid [l d]] ps IH]; intros Hnd Hps; [constructor |].
  cbn in *. apply NoDup_cons in Hnd as [Hni Hnd]. constructor; [| apply IH; [done | set_solver]].
  intros ([l' d'] & E & ([sid' [l'' d'']] & E' & Hin)%list_elem_of_fmap)%list_elem_of_fmap. simplify_eq/=.
  apply Hni, list_elem_of_fmap. exists (sid', (l'', d'')). split; [| done].
  apply (Hinj _ _ l''); [by eapply Hps, list_elem_of_here | eapply Hps, list_elem_of_further, Hin].
Qed.

Section bridge.
Context `{GR : !GoRange} `{!Msgpack Envelope} `{!Msgpack Protocol.PlayerDelta}.
Context `{!MsgpackLaws Envelope} `{!MsgpackLaws Protocol.PlayerDelta} `{!EnvelopeSize}.

(** A broadcast over KCP: with every session ID on a connection of its own,
    one dispatch makes exactly one [Send] on the connection of each session
    whose delta can be encoded, of a packet that takes the client where the
    room's delta takes it.  An open session with room in its queue has the
    packet appended to the queue; a closed or full one is left as it is. *)
Theorem kcp_dispatch_queues (lookup_sess : string -> option tloc) (site : list nat)
    (batches : gmap string (option DeltaBatch)) (s : Server) sid batch pd l x :
  (forall sid1 sid2 l', lookup_sess sid1 = Some l' -> lookup_sess sid2 = Some l' -> sid1 = sid2) ->
  batches !! sid = Some batch -> payload_of batch = Some pd -> lookup_sess sid = Some l -> sendable pd ->
  sv_heap s !! l = Some x ->
  exists d,
    sv_heap (DispatchBatches lookup_sess site batches s).1 !! l = Some (Session_Send x d).1 /\
    (forall site' (v : client_view), receive_packet site' (project <$> v) d = project <$> apply_delta v pd) /\
    ((Session_Send x d).2 = None -> ts_queue (Session_Send x d).1 = ts_queue x ++ [d]) /\
    ((Session_Send x d).2 <> None -> (Session_Send x d).1 = x).
Proof.
  intros Hinj Hb Hpd Hs Hsend Hx.
  destruct (dispatch_packets lookup_sess site batches s) as (ps & Hw & Hnd & Hps & Hall).
  destruct (Hall _ _ _ _ Hb Hpd Hs Hsend) as [d Hd]. exists d. split_and!.
  - rewrite Hw. apply send_packets_one; [| | done].
    + apply (NoDup_connections lookup_sess); [done | done |]. intros sid' l' d' Hin. by destruct (Hps _ _ _ Hin).
    + apply list_elem_of_fmap. by exists (sid, (l, d)).
  - destruct (Hps _ _ _ Hd) as (_ & batch' & pd' & Hb' & Hpd' & Hv). simplify_eq. apply Hv. by destruct Hsend.
  - unfold Session_Send, Send_push. repeat case_match; done.
  - unfold Session_Send, Send_push. repeat case_match; done.
Qed.
End bridge.

Import ExampleCodec.

Definition one_session : Server :=
  MkServer FKCP (MkServerConfig ":9000" 0 0 0 0 [] true) true false true
    {[7%nat := newSession "sess-1" (MkServerConfig ":9000" 0 0 0 0 [] true)]} 8%nat {["sess-1" := 7%nat]} ∅ 0 1 StIdle.

(** A broadcast to one connected session. *)
Lemma kcp_dispatch_queues_witness :
  exists d, sv_heap (@DispatchBatches _ _ _ _ canonical_range _ _ BridgeExample.lookup_sess [] BridgeExample.batches
    one_session).1 !! 7%nat = Some (Session_Send (newSession "sess-1" (sv_cfg one_session)) d).1.
Proof.
  destruct (@kcp_dispatch_queues canonical_range _ _ _ _ _ BridgeExample.lookup_sess [] BridgeExample.batches one_session
    "s" (Some (MkDeltaBatch 5 (Some BridgeExample.pd) None)) BridgeExample.pd 7%nat
    (newSession "sess-1" (sv_cfg one_session))) as (d & Hd & _);
    [| vm_compute; reflexivity | vm_compute; reflexivity | reflexivity | exact BridgeExample.pd_sendable | reflexivity |].
  - intros sid1 sid2 l'. unfold BridgeExample.lookup_sess.
    destruct (String.eqb_spec sid1 "s") as [-> |], (String.eqb_spec sid2 "s") as [-> |]; done.
  - exists d. exact Hd.
Defined.
