(* ===== verification/TransportWitness.v ===== *)
(** * A transport server at work

    Concrete runs: one client connects, sends and receives, and the server is
    stopped; and two runs that show what stopping and a failed write leave
    behind. *)

From Stdlib Require Import ZArith Lia.
From Stdlib.Strings Require Import Byte.
From stdpp Require Import base strings gmap fin_maps list.
From S2P Require Import Prelude.
From S2P Require Import Protocol.
From S2P Require Import Transport.
From S2P Require Import TransportFacts.
From S2P Require Import TransportTheorems.
From S2P Require Import TransportStop.

Local Open Scope string_scope.
Local Open Scope Z_scope.
Local Open Scope list_scope.

#[local] Existing Instance canonical_range.

Definition ex_cfg : ServerConfig := MkServerConfig ":9000" 0 0 0 0 [] true.

Definition ex_started (f : Flavor) : Server :=
  match NewServer f (fun _ => true) ex_cfg true with
  | inr s => fst (Server_Start s false false)
  | inl _ => MkServer f ex_cfg false false false ∅ 0 ∅ ∅ 0 0 StIdle
  end.

Definition ex_after (f : Flavor) (ls : list TLabel) : Server := default (ex_started f) (trun ls (ex_started f)).

Lemma ex_reachable f ls :
  bool_decide (is_Some (trun ls (ex_started f))) = true -> treachable f ex_cfg (ex_after f ls).
Proof.
  intros Hr. exists (fun _ => true), false, (MkServer f ex_cfg false false false ∅ 0 ∅ ∅ 0 0 StIdle), (ex_started f), ls.
  split; [done |]. split; [done |]. unfold ex_after. apply bool_decide_eq_true_1 in Hr as [s ->]. done.
Qed.

(** A client connects, two packets are sent to it, one is written. *)
Definition ex_traffic : list TLabel :=
  [TAccept; TAcceptor 0; TAcceptor 0; TReader 0 ReadErr; TReader 0 ReadTimeout;
   TReader 0 (ReadData [x01; x02]); TSendCheck 0 [x07]; TSendPush 0 0; TSendCheck 0 [x08]; TSendPush 0 0;
   TWriter 0 OnData; TWriter 0 WriteOk].

(** ... and the server is stopped while another client connects. *)
Definition ex_stop : list TLabel :=
  [TAccept; TStop []; TAcceptor 0; TStopStep; TCloseStage 0; TWriter 0 OnClosed; TWriter 0 Proceed;
   TWriter 0 Proceed; TWriter 0 Proceed; TReader 0 ReadErr; TCloseStage 0; TReader 0 ReadErr; TReader 0 ReadErr;
   TAcceptor 0; TCloseStage 1; TCloseStage 1; TAcceptor 0; TAcceptor 0; TStopStep; TStopStep; TStopStep].

Lemma kcp_stop_quiescent_witness :
  let s := ex_after FKCP (ex_traffic ++ ex_stop) in
  sv_stop s = StReturned /\ size (sv_heap s) = 2%nat /\ sv_wg s = 0 /\ sv_sessions s = ∅.
Proof.
  assert (sv_stop (ex_after FKCP (ex_traffic ++ ex_stop)) = StReturned) as Hst by (vm_compute; reflexivity).
  cbv zeta. split; [exact Hst |]. split; [vm_compute; reflexivity |].
  destruct (kcp_stop_quiescent ex_cfg _ (ex_reachable FKCP (ex_traffic ++ ex_stop) ltac:(vm_compute; reflexivity)) Hst) as (Hw & _ & Hm & _).
  split; [exact Hw | exact Hm].
Defined.

Definition ex_session (f : Flavor) (ls : list TLabel) : TSession :=
  default (newSession "" ex_cfg) (sv_heap (ex_after f ls) !! 0%nat).

Lemma send_order_witness :
  let x := ex_session FKCP ex_traffic in
  ts_accepted x = [[x07]; [x08]] /\ ts_written x = [[x07]] /\ ts_queue x = [[x08]] /\ ts_handled x = [[x01; x02]] /\
  ts_written x `prefix_of` ts_accepted x.
Proof.
  cbv zeta. do 4 (split; [vm_compute; reflexivity |]).
  refine (proj1 (send_order FKCP ex_cfg (ex_after FKCP ex_traffic) 0%nat _ (ex_reachable FKCP ex_traffic ltac:(vm_compute; reflexivity)) _)).
  vm_compute. reflexivity.
Defined.

Lemma transport_stop_terminates_witness :
  let s := ex_after FKCP (ex_traffic ++ [TStop []]) in
  stop_measure s = 58%nat /\ (length [TStopStep; TCloseStage 0%nat] <= stop_measure s)%nat.
Proof.
  cbv zeta. split; [vm_compute; reflexivity |].
  refine (proj1 (transport_stop_terminates FKCP ex_cfg _ [TStopStep; TCloseStage 0%nat]
    (default (ex_started FKCP) (trun [TStopStep; TCloseStage 0%nat] (ex_after FKCP (ex_traffic ++ [TStop []]))))
    (ex_reachable FKCP (ex_traffic ++ [TStop []]) ltac:(vm_compute; reflexivity)) _ _ _)).
  - vm_compute. discriminate.
  - vm_compute. reflexivity.
  - reflexivity.
Defined.

(** A write is about to fail; after it a further packet is sent. *)
Definition ex_writing : list TLabel :=
  [TAccept; TAcceptor 0; TAcceptor 0; TReader 0 ReadErr; TSendCheck 0 [x07]; TSendPush 0 0; TWriter 0 OnData].

Definition ex_more : list TLabel := [TWriter 0 Proceed; TSendCheck 0 [x08]; TSendPush 0 0].

Lemma write_error_blackholes_witness :
  exists x1 x', ts_closed x1 = false /\ ts_written x' = [] /\ ts_queue x1 `prefix_of` ts_queue x' /\
    sv_heap (ex_after FKCP (ex_writing ++ TWriter 0 WriteErr :: ex_more)) !! 0%nat = Some x' /\
    ts_queue x' = [[x08]] /\ snd (Session_Send x' [x09]) = None.
Proof.
  assert (texec (TWriter 0 WriteErr) (ex_after FKCP ex_writing) = Some (ex_after FKCP (ex_writing ++ [TWriter 0 WriteErr])))
    as Hs by (vm_compute; reflexivity).
  assert (trun ex_more (ex_after FKCP (ex_writing ++ [TWriter 0 WriteErr])) =
    Some (ex_after FKCP (ex_writing ++ TWriter 0 WriteErr :: ex_more))) as Hr by (vm_compute; reflexivity).
  destruct (write_error_blackholes FKCP ex_cfg (ex_after FKCP ex_writing) 0%nat (ex_session FKCP ex_writing) WriteErr
    _ ex_more _ (ex_reachable FKCP ex_writing ltac:(vm_compute; reflexivity)) ltac:(vm_compute; reflexivity)
    ltac:(left; split; [exists [x07]; vm_compute; reflexivity | reflexivity]) Hs Hr)
    as (x1 & x' & _ & Hx' & Hc & _ & _ & Hw & Hq & Hsend).
  assert (sv_heap (ex_after FKCP (ex_writing ++ TWriter 0 WriteErr :: ex_more)) !! 0%nat =
    Some (ex_session FKCP (ex_writing ++ TWriter 0 WriteErr :: ex_more))) as He by (vm_compute; reflexivity).
  rewrite Hx' in He. injection He as He.
  assert (ts_closed x' = false /\ Z.of_nat (length (ts_queue x')) < ts_cap x' /\ ts_queue x' = [[x08]]) as (H1 & H2 & H3)
    by (rewrite He; split; [| split]; vm_compute; reflexivity).
  exists x1, x'. split; [rewrite Hc; vm_compute; reflexivity |]. split; [rewrite Hw; vm_compute; reflexivity |].
  split; [exact Hq |]. split; [exact Hx' |]. split; [exact H3 |]. exact (proj1 (Hsend H1 H2 [x09])).
Defined.

(** An upgrade is registered just before the stop. *)
Definition ex_late : list TLabel :=
  [TUpgrade 1 "https://game.example"; TAcceptor 1; TStop []; TStopStep; TCloseStage 0; TCloseStage 0; TStopStep; TStopStep; TStopStep;
   TAcceptErr; TAcceptor 0; TStopStep; TAcceptor 1].

(** The WebSocket server does not count its upgrade handlers: one that has
    registered its session when [Stop] begins can start the read loop after
    [Stop] has returned, so the promise to wait for all goroutines is not
    kept. *)
Theorem wss_reader_after_stop :
  exists c s l x, treachable FWSS c s /\ sv_stop s = StReturned /\ sv_wg s = 1 /\
    sv_heap s !! l = Some x /\ ts_reader x = RSpawned.
Proof.
  exists ex_cfg, (ex_after FWSS ex_late), 0%nat, (ex_session FWSS ex_late).
  split; [by apply ex_reachable; vm_compute |]. do 3 (split; [vm_compute; reflexivity |]). vm_compute. reflexivity.
Qed.
