(* ===== verification/Deployment.v ===== *)
(** * A room and its KCP connections

    The room, the bridge and a KCP server running side by side.  When the room
    broadcasts, the bridge encodes the deltas, looks up one session after another
    and calls [Send] on its connection; the tick loop goes on when the last call
    has returned, while transport goroutines accept, read, write and close at any
    time, also between the lookup and the two tests of a [Send].

    [SessionLookup] of [bridge.go] is given to the bridge by its caller; here it
    is a map to which connections are added, each for one session and once, and
    from which sessions are removed, at any time ([session_manager_lookup] shows
    that the session manager's operations are such changes).  A packet is lost
    when its delta does not fit, its session is not found, its connection is
    closed or its queue is full, and for a connection that came too late; which
    sessions lost one, and which have ever left the room, is recorded beside the
    state.

    The packages are written to be composed this way, but no program under
    [cmd/] does it yet: [cmd/game-server] runs the KCP server with a handler that
    only logs packets.

    Nobody but the room sends.  The runs are those in which commands hold values
    of their Go types ([label_typed]), a broadcaster is set, and versions identify
    transforms: a player ID joins only when no client still knows it, and a
    player moves less than 2^32 times ([careful]). *)

From Stdlib Require Import ZArith Lia.
From stdpp Require Import base strings gmap fin_maps list relations.
From S2P Require Import Prelude.
From S2P Require Import Player.
From S2P Require Import Delta.
From S2P Require Import DeltaFacts.
From S2P Require Import Cluster.
From S2P Require Import ClusterFacts.
From S2P Require Import Room.
From S2P Require Import RoomFacts.
From S2P Require Import RoomSystem.
From S2P Require Import RoomBroadcast.
From S2P Require Import RoomClients.
From S2P Require Import Protocol.
From S2P Require Import ProtocolFacts.
From S2P Require Import Bridge.
From S2P Require Import BridgeFacts.
From S2P Require Import RoomTyped.
From S2P Require Import EndToEnd.
From S2P Require Import Transport.
From S2P Require Import TransportFacts.
From S2P Require Import TransportBridge.

Local Open Scope string_scope.
Local Open Scope Z_scope.
Local Open Scope list_scope.

(** ** Sending *)

(** What the steps of other goroutines leave of a session. *)
Lemma session_change_frame s x y :
  session_change s x false y ->
  ts_accepted y = ts_accepted x /\ ts_pending y = ts_pending x /\ ts_cap y = ts_cap x.
Proof.
  intros Hc. inversion Hc; subst; try done.
  - unfold reader_read, kcp_read, wss_read, deliver in *. repeat case_match; by simplify_eq.
  - unfold writer_step in *. repeat case_match; by simplify_eq.
Qed.

Section packets.
Context `{GR : !GoRange} `{!Msgpack Envelope} `{!Msgpack Protocol.PlayerDelta}.
Context `{!MsgpackLaws Envelope} `{!MsgpackLaws Protocol.PlayerDelta} `{!EnvelopeSize}.
Implicit Types (b : Batches) (ps : list (string * bytes)).

(** The packets a broadcast has for its sessions, in the order of its calls. *)
Definition outgoing (site : list nat) b : list (string * bytes) :=
  prod_map id snd <$> dispatched Some site (Some <$> b).

(** A packet for a session goes to the connection it is looked up to. *)
Definition send_to (lookup_sess : string -> option tloc) (sv : Server) (p : string * bytes) : Server :=
  from_option (fun l => send_packet sv (l, p.2)) sv (lookup_sess p.1).

Lemma packets_send (lookup_sess : string -> option tloc) n site batches (sv : Server) :
  foldl send_packet sv (snd <$> packets lookup_sess n site batches) =
  foldl (send_to lookup_sess) sv (prod_map id snd <$> packets Some n site batches).
Proof.
  revert n sv. induction batches as [| [sid batch] batches IH]; intros n sv; [done |].
  cbn [packets]. rewrite !fmap_app, !foldl_app, IH. f_equal. unfold session_packet.
  destruct (payload_of batch) as [pd |]; simpl; [| done].
  destruct (packet_of (n :: site) pd) as [e | d]; simpl.
  - by destruct (lookup_sess sid).
  - unfold send_to. simpl. by destruct (lookup_sess sid).
Qed.

(** Handed over one after the other, they are the broadcast. *)
Lemma outgoing_broadcast lookup_sess site b (sv : Server) :
  RoomDeltaBroadcaster_BroadcastDelta (Some lookup_sess) site b sv =
  foldl (send_to lookup_sess) sv (outgoing site b).
Proof.
  unfold RoomDeltaBroadcaster_BroadcastDelta, DeltaBroadcaster_BroadcastDelta.
  rewrite dispatched_world. unfold outgoing, dispatched. rewrite map_size_fmap.
  case_bool_decide; [done |]. apply packets_send.
Qed.

(** The sessions whose delta cannot be encoded. *)
Definition unsent (site : list nat) b : gset string :=
  list_to_set (omap (fun '(sid, batch) =>
    pd ← payload_of (Some batch);
    if decide (sid ∈ (outgoing site b).*1) then None else Some sid) (map_to_list b)).

(** The packets for one session. *)
Definition for_session (sid : string) ps : list bytes := snd <$> filter (fun p => p.1 = sid) ps.

Lemma for_session_cons sid p ps :
  for_session sid (p :: ps) = (if decide (p.1 = sid) then [p.2] else []) ++ for_session sid ps.
Proof. unfold for_session. rewrite filter_cons. by case_decide. Qed.

Lemma for_session_app sid ps ps' : for_session sid (ps ++ ps') = for_session sid ps ++ for_session sid ps'.
Proof. unfold for_session. by rewrite filter_app, fmap_app. Qed.

Lemma for_session_none sid ps : sid ∉ ps.*1 -> for_session sid ps = [].
Proof.
  induction ps as [| p ps IH]; intros Hl; [done |]. rewrite for_session_cons, decide_False by set_solver.
  apply IH. set_solver.
Qed.

Lemma for_session_one sid d ps : NoDup ps.*1 -> (sid, d) ∈ ps -> for_session sid ps = [d].
Proof.
  induction ps as [| p ps IH]; intros Hnd Hin; [by apply elem_of_nil in Hin |].
  apply NoDup_cons in Hnd as [Hni Hnd]. rewrite for_session_cons. apply elem_of_cons in Hin as [<- | Hin].
  - rewrite decide_True by done. by rewrite for_session_none.
  - rewrite decide_False; [by apply IH |]. intros <-. apply Hni, list_elem_of_fmap. by exists (p.1, d).
Qed.

(** A packet that does to a client what a delta does. *)
Definition carries (pd : Delta.PlayerDelta) (d : bytes) : Prop :=
  forall site (v : client_view), receive_packet site (project <$> v) d = project <$> apply_delta v pd.

Lemma outgoing_NoDup site b : NoDup (outgoing site b).*1.
Proof.
  unfold outgoing. rewrite <- list_fmap_compose.
  rewrite (list_fmap_ext (fst ∘ prod_map id snd) fst); [apply dispatched_NoDup | by intros ? []].
Qed.

Lemma outgoing_sound site b sid d :
  (sid, d) ∈ outgoing site b ->
  exists pd, payload_of (b !! sid) = Some pd /\ (delta_typed pd -> carries pd d).
Proof.
  intros ([sid' [sid'' p]] & [= <- <-] & Hin)%list_elem_of_fmap.
  apply dispatched_sound in Hin as (_ & batch & pd & Hb & Hp & Hc). exists pd. split; [| done].
  rewrite lookup_fmap in Hb. destruct (b !! sid); by simplify_eq/=.
Qed.

(** The packet of a session, unless its delta could not be encoded. *)
Lemma outgoing_for_session site b sid :
  batches_typed b -> sid ∉ unsent site b ->
  Forall2 carries (option_list (payload_of (b !! sid))) (for_session sid (outgoing site b)).
Proof.
  intros Hty Hsent. destruct (decide (sid ∈ (outgoing site b).*1)) as [Hin | Hni].
  - apply list_elem_of_fmap in Hin as ([sid' d] & [= ->] & Hin).
    destruct (outgoing_sound _ _ _ _ Hin) as (pd & Hp & Hc). rewrite Hp. simpl.
    rewrite (for_session_one _ _ _ (outgoing_NoDup site b) Hin). constructor; [| constructor].
    apply Hc. by destruct (Hty _ _ Hp) as [].
  - rewrite for_session_none by done. destruct (payload_of (b !! sid)) as [pd |] eqn:Hp; [| constructor].
    destruct Hsent. unfold unsent. apply elem_of_list_to_set, list_elem_of_omap.
    destruct (b !! sid) as [batch |] eqn:Hb; [| done]. exists (sid, batch).
    rewrite elem_of_map_to_list. split; [done |]. rewrite Hp. simpl. by rewrite decide_False.
Qed.

(** The deltas addressed to a session. *)
Definition stream (sid : string) (bs : list Batches) : list Delta.PlayerDelta :=
  omap (fun b => payload_of (b !! sid)) bs.

Lemma stream_app sid bs bs' : stream sid (bs ++ bs') = stream sid bs ++ stream sid bs'.
Proof. apply omap_app. Qed.

Lemma outgoing_stream site bs sid :
  Forall batches_typed bs -> sid ∉ ⋃ (unsent site <$> bs) ->
  Forall2 carries (stream sid bs) (for_session sid (concat (outgoing site <$> bs))).
Proof.
  intros Hty. induction Hty as [| b bs Hb _ IH]; cbn [concat fmap list_fmap union_list foldr]; [constructor |].
  intros Hn. rewrite for_session_app. change (stream sid (b :: bs)) with (stream sid ([b] ++ bs)). rewrite stream_app.
  apply Forall2_app; [| apply IH; set_solver].
  pose proof (outgoing_for_session site b sid Hb) as Ho. unfold stream. cbn [omap list_omap].
  destruct (payload_of (b !! sid)); apply Ho; set_solver.
Qed.

(** Packets go to sessions that were told something. *)
Lemma outgoing_addressed site bs sid :
  stream sid bs = [] -> for_session sid (concat (outgoing site <$> bs)) = [].
Proof.
  intros He. apply for_session_none. intros ([sid' d] & [= ->] & Hin)%list_elem_of_fmap.
  apply list_elem_of_In, in_concat in Hin as (ps & Hps%list_elem_of_In & Hin%list_elem_of_In).
  apply list_elem_of_fmap in Hps as (b & -> & Hb). destruct (outgoing_sound _ _ _ _ Hin) as (pd & Hp & _).
  assert (pd ∈ stream sid' bs) as Hpd by (apply list_elem_of_omap; by exists b).
  rewrite He in Hpd. by apply elem_of_nil in Hpd.
Qed.
End packets.

(** ** What a client is told *)

(** A client that has decoded these packets. *)
Definition decoded `{GR : !GoRange} `{!Msgpack Envelope} `{!Msgpack Protocol.PlayerDelta}
    (site : list nat) (ds : list bytes) : wire_view := foldl (receive_packet site) ∅ ds.

Lemma decoded_stream `{GR : !GoRange} `{!Msgpack Envelope} `{!Msgpack Protocol.PlayerDelta} site pds ds :
  Forall2 carries pds ds -> decoded site ds = project <$> foldl apply_delta (∅ : client_view) pds.
Proof.
  intros Hc. unfold decoded. rewrite <- (fmap_empty project : project <$> (∅ : client_view) = ∅).
  generalize (∅ : client_view). induction Hc as [| pd d pds ds Hpd _ IH]; intros v; [done |].
  simpl. by rewrite Hpd, IH.
Qed.

(** The room's account of what a session was told by some broadcasts. *)
Definition told (sid : string) (bs : list Batches) : client_view :=
  foldl (fun v b => receive b v) (fun _ => ∅) bs sid.

Lemma told_stream sid bs : told sid bs = foldl apply_delta ∅ (stream sid bs).
Proof.
  unfold told. change (∅ : client_view) with ((fun _ : SessionID => ∅ : client_view) sid) at 2.
  generalize (fun _ : SessionID => ∅ : client_view). induction bs as [| b bs IH]; intros v; [done |].
  simpl. rewrite IH. unfold receive at 1, payload_of.
  destruct (b !! sid) as [batch |]; simpl; [| done]. destruct (db_PlayerDelta batch) as [pd |]; simpl; [| done].
  destruct (PlayerDelta_IsEmpty pd) eqn:He; [by rewrite is_empty_apply | done].
Qed.

(** A prefix of the deltas is what the first broadcasts held. *)
Lemma stream_prefix sid bs k :
  exists n, (n <= length bs)%nat /\ take k (stream sid bs) = stream sid (take n bs).
Proof.
  revert k. induction bs as [| b bs IH]; intros k; [exists 0%nat; by destruct k |].
  unfold stream. cbn [omap list_omap]. destruct (payload_of (b !! sid)) as [pd |] eqn:Hp.
  - destruct k as [| k]; [exists 0%nat; split; [lia | done] |]. destruct (IH k) as (n & Hn & He).
    exists (S n). split; [simpl; lia |]. cbn. rewrite Hp. by f_equal.
  - destruct (IH k) as (n & Hn & He). exists (S n). split; [simpl; lia |]. cbn. by rewrite Hp.
Qed.

(** What one session receives depends on its own view alone. *)
Lemma fold_receive_at sid bs (v w : views) :
  v sid = w sid -> foldl (fun v b => receive b v) v bs sid = foldl (fun v b => receive b v) w bs sid.
Proof.
  revert v w. induction bs as [| b bs IH]; intros v w He; [done |]. simpl. apply IH. unfold receive. by rewrite He.
Qed.

Lemma fold_receive_silent sid bs (v : views) :
  Forall (fun b : Batches => b !! sid = None) bs -> foldl (fun v b => receive b v) v bs sid = v sid.
Proof.
  intros Hb. revert v. induction Hb as [| b bs Hb _ IH]; intros v; [done |]. simpl. rewrite IH.
  unfold receive. by rewrite Hb.
Qed.

Lemma told_app sid bs bs' (v : views) :
  v sid = told sid bs -> told sid (bs ++ bs') = foldl (fun v b => receive b v) v bs' sid.
Proof. intros He. unfold told. rewrite foldl_app. by apply fold_receive_at. Qed.

Section room_side.
Context {A : Type} `{ALLOC : !ClusterAllocator A} `{LAWS : !ClusterAllocatorLaws A} `{GR : !GoRange}.
Implicit Types (s : RoomSys A).

(** What a step broadcasts. *)
Definition new_batches s s' : list Batches := drop (length (sys_sent s)) (sys_sent s').

Lemma step_sent l s s' : step l s s' -> sys_sent s' = sys_sent s ++ new_batches s s'.
Proof. unfold new_batches. destruct 1; simpl; rewrite ?drop_app_length, ?drop_all, ?app_nil_r; done. Qed.

(** Only attached sessions are addressed. *)
Lemma step_addressed l s s' sid :
  sys_inv s -> step l s s' -> r_activeSessions (sys_room s') !! sid = None ->
  Forall (fun b : Batches => b !! sid = None) (new_batches s s').
Proof.
  intros Hinv Hs Hn. unfold new_batches. destruct Hs; simpl in *; rewrite ?drop_all; try constructor.
  rewrite drop_app_length. pose proof (sv_room _ Hinv) as Hr. simpl in Hr.
  destruct (finishTick_inv _ _ _ _ _ Hr H0) as (r1 & Hrd & Hcase).
  destruct (isBroadcastTick r t); [| destruct Hcase as [_ ->]; constructor].
  apply broadcast_frame in Hcase as (res & Hbuild & -> & ->). simpl in Hn.
  destruct (buildDeltaBatches_session (3%nat :: site) r1 t res sid Hbuild) as [_ H2].
  destruct H2 as [_ H2]; [by rewrite Hn |]. destruct (_ && _); simpl; auto.
Qed.

(** A session that is not attached holds nothing. *)
Lemma watched_detached alloc spec s v sid :
  watched alloc spec s v -> r_activeSessions (sys_room s) !! sid = None -> v sid = ∅.
Proof.
  intros Hw Hn. destruct (watched_inv _ _ _ _ Hw) as [Hinv (hist & _ & _ & Ha)]. specialize (Ha sid).
  pose proof (ri_cache _ (sv_room _ Hinv)) as Hc. destruct (r_snapshotCache (sys_room s) !! sid) eqn:E; [| done].
  exfalso. apply (not_elem_of_dom_2 _ _ Hn). rewrite <- Hc. by eapply elem_of_dom_2.
Qed.

(** A session that has never left holds what it was told from the start. *)
Lemma observe_told alloc spec l s s' v sid :
  watched alloc spec s v -> step l s s' ->
  sid ∉ dom (r_activeSessions (sys_room s)) ∖ dom (r_activeSessions (sys_room s')) ->
  v sid = told sid (sys_sent s) -> observe s s' v sid = told sid (sys_sent s').
Proof.
  intros Hw Hs Hleft Ht. rewrite (step_sent _ _ _ Hs), (told_app _ _ _ v Ht). unfold observe.
  fold (new_batches s s'). destruct (r_activeSessions (sys_room s') !! sid) as [att |] eqn:Ha; [done |].
  destruct (watched_inv _ _ _ _ Hw) as [Hinv _].
  rewrite fold_receive_silent by by eapply step_addressed. symmetry. eapply watched_detached; [done |].
  apply not_elem_of_dom. intros Hd. apply Hleft, elem_of_difference. split; [done |]. by apply not_elem_of_dom.
Qed.
End room_side.

(** ** The joint system *)

(** Where the broadcaster is with the first packet it has still to send: before
    the lookup, or holding a connection, before or between the two tests of
    [Send]. *)
Inductive SendStage := SendNext | SendFound (l : tloc) | SendChecked (l : tloc).

Definition stage_conn (c : SendStage) : option tloc :=
  match c with SendNext => None | SendFound l | SendChecked l => Some l end.

(** [ds_conns] is what looking up a session finds; [ds_todo] are the packets the
    running broadcast has still to send.  [ds_views], [ds_lost], [ds_left] and
    [ds_used] (the connections that ever had a session) only record. *)
Record DState (A : Type) := MkDState {
  ds_room : RoomSys A;
  ds_views : views;
  ds_server : Server;
  ds_conns : gmap string tloc;
  ds_todo : list (string * bytes);
  ds_call : SendStage;
  ds_lost : gset string;
  ds_left : gset SessionID;
  ds_used : gset tloc }.

Arguments MkDState {A}.
Arguments ds_room {A}.
Arguments ds_views {A}.
Arguments ds_server {A}.
Arguments ds_conns {A}.
Arguments ds_todo {A}.
Arguments ds_call {A}.
Arguments ds_lost {A}.
Arguments ds_left {A}.
Arguments ds_used {A}.

(** Steps of the tick loop, which is inside [BroadcastDelta] while there is
    something left to send. *)
Definition loop_label (l : Label) : bool :=
  match l with LTickBegin _ _ | LHandle _ _ | LTickEnd _ | LExit => true | _ => false end.

(** Whether the second test of [Send] queues the packet. *)
Definition queue_has_space (sv : Server) (l : tloc) : bool :=
  from_option (fun x => Z.of_nat (length (ts_queue x)) <? ts_cap x) false (sv_heap sv !! l).

(** A connection's call between its two tests. *)
Definition in_send (call : SendStage) (todo : list (string * bytes)) (l : tloc) : list bytes :=
  match call, todo with
  | SendChecked l', (_, d) :: _ => if decide (l' = l) then [d] else []
  | _, _ => []
  end.

(** Handlers only know connections whose read loop was started. *)
Definition known (sv : Server) (l : tloc) : Prop :=
  exists x, sv_heap sv !! l = Some x /\ ts_reader x <> RNone.

(** A session that was told something before it got its connection has missed
    that. *)
Definition missed (sid : string) (sent : list Batches) : gset string :=
  match stream sid sent with [] => ∅ | _ => {[sid]} end.

Section deployment.
Context {A : Type} `{ALLOC : !ClusterAllocator A} `{LAWS : !ClusterAllocatorLaws A} `{GR : !GoRange}.
Context `{!Msgpack Envelope} `{!Msgpack Protocol.PlayerDelta}.
Context `{!MsgpackLaws Envelope} `{!MsgpackLaws Protocol.PlayerDelta} `{!EnvelopeSize}.
Implicit Types (s : RoomSys A) (sv : Server) (ds : DState A) (conns : gmap string tloc).

Inductive dstep : DState A -> DState A -> Prop :=
  | d_room l site s s' v sv conns todo call lost left used :
      careful l s -> label_typed l -> step l s s' -> (loop_label l = true -> todo = []) ->
      dstep (MkDState s v sv conns todo call lost left used)
        (MkDState s' (observe s s' v) sv conns (todo ++ concat (outgoing site <$> new_batches s s')) call
           (lost ∪ ⋃ (unsent site <$> new_batches s s'))
           (left ∪ (dom (r_activeSessions (sys_room s)) ∖ dom (r_activeSessions (sys_room s')))) used)
  | d_net lab s v sv sv' conns todo call lost left used :
      is_send lab = false -> texec lab sv = Some sv' ->
      dstep (MkDState s v sv conns todo call lost left used) (MkDState s v sv' conns todo call lost left used)
  | d_register sid l s v sv conns todo call lost left used :
      conns !! sid = None -> known sv l -> l ∉ used ->
      dstep (MkDState s v sv conns todo call lost left used)
        (MkDState s v sv (<[sid := l]> conns) todo call (lost ∪ missed sid (sys_sent s)) left (used ∪ {[l]}))
  | d_unregister sid s v sv conns todo call lost left used :
      dstep (MkDState s v sv conns todo call lost left used)
        (MkDState s v sv (delete sid conns) todo call lost left used)
  | d_find sid d l s v sv conns todo lost left used :
      conns !! sid = Some l ->
      dstep (MkDState s v sv conns ((sid, d) :: todo) SendNext lost left used)
        (MkDState s v sv conns ((sid, d) :: todo) (SendFound l) lost left used)
  | d_missing sid d s v sv conns todo lost left used :
      conns !! sid = None ->
      dstep (MkDState s v sv conns ((sid, d) :: todo) SendNext lost left used)
        (MkDState s v sv conns todo SendNext (lost ∪ {[sid]}) left used)
  | d_check l sid d s v sv sv' conns todo lost left used :
      texec (TSendCheck l d) sv = Some sv' ->
      dstep (MkDState s v sv conns ((sid, d) :: todo) (SendFound l) lost left used)
        (MkDState s v sv' conns ((sid, d) :: todo) (SendChecked l) lost left used)
  | d_refused l sid d s v sv conns todo lost left used :
      texec (TSendCheck l d) sv = None ->
      dstep (MkDState s v sv conns ((sid, d) :: todo) (SendFound l) lost left used)
        (MkDState s v sv conns todo SendNext (lost ∪ {[sid]}) left used)
  | d_push l sid d s v sv sv' conns todo lost left used :
      texec (TSendPush l 0) sv = Some sv' ->
      dstep (MkDState s v sv conns ((sid, d) :: todo) (SendChecked l) lost left used)
        (MkDState s v sv' conns todo SendNext (if queue_has_space sv l then lost else lost ∪ {[sid]}) left used).

Definition dinit (alloc : A) (spec : RoomSpec) sv : DState A :=
  MkDState (init_sys alloc spec) (fun _ => ∅) sv ∅ [] SendNext ∅ ∅ ∅.

(** A room and a KCP server, both just made and started, and a run of them. *)
Definition deployed (alloc : A) (spec : RoomSpec) (c : ServerConfig) ds : Prop :=
  exists resolvable done sv0 sv, NewServer FKCP resolvable c true = inr sv0 /\
    Server_Start sv0 false done = (sv, None) /\ rtc dstep (dinit alloc spec sv) ds.

(** What a session's connection was given and is about to be given. *)
Definition conn_sent sv (todo : list (string * bytes)) (sid : string) (l : tloc) : list bytes :=
  from_option ts_accepted [] (sv_heap sv !! l) ++ for_session sid todo.

(** The call in progress is for the session the connection belongs to. *)
Record call_held ds (l : tloc) (sid : string) : Prop := {
  ch_used : l ∈ ds_used ds;
  ch_heap : is_Some (sv_heap (ds_server ds) !! l);
  ch_owner : forall sid', ds_conns ds !! sid' = Some l -> sid' = sid;
  ch_conn : sid ∉ ds_lost ds -> forall l', ds_conns ds !! sid = Some l' -> l' = l }.

Record dinv (alloc : A) (spec : RoomSpec) ds : Prop := {
  di_server : tinv (ds_server ds);
  di_cap : forall l x, sv_heap (ds_server ds) !! l = Some x -> 0 < ts_cap x;
  di_pending : forall l x, sv_heap (ds_server ds) !! l = Some x ->
    ts_pending x = in_send (ds_call ds) (ds_todo ds) l;
  di_call : forall l, stage_conn (ds_call ds) = Some l ->
    exists sid d todo, ds_todo ds = (sid, d) :: todo /\ call_held ds l sid;
  di_conns : forall sid l, ds_conns ds !! sid = Some l -> l ∈ ds_used ds;
  di_inj : forall sid1 sid2 l, ds_conns ds !! sid1 = Some l -> ds_conns ds !! sid2 = Some l -> sid1 = sid2;
  di_heap : forall l, l ∈ ds_used ds -> is_Some (sv_heap (ds_server ds) !! l);
  di_fresh : forall l x, l ∉ ds_used ds -> sv_heap (ds_server ds) !! l = Some x -> ts_accepted x = [];
  di_watched : watched alloc spec (ds_room ds) (ds_views ds);
  di_typed : sys_typed (ds_room ds);
  di_told : forall sid, sid ∉ ds_left ds -> ds_views ds sid = told sid (sys_sent (ds_room ds));
  di_todo : forall sid, stream sid (sys_sent (ds_room ds)) = [] -> for_session sid (ds_todo ds) = [];
  di_delivered : forall sid l, ds_conns ds !! sid = Some l -> sid ∉ ds_lost ds ->
    Forall2 carries (stream sid (sys_sent (ds_room ds))) (conn_sent (ds_server ds) (ds_todo ds) sid l) }.

Lemma dinv_room alloc spec l site s s' v sv conns todo call lost left used :
  careful l s -> label_typed l -> step l s s' ->
  dinv alloc spec (MkDState s v sv conns todo call lost left used) ->
  dinv alloc spec
    (MkDState s' (observe s s' v) sv conns (todo ++ concat (outgoing site <$> new_batches s s')) call
       (lost ∪ ⋃ (unsent site <$> new_batches s s'))
       (left ∪ (dom (r_activeSessions (sys_room s)) ∖ dom (r_activeSessions (sys_room s')))) used).
Proof.
  intros Hc Hty Hs []. simpl in *. destruct (watched_inv _ _ _ _ di_watched0) as [Hinv _].
  pose proof (step_typed _ _ _ Hty Hs Hinv di_typed0) as Hty'. pose proof (step_sent _ _ _ Hs) as Hsent.
  constructor; simpl; try done.
  - intros k x Hx. rewrite (di_pending0 k x Hx). destruct call as [| |l']; [done .. |].
    destruct (di_call0 l' eq_refl) as (sid & d & todo' & -> & _). done.
  - intros k Hk. destruct (di_call0 k Hk) as (sid & d & todo' & -> & []). eexists _, _, _. split; [done |].
    constructor; simpl in *; try done. intros Hl. apply ch_conn0. set_solver.
  - by eapply watched_step.
  - intros sid Hsid. eapply observe_told; [done | done | set_solver |]. apply di_told0. set_solver.
  - intros sid. rewrite Hsent, stream_app. intros [H1 H2]%app_eq_nil.
    rewrite for_session_app, di_todo0, outgoing_addressed by done. done.
  - intros sid k Hk Hlost. rewrite Hsent, stream_app. unfold conn_sent. rewrite for_session_app, app_assoc.
    apply Forall2_app; [apply di_delivered0; [done | set_solver] |].
    apply outgoing_stream; [| set_solver].
    pose proof (st_sent _ Hty') as Hb. rewrite Hsent in Hb. by apply Forall_app in Hb as [_ Hb].
Qed.

(** The goroutines of the server leave what was accepted and who is sending as
    they are. *)
Lemma texec_net lab sv sv' l x' :
  tinv sv -> is_send lab = false -> texec lab sv = Some sv' -> sv_heap sv' !! l = Some x' ->
  (exists x, sv_heap sv !! l = Some x /\
     ts_accepted x' = ts_accepted x /\ ts_pending x' = ts_pending x /\ ts_cap x' = ts_cap x) \/
  sv_heap sv !! l = None /\ exists id c, x' = newSession id c.
Proof.
  intros Hi Hn Hs Hx'. destruct (sv_heap sv !! l) as [x |] eqn:Hx.
  - destruct (texec_session _ _ _ _ _ Hi Hx Hs) as (x1 & Hx1 & Hc). rewrite Hn in Hc. left. exists x.
    split; [done |]. simplify_eq. by apply session_change_frame in Hc.
  - right. split; [done |]. destruct (texec_new _ _ _ _ Hx Hs) as [E | (id & c & E)]; [congruence |].
    exists id, c. congruence.
Qed.

Lemma texec_heap_mono lab sv sv' l :
  tinv sv -> texec lab sv = Some sv' -> is_Some (sv_heap sv !! l) -> is_Some (sv_heap sv' !! l).
Proof. intros Hi Hs [x Hx]. destruct (texec_session _ _ _ _ _ Hi Hx Hs) as (x1 & Hx1 & _). by exists x1. Qed.

Lemma dinv_net alloc spec lab s v sv sv' conns todo call lost left used :
  is_send lab = false -> texec lab sv = Some sv' ->
  dinv alloc spec (MkDState s v sv conns todo call lost left used) ->
  dinv alloc spec (MkDState s v sv' conns todo call lost left used).
Proof.
  intros Hn Hs []. simpl in *.
  assert (forall l x', sv_heap sv' !! l = Some x' -> l ∈ used ->
    exists x, sv_heap sv !! l = Some x /\ ts_accepted x' = ts_accepted x) as Hacc.
  { intros l x' Hx' [x Hx]%di_heap0. destruct (texec_net _ _ _ _ _ di_server0 Hn Hs Hx') as [(y & Hy & E & _) | [? _]];
      [by exists y | congruence]. }
  constructor; simpl; try done.
  - by eapply tinv_texec.
  - intros l x' Hx'. destruct (texec_net _ _ _ _ _ di_server0 Hn Hs Hx') as [(x & Hx & _ & _ & ->) | (_ & id & c & ->)].
    + by eapply di_cap0.
    + simpl. unfold sendQueueSize, positive_or, defaultSendQueueSize. destruct (Z.leb_spec (sc_SendQueueSize c) 0); lia.
  - intros l x' Hx'. destruct (texec_net _ _ _ _ _ di_server0 Hn Hs Hx') as [(x & Hx & _ & -> & _) | (Hno & id & c & ->)].
    + by apply di_pending0.
    + simpl. unfold in_send. destruct call as [| |l']; [done .. |]. destruct todo as [| [sid d] todo]; [done |].
      case_decide; [| done]. subst l'. destruct (di_call0 l eq_refl) as (? & ? & ? & _ & []).
      simpl in *. rewrite Hno in ch_heap0. by destruct ch_heap0.
  - intros l Hl. destruct (di_call0 l Hl) as (sid & d & todo' & -> & []). eexists _, _, _. split; [done |].
    constructor; simpl in *; try done. by eapply texec_heap_mono.
  - intros l Hl. eapply texec_heap_mono; eauto.
  - intros l x' Hl Hx'. destruct (texec_net _ _ _ _ _ di_server0 Hn Hs Hx') as [(x & Hx & -> & _) | (_ & id & c & ->)];
      [by eapply di_fresh0 | done].
  - intros sid l Hl Hlost. specialize (di_delivered0 sid l Hl Hlost). unfold conn_sent in *.
    destruct (texec_heap_mono _ _ _ l di_server0 Hs (di_heap0 _ (di_conns0 _ _ Hl))) as [x' Hx'].
    destruct (Hacc l x' Hx' (di_conns0 _ _ Hl)) as (x & Hx & E). rewrite Hx'. simpl. rewrite E.
    by rewrite Hx in di_delivered0.
Qed.

(** A connection gets its session. *)
Lemma dinv_register alloc spec sid l s v sv conns todo call lost left used :
  conns !! sid = None -> is_Some (sv_heap sv !! l) -> l ∉ used ->
  dinv alloc spec (MkDState s v sv conns todo call lost left used) ->
  dinv alloc spec (MkDState s v sv (<[sid := l]> conns) todo call (lost ∪ missed sid (sys_sent s)) left (used ∪ {[l]})).
Proof.
  intros Hn Hl Hu []. simpl in *.
  assert (sid ∉ lost ∪ missed sid (sys_sent s) -> stream sid (sys_sent s) = []) as Hmiss.
  { unfold missed. destruct (stream sid (sys_sent s)); [done | set_solver]. }
  constructor; simpl; try done.
  - intros k Hk. destruct (di_call0 k Hk) as (sid1 & d & todo' & -> & []). simpl in *.
    eexists _, _, _. split; [done |]. constructor; simpl; [set_solver | done | |].
    + intros sid' [[<- <-] | [_ ?]]%lookup_insert_Some; [set_solver | by apply ch_owner0].
    + intros Hlost l' [[<- <-] | [_ ?]]%lookup_insert_Some; [| apply ch_conn0; [set_solver | done]].
      exfalso. specialize (di_todo0 _ (Hmiss Hlost)). by rewrite for_session_cons, decide_True in di_todo0.
  - intros sid1 k [[<- <-] | [_ ?%di_conns0]]%lookup_insert_Some; set_solver.
  - intros sid1 sid2 k [[<- <-] | [? H1]]%lookup_insert_Some [[<- Ek] | [? H2]]%lookup_insert_Some;
      [done | by apply di_conns0 in H2 | subst; by apply di_conns0 in H1 | by eapply di_inj0].
  - intros k. rewrite elem_of_union, elem_of_singleton. intros [? | ->]; [by apply di_heap0 | done].
  - intros k x Hk. apply di_fresh0. set_solver.
  - intros sid1 k [[<- <-] | [? Hk]]%lookup_insert_Some Hlost; [| apply di_delivered0; [done | set_solver]].
    rewrite (Hmiss Hlost). unfold conn_sent. rewrite (di_todo0 _ (Hmiss Hlost)), app_nil_r.
    destruct Hl as [x Hx]. rewrite Hx. simpl. rewrite (di_fresh0 _ _ Hu Hx). constructor.
Qed.

Lemma dinv_unregister alloc spec sid s v sv conns todo call lost left used :
  dinv alloc spec (MkDState s v sv conns todo call lost left used) ->
  dinv alloc spec (MkDState s v sv (delete sid conns) todo call lost left used).
Proof.
  intros []. simpl in *. constructor; simpl; try done.
  - intros k Hk. destruct (di_call0 k Hk) as (sid1 & d & todo' & -> & []). simpl in *.
    eexists _, _, _. split; [done |]. constructor; simpl; try done.
    + intros sid' [_ ?]%lookup_delete_Some. by apply ch_owner0.
    + intros Hlost l' [_ ?]%lookup_delete_Some. by apply ch_conn0.
  - intros sid1 k [_ ?]%lookup_delete_Some. by eapply di_conns0.
  - intros sid1 sid2 k [_ ?]%lookup_delete_Some [_ ?]%lookup_delete_Some. by eapply di_inj0.
  - intros sid1 k [_ ?]%lookup_delete_Some. by apply di_delivered0.
Qed.

(** The session of the next packet is looked up. *)
Lemma dinv_find alloc spec sid d l s v sv conns todo lost left used :
  conns !! sid = Some l ->
  dinv alloc spec (MkDState s v sv conns ((sid, d) :: todo) SendNext lost left used) ->
  dinv alloc spec (MkDState s v sv conns ((sid, d) :: todo) (SendFound l) lost left used).
Proof.
  intros Hl []. simpl in *. constructor; simpl; try done.
  intros k [= <-]. eexists _, _, _. split; [done |]. constructor; simpl; eauto. congruence.
Qed.

(** A packet that is not sent: no connection, or the first test fails. *)
Lemma dinv_drop alloc spec sid d s v sv conns todo call lost left used :
  (forall l, call <> SendChecked l) ->
  dinv alloc spec (MkDState s v sv conns ((sid, d) :: todo) call lost left used) ->
  dinv alloc spec (MkDState s v sv conns todo SendNext (lost ∪ {[sid]}) left used).
Proof.
  intros Hcall []. simpl in *. constructor; simpl; try done.
  - intros k x Hx. rewrite (di_pending0 k x Hx). destruct call as [| | l]; [done .. |]. by destruct (Hcall l).
  - intros sid1 He. specialize (di_todo0 _ He). rewrite for_session_cons in di_todo0. by apply app_eq_nil in di_todo0 as [].
  - intros sid1 k Hk Hlost. specialize (di_delivered0 sid1 k Hk). unfold conn_sent in *.
    rewrite for_session_cons, decide_False in di_delivered0 by (simpl; set_solver). apply di_delivered0. set_solver.
Qed.

(** The first test of a call. *)
Lemma dinv_check alloc spec l sid d s v sv sv' conns todo lost left used :
  texec (TSendCheck l d) sv = Some sv' ->
  dinv alloc spec (MkDState s v sv conns ((sid, d) :: todo) (SendFound l) lost left used) ->
  dinv alloc spec (MkDState s v sv' conns ((sid, d) :: todo) (SendChecked l) lost left used).
Proof.
  intros Hs Hd. pose proof (tinv_texec _ _ _ (di_server _ _ _ Hd) Hs) as Hi'.
  pose proof (fun k => texec_heap_mono _ _ _ k (di_server _ _ _ Hd) Hs) as Hmono. destruct Hd. simpl in *.
  destruct (sv_heap sv !! l) as [x |] eqn:Hx; simplify_eq/=.
  assert (sv' = put sv l (set_queue x (ts_queue x) (ts_pending x ++ [d]))) as ->.
  { unfold Send_check in Hs. destruct (ts_reader x), (IsClosed x); by simplify_eq. }
  constructor; simpl; try done.
  - intros k y [[<- <-] | [Hne Hy]]%lookup_insert_Some; [simpl |]; by eapply di_cap0.
  - intros k y [[<- <-] | [Hne Hy]]%lookup_insert_Some; simpl.
    + rewrite decide_True by done. by rewrite (di_pending0 _ _ Hx).
    + rewrite decide_False by done. by rewrite (di_pending0 _ _ Hy).
  - intros k Hk. destruct (di_call0 k Hk) as (sid1 & d1 & todo1 & E & []). eexists _, _, _. split; [exact E |].
    constructor; simpl in *; auto.
  - intros k Hk. by apply Hmono, di_heap0.
  - intros k y Hk [[<- <-] | [Hne Hy]]%lookup_insert_Some; [simpl |]; by eapply di_fresh0.
  - intros sid1 k Hk Hlost. specialize (di_delivered0 sid1 k Hk Hlost). unfold conn_sent in *. simpl.
    destruct (decide (l = k)) as [<- |]; [rewrite lookup_insert_eq | by rewrite lookup_insert_ne].
    by rewrite Hx in di_delivered0.
Qed.

(** The second test. *)
Lemma dinv_push alloc spec l sid d s v sv sv' conns todo lost left used :
  texec (TSendPush l 0) sv = Some sv' ->
  dinv alloc spec (MkDState s v sv conns ((sid, d) :: todo) (SendChecked l) lost left used) ->
  dinv alloc spec
    (MkDState s v sv' conns todo SendNext (if queue_has_space sv l then lost else lost ∪ {[sid]}) left used).
Proof.
  intros Hs Hd. pose proof (tinv_texec _ _ _ (di_server _ _ _ Hd) Hs) as Hi'.
  pose proof (fun k => texec_heap_mono _ _ _ k (di_server _ _ _ Hd) Hs) as Hmono. destruct Hd. simpl in *.
  destruct (di_call0 l eq_refl) as (sid1 & d1 & todo1 & [= <- <- <-] & [Hused Hheap Hown Hconn]). simpl in *.
  unfold queue_has_space. destruct (sv_heap sv !! l) as [x |] eqn:Hx; simplify_eq/=.
  pose proof (di_pending0 _ _ Hx) as Hp. rewrite decide_True in Hp by done. rewrite Hp in Hs. simplify_eq/=.
  set (y := (Send_push (set_queue x (ts_queue x) []) d).1) in *.
  assert (ts_cap y = ts_cap x /\ ts_pending y = []) as [Hcap Hpe] by (unfold y, Send_push; by case_match).
  constructor; simpl; try done.
  - intros k z [[<- <-] | [Hne Hz]]%lookup_insert_Some; [rewrite Hcap |]; by eapply di_cap0.
  - intros k z [[<- <-] | [Hne Hz]]%lookup_insert_Some; [done |].
    by rewrite (di_pending0 _ _ Hz), decide_False.
  - intros k Hk. by apply Hmono, di_heap0.
  - intros k z Hk [[<- <-] | [Hne Hz]]%lookup_insert_Some; [done | by eapply di_fresh0].
  - intros sid1 He. specialize (di_todo0 _ He). rewrite for_session_cons in di_todo0. by apply app_eq_nil in di_todo0 as [].
  - intros sid1 k Hk Hlost. unfold conn_sent in *. simpl.
    assert (sid1 ∉ lost) as Hlost0 by (case_match; set_solver). specialize (di_delivered0 sid1 k Hk Hlost0).
    rewrite for_session_cons in di_delivered0. simpl in di_delivered0.
    destruct (decide (l = k)) as [<- | Hne].
    + pose proof (Hown _ Hk) as ->. rewrite decide_True in di_delivered0 by done.
      rewrite lookup_insert_eq. rewrite Hx in di_delivered0. simpl in *. unfold y, Send_push. simpl.
      destruct (_ <? _); [| set_solver]. simpl. by rewrite <- app_assoc.
    + rewrite lookup_insert_ne by done. rewrite decide_False in di_delivered0; [done |].
      intros ->. by destruct Hne; rewrite (Hconn Hlost0 _ Hk).
Qed.

Lemma dinv_step alloc spec ds ds' : dstep ds ds' -> dinv alloc spec ds -> dinv alloc spec ds'.
Proof.
  destruct 1; intros Hd.
  - by eapply dinv_room.
  - by eapply dinv_net.
  - eapply dinv_register; [done | | done | done]. match goal with H : known _ _ |- _ => by destruct H as (x & -> & _) end.
  - by eapply dinv_unregister.
  - by eapply dinv_find.
  - by eapply dinv_drop; [| exact Hd].
  - by eapply dinv_check.
  - by eapply dinv_drop; [| exact Hd].
  - by eapply dinv_push.
Qed.

Lemma dinv_init alloc spec resolvable c d sv0 sv :
  NewServer FKCP resolvable c true = inr sv0 -> Server_Start sv0 false d = (sv, None) ->
  dinv alloc spec (dinit alloc spec sv).
Proof.
  intros H0 H1. assert (sv_heap sv = ∅) as He.
  { unfold NewServer in H0. case_match; simplify_eq. by injection H1 as <-. }
  constructor; simpl; try done.
  - by eapply tinv_started.
  - intros l x. by rewrite He, lookup_empty.
  - intros l x. by rewrite He, lookup_empty.
  - intros l x _. by rewrite He, lookup_empty.
  - constructor.
Qed.

Lemma dinv_steps alloc spec ds ds' : rtc dstep ds ds' -> dinv alloc spec ds -> dinv alloc spec ds'.
Proof. induction 1; eauto using dinv_step. Qed.

Lemma deployed_inv alloc spec c ds : deployed alloc spec c ds -> dinv alloc spec ds.
Proof.
  intros (rs & d & sv0 & sv & H0 & H1 & Hr). eapply dinv_steps; [done |]. by eapply dinv_init.
Qed.
End deployment.
