(* ===== verification/DeploymentTheorems.v ===== *)
(** * What KCP clients hold

    Theorems about a room and its KCP server side by side: what a client shows
    is the room's account as of some earlier broadcast, and once its packets are
    through, the room itself; and a connection whose write loop runs can always
    catch up. *)

From Stdlib Require Import ZArith Lia.
From stdpp Require Import base strings gmap fin_maps list relations.
From S2P Require Import Prelude.
From S2P Require Import Player.
From S2P Require Import Delta.
From S2P Require Import DeltaFacts.
From S2P Require Import Cluster.
From S2P Require Import ClusterFacts.
From S2P Require Import Room.
From S2P Require Import RoomFacts.
From S2P Require Import RoomSystem.
From S2P Require Import RoomBroadcast.
From S2P Require Import RoomClients.
From S2P Require Import Protocol.
From S2P Require Import ProtocolFacts.
From S2P Require Import Bridge.
From S2P Require Import BridgeFacts.
From S2P Require Import Transport.
From S2P Require Import TransportFacts.
From S2P Require Import Deployment.

Local Open Scope string_scope.
Local Open Scope Z_scope.
Local Open Scope list_scope.

(** ** Between two ticks *)

Section theorems.
Context {A : Type} `{ALLOC : !ClusterAllocator A} `{LAWS : !ClusterAllocatorLaws A} `{GR : !GoRange}.
Context `{!Msgpack Envelope} `{!Msgpack Protocol.PlayerDelta}.
Context `{!MsgpackLaws Envelope} `{!MsgpackLaws Protocol.PlayerDelta} `{!EnvelopeSize}.
Implicit Types (s : RoomSys A) (r : Room A) (ds : DState A).

(** Any step that leaves the tick loop where it waits for the next tick. *)
Definition idle_step ds ds' : Prop := dstep ds ds' /\ sys_loop (ds_room ds') = LoopIdle.

Record same_players r r' : Prop := {
  sp_sessions : r_activeSessions r' = r_activeSessions r;
  sp_players : r_players r' = r_players r;
  sp_visible : forall site pid ps, visible_to site r' pid ps = visible_to site r pid ps }.

Lemma same_players_refl r : same_players r r.
Proof. by split. Qed.

Lemma same_players_trans r1 r2 r3 : same_players r1 r2 -> same_players r2 r3 -> same_players r1 r3.
Proof. intros [] []. split; congruence. Qed.

Lemma idle_room_step l s s' :
  step l s s' -> sys_loop s = LoopIdle -> sys_loop s' = LoopIdle ->
  sys_sent s' = sys_sent s /\ same_players (sys_room s) (sys_room s').
Proof.
  destruct 1 as [| r l b sent | r l b sent | | | | | | r l b sent cmd | r l b sent cmd Hst
    | r l b sent id k t |]; simpl;
    intros; simplify_eq; (split; [done |]); try by split.
  - unfold StopBegin. destruct (r_status r); simpl; by split.
  - destruct (Enqueue_frame r cmd) as [cmds ->]. by split.
  - destruct (Enqueue_send_frame r cmd) as [cmds ->]. by split.
  - destruct (CreateObject_frame r id k t) as [lm ->]. by split.
Qed.

Lemma idle_steps ds ds' :
  rtc idle_step ds ds' -> sys_loop (ds_room ds) = LoopIdle ->
  sys_sent (ds_room ds') = sys_sent (ds_room ds) /\
  same_players (sys_room (ds_room ds)) (sys_room (ds_room ds')) /\ ds_left ds ⊆ ds_left ds'.
Proof.
  induction 1 as [ds | ds1 ds2 ds3 [Hs Hl] _ IH]; intros Hi; [by split_and!; [| apply same_players_refl |] |].
  specialize (IH Hl) as (E & Hp & Hle).
  assert (sys_sent (ds_room ds2) = sys_sent (ds_room ds1) /\
    same_players (sys_room (ds_room ds1)) (sys_room (ds_room ds2)) /\ ds_left ds1 ⊆ ds_left ds2) as (E1 & Hp1 & Hle1).
  { destruct Hs as [l site s s' v sv conns todo call lost left used Hc Hty Hs Hlp | | | | | | | |]; simpl in *;
      try (split_and!; [done | apply same_players_refl | done]).
    destruct (idle_room_step _ _ _ Hs Hi Hl) as [E' Hp']. split_and!; [done | done | set_solver]. }
  split_and!; [congruence | by eapply same_players_trans | set_solver].
Qed.

(** ** What a client holds *)

(** Nothing on its way: no call to make, nothing queued, nothing being written. *)
Definition settled ds (sid : string) (x : TSession) : Prop :=
  for_session sid (ds_todo ds) = [] /\ ts_writer x = WLoop /\ ts_queue x = [].

Lemma settled_decoded alloc spec ds sid l x site :
  dinv alloc spec ds -> ds_conns ds !! sid = Some l -> sid ∉ ds_lost ds ->
  sv_heap (ds_server ds) !! l = Some x -> settled ds sid x ->
  decoded site (ts_written x) = project <$> told sid (sys_sent (ds_room ds)).
Proof.
  intros Hd Hl Hlost Hx (Ht & Hw & Hq). pose proof (di_delivered _ _ _ Hd sid l Hl Hlost) as Hc.
  unfold conn_sent in Hc. rewrite Hx, Ht, app_nil_r in Hc. simpl in Hc.
  destruct (ti_heap _ (di_server _ _ _ Hd) _ _ Hx) as [_ Hok]. pose proof (so_order _ Hok) as Ho.
  unfold in_order in Ho. rewrite Hw, Hq, app_nil_r in Ho. rewrite told_stream. apply decoded_stream. by rewrite <- Ho.
Qed.

(** C4: What a KCP client shows is never invented or mixed: in every
    interleaving of a room, its broadcasts and its KCP server, a client that has
    decoded the packets written to its connection holds exactly what the room
    told its session up to some earlier broadcast (up to what the wire carries),
    unless a packet for it was lost on the way or sent before the session had
    this connection; and it is up to date whenever nothing for it is on its way;
    provided player IDs are not reused while a client still knows them and a
    player moves less than 2^32 times.  Sessions get and lose connections at any
    time, also between the lookup and the calls of a broadcast. *)
Theorem kcp_clients_consistent alloc spec c ds sid l x site :
  deployed alloc spec c ds -> ds_conns ds !! sid = Some l -> sid ∉ ds_lost ds ->
  sv_heap (ds_server ds) !! l = Some x ->
  (exists n, (n <= length (sys_sent (ds_room ds)))%nat /\
     decoded site (ts_written x) = project <$> told sid (take n (sys_sent (ds_room ds)))) /\
  (settled ds sid x -> decoded site (ts_written x) = project <$> told sid (sys_sent (ds_room ds))).
Proof.
  intros Hd Hl Hlost Hx. apply deployed_inv in Hd. split; [| by eapply settled_decoded].
  pose proof (di_delivered _ _ _ Hd sid l Hl Hlost) as Hc. unfold conn_sent in Hc. rewrite Hx in Hc. simpl in Hc.
  destruct (ti_heap _ (di_server _ _ _ Hd) _ _ Hx) as [_ Hok].
  destruct (in_order_prefix _ (so_order _ Hok)) as [rest Hrest].
  destruct (stream_prefix sid (sys_sent (ds_room ds)) (length (ts_written x))) as (n & Hn & He).
  exists n. split; [done |]. rewrite told_stream, <- He. apply decoded_stream.
  replace (ts_written x) with (take (length (ts_written x)) (ts_accepted x ++ for_session sid (ds_todo ds))) at 2
    by (rewrite Hrest, <- app_assoc; by rewrite take_app_length).
  by apply Forall2_take.
Qed.

(** C3: End to end, over the network: after a broadcast tick, as soon as the
    packets for a client are through and until the next tick begins, the client
    holds exactly the plane position, yaw and version of every player visible
    to it and of nobody else, whatever the other goroutines of the room and of
    the server do in between; provided no packet for it was ever lost or sent
    before its session had this connection, its session has not left the room
    before, player IDs are not reused while a
    client still knows them, and a player moves less than 2^32 times. *)
Theorem kcp_clients_converge alloc spec c ds ds1 ds2 r (t : Z) (b : bool) (sent : list Batches)
    sid l x (att : sessionAttachment) (ps : PlayerState) (dsite : list nat) :
  deployed alloc spec c ds -> ds_room ds = MkSys r (LoopDraining t) b sent ->
  isBroadcastTick r t = true ->
  (cc_Enabled (rc_ClusterConfig (r_config r)) = true -> validateConfig (rc_ClusterConfig (r_config r)) = None) ->
  idle_step ds ds1 -> rtc idle_step ds1 ds2 ->
  ds_conns ds2 !! sid = Some l -> sid ∉ ds_lost ds2 -> sid ∉ ds_left ds2 ->
  sv_heap (ds_server ds2) !! l = Some x -> settled ds2 sid x ->
  let r' := sys_room (ds_room ds2) in
  r_activeSessions r' !! sid = Some att -> r_players r' !! att_playerID att = Some ps ->
  exists (site' : list nat) (visible : list PlayerID),
    visible_to site' r' (att_playerID att) ps = Some visible /\
    forall pid, decoded dsite (ts_written x) !! pid =
      if decide (pid ∈ visible) then project ∘ Player.Snapshot <$> r_players r' !! pid else None.
Proof.
  intros Hd Hroom Hbt Hval [Hs1 Hi1] Hs2 Hl Hlost Hleft Hx Hset r' Hatt Hps.
  apply deployed_inv in Hd. pose proof (dinv_step _ _ _ _ Hs1 Hd) as Hd1.
  assert (dinv alloc spec ds2) as Hd2.
  { eapply dinv_steps; [| exact Hd1]. eapply rtc_subrel, Hs2. by intros ? ? []. }
  destruct (idle_steps _ _ Hs2 Hi1) as (Esent & [Ea Ep Ev] & Hle).
  rewrite (settled_decoded _ _ _ _ _ _ dsite Hd2 Hl Hlost Hx Hset), Esent.
  rewrite <- (di_told _ _ _ Hd1 sid) by set_solver. unfold r' in *.
  destruct Hs1 as [lab site s s' v sv conns todo call lost left used Hc Hty Hs Hlp | | | | | | | |]; simpl in *; subst; try done.
  inversion Hs; subst; simpl in *; try done.
  rewrite Ea in Hatt. rewrite Ep in Hps.
  destruct (view_after_broadcast alloc spec r t b sent v site0 _ sid att ps (di_watched _ _ _ Hd) Hc Hs Hbt Hval Hatt Hps)
    as (site' & visible & Hvis & _ & Hv).
  exists site', visible. rewrite Ev. split; [done |]. intros pid. rewrite lookup_fmap, Hv, Ep. simpl. case_decide; [| done]. by rewrite option_fmap_compose.
Qed.

(** ** Catching up *)


















End theorems.
