(* ===== verification/DeploymentWitness.v ===== *)
(** * A room with two connected clients

    A concrete run of the joint system: two clients connect over KCP, one of
    them twice, join and move; the first broadcast is handed to their connections
    and reaches one of them. *)

From Stdlib Require Import ZArith Lia.
From stdpp Require Import base strings gmap fin_maps list relations.
From S2P Require Import Prelude.
From S2P Require Import Player.
From S2P Require Import Delta.
From S2P Require Import DeltaFacts.
From S2P Require Import Cluster.
From S2P Require Import ClusterFacts.
From S2P Require Import Room.
From S2P Require Import RoomFacts.
From S2P Require Import RoomSystem.
From S2P Require Import RoomClients.
From S2P Require Import RoomWitness.
From S2P Require Import Protocol.
From S2P Require Import ProtocolExample.
From S2P Require Import Bridge.
From S2P Require Import BridgeFacts.
From S2P Require Import RoomTyped.
From S2P Require Import Transport.
From S2P Require Import TransportFacts.
From S2P Require Import TransportWitness.
From S2P Require Import Deployment.
From S2P Require Import DeploymentTheorems.

Local Open Scope string_scope.
Local Open Scope Z_scope.
Local Open Scope list_scope.

Import ExampleCodec.
Import RoomExample.
#[local] Existing Instance canonical_range.

Abbreviation KState := (DState KMeansClusterAllocator).

(** The joint system as a program: [DSend] is the broadcaster's next step. *)
Inductive DLabel :=
  | DRoom (l : Label) | DNet (lab : TLabel) | DSend
  | DRegister (sid : string) (l : tloc) | DUnregister (sid : string).

Definition dexec_send (ds : KState) : option KState :=
  let '(MkDState s v sv conns todo call lost gone used) := ds in
  match todo with
  | [] => None
  | (sid, d) :: rest =>
      match call with
      | SendNext =>
          match conns !! sid with
          | Some l => Some (MkDState s v sv conns todo (SendFound l) lost gone used)
          | None => Some (MkDState s v sv conns rest SendNext (lost ∪ {[sid]}) gone used)
          end
      | SendFound l =>
          match texec (TSendCheck l d) sv with
          | Some sv' => Some (MkDState s v sv' conns todo (SendChecked l) lost gone used)
          | None => Some (MkDState s v sv conns rest SendNext (lost ∪ {[sid]}) gone used)
          end
      | SendChecked l =>
          sv' ← texec (TSendPush l 0) sv;
          Some (MkDState s v sv' conns rest SendNext (if queue_has_space sv l then lost else lost ∪ {[sid]}) gone used)
      end
  end.

Definition dexec (lab : DLabel) (ds : KState) : option KState :=
  let '(MkDState s v sv conns todo call lost gone used) := ds in
  match lab with
  | DRoom l =>
      if decide (careful l s) then
        if typed_b l && (negb (loop_label l) || match todo with [] => true | _ => false end) then
          s' ← exec l s;
          Some (MkDState s' (observe s s' v) sv conns (todo ++ concat (outgoing [] <$> new_batches s s')) call
            (lost ∪ ⋃ (unsent [] <$> new_batches s s'))
            (gone ∪ (dom (r_activeSessions (sys_room s)) ∖ dom (r_activeSessions (sys_room s')))) used)
        else None
      else None
  | DNet lab => if is_send lab then None else sv' ← texec lab sv; Some (MkDState s v sv' conns todo call lost gone used)
  | DSend => dexec_send ds
  | DRegister sid l =>
      match conns !! sid, sv_heap sv !! l with
      | None, Some x =>
          if decide (l ∈ used \/ ts_reader x = RNone) then None
          else Some (MkDState s v sv (<[sid := l]> conns) todo call (lost ∪ missed sid (sys_sent s)) gone (used ∪ {[l]}))
      | _, _ => None
      end
  | DUnregister sid => Some (MkDState s v sv (delete sid conns) todo call lost gone used)
  end.

Lemma dexec_send_dstep ds ds' : dexec_send ds = Some ds' -> dstep ds ds'.
Proof.
  destruct ds as [s v sv conns todo call lost gone used]. cbn [dexec_send]. intros He.
  destruct todo as [| [sid d] rest]; [done |]. destruct call as [| l | l].
  - destruct (conns !! sid) as [l |] eqn:Hs; injection He as <-; by constructor.
  - destruct (texec (TSendCheck l d) sv) as [sv' |] eqn:Hs; injection He as <-; by econstructor.
  - destruct (texec (TSendPush l 0) sv) as [sv' |] eqn:Hs; [| done]. injection He as <-. by constructor.
Qed.

Lemma dexec_dstep lab ds ds' : dexec lab ds = Some ds' -> dstep ds ds'.
Proof.
  destruct ds as [s v sv conns todo call lost gone used].
  destruct lab as [l | lab | | sid l | sid]; cbn [dexec]; intros He.
  - case_decide as Hc; [| done]. destruct (typed_b l && _) eqn:Hb; [| done].
    apply andb_true_iff in Hb as [Ht%typed_b_ok Hl].
    destruct (exec l s) as [s' |] eqn:Hs; simplify_eq/=.
    apply (d_room l []); [done | done | by apply exec_step |].
    intros E. rewrite E in Hl. by destruct todo.
  - destruct (is_send lab) eqn:Hn; [done |]. destruct (texec lab sv) as [sv' |] eqn:Hs; simplify_eq/=.
    by eapply d_net.
  - by apply dexec_send_dstep.
  - destruct (conns !! sid) eqn:Hc; [done |]. destruct (sv_heap sv !! l) as [x |] eqn:Hx; [| done].
    case_decide as Hu; [done |]. injection He as <-. constructor; [done | | tauto]. eexists. split; [done | tauto].
  - injection He as <-. constructor.
Qed.

Fixpoint drun (ls : list DLabel) (ds : KState) : option KState :=
  match ls with [] => Some ds | lab :: ls => ds' ← dexec lab ds; drun ls ds' end.

Lemma drun_rtc ls ds ds' : drun ls ds = Some ds' -> rtc dstep ds ds'.
Proof.
  revert ds. induction ls as [| lab ls IH]; intros ds Hr; [by injection Hr as <- |].
  cbn in Hr. destruct (dexec lab ds) as [ds1 |] eqn:He; [| done].
  eapply rtc_l; [by eapply dexec_dstep | by apply IH].
Qed.

(** A run during which the loop waits for its next tick. *)
Definition is_idle (ds : KState) : bool := match sys_loop (ds_room ds) with LoopIdle => true | _ => false end.

Fixpoint drun_idle (ls : list DLabel) (ds : KState) : option KState :=
  match ls with
  | [] => Some ds
  | lab :: ls => ds' ← dexec lab ds; if is_idle ds' then drun_idle ls ds' else None
  end.

Lemma dexec_idle_step lab ds ds' : dexec lab ds = Some ds' -> is_idle ds' = true -> idle_step ds ds'.
Proof.
  intros He Hi. split; [by eapply dexec_dstep |]. unfold is_idle in Hi. by destruct (sys_loop (ds_room ds')).
Qed.

Lemma drun_idle_rtc ls ds ds' : drun_idle ls ds = Some ds' -> rtc idle_step ds ds'.
Proof.
  revert ds. induction ls as [| lab ls IH]; intros ds Hr; [by injection Hr as <- |].
  cbn in Hr. destruct (dexec lab ds) as [ds1 |] eqn:He; [| done]. simpl in Hr.
  destruct (is_idle ds1) eqn:Hi; [| done]. eapply rtc_l; [by eapply dexec_idle_step | by apply IH].
Qed.

Lemma run_some {S} (o : option S) (dflt : S) : bool_decide (is_Some o) = true -> o = Some (default dflt o).
Proof. intros Ho%bool_decide_eq_true_1. by destruct Ho as [x ->]. Qed.

(** Both clients connect and join, the second after a first connection it has
    given up; a broadcast tick is about to end. *)
Definition connect (sid : string) (l : tloc) : list DLabel :=
  (DNet <$> [TAccept; TAcceptor 0; TAcceptor 0; TReader l ReadErr]) ++ [DRegister sid l].

Definition ex_joining : list DLabel :=
  connect "s1" 0 ++ connect "s2" 1 ++ [DUnregister "s2"] ++ connect "s2" 2 ++ (DRoom <$> two_players).

Definition ex_start : KState := dinit NewKMeansClusterAllocator spec (ex_started FKCP).

Definition ex_before : KState := default ex_start (drun ex_joining ex_start).

(** The tick ends: the broadcast is to be sent. *)
Definition ex_after : KState := default ex_start (dexec (DRoom (LTickEnd [])) ex_before).

(** The broadcaster makes its calls, interrupted by a command, and the packet is
    written to the first client. *)
Definition ex_sending : list DLabel :=
  [DSend; DSend; DRoom (LEnqueue (move "s2" "pB" 5)); DSend; DSend; DSend; DSend; DNet (TWriter 0 OnData); DNet (TWriter 0 WriteOk)].

Definition ex_through : KState := default ex_start (drun_idle ex_sending ex_after).

Lemma ex_before_run : drun ex_joining ex_start = Some ex_before.
Proof. apply run_some. vm_compute. reflexivity. Qed.

Lemma ex_after_step : idle_step ex_before ex_after.
Proof.
  apply (dexec_idle_step (DRoom (LTickEnd []))); [apply run_some |]; vm_compute; reflexivity.
Qed.

Lemma ex_through_run : drun_idle ex_sending ex_after = Some ex_through.
Proof. apply run_some. vm_compute. reflexivity. Qed.

Lemma ex_deployed ds :
  rtc dstep ex_before ds -> deployed NewKMeansClusterAllocator spec ex_cfg ds.
Proof.
  intros Hr. exists (fun _ => true), false, (MkServer FKCP ex_cfg false false false ∅ 0 ∅ ∅ 0 0 StIdle), (ex_started FKCP).
  split_and!; [done | done |]. etrans; [exact (drun_rtc _ _ _ ex_before_run) | done].
Qed.

Lemma idle_dsteps ds ds' : rtc idle_step ds ds' -> rtc dstep ds ds'.
Proof. intros Hr. eapply rtc_subrel, Hr. by intros ? ? []. Qed.


Lemma ex_through_deployed : deployed NewKMeansClusterAllocator spec ex_cfg ex_through.
Proof.
  apply ex_deployed. etrans; apply idle_dsteps; [exact (rtc_once _ _ ex_after_step) |].
  exact (drun_idle_rtc _ _ _ ex_through_run).
Qed.

Definition client_of (ds : KState) : TSession := default (newSession "" ex_cfg) (sv_heap (ds_server ds) !! 0%nat).

Lemma client_of_heap ds :
  bool_decide (is_Some (sv_heap (ds_server ds) !! 0%nat)) = true ->
  sv_heap (ds_server ds) !! 0%nat = Some (client_of ds).
Proof. apply run_some. Qed.

Lemma kcp_clients_consistent_witness :
  length (ts_written (client_of ex_through)) = 1%nat /\
  decoded [] (ts_written (client_of ex_through)) = project <$> told "s1" (sys_sent (ds_room ex_through)) /\
  size (decoded [] (ts_written (client_of ex_through))) = 1%nat.
Proof.
  split; [vm_compute; reflexivity |]. split; [| vm_compute; reflexivity].
  destruct (kcp_clients_consistent NewKMeansClusterAllocator spec ex_cfg ex_through "s1" 0%nat
    (client_of ex_through) [] ex_through_deployed) as [_ Hfull].
  - reflexivity.
  - apply (bool_decide_unpack _). vm_compute. exact I.
  - apply client_of_heap. vm_compute. reflexivity.
  - apply Hfull. split; [vm_compute; reflexivity |]. split; vm_compute; reflexivity.
Defined.

Lemma eta_sys (s : KSys) : s = MkSys (sys_room s) (sys_loop s) (sys_ctxDone s) (sys_sent s).
Proof. by destruct s. Qed.

Definition ex_att : sessionAttachment :=
  default (MkAttachment "" "") (r_activeSessions (sys_room (ds_room ex_through)) !! "s1").

Definition ex_ps : PlayerState :=
  default (NewPlayerState "" "" 0) (r_players (sys_room (ds_room ex_through)) !! att_playerID ex_att).

Lemma kcp_clients_converge_witness :
  exists (site' : list nat) (visible : list string),
    visible_to site' (sys_room (ds_room ex_through)) (att_playerID ex_att) ex_ps = Some visible /\
    forall pid, decoded [] (ts_written (client_of ex_through)) !! pid =
      if decide (pid ∈ visible) then project ∘ Player.Snapshot <$> r_players (sys_room (ds_room ex_through)) !! pid else None.
Proof.
  assert (ds_room ex_before = MkSys (sys_room (ds_room ex_before)) (LoopDraining 2)
    (sys_ctxDone (ds_room ex_before)) (sys_sent (ds_room ex_before))) as Hb.
  { assert (sys_loop (ds_room ex_before) = LoopDraining 2) as <- by (vm_compute; reflexivity). apply eta_sys. }
  apply (kcp_clients_converge NewKMeansClusterAllocator spec ex_cfg ex_before ex_after ex_through
    (sys_room (ds_room ex_before)) 2 (sys_ctxDone (ds_room ex_before)) (sys_sent (ds_room ex_before)) "s1" 0%nat
    (client_of ex_through) ex_att ex_ps []).
  - apply ex_deployed. apply rtc_refl.
  - exact Hb.
  - vm_compute. reflexivity.
  - intros _. vm_compute. reflexivity.
  - exact ex_after_step.
  - exact (drun_idle_rtc _ _ _ ex_through_run).
  - reflexivity.
  - apply (bool_decide_unpack _). vm_compute. exact I.
  - apply (bool_decide_unpack _). vm_compute. exact I.
  - apply client_of_heap. vm_compute. reflexivity.
  - split; [vm_compute; reflexivity |]. split; vm_compute; reflexivity.
  - apply run_some. vm_compute. reflexivity.
  - apply run_some. vm_compute. reflexivity.
Defined.

