(* ===== verification/Inbound.v ===== *)
(** * From KCP connections to rooms

    The KCP server with the receive path as its packet handler, and the rooms it
    feeds, running side by side: read loops deliver packets, the handler turns
    them into commands of the rooms, and the rooms drain their queues in their
    own time.  The movement commands a room has taken from its queue are
    recorded beside the state.

    The two resolvers read state the program keeps elsewhere, so every packet
    has resolvers of its own; room pointers they return are not dangling.  The
    manager may create and forget rooms at any time, and anybody may enqueue
    commands other than movements.  A packet touches the rooms in one place, the
    [Enqueue] call its read loop makes before it reads again; delivery and call
    are one step, in which the call finds the room running or has found it
    running before. *)

From Stdlib Require Import ZArith Lia.
From stdpp Require Import base strings gmap fin_maps list relations.
From S2P Require Import Prelude.
From S2P Require Import Player.
From S2P Require Import Cluster.
From S2P Require Import ClusterFacts.
From S2P Require Import Room.
From S2P Require Import RoomFacts.
From S2P Require Import RoomSystem.
From S2P Require Import RoomTheorems.
From S2P Require Import RoomManager.
From S2P Require Import RoomManagerFacts.
From S2P Require Import Protocol.
From S2P Require Import ProtocolFacts.
From S2P Require Import Handler.
From S2P Require Import HandlerFacts.
From S2P Require Import Transport.
From S2P Require Import TransportFacts.

Local Open Scope string_scope.
Local Open Scope Z_scope.
Local Open Scope list_scope.

(** ** What a read loop delivers *)

(** The packet a step hands to the handler, with its connection. *)
Definition delivers (lab : TLabel) (sv : Server) : option (tloc * bytes) :=
  match lab with
  | TReader l (ReadData d) =>
      x ← sv_heap sv !! l;
      match ts_reader x with RRead => if 0 <? len d then Some (l, d) else None | _ => None end
  | _ => None
  end.






Section handled.
Context `{GR : !GoRange}.



End handled.

(** ** Movements *)

#[global] Instance RoomCommandKind_eq_dec : EqDecision RoomCommandKind.
Proof. solve_decision. Defined.

Definition is_move (c : RoomCommand) : Prop := cmd_Kind c ∈ [CmdPlayerInput; CmdUpdatePlayerTransform].

#[global] Instance is_move_dec c : Decision (is_move c).
Proof. unfold is_move. apply _. Defined.


(** The movement a step of the room takes from the queue. *)
Definition taken {A} (lab : Label) (s : RoomSys A) : list RoomCommand :=
  match lab with LHandle _ _ => filter is_move (take 1 (r_commands (sys_room s))) | _ => [] end.

Definition not_a_move (lab : Label) : Prop := match lab with LEnqueue c | LEnqueueLate c => ~ is_move c | _ => True end.



(** ** The joint system *)

(** [is_taken]: the movements taken from the rooms' queues, oldest first. *)
Record IState := MkIState {
  is_server : Server;
  is_rooms : RoomManager;
  is_taken : list (loc * RoomCommand) }.

Section inbound.
Context `{GR : !GoRange}.
Context `{!Msgpack Envelope} `{!Msgpack Protocol.PlayerInput} `{!Msgpack PlayerTransformUpdate}.
Context `{!MsgpackLaws Envelope} `{!MsgpackLaws Protocol.PlayerInput} `{!MsgpackLaws PlayerTransformUpdate}.

Inductive istep : IState -> IState -> Prop :=
  | i_net lab sv sv' m tk :
      texec lab sv = Some sv' -> delivers lab sv = None ->
      istep (MkIState sv m tk) (MkIState sv' m tk)
  | i_packet lab E resolveRoom resolve site now now' sv sv' m tk k d x :
      texec lab sv = Some sv' -> delivers lab sv = Some (k, d) -> sv_heap sv !! k = Some x ->
      (forall sid l, resolveRoom m sid = inr (Some l) -> is_Some (rm_heap m !! l)) ->
      E = Room_RoomEnqueuer \/ E = Room_RoomEnqueuer_late ->
      istep (MkIState sv m tk)
        (MkIState sv' (HandlePacket (RoomEnqueuer0 := E) resolveRoom resolve site (MkSessionHandle (ts_id x)) d now now' m) tk)
  | i_room lab sv m tk l s s' :
      rm_heap m !! l = Some s -> step lab s s' -> not_a_move lab ->
      istep (MkIState sv m tk)
        (MkIState sv (RoomManager.set_heap m (<[l := s']> (rm_heap m))) (tk ++ (pair l <$> taken lab s)))
  | i_create sv m tk logical broadcaster ctxDone now now' :
      istep (MkIState sv m tk)
        (MkIState sv (RoomManager.CreateRoomWithBroadcaster m logical broadcaster ctxDone now now').1 tk)
  | i_books sv m m' tk :
      rm_heap m' = rm_heap m -> rm_next m' = rm_next m -> istep (MkIState sv m tk) (MkIState sv m' tk).


(** ** The manager's operations *)

(** Every operation of the manager, under schedules that enqueue no movements,
    is a run of the joint system. *)
Definition quiet (op : ManagerOp) : Prop :=
  match op with
  | OpCreateRoom _ _ _ _ _ => True
  | OpCloseRoom _ sched _ => Forall not_a_move sched
  | OpShutdown _ sched _ => forall id, Forall not_a_move (sched id)
  | OpRoom _ lab => not_a_move lab
  end.

Definition becomes (m m' : RoomManager) : Prop :=
  forall sv tk, exists tk', rtc istep (MkIState sv m tk) (MkIState sv m' tk').

Lemma becomes_trans m1 m2 m3 : becomes m1 m2 -> becomes m2 m3 -> becomes m1 m3.
Proof. intros H12 H23 sv tk. destruct (H12 sv tk) as [tk1 H1]. destruct (H23 sv tk1) as [tk2 H2]. exists tk2. by etrans. Qed.

Lemma becomes_books m m' : rm_heap m' = rm_heap m -> rm_next m' = rm_next m -> becomes m m'.
Proof. intros Hh Hn sv tk. exists tk. by apply rtc_once, i_books. Qed.

Lemma set_heap_same m l s : rm_heap m !! l = Some s -> RoomManager.set_heap m (<[l := s]> (rm_heap m)) = m.
Proof. intros Hl. rewrite insert_id by done. by destruct m. Qed.

Lemma becomes_steps ls m l s s' :
  steps ls s s' -> Forall not_a_move ls -> rm_heap m !! l = Some s ->
  becomes m (RoomManager.set_heap m (<[l := s']> (rm_heap m))).
Proof.
  intros Hs. induction Hs as [s | ls lab s1 s2 s3 _ IH Hs]; intros Hq Hl.
  - rewrite set_heap_same by done. by apply becomes_books.
  - apply Forall_app in Hq as [Hq [Hn _]%Forall_cons]. eapply becomes_trans; [by apply IH |].
    intros sv tk. eexists. apply rtc_once.
    set (m2 := RoomManager.set_heap m (<[l := s2]> (rm_heap m))).
    replace (RoomManager.set_heap m (<[l := s3]> (rm_heap m)))
      with (RoomManager.set_heap m2 (<[l := s3]> (rm_heap m2)))
      by (unfold m2, RoomManager.set_heap; simpl; by rewrite insert_insert_eq).
    eapply i_room; [| done | done]. apply lookup_insert_eq.
Qed.

Lemma becomes_stop m id l sched now m' :
  Forall not_a_move sched -> RoomManager.stop_and_mark m id l sched now = Some m' -> becomes m m'.
Proof.
  intros Hq (s & Hl & (s' & (ls & Hs & Hls)%Stop_steps & [= <-])%bind_Some)%bind_Some.
  apply (becomes_trans _ (RoomManager.set_heap m (<[l := s']> (rm_heap m)))); [| by apply becomes_books].
  eapply becomes_steps; [done | | done].
  constructor; [done |]. destruct Hls as [-> | [-> | ->]]; [constructor | done |].
  apply Forall_app_2; [done | by repeat constructor].
Qed.

Lemma becomes_stop_all rooms m sched now m' :
  (forall id, Forall not_a_move (sched id)) -> RoomManager.stop_all rooms m sched now = Some m' -> becomes m m'.
Proof.
  intros Hq. revert m. induction rooms as [| [id l] rooms IH]; intros m Hm.
  - injection Hm as <-. by apply becomes_books.
  - apply bind_Some in Hm as (m1 & H1 & Hm). eapply becomes_trans; [by eapply becomes_stop | by apply IH].
Qed.

Lemma manager_step_becomes op m m' : quiet op -> manager_step op m = Some m' -> becomes m m'.
Proof.
  intros Hq Hm. destruct op as [lg b c now now' | id sched now | site sched now | l lab]; cbn [manager_step] in Hm.
  - injection Hm as <-. intros sv tk. exists tk. apply rtc_once, i_create.
  - apply fmap_Some in Hm as ([m1 e] & H1 & ->). unfold RoomManager.CloseRoom in H1.
    destruct (rm_rooms m !! id) as [l |]; [| injection H1 as <- <-; by apply becomes_books].
    apply bind_Some in H1 as (m2 & H2 & [= <- <-]).
    eapply becomes_trans; [| by eapply becomes_stop]. by apply becomes_books.
  - eapply becomes_trans; [| by eapply becomes_stop_all]. by apply becomes_books.
  - apply bind_Some in Hm as (s & Hl & (s' & Hx%exec_step & [= <-])%bind_Some).
    eapply becomes_steps; [by apply steps_one | by repeat constructor | done].
Qed.

(** ** Accounting for the movements *)


























End inbound.
