(* ===== verification/InboundWitness.v ===== *)
(** * A client that moves

    A concrete run of connections and rooms: a client connects, a room is
    created, two packets that ask for movements and one that is garbage arrive,
    and the room handles the first of them. *)

From Stdlib Require Import ZArith Lia.
From Stdlib.Strings Require Import Byte.
From stdpp Require Import base strings gmap fin_maps list relations.
From S2P Require Import Prelude.
From S2P Require Import Player.
From S2P Require Import Cluster.
From S2P Require Import Room.
From S2P Require Import RoomSystem.
From S2P Require Import RoomManager.
From S2P Require Import Protocol.
From S2P Require Import ProtocolExample.
From S2P Require Import Handler.
From S2P Require Import HandlerFacts.
From S2P Require Import EndToEndWitness.
From S2P Require Import Transport.
From S2P Require Import TransportFacts.
From S2P Require Import TransportWitness.
From S2P Require Import Inbound.

Local Open Scope string_scope.
Local Open Scope Z_scope.
Local Open Scope list_scope.

Import ExampleCodec.
Import ReceiveExample.
#[local] Existing Instance canonical_range.

Module InboundExample.














End InboundExample.

Import InboundExample.

