(* ===== verification/Wiring.v ===== *)
(** * How the parts are plugged together

    The records and constructors by which a program connects a transport to the
    rooms and back: [RealtimePacketHandler] of [handler.go], the router, the
    processor and the adapter of [receive.go], the broadcasters of [bridge.go]
    and [dispatch.go], and the game-level [Session] that wraps a connection.  The
    functions they carry are the parameters of [Handler] and [Bridge]; here they
    are fields, as in the source, and what is plugged together this way behaves
    as those files say.  A call also returns what it logs. *)

From Stdlib Require Import ZArith Lia.
From stdpp Require Import base strings gmap fin_maps list.
From S2P Require Import Prelude.
From S2P Require Import GoFloat.
From S2P Require Import Player.
From S2P Require Import Delta.
From S2P Require Import Room.
From S2P Require Import Protocol.
From S2P Require Import ProtocolFacts.
From S2P Require Import Handler.
From S2P Require Import HandlerFacts.
From S2P Require Import Bridge.
From S2P Require Import Session.
From S2P Require Import SessionFacts.
From S2P Require Import Transport.

Local Open Scope string_scope.
Local Open Scope Z_scope.
Local Open Scope list_scope.

(** ** The receive side *)

Section receive.
Context {S R L : Type} `{!RoomEnqueuer S R} `{GR : !GoRange}.
Context `{!Msgpack Envelope} `{!Msgpack Protocol.PlayerInput} `{!Msgpack PlayerTransformUpdate}.

(** [slog.Default()] *)
Variable slog_Default : L.

Record RealtimePacketHandler := MkRealtimePacketHandler {
  rph_resolveRoom : S -> string -> ResolveError + option R }.

Definition NewRealtimePacketHandler (resolver : S -> string -> ResolveError + option R) : RealtimePacketHandler :=
  MkRealtimePacketHandler resolver.

Record SessionPacketRouter := MkSessionPacketRouter { spr_resolve : S -> string -> string * string }.

Definition NewSessionPacketRouter (resolve : S -> string -> string * string) : SessionPacketRouter :=
  MkSessionPacketRouter resolve.

Record PacketProcessor := MkPacketProcessor {
  pp_handler : RealtimePacketHandler;
  pp_router : SessionPacketRouter;
  pp_logger : L }.

Definition NewPacketProcessor (h : RealtimePacketHandler) (router : SessionPacketRouter) (logger : option L)
    : PacketProcessor :=
  MkPacketProcessor h router (default slog_Default logger).

Definition PacketProcessor_Process (p : PacketProcessor) (site : list nat) (sess : SessionHandle) (data : bytes)
    (now now' : Time) (s : S) : S * option ProcessError :=
  Process (rph_resolveRoom (pp_handler p)) (spr_resolve (pp_router p)) site sess data now now' s.

Record ReceiveLoopAdapter := MkReceiveLoopAdapter {
  rla_processor : PacketProcessor;
  rla_logger : L }.

Definition NewReceiveLoopAdapter (processor : PacketProcessor) (logger : option L) : ReceiveLoopAdapter :=
  MkReceiveLoopAdapter processor (default slog_Default logger).

(** With the warning it logs, and on which logger. *)
Definition ReceiveLoopAdapter_HandlePacket (a : ReceiveLoopAdapter) (site : list nat) (sess : SessionHandle)
    (data : bytes) (now now' : Time) (s : S) : S * option (L * ProcessError) :=
  let '(s, err) := PacketProcessor_Process (rla_processor a) site sess data now now' s in
  (s, pair (rla_logger a) <$> err).

(** [transport.PacketReceiver] and the adapter that makes one of a function. *)
Class PacketReceiver (P : Type) := receive_on : P -> SessionHandle -> bytes -> S -> S.

Definition PacketReceiverFunc := SessionHandle -> bytes -> S -> S.

#[local] Instance PacketReceiverFunc_HandlePacket : PacketReceiver PacketReceiverFunc := fun f sess data s => f sess data s.

(** The adapter as the transports see it. *)
#[local] Instance ReceiveLoopAdapter_PacketReceiver (site : list nat) (now now' : Time)
    : PacketReceiver ReceiveLoopAdapter :=
  fun a sess data s => (ReceiveLoopAdapter_HandlePacket a site sess data now now' s).1.

(** The usual chain of constructors. *)
Definition receiver resolver resolve (logger : option L) : ReceiveLoopAdapter :=
  NewReceiveLoopAdapter (NewPacketProcessor (NewRealtimePacketHandler resolver) (NewSessionPacketRouter resolve) logger)
    logger.

Context `{!RoomEnqueuerLaws S R}.
Context `{!MsgpackLaws Envelope} `{!MsgpackLaws Protocol.PlayerInput} `{!MsgpackLaws PlayerTransformUpdate}.

(** What it does is the receive path; it logs, on the logger it was given or the
    default one, exactly the packets that are not accepted, and those change
    nothing. *)
Lemma receiver_spec resolver resolve logger site sess data now now' (s : S) :
  let '(s', log) := ReceiveLoopAdapter_HandlePacket (receiver resolver resolve logger) site sess data now now' s in
  s' = HandlePacket resolver resolve site sess data now now' s /\
  match log with
  | None => accepts resolver resolve sess data now now' s s'
  | Some (l, _) => l = default slog_Default logger /\ s' = s /\
      ~ exists s2, accepts resolver resolve sess data now now' s s2
  end.
Proof.
  unfold ReceiveLoopAdapter_HandlePacket, PacketProcessor_Process, HandlePacket. simpl.
  pose proof (Process_spec resolver resolve site sess data now now' s) as Hp.
  destruct (Process resolver resolve site sess data now now' s) as [s' [err |]]; simpl; [| done].
  split_and!; [done | done | apply Hp | apply Hp].
Qed.
End receive.

(** ** The sending side *)

Section send.
Context {W Sess E : Type} `{!RealtimeSession W Sess E} `{GR : !GoRange}.
Context `{!Msgpack Envelope} `{!Msgpack Protocol.PlayerDelta}.

Record DeltaBroadcaster := MkDeltaBroadcaster { db_lookup : string -> option Sess }.

Definition NewDeltaBroadcaster (lookup_sess : string -> option Sess) : DeltaBroadcaster :=
  MkDeltaBroadcaster lookup_sess.

(** Pointers: [None] is nil. *)
Record RoomDeltaBroadcaster := MkRoomDeltaBroadcaster { rdb_dispatcher : option DeltaBroadcaster }.

Definition NewRoomDeltaBroadcaster (dispatcher : option DeltaBroadcaster) : RoomDeltaBroadcaster :=
  MkRoomDeltaBroadcaster dispatcher.

(** [room.Broadcaster], the interface a room calls. *)
Class Broadcaster (B : Type) := broadcast_on : B -> list nat -> Batches -> W -> W.

#[local] Instance RoomDeltaBroadcaster_Broadcaster : Broadcaster (option RoomDeltaBroadcaster) :=
  fun b site batches w =>
    match b with
    | Some (MkRoomDeltaBroadcaster (Some d)) =>
        if bool_decide (size batches = 0%nat) then w
        else DeltaBroadcaster_BroadcastDelta (db_lookup d) site (Some <$> batches) w
    | _ => w
    end.

(** Plugged together it is the broadcast of [Bridge]; with a nil pointer in the
    chain nothing is sent. *)
Lemma broadcaster_spec lookup_sess site batches (w : W) :
  broadcast_on (Some (NewRoomDeltaBroadcaster (Some (NewDeltaBroadcaster lookup_sess)))) site batches w =
    RoomDeltaBroadcaster_BroadcastDelta (Some lookup_sess) site batches w /\
  broadcast_on (Some (NewRoomDeltaBroadcaster None)) site batches w = w /\
  broadcast_on (None : option RoomDeltaBroadcaster) site batches w = w.
Proof. done. Qed.
End send.

(** ** Game sessions *)

Section session.
Context {W E : Type} `{!RealtimeSession W conn E}.

Definition ID (s : Session) : string := s_id s.
Definition UserID (s : Session) : string := s_userID s.
Definition RoomInstanceID (s : Session) : string := s_roomInstanceID s.
Definition Session_Transport (s : Session) : TransportType := s_transportType s.
Definition State (s : Session) : SessionState := s_state s.
Definition CreatedAt (s : Session) : Time := s_createdAt s.

(** [Session.Send]: the wrapped connection's, whatever the session's state. *)
Definition Session_SendPacket (s : Session) (packet : bytes) (w : W) : W * option E := Send (s_conn s) packet w.

(** Over any run a pointer to a session keeps sending on the same connection,
    also when the manager has detached or closed it. *)
Lemma send_same_connection m ops l s packet (w : W) :
  sess_inv m -> sm_heap m !! l = Some s ->
  exists s', sm_heap (session_run m ops) !! l = Some s' /\ ID s' = ID s /\
    Session_SendPacket s' packet w = Session_SendPacket s packet w.
Proof.
  intros Hi Hl. destruct (run_moves_forward m ops l s Hi Hl) as (s' & Hl' & Hid & _ & Hc & _).
  exists s'. unfold Session_SendPacket. by rewrite Hc.
Qed.
End session.
