(* ===== verification/LoadTest.v ===== *)
(** * Load test scaffolding

    Models [loadtest/shared]: the statistics, and the scenarios and the client,
    which are stubs that do nothing and report success. *)

From Stdlib Require Import ZArith Lia.
From stdpp Require Import base strings list.
From S2P Require Import Prelude.
From S2P Require Import GoFloat.
From S2P Require Import Player.

Local Open Scope string_scope.
Local Open Scope Z_scope.
Local Open Scope list_scope.

Record ScenarioConfig := MkScenarioConfig {
  scn_GatewayAddr : string;
  scn_RoomID : string;
  scn_CCU : Z;
  scn_Duration : Duration;
  scn_Movement : bool;
  scn_ObjectLock : bool }.

Record ScenarioResult := MkScenarioResult {
  scr_TotalClients : Z;
  scr_Duration : Duration;
  scr_PacketsSent : Z;
  scr_PacketsReceived : Z;
  scr_BytesSent : Z;
  scr_BytesReceived : Z;
  scr_Errors : Z;
  scr_LatencyP50 : Duration;
  scr_LatencyP95 : Duration;
  scr_LatencyP99 : Duration;
  scr_ServerCPU : float64;
  scr_ServerMemoryMB : float64;
  scr_AvgBytesPerClient : float64 }.

Record PacketStats := MkPacketStats {
  pst_Count : Z;
  pst_Bytes : Z;
  pst_Errors : Z;
  pst_Histogram : list Duration }.

(** [PacketStats.Record]; [int64] wraps around. *)
Definition RecordPacket (s : PacketStats) (size : Z) (latency : Duration) : PacketStats :=
  MkPacketStats (i64 (pst_Count s + 1)) (i64 (pst_Bytes s + size)) (pst_Errors s) (pst_Histogram s ++ [latency]).

(** The scenarios: a nil result and a nil error. *)
Definition ScenarioJoin (config : ScenarioConfig) : option ScenarioResult * option string := (None, None).
Definition ScenarioJoinStorm (config : ScenarioConfig) : option ScenarioResult * option string := (None, None).
Definition ScenarioMovement (config : ScenarioConfig) : option ScenarioResult * option string := (None, None).
Definition ScenarioObjectLock (config : ScenarioConfig) : option ScenarioResult * option string := (None, None).

Record LoadTestClient := MkLoadTestClient { }.

Definition Connect (c : LoadTestClient) (gatewayAddr roomID userID : string) : option string := None.
Definition SendMovement (c : LoadTestClient) (x y rotation : float32) : option string := None.
Definition SendLockRequest (c : LoadTestClient) (objectID : string) : option string := None.
Definition Client_Close (c : LoadTestClient) : option string := None.

(** ** What the statistics hold *)

Definition total (sizes : list Z) : Z := foldr Z.add 0 sizes.

Lemma total_snoc l z : total (l ++ [z]) = total l + z.
Proof. unfold total. induction l as [| x l IH]; simpl; [lia |]. rewrite IH. lia. Qed.

(** A run of measurements from fresh statistics: how many, how many bytes (both
    as [int64] has them), and the latencies in their order. *)
Lemma recorded (ms : list (Z * Duration)) :
  foldl (fun s m => RecordPacket s m.1 m.2) (MkPacketStats 0 0 0 []) ms =
  MkPacketStats (i64 (Z.of_nat (length ms))) (i64 (total ms.*1)) 0 ms.*2.
Proof.
  induction ms as [| m ms IH] using rev_ind; [done |]. rewrite foldl_snoc, IH. unfold RecordPacket. simpl.
  rewrite !fmap_app, !i64_add_idemp, length_app. simpl. f_equal.
  - f_equal. lia.
  - by rewrite total_snoc.
Qed.
