(* ===== verification/Config.v ===== *)
(** * Configuration

    Models [internal/config/config.go], which loads and validates the
    configuration of both programs, and [cmd/config-check/main.go], which checks
    configuration files.  The YAML decoder, the file system and the environment
    are arguments.  A validation error is a value that names the failing check,
    in place of the text of the message. *)

From Stdlib Require Import ZArith Lia.
From stdpp Require Import base strings gmap list.
From S2P Require Import Prelude.
From S2P Require Import GoFloat.
From S2P Require Import Protocol.

Local Open Scope string_scope.
Local Open Scope Z_scope.
Local Open Scope list_scope.
Local Open Scope go_scope.

(** ** Data *)

Record GameConfig := MkGameConfig {
  gm_KCPAddr : string;
  gm_WebSocketAddr : string;
  gm_TickRateHz : Z;
  gm_BroadcastRateHz : Z;
  gm_MaxPlayersPerRoom : Z }.

Record ProtocolConfig := MkProtocolConfig {
  pc_Version : Z;
  pc_Serialization : string;
  pc_Transport : string }.

Record ResolverConfig := MkResolverConfig {
  rs_Type : string;
  rs_SingleNodeAddr : string;
  rs_SingleNodeWebSocketURL : string;
  rs_RedisAddr : string }.

Record RegistryConfig := MkRegistryConfig {
  rg_Type : string;
  rg_RedisAddr : string }.

Record InterestConfig := MkInterestConfig {
  ic_VisualRadiusM : float32;
  ic_ObjectRadiusM : float32;
  ic_VoiceRadiusM : float32;
  ic_FullAvatarRadiusM : float32;
  ic_LowLodRadiusM : float32 }.

Record VoiceConfig := MkVoiceConfig {
  vc_Allocator : string;
  vc_MaxParticipantsPerGroup : Z;
  vc_RecomputeIntervalMs : Z }.

Record ObjectLockConfig := MkObjectLockConfig {
  ol_LeaseTTLMs : Z;
  ol_RefreshIntervalMs : Z;
  ol_MaxLocksPerUser : Z }.

(** The one-field sections [Deployment], [Gateway], [Spatial] and [Metrics] are
    the fields [c_Mode], [c_HTTPAddr], [c_CellSizeM] and [c_MetricsType]. *)
Record Config := MkConfig {
  c_Mode : string;
  c_HTTPAddr : string;
  c_Game : GameConfig;
  c_Protocol : ProtocolConfig;
  c_Resolver : ResolverConfig;
  c_Registry : RegistryConfig;
  c_CellSizeM : float32;
  c_Interest : InterestConfig;
  c_Voice : VoiceConfig;
  c_ObjectLock : ObjectLockConfig;
  c_MetricsType : string }.

Definition ModeDev : string := "dev".
Definition ModeSingleVPS : string := "single-vps".
Definition ModeDistributedK3s : string := "distributed-k3s".
Definition ResolverSingleNode : string := "single-node".
Definition ResolverRedis : string := "redis".
Definition RegistryMemory : string := "memory".
Definition RegistryRedis : string := "redis".
Definition MetricsLog : string := "log".
Definition MetricsPrometheus : string := "prometheus".

Definition validModes : gset string := {[ ModeDev; ModeSingleVPS; ModeDistributedK3s ]}.
Definition validResolverTypes : gset string := {[ ResolverSingleNode; ResolverRedis ]}.
Definition validRegistryTypes : gset string := {[ RegistryMemory; RegistryRedis ]}.
Definition validMetricsTypes : gset string := {[ MetricsLog; MetricsPrometheus ]}.

(** [field] is the key as the messages write it. *)
Inductive ConfigError :=
  | ErrInvalidChoice (field value : string)
  | ErrRequired (field : string)
  | ErrNotListenAddr (field value : string)
  | ErrNotPositive (field : string)
  | ErrBroadcastExceedsTick (broadcast tick : Z)
  | ErrModeForbids (mode what : string)
  | ErrModeRequires (mode what got : string)
  | ErrReadConfig (path : string)
  | ErrParseConfig (path : string)
  | ErrNoConfigPath.

(** ** [strings.HasPrefix] and [strings.Contains] *)

Definition HasPrefix (s prefix : string) : bool := String.prefix prefix s.

Fixpoint Contains (s substr : string) : bool :=
  String.prefix substr s || match s with EmptyString => false | String _ s => Contains s substr end.

(** ** Validation *)

Definition positive_int (field : string) (x : Z) : option ConfigError := guard_err (x <=? 0) (ErrNotPositive field).

Definition positive_float (field : string) (x : float32) : option ConfigError :=
  guard_err (fle x f32_zero) (ErrNotPositive field).

Definition not_listen_addr (s : string) : bool := negb (HasPrefix s ":") && negb (Contains s ":").

Definition validateDeployment (cfg : Config) : option ConfigError :=
  guard_err (negb (bool_decide (c_Mode cfg ∈ validModes))) (ErrInvalidChoice "deployment mode" (c_Mode cfg)).

Definition validateGateway (cfg : Config) : option ConfigError :=
  let addr := c_HTTPAddr cfg in
  guard_err (String.eqb addr "") (ErrRequired "gateway.http_addr") >>?
  guard_err (not_listen_addr addr) (ErrNotListenAddr "gateway.http_addr" addr).

Definition validateGame (cfg : Config) : option ConfigError :=
  let g := c_Game cfg in
  guard_err (String.eqb (gm_KCPAddr g) "") (ErrRequired "game.kcp_addr") >>?
  guard_err (not_listen_addr (gm_KCPAddr g)) (ErrNotListenAddr "game.kcp_addr" (gm_KCPAddr g)) >>?
  guard_err (negb (String.eqb (gm_WebSocketAddr g) "") && not_listen_addr (gm_WebSocketAddr g))
    (ErrNotListenAddr "game.websocket_addr" (gm_WebSocketAddr g)) >>?
  positive_int "game.tick_rate_hz" (gm_TickRateHz g) >>?
  positive_int "game.broadcast_rate_hz" (gm_BroadcastRateHz g) >>?
  guard_err (gm_TickRateHz g <? gm_BroadcastRateHz g)
    (ErrBroadcastExceedsTick (gm_BroadcastRateHz g) (gm_TickRateHz g)) >>?
  positive_int "game.max_players_per_room" (gm_MaxPlayersPerRoom g).

Definition validateResolver (cfg : Config) : option ConfigError :=
  let r := c_Resolver cfg in
  guard_err (negb (bool_decide (rs_Type r ∈ validResolverTypes))) (ErrInvalidChoice "resolver type" (rs_Type r)) >>?
  if String.eqb (rs_Type r) ResolverSingleNode then
    guard_err (negb (String.eqb (c_Mode cfg) ModeDev) && String.eqb (rs_SingleNodeAddr r) "")
      (ErrRequired "resolver.single_node_addr")
  else if String.eqb (rs_Type r) ResolverRedis then
    guard_err (String.eqb (rs_RedisAddr r) "") (ErrRequired "resolver.redis_addr")
  else None.

Definition validateRegistry (cfg : Config) : option ConfigError :=
  let r := c_Registry cfg in
  guard_err (negb (bool_decide (rg_Type r ∈ validRegistryTypes))) (ErrInvalidChoice "registry type" (rg_Type r)) >>?
  guard_err (String.eqb (rg_Type r) RegistryRedis && String.eqb (rg_RedisAddr r) "")
    (ErrRequired "registry.redis_addr").

Definition validateMetrics (cfg : Config) : option ConfigError :=
  guard_err (negb (bool_decide (c_MetricsType cfg ∈ validMetricsTypes)))
    (ErrInvalidChoice "metrics type" (c_MetricsType cfg)).

Definition validateSpatial (cfg : Config) : option ConfigError :=
  positive_float "spatial.cell_size_m" (c_CellSizeM cfg).

Definition validateInterest (cfg : Config) : option ConfigError :=
  let i := c_Interest cfg in
  positive_float "interest.visual_radius_m" (ic_VisualRadiusM i) >>?
  positive_float "interest.object_radius_m" (ic_ObjectRadiusM i) >>?
  positive_float "interest.voice_radius_m" (ic_VoiceRadiusM i) >>?
  positive_float "interest.full_avatar_radius_m" (ic_FullAvatarRadiusM i) >>?
  positive_float "interest.low_lod_radius_m" (ic_LowLodRadiusM i).

Definition validateVoice (cfg : Config) : option ConfigError :=
  let v := c_Voice cfg in
  guard_err (negb (String.eqb (vc_Allocator v) "proximity") && negb (String.eqb (vc_Allocator v) "kmeans"))
    (ErrInvalidChoice "voice allocator" (vc_Allocator v)) >>?
  positive_int "voice.max_participants_per_group" (vc_MaxParticipantsPerGroup v) >>?
  positive_int "voice.recompute_interval_ms" (vc_RecomputeIntervalMs v).

Definition validateObjectLock (cfg : Config) : option ConfigError :=
  let o := c_ObjectLock cfg in
  positive_int "object_lock.lease_ttl_ms" (ol_LeaseTTLMs o) >>?
  positive_int "object_lock.refresh_interval_ms" (ol_RefreshIntervalMs o) >>?
  positive_int "object_lock.max_locks_per_user" (ol_MaxLocksPerUser o).

Definition Validate (cfg : Config) : option ConfigError :=
  validateDeployment cfg >>? validateGateway cfg >>? validateGame cfg >>? validateResolver cfg >>?
  validateRegistry cfg >>? validateMetrics cfg >>? validateSpatial cfg >>? validateInterest cfg >>?
  validateVoice cfg >>? validateObjectLock cfg.

Definition ValidateModeConstraints (cfg : Config) : option ConfigError :=
  if String.eqb (c_Mode cfg) ModeSingleVPS then
    guard_err (String.eqb (rs_Type (c_Resolver cfg)) ResolverRedis) (ErrModeForbids "single-vps" "redis resolver") >>?
    guard_err (String.eqb (rg_Type (c_Registry cfg)) RegistryRedis) (ErrModeForbids "single-vps" "redis registry")
  else if String.eqb (c_Mode cfg) ModeDistributedK3s then
    guard_err (negb (String.eqb (rs_Type (c_Resolver cfg)) ResolverRedis))
      (ErrModeRequires "distributed-k3s" "redis resolver" (rs_Type (c_Resolver cfg))) >>?
    guard_err (negb (String.eqb (rg_Type (c_Registry cfg)) RegistryRedis))
      (ErrModeRequires "distributed-k3s" "redis registry" (rg_Type (c_Registry cfg)))
  else None.

(** ** Loading *)

Section load.
(** [os.ReadFile], [yaml.Unmarshal] into a zero configuration, [os.Getenv]. *)
Variable ReadFile : string -> option bytes.
Variable Unmarshal : bytes -> option Config.
Variable Getenv : string -> string.

Definition Load (path : string) : ConfigError + Config :=
  match ReadFile path with
  | None => inl (ErrReadConfig path)
  | Some data =>
      match Unmarshal data with
      | None => inl (ErrParseConfig path)
      | Some cfg => match Validate cfg with Some err => inl err | None => inr cfg end
      end
  end.

Definition LoadFromEnv : ConfigError + Config :=
  let path := Getenv "CONFIG_PATH" in
  if String.eqb path "" then inl ErrNoConfigPath else Load path.

(** [loadConfig] of the two servers: the flag, or the environment. *)
Definition loadConfig (path : string) : ConfigError + Config :=
  if negb (String.eqb path "") then Load path else LoadFromEnv.

(** [config-check]: the line it prints for a file, and whether it ends well. *)
Inductive CheckLine := CheckOK (path mode resolver registry : string) | CheckFail (path : string) (err : ConfigError).

Definition check_one (path : string) : CheckLine :=
  match Load path with
  | inl err => CheckFail path err
  | inr cfg =>
      match ValidateModeConstraints cfg with
      | Some err => CheckFail path err
      | None => CheckOK path (c_Mode cfg) (rs_Type (c_Resolver cfg)) (rg_Type (c_Registry cfg))
      end
  end.

Definition default_paths : list string :=
  ["config/dev.example.yaml"; "config/single-vps.example.yaml"; "config/distributed-k3s.example.yaml";
   "deployments/dev/config/dev.yaml"; "deployments/single-vps/config/production.single-vps.yaml";
   "deployments/distributed-k3s/config/production.distributed-k3s.yaml"].

(** The program: [args] are the command's arguments without its name.  The
    results are what it prints and its exit status. *)
Definition config_check (args : list string) : list CheckLine * Z :=
  let paths := match args with [] => default_paths | _ => args end in
  let '(out, ok) := foldl (fun '(out, ok) p =>
      let line := check_one p in
      (out ++ [line], match line with CheckFail _ _ => false | CheckOK _ _ _ _ => ok end)) ([], true) paths in
  (out, if ok then 0 else 1).
End load.
