(* ===== verification/ConfigFacts.v ===== *)
(** * Facts about the configuration

    [Validate] against a description of the admissible configurations, and the
    checker program against the files it is given. *)

From Stdlib Require Import ZArith Lia Strings.Ascii Floats.SpecFloat.
From stdpp Require Import base strings gmap list.
From S2P Require Import Prelude.
From S2P Require Import GoFloat.
From S2P Require Import Protocol.
From S2P Require Import Config.

Local Open Scope string_scope.
Local Open Scope Z_scope.
Local Open Scope list_scope.
Local Open Scope go_scope.

(** ** What an admissible configuration is *)

(** The address has a port separator. *)
Definition has_port (addr : string) : Prop := ":"%char ∈ String.list_ascii_of_string addr.

(** What the comparison with zero lets through: positive numbers, and NaN. *)
Definition positive_or_nan (x : float32) : Prop := flt f32_zero x = true \/ IsNaN x = true.

Record config_ok (cfg : Config) : Prop := {
  ok_mode : c_Mode cfg = "dev" \/ c_Mode cfg = "single-vps" \/ c_Mode cfg = "distributed-k3s";
  ok_http : has_port (c_HTTPAddr cfg);
  ok_kcp : has_port (gm_KCPAddr (c_Game cfg));
  ok_ws : gm_WebSocketAddr (c_Game cfg) = "" \/ has_port (gm_WebSocketAddr (c_Game cfg));
  ok_rates : 0 < gm_BroadcastRateHz (c_Game cfg) <= gm_TickRateHz (c_Game cfg);
  ok_players : 0 < gm_MaxPlayersPerRoom (c_Game cfg);
  ok_resolver :
    (rs_Type (c_Resolver cfg) = "single-node" /\
       (c_Mode cfg = "dev" \/ rs_SingleNodeAddr (c_Resolver cfg) <> "")) \/
    (rs_Type (c_Resolver cfg) = "redis" /\ rs_RedisAddr (c_Resolver cfg) <> "");
  ok_registry :
    rg_Type (c_Registry cfg) = "memory" \/
    (rg_Type (c_Registry cfg) = "redis" /\ rg_RedisAddr (c_Registry cfg) <> "");
  ok_metrics : c_MetricsType cfg = "log" \/ c_MetricsType cfg = "prometheus";
  ok_cell : positive_or_nan (c_CellSizeM cfg);
  ok_radii : Forall positive_or_nan [ic_VisualRadiusM (c_Interest cfg); ic_ObjectRadiusM (c_Interest cfg);
    ic_VoiceRadiusM (c_Interest cfg); ic_FullAvatarRadiusM (c_Interest cfg); ic_LowLodRadiusM (c_Interest cfg)];
  ok_voice : (vc_Allocator (c_Voice cfg) = "proximity" \/ vc_Allocator (c_Voice cfg) = "kmeans") /\
    0 < vc_MaxParticipantsPerGroup (c_Voice cfg) /\ 0 < vc_RecomputeIntervalMs (c_Voice cfg);
  ok_lock : 0 < ol_LeaseTTLMs (c_ObjectLock cfg) /\ 0 < ol_RefreshIntervalMs (c_ObjectLock cfg) /\
    0 < ol_MaxLocksPerUser (c_ObjectLock cfg) }.

(** What the deployment mode demands of the two backends. *)
Definition mode_ok (cfg : Config) : Prop :=
  (c_Mode cfg = "single-vps" -> rs_Type (c_Resolver cfg) <> "redis" /\ rg_Type (c_Registry cfg) <> "redis") /\
  (c_Mode cfg = "distributed-k3s" -> rs_Type (c_Resolver cfg) = "redis" /\ rg_Type (c_Registry cfg) = "redis").

(** ** The checks *)

Lemma prefix_colon s : String.prefix ":" s = true <-> exists s', s = String ":" s'.
Proof.
  destruct s as [| c s]; cbn [String.prefix]; [split; [done | by intros [s' ?]] |].
  destruct (Ascii.ascii_dec ":" c) as [<- | Hne]; split; try done; [by eauto | by destruct s |].
  intros [s' [= -> _]]. done.
Qed.

Lemma Contains_colon s : Contains s ":" = true <-> has_port s.
Proof.
  unfold has_port. induction s as [| c s IH]; [simpl; set_solver |].
  change (Contains (String c s) ":") with (String.prefix ":" (String c s) || Contains s ":").
  rewrite orb_true_iff, prefix_colon, IH. cbn [String.list_ascii_of_string]. rewrite elem_of_cons. naive_solver.
Qed.

Lemma not_listen_addr_false s : not_listen_addr s = false <-> has_port s.
Proof.
  unfold not_listen_addr, HasPrefix. rewrite <- Contains_colon, andb_false_iff, !negb_false_iff.
  split; [| by right]. intros [Hp | ?]; [| done]. destruct s as [| c s]; [done |].
  change (Contains (String c s) ":") with (String.prefix ":" (String c s) || Contains s ":"). by rewrite Hp.
Qed.

Lemma positive_float_None field x : positive_float field x = None <-> positive_or_nan x.
Proof.
  unfold positive_float, positive_or_nan. rewrite guard_err_None.
  destruct x as [[] | [] | | [] m e]; cbv -[Z.compare]; naive_solver.
Qed.

Lemma positive_int_None field x : positive_int field x = None <-> 0 < x.
Proof. unfold positive_int. rewrite guard_err_None, Z.leb_gt. done. Qed.

Lemma choice_None {E} (x : string) (X : gset string) (e : E) :
  guard_err (negb (bool_decide (x ∈ X))) e = None <-> x ∈ X.
Proof. rewrite guard_err_None, negb_false_iff. apply bool_decide_eq_true. Qed.

Lemma required_None {E} (x : string) (e : E) : guard_err (String.eqb x "") e = None <-> x <> "".
Proof. rewrite guard_err_None. apply String.eqb_neq. Qed.

Lemma listen_None {E} (s : string) (e : E) : guard_err (not_listen_addr s) e = None <-> has_port s.
Proof. rewrite guard_err_None. apply not_listen_addr_false. Qed.

Lemma has_port_nonempty s : has_port s -> s <> "".
Proof. intros H ->. by apply elem_of_nil in H. Qed.

Lemma validateGame_None cfg :
  validateGame cfg = None <->
  has_port (gm_KCPAddr (c_Game cfg)) /\
  (gm_WebSocketAddr (c_Game cfg) = "" \/ has_port (gm_WebSocketAddr (c_Game cfg))) /\
  0 < gm_BroadcastRateHz (c_Game cfg) <= gm_TickRateHz (c_Game cfg) /\ 0 < gm_MaxPlayersPerRoom (c_Game cfg).
Proof.
  unfold validateGame. rewrite !or_return_None, required_None, listen_None, !positive_int_None, !guard_err_None.
  rewrite andb_false_iff, negb_false_iff, String.eqb_eq, not_listen_addr_false, Z.ltb_ge.
  pose proof (has_port_nonempty (gm_KCPAddr (c_Game cfg))).
  split; [intros (? & ? & ? & ? & ? & ? & ?) | intros (? & ? & ? & ?)]; split_and!; auto; lia.
Qed.

Lemma validateResolver_None cfg :
  validateResolver cfg = None <->
  (rs_Type (c_Resolver cfg) = "single-node" /\
     (c_Mode cfg = "dev" \/ rs_SingleNodeAddr (c_Resolver cfg) <> "")) \/
  (rs_Type (c_Resolver cfg) = "redis" /\ rs_RedisAddr (c_Resolver cfg) <> "").
Proof.
  unfold validateResolver. rewrite or_return_None, choice_None.
  unfold validResolverTypes, ResolverSingleNode, ResolverRedis, ModeDev.
  rewrite elem_of_union, !elem_of_singleton.
  destruct (String.eqb_spec (rs_Type (c_Resolver cfg)) "single-node") as [-> |].
  - rewrite guard_err_None, andb_false_iff, negb_false_iff, String.eqb_eq, String.eqb_neq. naive_solver.
  - destruct (String.eqb_spec (rs_Type (c_Resolver cfg)) "redis") as [-> |]; [| naive_solver].
    rewrite required_None. naive_solver.
Qed.

Lemma validateRegistry_None cfg :
  validateRegistry cfg = None <->
  rg_Type (c_Registry cfg) = "memory" \/
  (rg_Type (c_Registry cfg) = "redis" /\ rg_RedisAddr (c_Registry cfg) <> "").
Proof.
  unfold validateRegistry. rewrite or_return_None, choice_None.
  unfold validRegistryTypes, RegistryMemory, RegistryRedis.
  rewrite elem_of_union, !elem_of_singleton, guard_err_None, andb_false_iff, !String.eqb_neq.
  split; [naive_solver |]. intros [-> | [-> ?]]; auto.
Qed.

Lemma Validate_None cfg : Validate cfg = None <-> config_ok cfg.
Proof.
  unfold Validate, validateDeployment, validateGateway, validateMetrics, validateSpatial, validateInterest,
    validateVoice, validateObjectLock, validModes, validMetricsTypes.
  rewrite !or_return_None, !choice_None, required_None, listen_None, validateGame_None, validateResolver_None,
    validateRegistry_None, !positive_float_None, !positive_int_None, guard_err_None, andb_false_iff, !negb_false_iff,
    !String.eqb_eq, !elem_of_union, !elem_of_singleton.
  pose proof (has_port_nonempty (c_HTTPAddr cfg)). split.
  - intros (? & ? & ? & ? & ? & ? & ? & ? & ? & ?). destruct_and!. constructor; rewrite ?Forall_cons, ?Forall_nil; tauto.
  - intros []. rewrite !Forall_cons, Forall_nil in ok_radii0. unfold ModeDev, ModeSingleVPS, ModeDistributedK3s, MetricsLog, MetricsPrometheus. tauto.
Qed.

Lemma ModeConstraints_None cfg : ValidateModeConstraints cfg = None <-> mode_ok cfg.
Proof.
  unfold ValidateModeConstraints, mode_ok, ModeSingleVPS, ModeDistributedK3s.
  destruct (String.eqb_spec (c_Mode cfg) "single-vps") as [-> |].
  - rewrite or_return_None, !guard_err_None, !String.eqb_neq. naive_solver.
  - destruct (String.eqb_spec (c_Mode cfg) "distributed-k3s") as [-> |]; [| naive_solver].
    rewrite or_return_None, !guard_err_None, !negb_false_iff, !String.eqb_eq. naive_solver.
Qed.

(** ** Claims *)

(** C24: [Validate] accepts exactly the admissible configurations: a known mode,
    listen addresses with a port separator, a broadcast rate between one and the
    tick rate, positive limits, a resolver and a registry of a known type with
    the address that type needs (which the single-node resolver does not need in
    dev mode), a known voice allocator, and lengths that do not compare as at
    most zero. *)
Theorem validate_spec (cfg : Config) : Validate cfg = None <-> config_ok cfg.
Proof. apply Validate_None. Qed.

(** The comparison lets a NaN cell size through, although the message says it
    must be greater than zero. *)
Lemma nan_config_accepted cfg :
  config_ok cfg ->
  let cfg' := MkConfig (c_Mode cfg) (c_HTTPAddr cfg) (c_Game cfg) (c_Protocol cfg) (c_Resolver cfg) (c_Registry cfg)
    S754_nan (c_Interest cfg) (c_Voice cfg) (c_ObjectLock cfg) (c_MetricsType cfg) in
  Validate cfg' = None /\ flt f32_zero (c_CellSizeM cfg') = false.
Proof. intros []. split; [| done]. apply Validate_None. constructor; try done. by right. Qed.

Section check.
Variable ReadFile : string -> option bytes.
Variable Unmarshal : bytes -> option Config.

(** What the checker prints for a file that passes. *)
Definition ok_line (path : string) (cfg : Config) : CheckLine :=
  CheckOK path (c_Mode cfg) (rs_Type (c_Resolver cfg)) (rg_Type (c_Registry cfg)).

Definition is_ok (line : CheckLine) : bool := match line with CheckOK _ _ _ _ => true | CheckFail _ _ => false end.

Lemma check_fold paths out ok :
  foldl (fun '(out, ok) p =>
      let line := check_one ReadFile Unmarshal p in
      (out ++ [line], match line with CheckFail _ _ => false | CheckOK _ _ _ _ => ok end)) (out, ok) paths =
  (out ++ (check_one ReadFile Unmarshal <$> paths), ok && forallb is_ok (check_one ReadFile Unmarshal <$> paths)).
Proof.
  revert out ok. induction paths as [| p ps IH]; intros out ok; cbn; [by rewrite app_nil_r, andb_true_r |].
  rewrite IH, <- app_assoc. simpl. f_equal. by destruct (check_one ReadFile Unmarshal p), ok.
Qed.

Lemma Load_inr path cfg :
  Load ReadFile Unmarshal path = inr cfg <->
  exists data, ReadFile path = Some data /\ Unmarshal data = Some cfg /\ config_ok cfg.
Proof.
  unfold Load. destruct (ReadFile path) as [data |]; [| naive_solver].
  destruct (Unmarshal data) as [c |] eqn:Hu; [| naive_solver].
  pose proof (Validate_None c). destruct (Validate c) eqn:Hv; naive_solver.
Qed.

Lemma check_one_ok path :
  is_ok (check_one ReadFile Unmarshal path) = true <->
  exists data cfg, ReadFile path = Some data /\ Unmarshal data = Some cfg /\ config_ok cfg /\ mode_ok cfg.
Proof.
  unfold check_one. pose proof (Load_inr path) as HL. destruct (Load ReadFile Unmarshal path) as [err | cfg].
  - split; [done |]. intros (data & cfg & H1 & H2 & H3 & _). assert (inl err = inr cfg) as [=] by (apply HL; eauto).
  - destruct (proj1 (HL cfg) eq_refl) as (data & H1 & H2 & H3).
    pose proof (ModeConstraints_None cfg) as Hm. destruct (ValidateModeConstraints cfg).
    + split; [done |]. intros (data' & cfg' & ? & ? & _ & Hok). simplify_eq. by apply Hm in Hok.
    + split; [| done]. intros _. exists data, cfg. split_and!; try done. by apply Hm.
Qed.

(** The configuration checker exits with status zero exactly when every file
    it was asked about (or, without arguments, every sample it knows) can be
    read and parsed and is admissible, also for its deployment mode; and it
    prints one line per file, in order, whatever happens to the others. *)
Theorem config_check_spec (args : list string) :
  let paths := match args with [] => default_paths | _ => args end in
  let '(out, status) := config_check ReadFile Unmarshal args in
  out = check_one ReadFile Unmarshal <$> paths /\
  (status = 0 <-> forall path, path ∈ paths ->
     exists data cfg, ReadFile path = Some data /\ Unmarshal data = Some cfg /\ config_ok cfg /\ mode_ok cfg).
Proof.
  intros paths. unfold config_check. fold paths. rewrite check_fold. simpl. split; [done |].
  transitivity (forallb is_ok (check_one ReadFile Unmarshal <$> paths) = true); [by destruct (forallb _ _) |].
  rewrite forallb_forall. split.
  - intros Hall path Hin. apply check_one_ok, Hall. apply list_elem_of_In, list_elem_of_fmap. eauto.
  - intros Hall line (path & -> & Hin)%list_elem_of_In%list_elem_of_fmap. by apply check_one_ok, Hall.
Qed.
End check.
