(* ===== verification/Gateway.v ===== *)
(** * Gateway

    Models the join endpoint of [internal/gateway/http], the single-node
    resolver ([internal/gateway/resolver]), the token generator
    ([internal/gateway/token]) and the wiring of [cmd/gateway/main.go].

    HTTP and JSON are outside: a request arrives as bytes, [decode] is the JSON
    decoder, and a reply is a status with the value that is encoded into the
    body.  The clock and the random source are arguments. *)

From Stdlib Require Import ZArith Lia Strings.Ascii Strings.Byte.
From stdpp Require Import base strings gmap list.
From S2P Require Import Prelude.
From S2P Require Import Player.
From S2P Require Import RoomManager.
From S2P Require Import Protocol.
From S2P Require Import Config.

Local Open Scope string_scope.
Local Open Scope Z_scope.
Local Open Scope list_scope.
Local Open Scope go_scope.

(** ** Resolver *)

Record NodeAssignment := MkNodeAssignment {
  na_RoomInstanceID : string;
  na_GameNodeAddr : string;
  na_KCPAddr : string;
  na_WebSocketURL : string;
  na_ProtocolVersion : Z;
  na_ExpiresAt : Time }.

Record AssignOptions := MkAssignOptions { ao_UserID : string }.

(** The interface [NodeResolver]: [W] is what the resolver depends on besides
    its receiver and its arguments. *)
Class NodeResolver (R W : Type) := {
  ResolveRoom : R -> W -> string -> AssignOptions -> string + NodeAssignment }.

Record SingleNodeResolver := MkSingleNodeResolver {
  sr_kcpAddr : string;
  sr_websocketURL : string;
  sr_protocolVersion : Z;
  sr_tokenTTL : Z }.

Definition Minute : Z := 60 * 10 ^ 9.

Definition NewSingleNodeResolver (kcpAddr websocketURL : string) (protocolVersion : Z) : SingleNodeResolver :=
  MkSingleNodeResolver kcpAddr websocketURL (u16 protocolVersion) (5 * Minute).

(** The moment and the random draw below 10000, absent when the random source
    fails (the error is ignored, and a nil [big.Int] prints as "<nil>"). *)
Record ResolverEnv := MkResolverEnv {
  re_now : Time;
  re_draw : option Z }.

Definition gateway_generateInstanceID (logicalRoomID : string) (n : option Z) : string :=
  logicalRoomID +:+ "-" +:+ match n with Some n => format_04d n | None => "<nil>" end.

Definition SingleNode_ResolveRoom (r : SingleNodeResolver) (e : ResolverEnv) (logicalRoomID : string)
    (opts : AssignOptions) : string + NodeAssignment :=
  inr (MkNodeAssignment (gateway_generateInstanceID logicalRoomID (re_draw e)) (sr_kcpAddr r) (sr_kcpAddr r)
         (sr_websocketURL r) (sr_protocolVersion r) (re_now e + sr_tokenTTL r)).

#[global] Instance SingleNode_NodeResolver : NodeResolver SingleNodeResolver ResolverEnv := {|
  ResolveRoom := SingleNode_ResolveRoom |}.

(** ** Tokens *)

Definition tokenBytes : nat := 32.

Definition hex_digit (n : Z) : ascii :=
  ascii_of_nat (Z.to_nat (if n <? 10 then 48 + n else 87 + n)).

(** [hex.EncodeToString] *)
Definition EncodeToString (b : bytes) : string :=
  String.string_of_list_ascii
    (b ≫= fun x => let n := Z.of_N (Byte.to_N x) in [hex_digit (Z.shiftr n 4); hex_digit (Z.land n 15)]).

(** [random]: the bytes [rand.Read] filled the buffer with, or its error. *)
Definition Generate (random : option bytes) (userID roomInstanceID : string) (expiresAt : Time) : option string :=
  EncodeToString <$> random.

(** ** Join *)

Definition platformNative : string := "native".
Definition platformWebGL : string := "webgl".
Definition transportKCP : string := "kcp".
Definition transportWSS : string := "websocket".

Record JoinRequest := MkJoinRequest {
  jr_UserID : string;
  jr_LogicalRoomID : string;
  jr_ClientProtocolVersion : Z;
  jr_ClientPlatform : string;
  jr_RequestedTransport : string }.

Record JoinResponse := MkJoinResponse {
  js_RoomInstanceID : string;
  js_GameNodeAddr : string;
  js_ProtocolVersion : Z;
  js_SessionToken : string;
  js_Transport : string;
  js_KCPAddr : string;
  js_WebSocketURL : string;
  js_ExpiresAt : Time }.

(** A status and the value encoded into the body. *)
Inductive Reply :=
  | Failure (status : Z) (msg code : string)
  | Success (status : Z) (resp : JoinResponse).

Definition StatusOK : Z := 200.
Definition StatusBadRequest : Z := 400.
Definition StatusInternalServerError : Z := 500.

Definition writeError (status : Z) (msg code : string) : Reply := Failure status msg code.

Definition supportedVersionRange : Z * Z := (MinVersion, MaxVersion).

(** The error is the text of the message, with the offending value left out. *)
Definition resolveTransport (platform requested : string) : string + string :=
  if negb (String.eqb requested "") then
    if negb (String.eqb requested transportKCP) && negb (String.eqb requested transportWSS) then
      inl "unsupported requested_transport: must be kcp or websocket"
    else if String.eqb platform platformWebGL && String.eqb requested transportKCP then
      inl "webgl clients cannot use kcp transport"
    else inr requested
  else if String.eqb platform platformNative then inr transportKCP
  else if String.eqb platform platformWebGL then inr transportWSS
  else inl "unknown platform".

Section join.
Context {R W : Type} `{!NodeResolver R W}.
Variable decode : bytes -> option JoinRequest.

Definition handleJoin (resolver : R) (w : W) (random : option bytes) (body : bytes) : Reply :=
  match decode body with
  | None => writeError StatusBadRequest "invalid request body" "bad_request"
  | Some req =>
      if String.eqb (jr_UserID req) "" then
        writeError StatusBadRequest "user_id is required" "missing_user_id"
      else if String.eqb (jr_LogicalRoomID req) "" then
        writeError StatusBadRequest "logical_room_id is required" "missing_logical_room_id"
      else
        let '(minV, maxV) := supportedVersionRange in
        if (jr_ClientProtocolVersion req <? minV) || (maxV <? jr_ClientProtocolVersion req) then
          writeError StatusBadRequest "unsupported protocol version" "unsupported_version"
        else if String.eqb (jr_ClientPlatform req) "" then
          writeError StatusBadRequest "client_platform is required" "missing_client_platform"
        else if negb (String.eqb (jr_ClientPlatform req) platformNative) &&
                negb (String.eqb (jr_ClientPlatform req) platformWebGL) then
          writeError StatusBadRequest "unsupported client platform" "unsupported_platform"
        else
          match resolveTransport (jr_ClientPlatform req) (jr_RequestedTransport req) with
          | inl err => writeError StatusBadRequest err "unsupported_transport"
          | inr transport =>
              match ResolveRoom resolver w (jr_LogicalRoomID req) (MkAssignOptions (jr_UserID req)) with
              | inl _ => writeError StatusInternalServerError "internal resolver error" "resolver_error"
              | inr a =>
                  if String.eqb transport transportWSS && String.eqb (na_WebSocketURL a) "" then
                    writeError StatusBadRequest "websocket transport not available" "unsupported_transport"
                  else
                    match Generate random (jr_UserID req) (na_RoomInstanceID a) (na_ExpiresAt a) with
                    | None => writeError StatusInternalServerError "internal token error" "token_error"
                    | Some tok =>
                        Success StatusOK
                          (MkJoinResponse (na_RoomInstanceID a) (na_GameNodeAddr a) (na_ProtocolVersion a) tok transport
                             (if String.eqb transport transportKCP then na_KCPAddr a else "")
                             (if String.eqb transport transportWSS then na_WebSocketURL a else "")
                             (na_ExpiresAt a))
                    end
              end
          end
  end.
End join.

(** ** The program *)

(** [main] of the gateway up to the server: it gives up, or serves with this
    resolver. *)
Definition gateway_resolver (cfg : Config) : option SingleNodeResolver :=
  if String.eqb (rs_Type (c_Resolver cfg)) ResolverSingleNode then
    Some (NewSingleNodeResolver (rs_SingleNodeAddr (c_Resolver cfg)) (rs_SingleNodeWebSocketURL (c_Resolver cfg))
            (pc_Version (c_Protocol cfg)))
  else None.
