(* ===== verification/GatewayFacts.v ===== *)
(** * Facts about the gateway

    The join endpoint against a description of what it promises, for any
    resolver; and what the single-node resolver makes of it. *)

From Stdlib Require Import ZArith Lia Strings.Ascii Strings.Byte.
From stdpp Require Import base strings gmap list.
From S2P Require Import Prelude.
From S2P Require Import Player.
From S2P Require Import GoFloat.
From S2P Require Import RoomManager.
From S2P Require Import RoomManagerFacts.
From S2P Require Import Protocol.
From S2P Require Import Config.
From S2P Require Import ConfigFacts.
From S2P Require Import Gateway.

Local Open Scope string_scope.
Local Open Scope Z_scope.
Local Open Scope list_scope.

(** ** Tokens *)

Definition hex_value (c : ascii) : Z :=
  let n := Z.of_nat (nat_of_ascii c) in if n <? 58 then n - 48 else n - 87.

(** The reader of a token. *)
Fixpoint decode_hex (l : list ascii) : list (option Byte.byte) :=
  match l with
  | a :: b :: l => Byte.of_N (Z.to_N (16 * hex_value a + hex_value b)) :: decode_hex l
  | _ => []
  end.

Lemma decode_encode (b : bytes) : decode_hex (String.list_ascii_of_string (EncodeToString b)) = Some <$> b.
Proof.
  unfold EncodeToString. rewrite String.list_ascii_of_string_of_list_ascii.
  induction b as [| x b IH]; [done |]. rewrite bind_cons. cbn [app decode_hex fmap list_fmap]. f_equal; [| exact IH].
  by destruct x.
Qed.

(** Different random bytes give different tokens, of two characters a byte. *)
Lemma EncodeToString_inj b b' : EncodeToString b = EncodeToString b' -> b = b'.
Proof.
  intros He. assert (Some <$> b = Some <$> b') as Hs by by rewrite <- !decode_encode, He.
  by apply (inj (fmap Some)) in Hs.
Qed.

Lemma EncodeToString_length b : String.length (EncodeToString b) = (2 * length b)%nat.
Proof. unfold EncodeToString. induction b as [| x b IH]; [done |]. rewrite bind_cons. simpl. rewrite IH. lia. Qed.

(** ** Join *)

(** A request the gateway serves, and the transport it assigns. *)
Definition serves (req : JoinRequest) (tr : string) : Prop :=
  jr_UserID req <> "" /\ jr_LogicalRoomID req <> "" /\
  MinVersion <= jr_ClientProtocolVersion req <= MaxVersion /\
  ((jr_ClientPlatform req = "native" /\
      ((jr_RequestedTransport req = "" /\ tr = "kcp") \/
       (jr_RequestedTransport req = tr /\ (tr = "kcp" \/ tr = "websocket")))) \/
   (jr_ClientPlatform req = "webgl" /\ tr = "websocket" /\
      (jr_RequestedTransport req = "" \/ jr_RequestedTransport req = "websocket"))).

(** What a served client is told. *)
Definition join_response (a : NodeAssignment) (tr : string) (b : bytes) : JoinResponse :=
  MkJoinResponse (na_RoomInstanceID a) (na_GameNodeAddr a) (na_ProtocolVersion a) (EncodeToString b) tr
    (if String.eqb tr "kcp" then na_KCPAddr a else "")
    (if String.eqb tr "websocket" then na_WebSocketURL a else "") (na_ExpiresAt a).

Lemma resolveTransport_inr platform requested tr :
  platform = "native" \/ platform = "webgl" ->
  resolveTransport platform requested = inr tr <->
  (platform = "native" /\ ((requested = "" /\ tr = "kcp") \/ (requested = tr /\ (tr = "kcp" \/ tr = "websocket")))) \/
  (platform = "webgl" /\ tr = "websocket" /\ (requested = "" \/ requested = "websocket")).
Proof.
  unfold resolveTransport, transportKCP, transportWSS, platformNative, platformWebGL.
  intros Hp. destruct (decide (requested = "")) as [-> |]; [destruct Hp as [-> | ->]; simpl; naive_solver |].
  destruct (decide (requested = "kcp")) as [-> |]; [destruct Hp as [-> | ->]; simpl; naive_solver |].
  destruct (decide (requested = "websocket")) as [-> |]; [destruct Hp as [-> | ->]; simpl; naive_solver |].
  rewrite !(proj2 (String.eqb_neq requested _)) by done. simpl. naive_solver.
Qed.

(** A request determines the transport it is served with. *)
Lemma serves_unique req tr tr' : serves req tr -> serves req tr' -> tr = tr'.
Proof. intros (_ & _ & _ & H1) (_ & _ & _ & H2). repeat (destruct_or? || destruct_and?); congruence. Qed.

Section join.
Context {R W : Type} `{!NodeResolver R W}.
Implicit Types (resolver : R) (w : W).

(** The endpoint once the request is checked. *)
Definition serve resolver w (random : option bytes) (req : JoinRequest) (tr : string) : Reply :=
  match ResolveRoom resolver w (jr_LogicalRoomID req) (MkAssignOptions (jr_UserID req)) with
  | inl _ => writeError StatusInternalServerError "internal resolver error" "resolver_error"
  | inr a =>
      if String.eqb tr transportWSS && String.eqb (na_WebSocketURL a) "" then
        writeError StatusBadRequest "websocket transport not available" "unsupported_transport"
      else match random with
           | None => writeError StatusInternalServerError "internal token error" "token_error"
           | Some b => Success StatusOK (join_response a tr b)
           end
  end.

(** The table of the second half. *)
Lemma serve_success resolver w random req tr status resp :
  serve resolver w random req tr = Success status resp <->
  status = 200 /\ exists a b,
    ResolveRoom resolver w (jr_LogicalRoomID req) (MkAssignOptions (jr_UserID req)) = inr a /\
    (tr = "websocket" -> na_WebSocketURL a <> "") /\ random = Some b /\ resp = join_response a tr b.
Proof.
  unfold serve, writeError, transportWSS, StatusOK. destruct (ResolveRoom _ _ _ _) as [err | a]; [naive_solver |].
  destruct (decide (tr = "websocket")) as [-> |]; [rewrite String.eqb_refl | rewrite (proj2 (String.eqb_neq tr _)) by done];
    simpl; [destruct (String.eqb_spec (na_WebSocketURL a) "") |]; destruct random; naive_solver.
Qed.

Lemma serve_failure resolver w random req tr status msg code :
  let assigned := ResolveRoom resolver w (jr_LogicalRoomID req) (MkAssignOptions (jr_UserID req)) in
  serve resolver w random req tr = Failure status msg code ->
  (status = 400 \/ status = 500) /\
  (status = 500 <-> (exists err, assigned = inl err) \/
     (exists a, assigned = inr a /\ (tr = "websocket" -> na_WebSocketURL a <> "") /\ random = None)).
Proof.
  intros assigned. unfold serve, writeError, transportWSS, StatusInternalServerError, StatusBadRequest. fold assigned.
  destruct assigned as [err | a]; [intros [= <- <- <-]; naive_solver |].
  destruct (decide (tr = "websocket")) as [-> |]; [rewrite String.eqb_refl | rewrite (proj2 (String.eqb_neq tr _)) by done];
    simpl; [destruct (String.eqb_spec (na_WebSocketURL a) "") |]; destruct random; intros; simplify_eq; naive_solver.
Qed.

Variable decode : bytes -> option JoinRequest.

Lemma join_checked resolver w random body :
  (exists req tr, decode body = Some req /\ serves req tr /\
     handleJoin decode resolver w random body = serve resolver w random req tr) \/
  ((forall req tr, decode body = Some req -> ~ serves req tr) /\
   exists msg code, handleJoin decode resolver w random body = Failure StatusBadRequest msg code).
Proof.
  unfold handleJoin, writeError. destruct (decode body) as [req |] eqn:Hd; [| right; split; [done | by eexists _, _]].
  destruct (String.eqb_spec (jr_UserID req) "") as [Hu |];
    [right; split; [intros ? tr [= <-] (? & _); done | eauto] |].
  destruct (String.eqb_spec (jr_LogicalRoomID req) "") as [Hr |];
    [right; split; [intros ? tr [= <-] (_ & ? & _); done | eauto] |].
  unfold supportedVersionRange.
  destruct ((jr_ClientProtocolVersion req <? MinVersion) || (MaxVersion <? jr_ClientProtocolVersion req)) eqn:Hv.
  { right. split; [| eauto]. intros ? tr [= <-] (_ & _ & ? & _). apply orb_true_iff in Hv as [Hv | Hv]; go_bool; lia. }
  apply orb_false_iff in Hv as [Hv1 Hv2]. go_bool.
  destruct (String.eqb_spec (jr_ClientPlatform req) "") as [Hp |].
  { right. split; [| eauto]. intros ? tr [= <-] (_ & _ & _ & [[Hp' _] | [Hp' _]]); congruence. }
  destruct (negb _ && negb _) eqn:Hpl.
  { right. split; [| eauto]. go_bool. intros ? tr [= <-] (_ & _ & _ & [[? _] | [? _]]); done. }
  assert (jr_ClientPlatform req = "native" \/ jr_ClientPlatform req = "webgl") as Hpf.
  { apply andb_false_iff in Hpl as [Hpl | Hpl]; go_bool; auto. }
  pose proof (resolveTransport_inr (jr_ClientPlatform req) (jr_RequestedTransport req)) as Htr.
  destruct (resolveTransport (jr_ClientPlatform req) (jr_RequestedTransport req)) as [err | tr].
  - right. split; [| eauto]. intros ? tr [= <-] (_ & _ & _ & Ht). by apply (Htr tr Hpf) in Ht.
  - left. exists req, tr. split; [done |]. split; [| by unfold serve; destruct random].
    split_and!; [done | done | done | done |]. by apply (Htr tr Hpf).
Qed.

(** C22: The join endpoint, for any resolver: it succeeds exactly for the
    requests it serves, when the resolver assigns a node, that node has the
    WebSocket URL a WebSocket client needs, and random bytes are to be had; the
    response is then the assignment with a fresh token and the address of the
    assigned transport only.  Everything else is refused: with status 500
    exactly when the request was in order and the resolver or the random source
    failed, with 400 otherwise. *)
Theorem join_spec resolver w random body :
  (forall status resp, handleJoin decode resolver w random body = Success status resp <->
     status = 200 /\ exists req tr a b, decode body = Some req /\ serves req tr /\
       ResolveRoom resolver w (jr_LogicalRoomID req) (MkAssignOptions (jr_UserID req)) = inr a /\
       (tr = "websocket" -> na_WebSocketURL a <> "") /\ random = Some b /\ resp = join_response a tr b) /\
  (forall status msg code, handleJoin decode resolver w random body = Failure status msg code ->
     (status = 400 \/ status = 500) /\
     (status = 500 <-> exists req tr, decode body = Some req /\ serves req tr /\
        let assigned := ResolveRoom resolver w (jr_LogicalRoomID req) (MkAssignOptions (jr_UserID req)) in
        ((exists err, assigned = inl err) \/
         (exists a, assigned = inr a /\ (tr = "websocket" -> na_WebSocketURL a <> "") /\ random = None)))).
Proof.
  destruct (join_checked resolver w random body) as [(req & tr & Hd & Hs & ->) | [Hno (msg & code & ->)]].
  - assert (forall req' tr', decode body = Some req' -> serves req' tr' -> req' = req /\ tr' = tr) as Huniq.
    { intros req' tr' Hd' Hs'. simplify_eq. split; [done |]. by eapply serves_unique. }
    split.
    + intros status resp. rewrite serve_success. split; intros [-> H]; (split; [done |]).
      * destruct H as (a & b & H). exists req, tr, a, b. done.
      * destruct H as (req' & tr' & a & b & Hd' & Hs' & H). destruct (Huniq _ _ Hd' Hs') as [-> ->]. by exists a, b.
    + intros status msg code [Hst Hiff]%serve_failure. split; [done |]. rewrite Hiff. split.
      * intros H. by exists req, tr.
      * intros (req' & tr' & Hd' & Hs' & H). by destruct (Huniq _ _ Hd' Hs') as [-> ->].
  - split; [intros status resp | intros status msg' code' [= <- <- <-]]; (split; [by left || done |]).
    + intros (_ & req & tr & a & b & Hd & Hs & _). by destruct (Hno req tr).
    + split; [done |]. intros (req & tr & Hd & Hs & _). by destruct (Hno req tr).
Qed.
End join.

(** ** The gateway program: the single-node resolver *)

Section gateway.
Variable decode : bytes -> option JoinRequest.

Lemma join_served {R W : Type} `{!NodeResolver R W} (resolver : R) (w : W) random body req tr :
  decode body = Some req -> serves req tr ->
  handleJoin decode resolver w random body = serve resolver w random req tr.
Proof.
  intros Hd Hs. destruct (join_checked decode resolver w random body) as [(req' & tr' & Hd' & Hs' & ->) | [Hno _]].
  - simplify_eq. by rewrite (serves_unique _ _ _ Hs Hs').
  - by destruct (Hno req tr).
Qed.

Lemma gateway_resolver_Some cfg r :
  gateway_resolver cfg = Some r ->
  rs_Type (c_Resolver cfg) = "single-node" /\
  r = NewSingleNodeResolver (rs_SingleNodeAddr (c_Resolver cfg)) (rs_SingleNodeWebSocketURL (c_Resolver cfg))
        (pc_Version (c_Protocol cfg)).
Proof. unfold gateway_resolver. destruct (String.eqb_spec (rs_Type (c_Resolver cfg)) ResolverSingleNode); naive_solver. Qed.

(** C23: Outside dev mode a gateway that runs with a validated configuration
    never sends a client away without an address: a successful join names the
    requested logical room, carries exactly the address of the assigned
    transport, and that address is not empty; the assignment runs for five
    minutes, and the announced version is the low sixteen bits of the configured
    one. *)
Theorem gateway_join_usable cfg r e random body status resp :
  Validate cfg = None -> c_Mode cfg <> "dev" -> gateway_resolver cfg = Some r ->
  handleJoin decode r e random body = Success status resp ->
  ((js_Transport resp = "kcp" /\ js_KCPAddr resp = rs_SingleNodeAddr (c_Resolver cfg) /\
      js_KCPAddr resp <> "" /\ js_WebSocketURL resp = "") \/
   (js_Transport resp = "websocket" /\ js_WebSocketURL resp = rs_SingleNodeWebSocketURL (c_Resolver cfg) /\
      js_WebSocketURL resp <> "" /\ js_KCPAddr resp = "")) /\
  (exists req, decode body = Some req /\
     js_RoomInstanceID resp = gateway_generateInstanceID (jr_LogicalRoomID req) (re_draw e)) /\
  js_ExpiresAt resp = re_now e + 5 * Minute /\ js_ProtocolVersion resp = u16 (pc_Version (c_Protocol cfg)).
Proof.
  intros Hv Hm [Ht ->]%gateway_resolver_Some Hj. apply Validate_None in Hv.
  assert (rs_SingleNodeAddr (c_Resolver cfg) <> "") as Haddr
    by (destruct (ok_resolver _ Hv) as [(_ & [? | ?]) | [Ht' _]]; congruence).
  destruct (join_checked decode (NewSingleNodeResolver (rs_SingleNodeAddr (c_Resolver cfg))
    (rs_SingleNodeWebSocketURL (c_Resolver cfg)) (pc_Version (c_Protocol cfg))) e random body)
    as [(req & tr & Hd & Hs & He) | [_ (msg & code & He)]]; rewrite He in Hj; [| done].
  apply serve_success in Hj as (-> & a & b & [= <-] & Hw & -> & ->).
  split; [| split; [by exists req | done]].
  destruct Hs as (_ & _ & _ & [(_ & [[_ ->] | [_ [-> | ->]]]) | (_ & -> & _)]);
    [by left | by left | right | right]; (split; [done |]); (split; [done |]); (split; [by apply Hw | done]).
Qed.

(** In dev mode the single-node address may be left out of the
    configuration, and the gateway then answers a native client with success, the
    KCP transport and no address at all. *)
Theorem dev_join_without_address cfg r e b body req :
  Validate cfg = None -> gateway_resolver cfg = Some r -> rs_SingleNodeAddr (c_Resolver cfg) = "" ->
  decode body = Some req -> serves req "kcp" ->
  exists resp, handleJoin decode r e (Some b) body = Success 200 resp /\
    js_Transport resp = "kcp" /\ js_KCPAddr resp = "" /\ js_WebSocketURL resp = "" /\ js_GameNodeAddr resp = "".
Proof.
  intros _ [_ ->]%gateway_resolver_Some Ha Hd Hs. rewrite (join_served _ _ _ _ req "kcp") by done.
  eexists. split; [reflexivity |]. by simpl; rewrite Ha.
Qed.

(** C40: The gateway does not remember which instance it assigned: two joins of
    the same logical room are told the same room instance exactly when two
    independent random draws coincide, so clients that want to meet are sent to
    different instances. *)
Theorem joins_scatter (r : SingleNodeResolver) e1 e2 b1 b2 body1 body2 st1 st2 resp1 resp2 n1 n2 req1 req2 :
  re_draw e1 = Some n1 -> re_draw e2 = Some n2 -> 0 <= n1 < 10000 -> 0 <= n2 < 10000 ->
  decode body1 = Some req1 -> decode body2 = Some req2 -> jr_LogicalRoomID req1 = jr_LogicalRoomID req2 ->
  handleJoin decode r e1 b1 body1 = Success st1 resp1 -> handleJoin decode r e2 b2 body2 = Success st2 resp2 ->
  js_RoomInstanceID resp1 = js_RoomInstanceID resp2 <-> n1 = n2.
Proof.
  intros Hn1 Hn2 Hr1 Hr2 Hd1 Hd2 Hroom H1 H2.
  assert (forall e b body st resp n req, re_draw e = Some n -> decode body = Some req ->
    handleJoin decode r e b body = Success st resp ->
    js_RoomInstanceID resp = jr_LogicalRoomID req +:+ "-" +:+ format_04d n) as Hid.
  { intros e b body st resp n req Hn Hd Hj.
    destruct (join_checked decode r e b body) as [(req' & tr & Hd' & Hs & He) | [_ (msg & code & He)]];
      rewrite He in Hj; [| done]. apply serve_success in Hj as (_ & a & b' & [= <-] & _ & _ & ->). simplify_eq.
    simpl. by rewrite Hn. }
  rewrite (Hid _ _ _ _ _ _ _ Hn1 Hd1 H1), (Hid _ _ _ _ _ _ _ Hn2 Hd2 H2), Hroom.
  split; [apply instance_id_inj; lia | by intros ->].
Qed.
End gateway.

(** ** A gateway at work *)

Module GatewayExample.

Definition one : float32 := f32_one.

(** A configuration for a mode, a single-node address and a WebSocket URL. *)
Definition cfg (mode addr url : string) : Config :=
  MkConfig mode ":8080" (MkGameConfig ":9000" ":9001" 20 10 100) (MkProtocolConfig 1 "msgpack" "kcp")
    (MkResolverConfig "single-node" addr url "") (MkRegistryConfig "memory" "") one
    (MkInterestConfig one one one one one) (MkVoiceConfig "kmeans" 8 1000) (MkObjectLockConfig 5000 1000 4) "log".

Definition native : JoinRequest := MkJoinRequest "u1" "lobby" 1 "native" "".
Definition decode (body : bytes) : option JoinRequest := match body with [] => None | _ => Some native end.
Definition env (n : Z) : ResolverEnv := MkResolverEnv 1000 (Some n).
Definition random : bytes := replicate 32 x0a.

End GatewayExample.

Import GatewayExample.

Lemma gateway_join_usable_witness :
  let r := NewSingleNodeResolver "game:9000" "" 1 in
  exists resp, handleJoin decode r (env 7) (Some random) [x01] = Success 200 resp /\
    js_RoomInstanceID resp = "lobby-0007" /\ js_KCPAddr resp <> "".
Proof.
  cbv zeta. eexists. split; [reflexivity |]. split; [vm_compute; reflexivity |].
  destruct (gateway_join_usable decode (cfg "single-vps" "game:9000" "") (NewSingleNodeResolver "game:9000" "" 1) (env 7) (Some random) [x01] 200
    (join_response (MkNodeAssignment "lobby-0007" "game:9000" "game:9000" "" 1 (1000 + 5 * Minute)) "kcp" random))
    as [[(_ & _ & Hn & _) | (Ht & _)] _];
    [vm_compute; reflexivity | vm_compute; discriminate | reflexivity | vm_compute; reflexivity | exact Hn | discriminate Ht].
Defined.

Lemma dev_join_without_address_witness :
  exists resp, handleJoin decode (NewSingleNodeResolver "" "" 1) (env 7) (Some random) [x01] = Success 200 resp /\
    js_KCPAddr resp = "".
Proof.
  destruct (dev_join_without_address decode (cfg "dev" "" "") (NewSingleNodeResolver "" "" 1) (env 7) random [x01] native)
    as (resp & Hj & _ & Hk & _); [vm_compute; reflexivity | reflexivity | reflexivity | reflexivity | |].
  - split; [discriminate |]. split; [discriminate |]. split; [split; vm_compute; discriminate |].
    left. split; [reflexivity |]. left. split; reflexivity.
  - exists resp. split; [exact Hj | exact Hk].
Defined.

Lemma joins_scatter_witness :
  exists resp1 resp2,
    handleJoin decode (NewSingleNodeResolver "game:9000" "" 1) (env 7) (Some random) [x01] = Success 200 resp1 /\
    handleJoin decode (NewSingleNodeResolver "game:9000" "" 1) (env 8) (Some random) [x01] = Success 200 resp2 /\
    js_RoomInstanceID resp1 <> js_RoomInstanceID resp2.
Proof.
  eexists _, _. split; [reflexivity |]. split; [reflexivity |]. intros He.
  eapply (joins_scatter decode (NewSingleNodeResolver "game:9000" "" 1) (env 7) (env 8) (Some random) (Some random)
    [x01] [x01] 200 200 _ _ 7 8 native native) in He; [lia | reflexivity | reflexivity | lia | lia | reflexivity ..].
Defined.
