(* ===== verification/Observability.v ===== *)
(** * Logger set-up

    Models [internal/observability/logger.go]: the level a logger is made with
    and the process-wide default it becomes.  Formatting and writing records are
    the library's. *)

From Stdlib Require Import ZArith Lia.
From stdpp Require Import base strings.

Local Open Scope string_scope.
Local Open Scope Z_scope.

(** [slog.Level] and its named values. *)
Abbreviation Level := Z.

Definition LevelDebug : Level := -4.
Definition LevelInfo : Level := 0.
Definition LevelWarn : Level := 4.
Definition LevelError : Level := 8.

Definition parseLevel (s : string) : Level * bool :=
  if String.eqb s "debug" then (LevelDebug, true)
  else if String.eqb s "info" then (LevelInfo, true)
  else if String.eqb s "warn" then (LevelWarn, true)
  else if String.eqb s "error" then (LevelError, true)
  else (LevelInfo, false).

(** A JSON logger writes the records at or above its level to [lg_writer]. *)
Record Logger (W : Type) := MkLogger { lg_writer : W; lg_level : Level }.

Arguments MkLogger {W}.
Arguments lg_writer {W}.
Arguments lg_level {W}.

Definition Enabled {W} (l : Logger W) (level : Level) : bool := lg_level l <=? level.

(** The first result is the process's default logger from now on
    ([slog.SetDefault]). *)
Definition InitLogger {W} (w : W) (levelStr : string) : Logger W * (Logger W * Level) :=
  let '(level, ok) := parseLevel levelStr in
  let level := if negb ok then LevelInfo else level in
  let logger := MkLogger w level in
  (logger, (logger, level)).

Definition InitDefaultLogger {W} (stdout : W) (levelStr : string) : Logger W * Logger W :=
  let '(dflt, (logger, _)) := InitLogger stdout levelStr in (dflt, logger).

(** The logger returned is the default, has the level that is reported, and
    always writes errors; only ["debug"] lets debug records through. *)
Lemma InitLogger_spec {W} (w : W) s :
  let '(dflt, (logger, level)) := InitLogger w s in
  dflt = logger /\ lg_writer logger = w /\ lg_level logger = level /\ Enabled logger LevelError = true /\
  (Enabled logger LevelDebug = true <-> s = "debug") /\
  (Enabled logger LevelInfo = false <-> s = "warn" \/ s = "error").
Proof.
  unfold InitLogger, parseLevel.
  destruct (String.eqb_spec s "debug") as [-> |]; [by split_and!; try done; naive_solver |].
  destruct (String.eqb_spec s "info") as [-> |]; [by split_and!; try done; naive_solver |].
  destruct (String.eqb_spec s "warn") as [-> |]; [by split_and!; try done; naive_solver |].
  destruct (String.eqb_spec s "error") as [-> |]; [by split_and!; try done; naive_solver |].
  split_and!; try done; naive_solver.
Qed.
