(* ===== verification/HTTPServers.v ===== *)
(** * The HTTP front ends

    Models the request routing of the gateway ([NewServer] of
    [internal/gateway/http/server.go], with the health endpoints of
    [handlers.go]) and of the WebSocket server ([Start] of
    [internal/transport/websocket/server.go]), the gateway's [Start] and
    [Shutdown], and [main] of [cmd/gateway/main.go].

    [net/http] is modelled as far as the routing goes: a pattern is a method,
    which may be absent, and a path that has to be equal; requests arrive with a
    clean path (others the library redirects first). *)

From Stdlib Require Import ZArith Lia.
From stdpp Require Import base strings list.
From S2P Require Import Prelude.
From S2P Require Import Protocol.
From S2P Require Import Config.
From S2P Require Import Gateway.
From S2P Require Import Observability.

Local Open Scope string_scope.
Local Open Scope Z_scope.
Local Open Scope list_scope.

(** ** Routing *)

(** [http.ServeMux]: a [GET] pattern serves [HEAD] requests too; a path that is
    known under other methods only is answered with 405. *)
Inductive Routed (H : Type) := Found (h : H) | MethodNotAllowed | NotFound.

Arguments Found {H}.
Arguments MethodNotAllowed {H}.
Arguments NotFound {H}.

Definition method_matches (pattern : option string) (method : string) : bool :=
  match pattern with
  | None => true
  | Some p => String.eqb p method || (String.eqb p "GET" && String.eqb method "HEAD")
  end.

Fixpoint mux_route {H} (patterns : list (option string * string * H)) (method path : string) : Routed H :=
  match patterns with
  | [] => NotFound
  | (m, p, h) :: patterns' =>
      if negb (String.eqb p path) then mux_route patterns' method path
      else if method_matches m method then Found h
      else match mux_route patterns' method path with NotFound => MethodNotAllowed | r => r end
  end.

Lemma mux_route_Found {H} (patterns : list (option string * string * H)) method path h :
  mux_route patterns method path = Found h ->
  exists m, (m, path, h) ∈ patterns /\ method_matches m method = true.
Proof.
  induction patterns as [| [[m p] h'] patterns IH]; simpl; [done |].
  destruct (String.eqb_spec p path) as [-> |]; simpl.
  - destruct (method_matches m method) eqn:Hm.
    + intros [= ->]. exists m. split; [left | done].
    + destruct (mux_route patterns method path) eqn:Hr; try done. intros [= ->].
      destruct (IH eq_refl) as (m' & Hin & Hm'). exists m'. split; [by right | done].
  - intros Hr. destruct (IH Hr) as (m' & Hin & Hm'). exists m'. split; [by right | done].
Qed.

(** ** The gateway *)

Inductive Endpoint := Healthz | Readyz | Join.

Definition gateway_mux : list (option string * string * Endpoint) :=
  [(Some "GET", "/healthz", Healthz); (Some "GET", "/readyz", Readyz); (Some "POST", "/join", Join)].

(** A JSON object with the one key ["status"], what the join endpoint replies,
    or the library's plain text. *)
Inductive Response :=
  | StatusResponse (status : Z) (value : string)
  | JoinReply (r : Reply)
  | PlainError (status : Z).

Definition handleHealthz : Response := StatusResponse StatusOK "ok".

Definition handleReadyz : Response := StatusResponse StatusOK "ready".

Section gateway.
Context {R W : Type} `{!NodeResolver R W}.
Variable decode : bytes -> option JoinRequest.

Definition ServeHTTP (resolver : R) (w : W) (random : option bytes) (method path : string) (body : bytes) : Response :=
  match mux_route gateway_mux method path with
  | Found Healthz => handleHealthz
  | Found Readyz => handleReadyz
  | Found Join => JoinReply (handleJoin decode resolver w random body)
  | MethodNotAllowed => PlainError 405
  | NotFound => PlainError 404
  end.

(** Exactly the [POST] requests for [/join] reach the join endpoint; the rest is
    answered without the resolver, the token source or the body. *)
Lemma ServeHTTP_join resolver w random method path body :
  (method = "POST" /\ path = "/join" /\
   ServeHTTP resolver w random method path body = JoinReply (handleJoin decode resolver w random body)) \/
  (~ (method = "POST" /\ path = "/join") /\
   forall resolver' w' random' body',
     ServeHTTP resolver w random method path body = ServeHTTP resolver' w' random' method path body').
Proof.
  unfold ServeHTTP. destruct (mux_route gateway_mux method path) as [[] | |] eqn:Hr; try by right; split; [| done];
    intros [-> ->].
  apply mux_route_Found in Hr as (m & Hin & Hm). unfold gateway_mux in Hin.
  rewrite !elem_of_cons, elem_of_nil in Hin. destruct Hin as [? | [? | [? | []]]]; simplify_eq.
  unfold method_matches in Hm. apply orb_true_iff in Hm as [<-%String.eqb_eq | [? _]%andb_true_iff]; [by left | done].
Qed.
End gateway.

(** ** The WebSocket server's routes *)

Inductive WSSEndpoint := Realtime | WSSHealthz.

(** Patterns without a method. *)
Definition wss_mux : list (option string * string * WSSEndpoint) :=
  [(None, "/realtime", Realtime); (None, "/healthz", WSSHealthz)].

(** ** Serving *)

Inductive HTTPError := ErrServerClosed | ErrServe.

(** [ListenAndServe] always returns an error; the one of a shut down server is
    not one of [Start]'s. *)
Definition Start (listenAndServe : HTTPError) : option HTTPError :=
  match listenAndServe with ErrServerClosed => None | err => Some err end.

(** ** [main] of the gateway *)

(** Whether the goroutine that serves is still in [Start], has left an error in
    the channel, or has ended. *)
Inductive ServeState := Serving | Failed (err : HTTPError) | Ended.

Inductive GatewayProc :=
  | GwSelect (serve : ServeState)     (* in the select *)
  | GwExit (code : Z).

(** The configuration, as [loadConfig] gave it, to the [select]. *)
Definition gateway_main (load : ConfigError + Config) : GatewayProc :=
  match load with
  | inl _ => GwExit 1
  | inr cfg => match gateway_resolver cfg with None => GwExit 1 | Some _ => GwSelect Serving end
  end.

Inductive GwEvent :=
  | GwServeReturns (err : HTTPError)
  | GwTakeError
  | GwSignal (shutdown : option HTTPError).   (* and what Shutdown answers *)

Definition gw_step (ev : GwEvent) (p : GatewayProc) : option GatewayProc :=
  match p, ev with
  | GwSelect Serving, GwServeReturns err =>
      Some (GwSelect (match Start err with Some e => Failed e | None => Ended end))
  | GwSelect (Failed _), GwTakeError => Some (GwExit 1)
  | GwSelect _, GwSignal shutdown => Some (GwExit (match shutdown with Some _ => 1 | None => 0 end))
  | _, _ => None
  end.

Definition gw_run (evs : list GwEvent) (p : GatewayProc) : option GatewayProc :=
  foldl (fun o ev => p ← o; gw_step ev p) (Some p) evs.

(** The gateway ends with status 0 only by a signal and a clean shutdown; with a
    usable configuration it keeps running until a signal comes or serving
    fails, and a signal can end it at any time. *)
Lemma gateway_exit load evs p :
  gw_run evs (gateway_main load) = Some p ->
  match p with
  | GwExit code =>
      code = 0 <-> exists evs', evs = evs' ++ [GwSignal None]
  | GwSelect serve =>
      (exists cfg r, load = inr cfg /\ gateway_resolver cfg = Some r) /\
      Forall (fun ev => exists err, ev = GwServeReturns err) evs /\
      forall shutdown, exists code, gw_step (GwSignal shutdown) p = Some (GwExit code)
  end.
Proof.
  revert p. induction evs as [| ev evs IH] using rev_ind; intros p; unfold gw_run.
  - intros [= <-]. unfold gateway_main. destruct load as [err | cfg].
    { split; [done |]. by intros ([|] & ?). }
    destruct (gateway_resolver cfg) as [r |] eqn:Hr; [| split; [done |]; by intros ([|] & ?)].
    split_and!; [eauto | constructor |]. intros shutdown. by eexists.
  - rewrite foldl_snoc. destruct (foldl _ _ evs) as [p1 |] eqn:H1; [| done]. simpl. intros Hs.
    specialize (IH p1 H1). destruct p1 as [serve | code]; [| done].
    destruct IH as (Hcfg & Hevs & _).
    destruct ev as [err | | shutdown]; destruct serve; simplify_eq/=.
    all: try (split; [by destruct shutdown |]; intros (evs' & [_ E]%app_inj_tail); by simplify_eq).
    + split_and!; [done | |].
      * apply Forall_app. split; [done |]. constructor; [eauto | constructor].
      * intros shutdown. by destruct err; eexists.
    + split; [done |]. intros (evs' & [_ ?]%app_inj_tail). done.
    + destruct shutdown; (split; [try done |]); [intros (evs' & [_ ?]%app_inj_tail); done | by eexists | done].
    + destruct shutdown; (split; [try done |]); [intros (evs' & [_ ?]%app_inj_tail); done | by eexists | done].
    + destruct shutdown; (split; [try done |]); [intros (evs' & [_ ?]%app_inj_tail); done | by eexists | done].
Qed.
