(* ===== verification/GameServer.v ===== *)
(** * The game server program

    Models [main] of [cmd/game-server/main.go]: it loads the configuration,
    starts a KCP server and, when configured, a WebSocket server, waits for a
    signal and stops one server after the other, while the goroutines of both
    go on.  Its packet handlers only log.  What the resolver of package [net] and
    binding an address answer are arguments. *)

From Stdlib Require Import ZArith Lia.
From stdpp Require Import base strings gmap fin_maps list.
From S2P Require Import Prelude.
From S2P Require Import GoFloat.
From S2P Require Import Config.
From S2P Require Import ConfigFacts.
From S2P Require Import Transport.
From S2P Require Import TransportFacts.
From S2P Require Import TransportTheorems.
From S2P Require Import TransportStop.

Local Open Scope string_scope.
Local Open Scope Z_scope.
Local Open Scope list_scope.
Local Open Scope go_scope.

(** Why the program exits with status 1. *)
Inductive StartupError :=
  | KCPInitFailed (err : TransportError)
  | KCPStartFailed (err : TransportError)
  | WSSInitFailed (err : TransportError)
  | WSSStartFailed (err : TransportError).

(** The fields the program leaves at their zero values select the defaults; the
    last two are of no use to the KCP server. *)
Definition kcp_config (cfg : Config) : ServerConfig := MkServerConfig (gm_KCPAddr (c_Game cfg)) 0 0 0 0 [] false.

Definition wss_config (cfg : Config) : ServerConfig :=
  MkServerConfig (gm_WebSocketAddr (c_Game cfg)) 0 0 0 0 [] (String.eqb (c_Mode cfg) ModeDev).

(** A server made and started. *)
Definition make_and_start (f : Flavor) (resolvable busy : string -> bool) (c : ServerConfig)
    (init start : TransportError -> StartupError) : StartupError + Server :=
  match NewServer f resolvable c true with
  | inl err => inl (init err)
  | inr s => match Server_Start s (busy (sc_ListenAddr c)) false with
             | (_, Some err) => inl (start err)
             | (s, None) => inr s
             end
  end.

Section startup.
(** Whether UDP and TCP addresses resolve, and whether binding them fails. *)
Variables (udp_resolves tcp_resolves udp_busy tcp_busy : string -> bool).

Definition game_server_start (cfg : Config) : StartupError + (Server * option Server) :=
  let! kcp := make_and_start FKCP udp_resolves udp_busy (kcp_config cfg) KCPInitFailed KCPStartFailed in
  if negb (String.eqb (gm_WebSocketAddr (c_Game cfg)) "") then
    let! wss := make_and_start FWSS tcp_resolves tcp_busy (wss_config cfg) WSSInitFailed WSSStartFailed in
    inr (kcp, Some wss)
  else inr (kcp, None).

(** ** The process *)

(** Where [main] is once both servers run: waiting for a signal, in [Stop] of
    the KCP server, in [Stop] of the WebSocket server, returned. *)
Inductive ProcessPC := PCWait | PCStopKCP | PCStopWSS | PCExit.

Record Process := MkProcess {
  pr_kcp : Server;
  pr_wss : option Server;
  pr_pc : ProcessPC }.

(** [main] up to the wait: the exit status, or the running process. *)
Definition game_server_main (load : ConfigError + Config) : Z + Process :=
  match load with
  | inl _ => inl 1
  | inr cfg =>
      match game_server_start cfg with
      | inl _ => inl 1
      | inr (kcp, wss) => inr (MkProcess kcp wss PCWait)
      end
  end.

Context `{GR : !GoRange}.

(** What the two servers do by themselves: their goroutines and new requests.
    No handler of this program sends or closes. *)
Definition program_step (lab : TLabel) : bool :=
  match lab with TUpgrade _ _ => true | _ => server_step lab end.

Inductive PLabel :=
  | PKcp (lab : TLabel)
  | PWss (lab : TLabel)
  | PSignal (site : list nat)
  | PNext (site : list nat).    (* the running Stop returns *)

Definition stop_returned (s : Server) : bool := match sv_stop s with StReturned => true | _ => false end.

Definition pexec (lab : PLabel) (p : Process) : option Process :=
  match pr_pc p, lab with
  | PCExit, _ => None
  | pc, PKcp lab =>
      if program_step lab then s ← texec lab (pr_kcp p); Some (MkProcess s (pr_wss p) pc) else None
  | pc, PWss lab =>
      if program_step lab then w ← pr_wss p; s ← texec lab w; Some (MkProcess (pr_kcp p) (Some s) pc) else None
  | PCWait, PSignal site => Some (MkProcess (Stop_begin site (pr_kcp p)) (pr_wss p) PCStopKCP)
  | PCStopKCP, PNext site =>
      if stop_returned (pr_kcp p) then
        Some (match pr_wss p with
              | Some w => MkProcess (pr_kcp p) (Some (Stop_begin site w)) PCStopWSS
              | None => MkProcess (pr_kcp p) None PCExit
              end)
      else None
  | PCStopWSS, PNext _ =>
      w ← pr_wss p; if stop_returned w then Some (MkProcess (pr_kcp p) (Some w) PCExit) else None
  | _, _ => None
  end.

Definition prun (ls : list PLabel) (p : Process) : option Process :=
  foldl (fun o l => p ← o; pexec l p) (Some p) ls.

(** ** Facts *)

Lemma make_and_start_inr f resolvable busy c init start :
  resolvable (sc_ListenAddr c) = true -> sc_ListenAddr c <> "" -> busy (sc_ListenAddr c) = false ->
  exists s, make_and_start f resolvable busy c init start = inr s /\ treachable f c s /\
    sv_running s = true /\ sv_stop s = StIdle.
Proof.
  intros Hr Ha Hb. unfold make_and_start, NewServer, ServerConfig_Validate.
  rewrite (proj2 (String.eqb_neq _ _) Ha), Hr. simpl. rewrite Hb. unfold Server_Start. simpl.
  eexists. split; [reflexivity |]. split; [| done].
  exists resolvable, false, (MkServer f c false false false ∅ 0 ∅ ∅ 0 0 StIdle). eexists _, [].
  split; [| split; reflexivity].
  unfold NewServer, ServerConfig_Validate. rewrite (proj2 (String.eqb_neq _ _) Ha), Hr. reflexivity.
Qed.

(** With a validated configuration whose addresses resolve and are free the
    game server comes up: the KCP server runs on the configured address, and a
    WebSocket server runs exactly when its address is configured.  Both are then
    in states to which the theorems about running and stopping servers apply. *)
Theorem game_server_starts cfg :
  Validate cfg = None ->
  udp_resolves (gm_KCPAddr (c_Game cfg)) = true -> tcp_resolves (gm_WebSocketAddr (c_Game cfg)) = true ->
  udp_busy (gm_KCPAddr (c_Game cfg)) = false -> tcp_busy (gm_WebSocketAddr (c_Game cfg)) = false ->
  exists kcp wss, game_server_start cfg = inr (kcp, wss) /\
    treachable FKCP (kcp_config cfg) kcp /\ sv_running kcp = true /\
    (is_Some wss <-> gm_WebSocketAddr (c_Game cfg) <> "") /\
    (forall s, wss = Some s -> treachable FWSS (wss_config cfg) s /\ sv_running s = true).
Proof.
  intros Hv Hu Ht Hbu Hbt. apply Validate_None in Hv.
  destruct (make_and_start_inr FKCP udp_resolves udp_busy (kcp_config cfg) KCPInitFailed KCPStartFailed)
    as (kcp & Hk & Hkr & Hkrun & _); [done | by apply has_port_nonempty, ok_kcp | done |].
  unfold game_server_start. rewrite Hk.
  destruct (String.eqb_spec (gm_WebSocketAddr (c_Game cfg)) "") as [He | He]; simpl.
  - exists kcp, None. split_and!; try done; by intros [].
  - destruct (make_and_start_inr FWSS tcp_resolves tcp_busy (wss_config cfg) WSSInitFailed WSSStartFailed)
      as (wss & Hw & Hwr & Hwrun & _); [done | done | done |]. rewrite Hw.
    exists kcp, (Some wss). split_and!; try done. by intros s [= <-].
Qed.

(** The WebSocket server of the program accepts every origin in every mode,
    since no allowlist is passed to it. *)
Lemma game_server_any_origin cfg origin : checkOrigin (wss_config cfg) origin = true.
Proof. unfold checkOrigin, wss_config. cbn. by rewrite orb_true_r. Qed.

(** ** From the signal to the end *)

Lemma texec_quiet lab s s' :
  texec lab s = Some s' ->
  match lab with
  | TStop _ | TStopStep => True
  | _ => sv_stop s' = sv_stop s /\ sv_running s' = sv_running s /\ sv_listening s' = sv_listening s
  end.
Proof.
  destruct s as [f c rn cd li he nx se ac wg co st].
  destruct lab; simpl; unfold acceptor_step, reader_step, writer_loop, close_stage, close_call, register,
    accept_next, accept_leave, removeSession, close_begin, kcp_accept, handleUpgrade, accept_failed; simpl; intros;
    repeat (case_match || (progress simplify_option_eq) || (progress unfold close_call in * )); done.
Qed.

(** A server that nobody has stopped, and one that somebody has. *)
Record serving (f : Flavor) (s : Server) : Prop := {
  se_inv : tinv s;
  se_flavor : sv_flavor s = f;
  se_running : sv_running s = true;
  se_idle : sv_stop s = StIdle }.

(** The KCP listener is closed at once, the other before the wait. *)
Definition listener_ok (s : Server) : Prop :=
  match sv_stop s with
  | StIdle => True
  | StWait | StReturned => sv_listening s = false
  | StClosing _ | StShutdown => sv_flavor s = FKCP -> sv_listening s = false
  end.

Record halting (f : Flavor) (s : Server) : Prop := {
  ha_inv : tinv s;
  ha_flavor : sv_flavor s = f;
  ha_stopping : stopping s;
  ha_listener : listener_ok s }.

Lemma serving_step f lab s s' :
  program_step lab = true -> texec lab s = Some s' -> serving f s -> serving f s'.
Proof.
  intros Hp Hs [Hi Hf Hr Hst]. pose proof (texec_quiet _ _ _ Hs) as Hq. destruct (texec_flavor _ _ _ Hs) as [Hf' _].
  pose proof (tinv_texec _ _ _ Hi Hs) as Hi'.
  assert (sv_stop s' = sv_stop s /\ sv_running s' = sv_running s) as [H1 H2].
  { destruct lab; try done; try (by destruct Hq as (? & ? & _)). simpl in Hs. unfold Stop_step in Hs. by rewrite Hst in Hs. }
  split; congruence.
Qed.

Lemma halting_begin site f s : serving f s -> halting f (Stop_begin site s).
Proof.
  intros [Hi Hf Hr Hst]. split.
  - by apply tinv_stop_begin.
  - by rewrite Stop_begin_eq.
  - unfold stopping. by rewrite Stop_begin_eq.
  - unfold listener_ok. rewrite Stop_begin_eq by done. simpl. by intros ->.
Qed.

Lemma close_call_frame s l x k s' :
  close_call s l x k = Some s' -> sv_stop s' = sv_stop s \/ s' = k.
Proof. unfold close_call. destruct (ts_once x); intros; simplify_eq; auto. Qed.

Lemma listener_stop_step s s' : Stop_step s = Some s' -> listener_ok s -> listener_ok s'.
Proof.
  unfold listener_ok, Stop_step. intros Hs Hl. destruct (sv_stop s) as [| [| l ls] | | |] eqn:E; simplify_eq/=.
  - by destruct (sv_flavor s); [apply Hl |].
  - destruct (sv_heap s !! l) as [x |]; simplify_eq/=. unfold close_call in Hs.
    destruct (ts_once x); simplify_eq/=; by rewrite ?E.
  - done.
  - case_match; simplify_eq/=. done.
Qed.

Lemma halting_step f lab s s' :
  program_step lab = true -> texec lab s = Some s' -> halting f s -> halting f s'.
Proof.
  intros Hp Hs [Hi Hf Hst Hl]. pose proof (texec_quiet _ _ _ Hs) as Hq. destruct (texec_flavor _ _ _ Hs) as [Hf' _].
  split; [by eapply tinv_texec | congruence | by eapply stopping_texec |].
  destruct lab; try done; try (destruct Hq as (H1 & _ & H3); unfold listener_ok in *; by rewrite H1, H3, Hf').
  by eapply listener_stop_step.
Qed.

Lemma returned_step lab s s' :
  program_step lab = true -> texec lab s = Some s' -> sv_stop s = StReturned -> sv_stop s' = StReturned.
Proof.
  intros Hp Hs Hst. pose proof (texec_quiet _ _ _ Hs) as Hq.
  destruct lab; try done; try (destruct Hq as (-> & _); done). simpl in Hs. unfold Stop_step in Hs. by rewrite Hst in Hs.
Qed.

Lemma stop_returned_spec s : stop_returned s = true <-> sv_stop s = StReturned.
Proof. unfold stop_returned. by destruct (sv_stop s). Qed.

Definition pinv (p : Process) : Prop :=
  match pr_pc p with
  | PCWait => serving FKCP (pr_kcp p) /\ forall w, pr_wss p = Some w -> serving FWSS w
  | PCStopKCP => halting FKCP (pr_kcp p) /\ forall w, pr_wss p = Some w -> serving FWSS w
  | PCStopWSS => halting FKCP (pr_kcp p) /\ sv_stop (pr_kcp p) = StReturned /\
      exists w, pr_wss p = Some w /\ halting FWSS w
  | PCExit => halting FKCP (pr_kcp p) /\ sv_stop (pr_kcp p) = StReturned /\
      forall w, pr_wss p = Some w -> halting FWSS w /\ sv_stop w = StReturned
  end.

Lemma pinv_kcp pc lab kcp kcp' wss :
  program_step lab = true -> texec lab kcp = Some kcp' -> pinv (MkProcess kcp wss pc) -> pinv (MkProcess kcp' wss pc).
Proof.
  intros Hp Hs. destruct pc; simpl.
  - intros [Hk Hw]. split; [by eapply serving_step | done].
  - intros [Hk Hw]. split; [by eapply halting_step | done].
  - intros (Hk & Hr & Hw). split_and!; [by eapply halting_step | by eapply returned_step | done].
  - intros (Hk & Hr & Hw). split_and!; [by eapply halting_step | by eapply returned_step | done].
Qed.

Lemma pinv_wss pc lab kcp w w' :
  program_step lab = true -> texec lab w = Some w' ->
  pinv (MkProcess kcp (Some w) pc) -> pinv (MkProcess kcp (Some w') pc).
Proof.
  intros Hp Hs. destruct pc; simpl.
  - intros [Hk Hw]. split; [done |]. intros ? [= <-]. by eapply serving_step, Hw.
  - intros [Hk Hw]. split; [done |]. intros ? [= <-]. by eapply serving_step, Hw.
  - intros (Hk & Hr & w1 & [= <-] & Hw). split_and!; [done | done |]. exists w'. split; [done |]. by eapply halting_step.
  - intros (Hk & Hr & Hw). destruct (Hw w eq_refl). split_and!; [done | done |]. intros ? [= <-].
    eauto using halting_step, returned_step.
Qed.

Lemma pinv_pexec lab p p' : pexec lab p = Some p' -> pinv p -> pinv p'.
Proof.
  destruct p as [kcp wss pc]. unfold pexec. simpl. destruct pc, lab as [lab | lab | site | site]; intros Hs; simplify_eq;
    try (destruct (program_step lab) eqn:Hp; [| done]).
  all: try (destruct (texec lab kcp) as [s |] eqn:He; simplify_eq/=; by apply (pinv_kcp _ lab kcp)).
  all: try (destruct wss as [w |]; [| done]; simpl in Hs; destruct (texec lab w) as [s |] eqn:He; simplify_eq/=;
    by apply (pinv_wss _ lab kcp w)).
  - intros [Hk Hw]. simpl in *. split; [by apply halting_begin | done].
  - destruct (stop_returned kcp) eqn:Hr; [| done]. apply stop_returned_spec in Hr. intros [Hk Hw]. simpl in *.
    destruct wss as [w |]; simplify_eq/=; split_and!; try done.
    exists (Stop_begin site w). split; [done |]. by apply halting_begin, Hw.
  - destruct wss as [w |]; [| done]. simpl in Hs. destruct (stop_returned w) eqn:Hr; [| done].
    apply stop_returned_spec in Hr. simplify_eq. simpl. intros (Hk & Hkr & w1 & [= <-] & Hw).
    split_and!; [done | done |]. by intros ? [= <-].
Qed.

Lemma prun_cons lab ls p p' :
  prun (lab :: ls) p = Some p' <-> exists p1, pexec lab p = Some p1 /\ prun ls p1 = Some p'.
Proof.
  unfold prun. cbn. destruct (pexec lab p) as [p1 |]; [naive_solver |].
  split; [| naive_solver]. intros Hs. exfalso. induction ls as [| a ls IH]; [done | by apply IH].
Qed.

Lemma prun_app ls1 ls2 p p1 p' : prun ls1 p = Some p1 -> prun ls2 p1 = Some p' -> prun (ls1 ++ ls2) p = Some p'.
Proof. unfold prun. intros H1 H2. by rewrite foldl_app, H1. Qed.

Lemma pinv_prun ls p p' : prun ls p = Some p' -> pinv p -> pinv p'.
Proof.
  revert p. induction ls as [| lab ls IH]; intros p Hr Hi; [by injection Hr as <- |].
  apply prun_cons in Hr as (p1 & H1 & Hr). eapply IH; [done |]. by eapply pinv_pexec.
Qed.

(** Runs of one server are runs of the process. *)
Lemma server_program lab : server_step lab = true -> program_step lab = true.
Proof. by destruct lab. Qed.

Lemma prun_kcp ls kcp kcp' wss pc :
  pc <> PCExit -> forallb server_step ls = true -> trun ls kcp = Some kcp' ->
  prun (PKcp <$> ls) (MkProcess kcp wss pc) = Some (MkProcess kcp' wss pc).
Proof.
  intros Hpc. revert kcp. induction ls as [| lab ls IH]; intros kcp Hls Hr; [by injection Hr as <- |].
  apply andb_true_iff in Hls as [Hl Hls]. apply trun_cons in Hr as (s1 & H1 & Hr). rewrite fmap_cons. apply prun_cons.
  exists (MkProcess s1 wss pc). split; [| by apply IH]. unfold pexec. simpl.
  rewrite (server_program _ Hl), H1. by destruct pc.
Qed.

Lemma prun_wss ls kcp w w' pc :
  pc <> PCExit -> forallb server_step ls = true -> trun ls w = Some w' ->
  prun (PWss <$> ls) (MkProcess kcp (Some w) pc) = Some (MkProcess kcp (Some w') pc).
Proof.
  intros Hpc. revert w. induction ls as [| lab ls IH]; intros w Hls Hr; [by injection Hr as <- |].
  apply andb_true_iff in Hls as [Hl Hls]. apply trun_cons in Hr as (s1 & H1 & Hr). rewrite fmap_cons. apply prun_cons.
  exists (MkProcess kcp (Some s1) pc). split; [| by apply IH]. unfold pexec. simpl.
  rewrite (server_program _ Hl), H1. by destruct pc.
Qed.

Lemma wss_stop_exits p :
  pinv p -> pr_pc p = PCStopWSS -> exists ls' p', prun ls' p = Some p' /\ pr_pc p' = PCExit.
Proof.
  destruct p as [kcp wss pc]. simpl. intros Hi ->. destruct Hi as (_ & _ & w & Hw & Hh). simpl in Hw. subst wss.
  destruct (stop_returns w) as (ls & w' & Hr & Hls & Hend); [apply Hh | apply Hh |].
  exists ((PWss <$> ls) ++ [PNext []]), (MkProcess kcp (Some w') PCExit). split; [| done].
  eapply prun_app; [by apply prun_wss |]. unfold prun, pexec. simpl. by rewrite (proj2 (stop_returned_spec w') Hend).
Qed.

Lemma kcp_stop_exits p :
  pinv p -> pr_pc p = PCStopKCP -> exists ls' p', prun ls' p = Some p' /\ pr_pc p' = PCExit.
Proof.
  destruct p as [kcp wss pc]. simpl. intros Hi ->. destruct Hi as [Hk Hw].
  destruct (stop_returns kcp) as (ls & kcp' & Hr & Hls & Hend); [apply Hk | apply Hk |].
  assert (prun ((PKcp <$> ls) ++ [PNext []]) (MkProcess kcp wss PCStopKCP) =
    Some (match wss with Some w => MkProcess kcp' (Some (Stop_begin [] w)) PCStopWSS | None => MkProcess kcp' None PCExit end))
    as H1.
  { eapply prun_app; [by apply prun_kcp |]. unfold prun, pexec. simpl. by rewrite (proj2 (stop_returned_spec kcp') Hend). }
  assert (pinv (MkProcess kcp wss PCStopKCP)) as Hi by done. apply (pinv_prun _ _ _ H1) in Hi.
  destruct wss as [w |]; [| by eexists _, _].
  destruct (wss_stop_exits _ Hi eq_refl) as (ls2 & p' & H2 & He). eexists _, p'. split; [by eapply prun_app | done].
Qed.

Lemma make_and_start_serving f resolvable busy c init start s :
  make_and_start f resolvable busy c init start = inr s -> serving f s.
Proof.
  unfold make_and_start. destruct (NewServer f resolvable c true) as [err | s0] eqn:H0; [done |].
  destruct (Server_Start s0 (busy (sc_ListenAddr c)) false) as [s1 [err |]] eqn:H1; [done |]. intros [= <-].
  assert (busy (sc_ListenAddr c) = false) as Hb.
  { unfold Server_Start in H1. destruct (sv_running s0), (busy _); done. }
  rewrite Hb in H1. split; [by eapply tinv_started | ..].
  all: unfold NewServer in H0; case_match; simplify_eq; by injection H1 as <-.
Qed.

Lemma pinv_main load p : game_server_main load = inr p -> pinv p.
Proof.
  unfold game_server_main. destruct load as [| cfg]; [done |].
  destruct (game_server_start cfg) as [| [kcp wss]] eqn:Hs; [done |]. intros [= <-]. unfold game_server_start in Hs.
  destruct (make_and_start FKCP _ _ _ _ _) as [| k] eqn:Hk; [done |]. apply make_and_start_serving in Hk.
  destruct (negb _); [| by injection Hs as <- <-].
  destruct (make_and_start FWSS _ _ _ _ _) as [| w] eqn:Hw; [done |]. apply make_and_start_serving in Hw.
  injection Hs as <- <-. split; [done |]. by intros ? [= <-].
Qed.

(** C37: The game server comes down in order.  In every interleaving of the
    goroutines of both servers with [main], when [main] has returned no
    goroutine of the KCP server is left and every KCP session is closed, and the
    WebSocket server, if there was one, no longer listens, has cancelled its
    context and has waited for the goroutines it counts; and once the signal has
    arrived the process can always go on to its end, whatever state the
    connections were in. *)
Theorem game_server_shuts_down load p0 ls p :
  game_server_main load = inr p0 -> prun ls p0 = Some p ->
  (pr_pc p = PCExit ->
     (sv_wg (pr_kcp p) = 0 /\ sv_listening (pr_kcp p) = false /\ sv_sessions (pr_kcp p) = ∅ /\
      (forall l x, sv_heap (pr_kcp p) !! l = Some x -> IsClosed x = true /\
         (ts_reader x = RNone \/ ts_reader x = RDone) /\ (ts_writer x = WNone \/ ts_writer x = WDone))) /\
     forall w, pr_wss p = Some w ->
       sv_stop w = StReturned /\ sv_running w = false /\ sv_ctxDone w = true /\ sv_listening w = false) /\
  (pr_pc p <> PCWait -> pr_pc p <> PCExit -> exists ls' p', prun ls' p = Some p' /\ pr_pc p' = PCExit).
Proof.
  intros Hm Hr. apply pinv_main in Hm. apply (pinv_prun _ _ _ Hr) in Hm as Hi. split.
  - intros Hpc. unfold pinv in Hi. rewrite Hpc in Hi. destruct Hi as ([Hk Hf _ Hl] & Hret & Hw). split.
    + destruct (kcp_quiescent _ Hk Hf Hret) as (H1 & _ & H3 & H4). unfold listener_ok in Hl. rewrite Hret in Hl.
      split_and!; [done | done | done |]. intros l x Hx. by destruct (H4 _ _ Hx) as (_ & ? & ? & ?).
    + intros w E. destruct (Hw w E) as ([Hi Hff Hst Hlw] & Hwr). unfold listener_ok in Hlw. rewrite Hwr in Hlw.
      destruct (stopping_ctx _ Hi Hst). done.
  - intros H1 H2. destruct (pr_pc p) eqn:Hpc; try done; [by apply kcp_stop_exits | by apply wss_stop_exits].
Qed.
End startup.



(** A development configuration with both transports. *)
Definition dev_config : Config :=
  MkConfig "dev" ":8080" (MkGameConfig ":9000" ":9001" 20 10 100) (MkProtocolConfig 1 "msgpack" "kcp")
    (MkResolverConfig "single-node" "" "" "") (MkRegistryConfig "memory" "") f32_one
    (MkInterestConfig f32_one f32_one f32_one f32_one f32_one) (MkVoiceConfig "kmeans" 8 1000)
    (MkObjectLockConfig 5000 1000 4) "log".

Lemma game_server_starts_witness :
  exists kcp wss, game_server_start (fun _ => true) (fun _ => true) (fun _ => false) (fun _ => false) dev_config =
    inr (kcp, Some wss) /\ @treachable canonical_range FWSS (wss_config dev_config) wss.
Proof.
  destruct (@game_server_starts (fun _ => true) (fun _ => true) (fun _ => false) (fun _ => false) canonical_range
    dev_config) as (kcp & wss & Hs & _ & _ & Hw & Hr);
    [vm_compute; reflexivity | reflexivity | reflexivity | reflexivity | reflexivity |].
  destruct (proj2 Hw ltac:(discriminate)) as [s ->]. exists kcp, s. split; [exact Hs |]. by apply Hr.
Defined.

(** The program with a client on each transport, up to its end. *)
Definition ex_main : Z + Process :=
  game_server_main (fun _ => true) (fun _ => true) (fun _ => false) (fun _ => false) (inr dev_config).

Definition idle_process : Process :=
  MkProcess (MkServer FKCP (kcp_config dev_config) false false false ∅ 0 ∅ ∅ 0 0 StIdle) None PCExit.

Definition ex_process : Process := match ex_main with inr p => p | inl _ => idle_process end.

Definition ex_shutdown : list PLabel :=
  (PKcp <$> [TAccept; TAcceptor 0; TAcceptor 0; TReader 0 ReadErr]) ++
  (PWss <$> [TUpgrade 1 "https://game.example"; TAcceptor 1]) ++
  [PSignal []] ++
  (PKcp <$> [TAcceptErr; TAcceptor 0; TStopStep; TCloseStage 0; TCloseStage 0; TStopStep; TStopStep;
             TReader 0 ReadErr; TReader 0 ReadErr; TReader 0 ReadErr; TWriter 0 OnCtx; TWriter 0 Proceed; TStopStep]) ++
  [PNext []] ++
  (PWss <$> [TAcceptor 1; TStopStep; TCloseStage 0; TCloseStage 0; TStopStep; TStopStep; TStopStep; TAcceptErr; TAcceptor 0;
             TReader 0 ReadErr; TReader 0 ReadErr; TReader 0 ReadErr; TReader 0 ReadErr; TWriter 0 OnCtx;
             TWriter 0 Proceed; TStopStep]) ++
  [PNext []].

Definition ex_exited : Process := default idle_process (prun (GR := canonical_range) ex_shutdown ex_process).

Lemma game_server_shuts_down_witness :
  pr_pc ex_exited = PCExit /\ size (sv_heap (pr_kcp ex_exited)) = 1%nat /\ sv_wg (pr_kcp ex_exited) = 0 /\
  forall w, pr_wss ex_exited = Some w -> sv_listening w = false.
Proof.
  split; [vm_compute; reflexivity |]. split; [vm_compute; reflexivity |].
  destruct (@game_server_shuts_down (fun _ => true) (fun _ => true) (fun _ => false) (fun _ => false) canonical_range
    (inr dev_config) ex_process ex_shutdown ex_exited) as [Hexit _].
  - vm_compute. reflexivity.
  - vm_compute. reflexivity.
  - destruct (Hexit ltac:(vm_compute; reflexivity)) as [(Hwg & _) Hw]. split; [exact Hwg |].
    intros w Hs. destruct (Hw w Hs) as (_ & _ & _ & Hl). exact Hl.
Defined.
